(** * S3 multipart uploader (uploader-presigned.js): model and properties

    A shallow embedding of the client-side multipart upload orchestrator
    [S3MultipartUploaderPresigned] and of the pieces it shares with
    [S3MultipartUploaderDirectPresigned] and [S3MultipartUploader]:
    the constructor defaults, the byte-range computation, the retry loop
    of [uploadPart], the response validation of [getPresignedUrls], and
    the batch scheduler of [upload] run on the JavaScript event loop.

    Modelling conventions.
    - JavaScript values that the code only inspects for truthiness, for
      being an array, or by property access are values of [JsVal].
      Numbers are integers ([VNum]) or [VNaN]; byte counts and part
      numbers are integers below 2^53, where the floating point
      operations of the source ([/], [Math.ceil], [*], [Math.min]) agree
      with the integer ones used here.
    - The values hold data only, no functions, as the values read from
      a JSON body do. ToString and ToNumber are written out for them;
      an object with an own [toString] property cannot be converted to
      a primitive and makes both throw a TypeError. A character of a
      string is a code unit below 256. A string that denotes a number
      with a fractional part or a non-finite one is, like such a number,
      outside the model; ToNumber gives NaN for it here.
    - [throw] and [try]/[catch] are the error monad [Result].
    - An [async] function suspended at an [await] is a control state; the
      settling of the awaited operation is an input event, processed
      together with all the microtasks it triggers (the event loop runs
      one task to completion before the next). The environment is free
      in the order and the outcome of what settles, and may call
      [abort()] between any two tasks.
    - One call of [upload] per uploader is followed at a time. The
      progress callback is an observer: it returns normally and calls
      nothing back. Endpoint URLs, file name and file type are passed
      through by the source and left out here.

    The file has two parts: the embedding with the vocabulary of the
    properties, then the properties with their proofs. *)

From Stdlib Require Import ZArith Lia Bool Sorted.
From stdpp Require Import base list strings sorting pretty.

Local Open Scope Z_scope.
Set Warnings "-register-all".

(** ** JavaScript values *)

Inductive JsVal : Type :=
| VUndefined
| VNull
| VBool (b : bool)
| VNum (z : Z)
| VNaN
| VStr (s : string)
| VArr (items : list JsVal)
| VObj (fields : list (string * JsVal)).

(** ToBoolean: [undefined], [null], [false], [0], [NaN] and the empty
    string are falsy; everything else, objects and arrays included, is
    truthy. *)
Definition truthy (v : JsVal) : bool :=
  match v with
  | VUndefined | VNull | VNaN => false
  | VBool b => b
  | VNum z => negb (z =? 0)
  | VStr s => negb (String.eqb s EmptyString)
  | VArr _ | VObj _ => true
  end.

(** [a || b] *)
Definition js_or (a b : JsVal) : JsVal := if truthy a then a else b.

(** [Array.isArray(v)] *)
Definition isArray (v : JsVal) : bool :=
  match v with VArr _ => true | _ => false end.

(** Errors thrown by the uploader, one constructor per [throw] site (the
    message template of the source is given with each) and two for the
    errors raised by the runtime. *)
Inductive JsError : Type :=
| ErrGetUrlsFailed (detail : JsVal)
    (* `Failed to get presigned URLs: ${...}` *)
| ErrInvalidServerResponse
    (* 'Invalid response from server' *)
| ErrMissingUploadIdOrUrls
    (* 'Invalid response: missing uploadId or presignedUrls array' *)
| ErrUrlCount (expected : option Z) (got : nat)
    (* `Invalid response: expected ${totalParts} presigned URLs, got ${n}` *)
| ErrUploadFailed (statusText : string) (status : Z)
    (* `Upload failed: ${statusText} (Status: ${status})` *)
| ErrNoETag
    (* 'No ETag received from upload' *)
| ErrUploadAborted
    (* 'Upload aborted' *)
| ErrCompleteFailed (detail : JsVal)
    (* `Failed to complete upload: ${...}` *)
| ErrNetwork (reason : string)
    (* the rejection of fetch() itself *)
| ErrType (what : string)
    (* TypeError of the runtime: the property [what] is read on null or
       undefined, or an object whose own [what] hides the inherited
       method cannot be converted to a primitive *).

(** ** The error monad *)

Inductive Result (A : Type) : Type :=
| Ok (a : A)
| Throw (e : JsError).
Arguments Ok {A} a.
Arguments Throw {A} e.

#[global] Instance result_bind : MBind Result := fun A B k m =>
  match m with
  | Ok a => k a
  | Throw e => Throw e
  end.

(** [try { m } catch (error) { h error }] *)
Definition try_catch {A} (m : Result A) (h : JsError -> Result A) : Result A :=
  match m with
  | Ok a => Ok a
  | Throw e => h e
  end.

Fixpoint assoc (k : string) (fields : list (string * JsVal)) : JsVal :=
  match fields with
  | [] => VUndefined
  | (k', v) :: rest => if String.eqb k k' then v else assoc k rest
  end.

(** [v.k] for the own data properties the source reads ([uploadId],
    [presignedUrls], [bucket], [key], [error], [message], [partNumber],
    [url] and the option names): a TypeError on [null] and [undefined],
    the field of an object, [undefined] on anything else. *)
Definition prop (v : JsVal) (k : string) : Result JsVal :=
  match v with
  | VUndefined | VNull => Throw (ErrType k)
  | VObj fields => Ok (assoc k fields)
  | _ => Ok VUndefined
  end.

(** ** Conversions to primitives *)

(** The object has an own property called [k]. *)
Definition has_own (k : string) (fields : list (string * JsVal)) : bool :=
  existsb (fun kv => String.eqb k kv.1) fields.

(** ToPrimitive throws a TypeError on [v]. An object is converted
    through [valueOf] and [toString]: the inherited [valueOf] returns
    the object itself and the inherited [toString] a string, and an own
    property of the name, which is never callable here, hides the
    inherited method. So it is the own [toString] that decides, an own
    [valueOf] changes nothing. An array is converted by [join], which
    converts its elements. *)
Fixpoint unconvertible (v : JsVal) : bool :=
  match v with
  | VObj fields => has_own "toString" fields
  | VArr items => existsb unconvertible items
  | _ => false
  end.

(** [items.join(',')] on the strings of the elements. *)
Definition join_comma (l : list string) : string :=
  match l with
  | [] => EmptyString
  | s :: rest => foldl (fun acc t => acc +:+ "," +:+ t) s rest
  end.

(** ToString of a value that can be converted: [join] renders
    [undefined] and [null] elements as the empty string. *)
Fixpoint js_string (v : JsVal) : string :=
  match v with
  | VUndefined => "undefined"
  | VNull => "null"
  | VBool b => if b then "true" else "false"
  | VNum z => pretty z
  | VNaN => "NaN"
  | VStr s => s
  | VArr items =>
      join_comma
        (map (fun e => match e with
                       | VUndefined | VNull => EmptyString
                       | _ => js_string e
                       end) items)
  | VObj _ => "[object Object]"
  end.

(** StringToNumber: white space is trimmed, the empty string is 0, then
    comes a binary, octal or hexadecimal integer without sign, or a
    decimal literal with an optional sign, fraction and exponent;
    anything else is NaN ([None]). *)
Definition code (c : Ascii.ascii) : Z := Z.of_nat (Ascii.nat_of_ascii c).

Definition is_space (c : Ascii.ascii) : bool :=
  ((9 <=? code c) && (code c <=? 13)) || (code c =? 32) || (code c =? 160).

Fixpoint drop_spaces (l : list Ascii.ascii) : list Ascii.ascii :=
  match l with
  | c :: rest => if is_space c then drop_spaces rest else l
  | [] => []
  end.

Definition trim (l : list Ascii.ascii) : list Ascii.ascii :=
  rev (drop_spaces (rev (drop_spaces l))).

Definition digit_of (c : Ascii.ascii) : option Z :=
  let n := code c in
  if (48 <=? n) && (n <=? 57) then Some (n - 48)
  else if (97 <=? n) && (n <=? 102) then Some (n - 87)
  else if (65 <=? n) && (n <=? 70) then Some (n - 55)
  else None.

Fixpoint digits (base acc : Z) (l : list Ascii.ascii) : option Z :=
  match l with
  | [] => Some acc
  | c :: rest =>
      match digit_of c with
      | Some d => if d <? base then digits base (acc * base + d) rest else None
      | None => None
      end
  end.

Definition number_in (base : Z) (l : list Ascii.ascii) : option Z :=
  match l with [] => None | _ => digits base 0 l end.

Fixpoint span_digits (l : list Ascii.ascii)
  : list Ascii.ascii * list Ascii.ascii :=
  match l with
  | c :: rest =>
      if (48 <=? code c) && (code c <=? 57)
      then let '(ds, r) := span_digits rest in (c :: ds, r)
      else ([], l)
  | [] => ([], [])
  end.

Definition signed (l : list Ascii.ascii) : Z * list Ascii.ascii :=
  match l with
  | c :: rest =>
      if code c =? 43 then (1, rest)
      else if code c =? 45 then (-1, rest)
      else (1, l)
  | [] => (1, l)
  end.

Definition exponent (l : list Ascii.ascii) : option Z :=
  match l with
  | [] => Some 0
  | c :: rest =>
      if (code c =? 101) || (code c =? 69)
      then let '(sg, r) := signed rest in n ← number_in 10 r; Some (sg * n)
      else None
  end.

Definition decimal_literal (l : list Ascii.ascii) : option Z :=
  let '(ds, r1) := span_digits l in
  let '(fs, r2) := match r1 with
                   | c :: r => if code c =? 46 then span_digits r else ([], r1)
                   | [] => ([], r1)
                   end in
  match ds ++ fs with
  | [] => None
  | all =>
      e ← exponent r2;
      m ← digits 10 0 all;
      let e := e - Z.of_nat (length fs) in
      if 0 <=? e then Some (m * 10 ^ e)
      else if m mod 10 ^ (- e) =? 0 then Some (m / 10 ^ (- e))
      else None
  end.

Definition non_decimal (l : list Ascii.ascii) : option (option Z) :=
  match l with
  | z :: c :: rest =>
      if code z =? 48 then
        if (code c =? 120) || (code c =? 88) then Some (number_in 16 rest)
        else if (code c =? 111) || (code c =? 79) then Some (number_in 8 rest)
        else if (code c =? 98) || (code c =? 66) then Some (number_in 2 rest)
        else None
      else None
  | _ => None
  end.

Definition string_number (s : string) : option Z :=
  match trim (String.list_ascii_of_string s) with
  | [] => Some 0
  | l =>
      match non_decimal l with
      | Some r => r
      | None => let '(sg, r) := signed l in z ← decimal_literal r; Some (sg * z)
      end
  end.

(** ToNumber of a value that can be converted; [None] is NaN. *)
Definition number_of_value (v : JsVal) : option Z :=
  match v with
  | VUndefined | VNaN | VObj _ => None
  | VNull => Some 0
  | VBool b => Some (if b then 1 else 0)
  | VNum z => Some z
  | VStr s => string_number s
  | VArr _ => string_number (js_string v)
  end.

(** ToNumber and ToString as the source applies them ([a - b],
    [a < b], a template literal). *)
Definition js_number (v : JsVal) : Result (option Z) :=
  if unconvertible v then Throw (ErrType "toString")
  else Ok (number_of_value v).

Definition js_text (v : JsVal) : Result string :=
  if unconvertible v then Throw (ErrType "toString")
  else Ok (js_string v).

(** [a - b] on numbers; NaN when one of them is. *)
Definition js_sub (a b : option Z) : option Z :=
  match a, b with
  | Some x, Some y => Some (x - y)
  | _, _ => None
  end.

(** ** Constructors *)

(** The options that tune chunking and retrying, as each constructor
    stores them. The endpoint options only choose the URLs of the calls
    and are not modelled. *)
Record Tuning : Type := mkTuning {
  t_chunkSize : JsVal;
  t_maxRetries : JsVal;
  t_retryDelay : JsVal
}.

(** [constructor(options = {})]: the default parameter replaces only
    [undefined]. *)
Definition default_param (options : JsVal) : JsVal :=
  match options with VUndefined => VObj [] | _ => options end.

(** [S3MultipartUploaderPresigned.constructor], lines 22-24. *)
Definition Presigned_constructor (options : JsVal) : Result Tuning :=
  let options := default_param options in
  cs ← prop options "chunkSize";
  mr ← prop options "maxRetries";
  rd ← prop options "retryDelay";
  Ok {| t_chunkSize := js_or cs (VNum (5 * 1024 * 1024));
        t_maxRetries := js_or mr (VNum 3);
        t_retryDelay := js_or rd (VNum 1000) |}.

(** [S3MultipartUploaderDirectPresigned.constructor], lines 378-380. *)
Definition DirectPresigned_constructor (options : JsVal) : Result Tuning :=
  let options := default_param options in
  cs ← prop options "chunkSize";
  mr ← prop options "maxRetries";
  rd ← prop options "retryDelay";
  Ok {| t_chunkSize := js_or cs (VNum (5 * 1024 * 1024));
        t_maxRetries := js_or mr (VNum 3);
        t_retryDelay := js_or rd (VNum 1000) |}.

(** [S3MultipartUploader.constructor], lines 681-683. *)
Definition Uploader_constructor (options : JsVal) : Result Tuning :=
  let options := default_param options in
  cs ← prop options "chunkSize";
  mr ← prop options "maxRetries";
  rd ← prop options "retryDelay";
  Ok {| t_chunkSize := js_or cs (VNum (5 * 1024 * 1024));
        t_maxRetries := js_or mr (VNum 3);
        t_retryDelay := js_or rd (VNum 1000) |}.

(** The documented defaults: 5 MiB, 3, 1000 ms. *)
Definition default_chunkSize : Z := 5242880.
Definition default_maxRetries : Z := 3.
Definition default_retryDelay : Z := 1000.

(** ** Byte ranges *)

(** [Math.ceil(a / b)] on integers; [None] stands for the non-finite
    results of a division by zero. *)
Definition ceil_div (a b : Z) : option Z :=
  if b =? 0 then None else Some (- ((- a) / b)).

(** [(partNumber - 1) * chunkSize] *)
Definition part_start (chunk : Z) (partNumber : Z) : Z :=
  (partNumber - 1) * chunk.

(** [Math.min(start + chunkSize, file.size)] *)
Definition part_end (chunk fileSize : Z) (partNumber : Z) : Z :=
  Z.min (part_start chunk partNumber + chunk) fileSize.

(** ** One part transfer: [uploadPart] *)

(** What the runtime hands back for one [fetch]: a rejection, or a
    response with its [ok] flag, status line, [ETag] header and, for the
    JSON endpoints, the outcome of [response.json()] ([None] when the
    body does not parse). *)
Record HttpResponse : Type := mkResponse {
  r_ok : bool;
  r_status : Z;
  r_statusText : string;
  r_etag : option string;
  r_json : option JsVal
}.

Inductive FetchOutcome : Type :=
| NetFail (reason : string)
| Responded (r : HttpResponse).

(** [{ PartNumber, ETag }] *)
Record Part : Type := mkPart {
  PartNumber : Z;
  ETag : string
}.

(** The double quote character. *)
Definition dquote : Ascii.ascii := Ascii.ascii_of_nat 34.

(** [.replace(/dquote/g, empty)]: every double quote is dropped. *)
Fixpoint strip_quotes (s : string) : string :=
  match s with
  | EmptyString => EmptyString
  | String c rest =>
      if Ascii.eqb c dquote then strip_quotes rest
      else String c (strip_quotes rest)
  end.

(** The body of the [try] block of [uploadPart] (lines 125-147) once the
    [fetch] has settled. *)
Definition put_part (partNumber : Z) (o : FetchOutcome) : Result Part :=
  match o with
  | NetFail reason => Throw (ErrNetwork reason)
  | Responded r =>
      if negb (r_ok r) then Throw (ErrUploadFailed (r_statusText r) (r_status r))
      else
        match strip_quotes <$> r_etag r with
        | None => Throw ErrNoETag
        | Some etag =>
            if String.eqb etag EmptyString then Throw ErrNoETag
            else Ok {| PartNumber := partNumber; ETag := etag |}
        end
  end.

(** What [uploadPart] does to the outside world, in order: the PUT of
    attempt number [n], and the [setTimeout] pause of [ms] milliseconds. *)
Inductive PartIO : Type :=
| Attempt (n : Z)
| Wait (ms : Z).

Section UploadPart.
(** The numeric values of [this.maxRetries] and [this.retryDelay]. *)
Variable maxRetries_n retryDelay_n : Z.
Variable partNumber : Z.
(** The outcome of the [fetch] of each attempt, numbered from 1. *)
Variable net : Z -> FetchOutcome.

(** The [while (retries < this.maxRetries)] loop of lines 122-159.
    The result [Ok None] is the [undefined] the function returns when
    the loop ends without [return] or [throw]; the outer [None] is an
    exhausted recursion budget. *)
Fixpoint uploadPart_loop (fuel : nat) (retries : Z) (log : list PartIO)
  : option (Result (option Part) * list PartIO) :=
  if retries <? maxRetries_n then
    match fuel with
    | O => None
    | S fuel' =>
        let log := log ++ [Attempt (retries + 1)] in
        match put_part partNumber (net (retries + 1)) with
        | Ok part => Some (Ok (Some part), log)
        | Throw error =>
            let retries := retries + 1 in
            if retries >=? maxRetries_n then Some (Throw error, log)
            else uploadPart_loop fuel' retries
                   (log ++ [Wait (retryDelay_n * retries)])
        end
    end
  else Some (Ok None, log).

Definition uploadPart : option (Result (option Part) * list PartIO) :=
  uploadPart_loop (Z.to_nat maxRetries_n) 0 [].

(** The attempts made, in order. *)
Definition attempts_of (log : list PartIO) : list Z :=
  omap (fun io => match io with Attempt n => Some n | Wait _ => None end) log.

(** The pauses taken, in order. *)
Definition waits_of (log : list PartIO) : list Z :=
  omap (fun io => match io with Wait ms => Some ms | Attempt _ => None end) log.
End UploadPart.

(** Three responses used in the examples. *)
Definition resp_ok (etag : string) : FetchOutcome :=
  Responded {| r_ok := true; r_status := 200; r_statusText := "OK";
               r_etag := Some etag; r_json := None |}.
Definition resp_503 : FetchOutcome :=
  Responded {| r_ok := false; r_status := 503;
               r_statusText := "Service Unavailable";
               r_etag := None; r_json := None |}.
Definition resp_json (v : JsVal) : FetchOutcome :=
  Responded {| r_ok := true; r_status := 200; r_statusText := "OK";
               r_etag := None; r_json := Some v |}.

(** ** The uploader object and [getPresignedUrls] *)

(** The fields of [this] that [upload] reads and writes, for a numeric
    configuration. [uploadId] starts as [null], [presignedUrls] as the
    empty array, [bucket] and [key] as [undefined]. *)
Record Uploader : Type := mkUploader {
  chunkSize : Z;
  maxRetries : Z;
  retryDelay : Z;
  uploadId : JsVal;
  presignedUrls : list JsVal;
  bucket : JsVal;
  key : JsVal;
  aborted : bool
}.

Definition new_uploader (chunk retries delay : Z) : Uploader :=
  {| chunkSize := chunk; maxRetries := retries; retryDelay := delay;
     uploadId := VNull; presignedUrls := []; bucket := VUndefined;
     key := VUndefined; aborted := false |}.

(** The uploader built from constructor options, when the three tuning
    options it stores are numbers. *)
Definition uploader_of (t : Tuning) : option Uploader :=
  match t_chunkSize t, t_maxRetries t, t_retryDelay t with
  | VNum c, VNum r, VNum d => Some (new_uploader c r d)
  | _, _, _ => None
  end.

(** [a.partNumber - b.partNumber]; [None] is NaN. Both properties are
    read before either is converted to a number. *)
Definition compare_tokens (a b : JsVal) : Result (option Z) :=
  x ← prop a "partNumber";
  y ← prop b "partNumber";
  n ← js_number x;
  m ← js_number y;
  Ok (js_sub n m).

(** SortCompare of [Array.prototype.sort] around that comparator: an
    [undefined] element goes behind every other one, and the comparator
    is not called on it. *)
Definition sort_compare (a b : JsVal) : Result (option Z) :=
  match a, b with
  | VUndefined, VUndefined => Ok (Some 0)
  | VUndefined, _ => Ok (Some 1)
  | _, VUndefined => Ok (Some (-1))
  | _, _ => compare_tokens a b
  end.

(** [Array.prototype.sort] with that comparator, as a stable insertion
    sort: [x] goes behind [y] only when the comparison is positive, and
    an exception of the comparator aborts the sort. *)
Fixpoint insert_token (x : JsVal) (sorted : list JsVal) : Result (list JsVal) :=
  match sorted with
  | [] => Ok [x]
  | y :: rest =>
      c ← sort_compare x y;
      match c with
      | Some d => if 0 <? d then (r ← insert_token x rest; Ok (y :: r))
                  else Ok (x :: sorted)
      | None => Ok (x :: sorted)
      end
  end.

Fixpoint sort_tokens (l : list JsVal) : Result (list JsVal) :=
  match l with
  | [] => Ok []
  | x :: rest => s ← sort_tokens rest; insert_token x s
  end.

(** [await response.json()] inside its [try], lines 77-85 (and 182-190
    with [fail := ErrCompleteFailed]). *)
Definition read_json (fail : JsVal -> JsError) (r : HttpResponse) : Result JsVal :=
  match r_json r with
  | Some data => Ok data
  | None =>
      if negb (r_ok r) then Throw (fail (VStr (r_statusText r)))
      else Throw ErrInvalidServerResponse
  end.

(** [if (!response.ok) throw ...], lines 87-90 (and 192-195). The
    template literal of the message converts [errorMessage] to a string
    first, which can throw instead. *)
Definition check_ok (fail : JsVal -> JsError) (r : HttpResponse) (data : JsVal)
  : Result unit :=
  if negb (r_ok r) then
    e ← prop data "error";
    m ← prop data "message";
    let errorMessage := js_or (js_or e m) (VStr (r_statusText r)) in
    _ ← js_text errorMessage;
    Throw (fail errorMessage)
  else Ok tt.

(** [!(n !== totalParts)] for an array length [n]. *)
Definition length_is (n : nat) (totalParts : option Z) : bool :=
  match totalParts with
  | Some t => Z.of_nat n =? t
  | None => false
  end.

(** [data.k = v] on an object. *)
Fixpoint assoc_set (k : string) (v : JsVal) (fields : list (string * JsVal))
  : list (string * JsVal) :=
  match fields with
  | [] => [(k, v)]
  | (k', v') :: rest =>
      if String.eqb k k' then (k, v) :: rest
      else (k', v') :: assoc_set k v rest
  end.

Definition with_field (k : string) (v : JsVal) (data : JsVal) : JsVal :=
  match data with
  | VObj fields => VObj (assoc_set k v fields)
  | _ => data
  end.

(** [getPresignedUrls] from the point where its [fetch] settles with
    [o], lines 62-113. The second component is [this] afterwards, also
    when the call throws. The outer [catch] only logs and rethrows.
    [sort] works in place, so the array inside the returned [data] is
    the sorted one. *)
Definition getPresignedUrls (this : Uploader) (fileSize : Z) (o : FetchOutcome)
  : Result JsVal * Uploader :=
  let totalParts := ceil_div fileSize (chunkSize this) in
  let checked : Result (JsVal * JsVal * list JsVal * JsVal * JsVal) :=
    match o with
    | NetFail reason => Throw (ErrNetwork reason)
    | Responded response =>
        data ← read_json ErrGetUrlsFailed response;
        _ ← check_ok ErrGetUrlsFailed response data;
        uid ← prop data "uploadId";
        urls ← prop data "presignedUrls";
        if negb (truthy uid) || negb (truthy urls) || negb (isArray urls)
        then Throw ErrMissingUploadIdOrUrls
        else
          match urls with
          | VArr items =>
              if negb (length_is (length items) totalParts)
              then Throw (ErrUrlCount totalParts (length items))
              else
                sorted ← sort_tokens items;
                b ← prop data "bucket";
                k ← prop data "key";
                Ok (with_field "presignedUrls" (VArr sorted) data,
                    uid, sorted, b, k)
          | _ => Throw ErrMissingUploadIdOrUrls
          end
    end in
  match checked with
  | Throw error => (Throw error, this)
  | Ok (data, uid, sorted, b, k) =>
      (Ok data,
       {| chunkSize := chunkSize this; maxRetries := maxRetries this;
          retryDelay := retryDelay this;
          uploadId := uid;
          presignedUrls := sorted;
          bucket := b;
          key := k;
          aborted := aborted this |})
  end.

(** [completeUpload] from the point where its [fetch] settles,
    lines 182-201. *)
Definition completeUpload (o : FetchOutcome) : Result JsVal :=
  match o with
  | NetFail reason => Throw (ErrNetwork reason)
  | Responded response =>
      data ← read_json ErrCompleteFailed response;
      _ ← check_ok ErrCompleteFailed response data;
      Ok data
  end.

(** [abortUpload] from the point where its [fetch] settles, lines
    208-225: the [catch] logs and does not rethrow. *)
Definition abortUpload (o : FetchOutcome) : Result unit :=
  try_catch
    (match o with
     | NetFail reason => Throw (ErrNetwork reason)
     | Responded _ => Ok tt
     end)
    (fun _ => Ok tt).

(** ** [upload] on the event loop *)

(** [onProgress] payloads. The [progress] number of an ['uploading']
    event is [uploadedParts / totalParts * 100] and is left implicit. *)
Inductive Progress : Type :=
| PInitiating
| PUploading (totalParts uploadedParts : nat) (currentPart : option Z)
| PCompleting
| PCompleted (result : JsVal)
| PError (error : JsError).

(** What [upload] does to the outside world. *)
Inductive Action : Type :=
| Report (p : Progress)
    (* onProgress(p), when a callback was supplied *)
| InitCall (fileSize : Z) (totalParts : option Z)
    (* POST apiEndpoint with { fileName, fileSize, fileType, totalParts } *)
| PutCall (partNumber : Z) (url : JsVal) (first last : Z)
    (* PUT file.slice(first, last) to the presigned URL *)
| Sleep (partNumber : Z) (ms : Z)
    (* setTimeout of the retry loop of that part *)
| CompleteCall (uploadId : JsVal) (parts : list Part) (bucket key : JsVal)
    (* POST complete-upload *)
| AbortCall (uploadId bucket key : JsVal)
    (* POST abort-upload *).

(** A part whose [uploadSinglePart] is suspended inside [uploadPart]:
    at the [fetch] of an attempt, or at the pause before the next one. *)
Record Flight : Type := mkFlight {
  fl_part : Z;
  fl_url : JsVal;
  fl_retries : Z;
  fl_sleeping : bool
}.

(** Where the body of [upload] is suspended, or how it ended. *)
Inductive Pc : Type :=
| AwaitInit
| AwaitBatch (i : nat)
| AwaitComplete
| AwaitAbort (error : JsError)
| Resolved (result : JsVal)
| Rejected (error : JsError).

Record State : Type := mkState {
  this : Uploader;
  fileSize : Z;
  onProgress : bool;
  pc : Pc;
  totalParts : nat;
  partsArray : list (option Part);
  flights : list Flight;
  trace : list Action
}.

(** What settles or is called from outside while [upload] is suspended. *)
Inductive Event : Type :=
| InitSettled (o : FetchOutcome)
| PutSettled (partNumber : Z) (o : FetchOutcome)
| TimerFired (partNumber : Z)
| CompleteSettled (o : FetchOutcome)
| AbortSettled (o : FetchOutcome)
| CallAbort.

Definition maxConcurrent : nat := 5.

Definition set_this (u : Uploader) (s : State) : State :=
  {| this := u; fileSize := fileSize s; onProgress := onProgress s;
     pc := pc s; totalParts := totalParts s; partsArray := partsArray s;
     flights := flights s; trace := trace s |}.

Definition set_pc (c : Pc) (s : State) : State :=
  {| this := this s; fileSize := fileSize s; onProgress := onProgress s;
     pc := c; totalParts := totalParts s; partsArray := partsArray s;
     flights := flights s; trace := trace s |}.

Definition set_partsArray (a : list (option Part)) (s : State) : State :=
  {| this := this s; fileSize := fileSize s; onProgress := onProgress s;
     pc := pc s; totalParts := totalParts s; partsArray := a;
     flights := flights s; trace := trace s |}.

Definition set_flights (fs : list Flight) (s : State) : State :=
  {| this := this s; fileSize := fileSize s; onProgress := onProgress s;
     pc := pc s; totalParts := totalParts s; partsArray := partsArray s;
     flights := fs; trace := trace s |}.

Definition emit (a : Action) (s : State) : State :=
  {| this := this s; fileSize := fileSize s; onProgress := onProgress s;
     pc := pc s; totalParts := totalParts s; partsArray := partsArray s;
     flights := flights s; trace := trace s ++ [a] |}.

(** [if (onProgress) { onProgress(p) }] *)
Definition report (p : Progress) (s : State) : State :=
  {| this := this s; fileSize := fileSize s; onProgress := onProgress s;
     pc := pc s; totalParts := totalParts s; partsArray := partsArray s;
     flights := flights s;
     trace := trace s ++ (if onProgress s then [Report p] else []) |}.

(** [a[i] = v] on a JavaScript array: in range the slot is replaced,
    beyond the end the array grows and the slots in between are holes. *)
Definition array_set {A} (i : nat) (v : option A) (a : list (option A))
  : list (option A) :=
  if (i <? length a)%nat then <[i := v]> a
  else a ++ replicate (i - length a) None ++ [v].

(** [partsArray.filter(part => part !== undefined)]: holes are skipped
    by [filter], [undefined] entries by the predicate. *)
Definition defined_parts (a : list (option Part)) : list Part :=
  omap id a.

(** The [catch] block of [upload] up to its [await], lines 342-346. *)
Definition fail (error : JsError) (s : State) : State :=
  if truthy (uploadId (this s)) then
    set_pc (AwaitAbort error)
      (emit (AbortCall (uploadId (this s)) (bucket (this s)) (key (this s))) s)
  else
    set_pc (Rejected error) (report (PError error) s).

(** Lines 275-289: what [uploadSinglePart] does once [uploadPart] has
    returned [part]. *)
Definition part_done (partNumber : Z) (part : option Part) (s : State) : State :=
  let s := set_partsArray
             (array_set (Z.to_nat (partNumber - 1)) part (partsArray s)) s in
  report (PUploading (totalParts s) (length (defined_parts (partsArray s)))
            (Some partNumber)) s.

(** The head of the [while] loop of [uploadPart] with [retries] failed
    attempts behind it: the next [fetch] is issued and the part stays in
    flight, or the loop is over and [uploadPart] returns [undefined]. *)
Definition uploadPart_next (partNumber : Z) (url : JsVal) (retries : Z)
    (s : State) : State :=
  if retries <? maxRetries (this s) then
    let first := part_start (chunkSize (this s)) partNumber in
    let last := part_end (chunkSize (this s)) (fileSize s) partNumber in
    set_flights
      (flights s ++ [{| fl_part := partNumber; fl_url := url;
                        fl_retries := retries; fl_sleeping := false |}])
      (emit (PutCall partNumber url first last) s)
  else part_done partNumber None s.

(** [uploadSinglePart(partNumber, presignedUrl)] up to its first
    suspension. An error is the rejection of the promise it returns. When
    [uploadPart] returns at once (no attempt is allowed), the rest of
    [uploadSinglePart] runs in a microtask of the same task; it is
    performed here, where the part is dispatched, which yields the same
    order of progress reports. *)
Definition uploadSinglePart (partNumber : Z) (url : JsVal) (s : State)
  : State * option JsError :=
  if aborted (this s) then (s, Some ErrUploadAborted)
  else (uploadPart_next partNumber url 0 s, None).

(** How the synchronous part of one batch ends: the [for] loop threw,
    or [Promise.all] received the promises, of which the first in the
    batch that is already rejected (if any) decides. *)
Inductive BatchOutcome : Type :=
| Thrown (error : JsError)
| Promises (rejected : option JsError).

(** The inner [for] loop of lines 303-308 from [j] on, with [k] the
    number of iterations [j < maxConcurrent] still allows. *)
Fixpoint dispatch_batch (k : nat) (i j : nat) (s : State)
  : State * BatchOutcome :=
  match k with
  | O => (s, Promises None)
  | S k' =>
      if (i + j <? totalParts s)%nat then
        let index := (i + j)%nat in
        let partNumber := Z.of_nat index + 1 in
        match prop (default VUndefined (presignedUrls (this s) !! index)) "url" with
        | Throw error => (s, Thrown error)
        | Ok presignedUrl =>
            let '(s, rejected) := uploadSinglePart partNumber presignedUrl s in
            let '(s, later) := dispatch_batch k' i (S j) s in
            (s, match later with
                | Thrown error => Thrown error
                | Promises r =>
                    Promises (match rejected with Some e => Some e | None => r end)
                end)
        end
      else (s, Promises None)
  end.

(** Lines 313-330, up to the [await] inside [completeUpload]. *)
Definition finish_transfers (s : State) : State :=
  let completedParts := defined_parts (partsArray s) in
  let s := report PCompleting s in
  set_pc AwaitComplete
    (emit (CompleteCall (uploadId (this s)) completedParts
             (bucket (this s)) (key (this s))) s).

(** The outer [for] loop of lines 297-311 from index [i] on, run until
    [upload] suspends. [None] is an exhausted recursion budget. *)
Fixpoint upload_loop (fuel : nat) (i : nat) (s : State) : option State :=
  if (i <? totalParts s)%nat then
    if aborted (this s) then Some (fail ErrUploadAborted s)
    else
      match fuel with
      | O => None
      | S fuel' =>
          match dispatch_batch maxConcurrent i 0 s with
          | (s, Thrown error) => Some (fail error s)
          | (s, Promises (Some error)) => Some (fail error s)
          | (s, Promises None) =>
              match flights s with
              | [] => upload_loop fuel' (i + maxConcurrent) s
              | _ :: _ => Some (set_pc (AwaitBatch i) s)
              end
          end
      end
  else Some (finish_transfers s).

Definition set_totalParts (n : nat) (s : State) : State :=
  {| this := this s; fileSize := fileSize s; onProgress := onProgress s;
     pc := pc s; totalParts := n; partsArray := partsArray s;
     flights := flights s; trace := trace s |}.

Definition set_aborted (b : bool) (u : Uploader) : Uploader :=
  {| chunkSize := chunkSize u; maxRetries := maxRetries u;
     retryDelay := retryDelay u; uploadId := uploadId u;
     presignedUrls := presignedUrls u; bucket := bucket u; key := key u;
     aborted := b |}.

(** [upload(file, onProgress)] up to the [await] inside
    [getPresignedUrls], lines 232-246 and 62-75. [cb] tells whether a
    callback was passed. *)
Definition upload_start (u : Uploader) (size : Z) (cb : bool) : State :=
  let u := set_aborted false u in
  let s := {| this := u; fileSize := size; onProgress := cb;
              pc := AwaitInit; totalParts := 0; partsArray := [];
              flights := []; trace := [] |} in
  let s := report PInitiating s in
  emit (InitCall size (ceil_div size (chunkSize u))) s.

(** [abort()], lines 364-369. The promise of [abortUpload] is dropped. *)
Definition abort (s : State) : State :=
  let s := set_this (set_aborted true (this s)) s in
  if truthy (uploadId (this s)) then
    emit (AbortCall (uploadId (this s)) (bucket (this s)) (key (this s))) s
  else s.

(** The flight of part [p] in the given suspension, and the others. *)
Fixpoint take_flight (p : Z) (sleeping : bool) (fs : list Flight)
  : option (Flight * list Flight) :=
  match fs with
  | [] => None
  | f :: rest =>
      if (fl_part f =? p) && Bool.eqb (fl_sleeping f) sleeping
      then Some (f, rest)
      else '(g, others) ← take_flight p sleeping rest; Some (g, f :: others)
  end.

(** A promise of the batch was fulfilled: when [upload] is awaiting
    [Promise.all] and none of the batch is pending any more, the outer
    loop goes on. *)
Definition batch_progress (s : State) : option State :=
  match pc s, flights s with
  | AwaitBatch i, [] => upload_loop (totalParts s) (i + maxConcurrent) s
  | _, _ => Some s
  end.

(** One task of the event loop. [None]: the event cannot occur in [s]
    (nothing is waiting for it). *)
Definition step (s : State) (ev : Event) : option State :=
  match ev with
  | InitSettled o =>
      match pc s with
      | AwaitInit =>
          let '(r, u) := getPresignedUrls (this s) (fileSize s) o in
          let s := set_this u s in
          match r with
          | Throw error => Some (fail error s)
          | Ok _ =>
              let n := length (presignedUrls u) in
              let s := set_totalParts n s in
              let s := report (PUploading n 0 None) s in
              let s := set_partsArray (replicate n None) s in
              upload_loop n 0 s
          end
      | _ => None
      end
  | PutSettled p o =>
      '(f, rest) ← take_flight p false (flights s);
      match put_part p o with
      | Ok part => batch_progress (part_done p (Some part) (set_flights rest s))
      | Throw error =>
          let retries := fl_retries f + 1 in
          if retries >=? maxRetries (this s) then
            let s := set_flights rest s in
            match pc s with
            | AwaitBatch _ => Some (fail error s)
            | _ => Some s
            end
          else
            Some (emit (Sleep p (retryDelay (this s) * retries))
                    (set_flights
                       (rest ++ [{| fl_part := p; fl_url := fl_url f;
                                    fl_retries := retries;
                                    fl_sleeping := true |}]) s))
      end
  | TimerFired p =>
      '(f, rest) ← take_flight p true (flights s);
      batch_progress
        (uploadPart_next p (fl_url f) (fl_retries f) (set_flights rest s))
  | CompleteSettled o =>
      match pc s with
      | AwaitComplete =>
          match completeUpload o with
          | Throw error => Some (fail error s)
          | Ok result =>
              Some (set_pc (Resolved result) (report (PCompleted result) s))
          end
      | _ => None
      end
  | AbortSettled o =>
      match pc s with
      | AwaitAbort error =>
          match abortUpload o with
          | Throw e => Some (set_pc (Rejected e) s)
          | Ok _ => Some (set_pc (Rejected error) (report (PError error) s))
          end
      | _ => None
      end
  | CallAbort => Some (abort s)
  end.

Fixpoint run (s : State) (evs : list Event) : option State :=
  match evs with
  | [] => Some s
  | ev :: evs => s' ← step s ev; run s' evs
  end.

(** [upload(file, onProgress)] on uploader [u], for a file of [size]
    bytes, driven by the events [evs]: the state it has reached when they
    have been processed, [None] when one of them cannot occur. *)
Definition upload (u : Uploader) (size : Z) (cb : bool) (evs : list Event)
  : option State :=
  run (upload_start u size cb) evs.

(** ** Vocabulary of the properties *)

(** *** Constructor options *)

(** The option called [name] is stored as given when truthy and as the
    default [dflt] when falsy. *)
Definition defaulted (options : JsVal) (name : string) (dflt : Z)
    (stored : JsVal) : Prop :=
  exists v, prop (default_param options) name = Ok v /\
    (truthy v = false -> stored = VNum dflt) /\
    (truthy v = true -> stored = v).

Definition constructors : list (JsVal -> Result Tuning) :=
  [Presigned_constructor; DirectPresigned_constructor; Uploader_constructor].

(** [{ chunkSize: 0, maxRetries: 0, retryDelay: 0 }] *)
Definition zero_options : JsVal :=
  VObj [("chunkSize", VNum 0); ("maxRetries", VNum 0); ("retryDelay", VNum 0)].

(** The default uploader, [new S3MultipartUploaderPresigned()]. *)
Definition default_uploader : Uploader :=
  new_uploader default_chunkSize default_maxRetries default_retryDelay.

(** *** Logs of [uploadPart] *)

(** The log of [k] consecutive attempts of which the first has number
    [from], with the pause [delay * n] after each failed attempt [n]. *)
Fixpoint schedule (delay : Z) (from : Z) (k : nat) : list PartIO :=
  match k with
  | O => []
  | S k' =>
      Attempt from ::
      match k' with
      | O => []
      | S _ => Wait (delay * from) :: schedule delay (from + 1) k'
      end
  end.

(** The pause that immediately precedes attempt number [n] in a log. *)
Fixpoint wait_before (n : Z) (log : list PartIO) : option Z :=
  match log with
  | [] => None
  | io :: rest =>
      match io, rest with
      | Wait ms, Attempt m :: _ =>
          if m =? n then Some ms else wait_before n rest
      | _, _ => wait_before n rest
      end
  end.

(** Retry attempts are numbered from 1: retry attempt number [n] of a
    part is the attempt made after [n] attempts have failed, the PUT
    number [n + 1] of the part. *)
Definition retry_attempt (n : Z) : PartIO := Attempt (n + 1).

(** The pause that immediately precedes retry attempt number [n]. *)
Definition wait_before_retry (n : Z) (log : list PartIO) : option Z :=
  wait_before (n + 1) log.

(** A transport that fails the first two attempts of a part. *)
Definition fail_twice (n : Z) : FetchOutcome :=
  if n <=? 2 then resp_503 else resp_ok "abc".

(** *** Session replies *)

Definition throws {A} (r : Result A) : bool :=
  match r with Throw _ => true | Ok _ => false end.

Definition is_obj (v : JsVal) : bool :=
  match v with VObj _ => true | _ => false end.

Definition is_undefined (v : JsVal) : bool :=
  match v with VUndefined => true | _ => false end.

(** The reply arrived, has a success status and a body that parses as
    JSON. *)
Definition proper_reply (o : FetchOutcome) : bool :=
  match o with
  | NetFail _ => false
  | Responded r => r_ok r && bool_decide (is_Some (r_json r))
  end.

(** A token that carries both of its fields, [partNumber] and [url]. *)
Definition token_complete (tok : JsVal) : bool :=
  match tok with
  | VObj f => negb (is_undefined (assoc "partNumber" f))
              && negb (is_undefined (assoc "url" f))
  | _ => false
  end.

(** The session id is missing, the token list is missing or not an
    array, or the token count differs from [totalParts]: the three
    conditions that [getPresignedUrls] checks on the reply. *)
Definition fails_checks (totalParts : option Z) (data : JsVal) : bool :=
  match data with
  | VObj f =>
      negb (truthy (assoc "uploadId" f))
      || match assoc "presignedUrls" f with
         | VArr items => negb (length_is (length items) totalParts)
         | _ => true
         end
  | _ => true
  end.

(** A malformed reply in the words of the specification: one that fails
    those checks or has a token with a missing field. *)
Definition malformed (totalParts : option Z) (data : JsVal) : bool :=
  fails_checks totalParts data
  || match data with
     | VObj f =>
         match assoc "presignedUrls" f with
         | VArr items => negb (forallb token_complete items)
         | _ => true
         end
     | _ => true
     end.

(** The comparator of the sort can be applied to the token: its
    [partNumber] can be read and can be converted to a number. *)
Definition sortable (tok : JsVal) : bool :=
  match prop tok "partNumber" with
  | Ok v => negb (unconvertible v)
  | Throw _ => false
  end.

(** The tokens that the sort compares: those that are not
    [undefined]. *)
Definition defined_tokens (items : list JsVal) : list JsVal :=
  List.filter (fun tok => negb (is_undefined tok)) items.

(** The token list cannot be sorted: it has two such tokens or more, so
    that the comparator is called, and one to which it cannot be
    applied. *)
Definition unsortable (items : list JsVal) : bool :=
  (2 <=? length (defined_tokens items))%nat
  && negb (forallb sortable (defined_tokens items)).

(** The token list of the reply is an array that cannot be sorted. *)
Definition tokens_unsortable (data : JsVal) : bool :=
  match data with
  | VObj f =>
      match assoc "presignedUrls" f with
      | VArr items => unsortable items
      | _ => false
      end
  | _ => false
  end.

(** [{ partNumber: n, url }] and a session reply
    [{ uploadId, bucket, key, presignedUrls }]. *)
Definition token (n : Z) (url : string) : JsVal :=
  VObj [("partNumber", VNum n); ("url", VStr url)].

Definition session (uid : string) (tokens : list JsVal) : JsVal :=
  VObj [("uploadId", VStr uid); ("bucket", VStr "b"); ("key", VStr "k");
        ("presignedUrls", VArr tokens)].

(** A reply whose only token has no [url]. *)
Definition reply_without_url : JsVal :=
  session "u" [VObj [("partNumber", VNum 1)]].

(** A reply for a file of two parts whose first token has a part number
    that cannot be converted to a number. *)
Definition reply_with_opaque_number : JsVal :=
  session "u" [VObj [("partNumber", VObj [("toString", VNull)]);
                     ("url", VStr "u1")];
               token 2 "u2"].

(** *** Traces and states of a run *)

(** The PUT requests made for part [p], and their number. *)
Definition is_put_of (p : Z) (a : Action) : bool :=
  match a with
  | PutCall q _ _ _ => q =? p
  | _ => false
  end.

Definition put_count (p : Z) (tr : list Action) : nat :=
  length (List.filter (is_put_of p) tr).

(** The part lists submitted by the completion calls of a trace. *)
Definition completes (tr : list Action) : list (list Part) :=
  omap (fun a => match a with
                 | CompleteCall _ parts _ _ => Some parts
                 | _ => None
                 end) tr.

(** The part numbers [1..n], ascending. *)
Definition part_numbers (n : nat) : list Z := map Z.of_nat (seq 1 n).

(** The transfer of part [p] succeeds in the course of the events. *)
Definition succeeds (p : Z) (evs : list Event) : Prop :=
  exists o part, In (PutSettled p o) evs /\ put_part p o = Ok part.

(** The event can occur in [s]: something is waiting for it. *)
Definition enabled (ev : Event) (s : State) : Prop :=
  match ev with
  | InitSettled _ => pc s = AwaitInit
  | PutSettled p _ => is_Some (take_flight p false (flights s))
  | TimerFired p => is_Some (take_flight p true (flights s))
  | CompleteSettled _ => pc s = AwaitComplete
  | AbortSettled _ => exists error, pc s = AwaitAbort error
  | CallAbort => True
  end.

Definition is_abort_reply (ev : Event) : bool :=
  match ev with AbortSettled _ => true | _ => false end.

(** What can still be done once [upload] has rejected: the parts that
    were in flight go on with their attempts, pauses and ['uploading']
    reports, and [abort()] can be called. *)
Definition straggler_action (a : Action) : bool :=
  match a with
  | PutCall _ _ _ _ | Sleep _ _ | Report (PUploading _ _ _)
  | AbortCall _ _ _ => true
  | _ => false
  end.

(** The event [ev] makes a stage of [upload] fail with [e] in state [s]:
    the session request, the last allowed attempt of a part of the
    batch being awaited, or the completion request. *)
Definition stage_failure (s : State) (ev : Event) (e : JsError) : Prop :=
  match ev with
  | InitSettled o =>
      pc s = AwaitInit /\
      (getPresignedUrls (this s) (fileSize s) o).1 = Throw e
  | PutSettled p o =>
      (exists i, pc s = AwaitBatch i) /\
      exists f rest, take_flight p false (flights s) = Some (f, rest) /\
        put_part p o = Throw e /\
        fl_retries f + 1 >= maxRetries (this s)
  | CompleteSettled o =>
      pc s = AwaitComplete /\ completeUpload o = Throw e
  | _ => False
  end.

(** *** Invariants *)

(** Slot [idx] of [partsArray] holds a completion record. *)
Definition recorded (idx : nat) (s : State) : Prop :=
  exists part, partsArray s !! idx = Some (Some part).

(** Each of the first [n] parts is recorded or in flight. *)
Definition covered (n : nat) (s : State) : Prop :=
  forall idx, (idx < n)%nat ->
    recorded idx s \/ In (Z.of_nat idx + 1) (map fl_part (flights s)).

(** The record in slot [idx] carries part number [idx + 1]. *)
Definition numbered (a : list (option Part)) : Prop :=
  forall idx part, a !! idx = Some (Some part) ->
    PartNumber part = Z.of_nat idx + 1.

(** What holds in every state that a run of [upload] reaches: the array
    has one slot per part; before the session reply nothing is in
    flight; the parts in flight are parts of the file and have not used
    up their attempts; records sit in their own slots; at most
    [maxConcurrent] parts are in flight; while a batch is awaited every
    part up to the end of the batch is recorded or in flight; and every
    completion call made so far carried the parts [1..totalParts]. *)
Record wf (s : State) : Prop := mkWf {
  wf_length : length (partsArray s) = totalParts s;
  wf_init : pc s = AwaitInit -> flights s = [] /\ completes (trace s) = [];
  wf_flights :
    Forall (fun f => 1 <= fl_part f <= Z.of_nat (totalParts s) /\
                     0 <= fl_retries f < maxRetries (this s)) (flights s);
  wf_numbered : numbered (partsArray s);
  wf_bound : (length (flights s) <= maxConcurrent)%nat;
  wf_batch : forall i, pc s = AwaitBatch i -> 1 <= maxRetries (this s) ->
    covered (Nat.min (i + maxConcurrent) (totalParts s)) s;
  wf_complete : 1 <= maxRetries (this s) \/ totalParts s = 0%nat ->
    Forall (fun parts => map PartNumber parts = part_numbers (totalParts s))
      (completes (trace s))
}.

(** What holds when the outer loop is entered at index [i]. *)
Record loop_ready (i : nat) (s : State) : Prop := mkReady {
  lr_flights : flights s = [];
  lr_length : length (partsArray s) = totalParts s;
  lr_numbered : numbered (partsArray s);
  lr_complete : 1 <= maxRetries (this s) \/ totalParts s = 0%nat ->
    Forall (fun parts => map PartNumber parts = part_numbers (totalParts s))
      (completes (trace s));
  lr_recorded : 1 <= maxRetries (this s) ->
    forall idx, (idx < Nat.min i (totalParts s))%nat -> recorded idx s
}.

(** The token count agrees with the planned number of parts. *)
Definition sized (s : State) : Prop :=
  ceil_div (fileSize s) (chunkSize (this s)) = Some (Z.of_nat (totalParts s)).

(** The three stages a run can be in with respect to the session reply:
    not yet received, accepted, or refused. *)
Definition session_stage (s : State) : Prop :=
  (pc s = AwaitInit /\ completes (trace s) = []) \/
  (pc s <> AwaitInit /\ sized s) \/
  (flights s = [] /\ completes (trace s) = [] /\
   exists e, pc s = AwaitAbort e \/ pc s = Rejected e).

(** *** Scenarios *)

Definition three_tokens : list JsVal :=
  [token 1 "u1"; token 2 "u2"; token 3 "u3"].

(** Scenario A of the specification, 12 MiB in chunks of 5 MiB, with the
    tokens delivered out of order and the parts completing in the order
    3, 1, 2. *)
Definition shuffled_events : list Event :=
  [InitSettled (resp_json (session "u" [token 2 "u2"; token 1 "u1"; token 3 "u3"]));
   PutSettled 3 (resp_ok "e3"); PutSettled 1 (resp_ok "e1");
   PutSettled 2 (resp_ok "e2")].

Definition scenario_A : option State :=
  upload (new_uploader 5242880 3 1000) 12582912 false shuffled_events.

(** Scenario C just before the third failure of part 3, with the default
    [maxRetries = 3]: every attempt of part 3 is answered with status
    503. *)
Definition scenario_C_before : option State :=
  upload (new_uploader 5242880 3 1000) 12582912 true
    [InitSettled (resp_json (session "u" three_tokens));
     PutSettled 1 (resp_ok "e1"); PutSettled 2 (resp_ok "e2");
     PutSettled 3 resp_503; TimerFired 3;
     PutSettled 3 resp_503; TimerFired 3].

(** Scenario C after that failure. *)
Definition scenario_C : option State :=
  scenario_C_before ≫= fun s => step s (PutSettled 3 resp_503).

(** Scenario D: [abort()] is called while parts 2 and 3 are in flight. *)
Definition scenario_D_events : list Event :=
  [InitSettled (resp_json (session "u" three_tokens));
   PutSettled 1 (resp_ok "e1"); CallAbort].

Definition scenario_D : option State :=
  upload (new_uploader 5242880 3 1000) 12582912 true scenario_D_events.

(** An empty file whose session reply carries no token. *)
Definition empty_file_events : list Event :=
  [InitSettled (resp_json (session "u" []));
   CompleteSettled (resp_json (VObj [("location", VStr "l")]))].

Definition empty_file_run : option State :=
  upload default_uploader 0 false empty_file_events.

(** Seven parts of one byte each. *)
Definition seven_tokens : list JsVal :=
  map (fun n => token n "url") [1; 2; 3; 4; 5; 6; 7].

Definition seven_parts_start : option State :=
  upload (new_uploader 1 3 1000) 7 false
    [InitSettled (resp_json (session "u" seven_tokens))].

(** A batch of three in which part 3 fails for good ([maxRetries = 1])
    while parts 1 and 2 are still in flight. *)
Definition straggler_run : option State :=
  upload (new_uploader 5242880 1 1000) 12582912 true
    [InitSettled (resp_json (session "u" three_tokens));
     PutSettled 3 resp_503;
     AbortSettled (NetFail "offline");
     PutSettled 1 (resp_ok "e1")].

(** Scenario B of the specification: as scenario A, but part 2 fails
    twice before it succeeds. *)
Definition scenario_B : option State :=
  upload (new_uploader 5242880 3 1000) 12582912 false
    [InitSettled (resp_json (session "u" three_tokens));
     PutSettled 2 resp_503; PutSettled 1 (resp_ok "e1"); TimerFired 2;
     PutSettled 2 (NetFail "reset"); PutSettled 3 (resp_ok "e3"); TimerFired 2;
     PutSettled 2 (resp_ok "e2");
     CompleteSettled (resp_json (VObj [("location", VStr "l")]))].


(** *** What a run does and never does *)

(** The URL that [upload] reads for part [p]:
    [this.presignedUrls[p - 1].url]. *)
Definition token_url (s : State) (p : Z) : Result JsVal :=
  prop (default VUndefined (presignedUrls (this s) !! Z.to_nat (p - 1))) "url".

(** The record was returned for a PUT of its part that settled among
    [evs]. *)
Definition backed (evs : list Event) (part : Part) : Prop :=
  exists o, In (PutSettled (PartNumber part) o) evs /\
            put_part (PartNumber part) o = Ok part.

(** An action agrees with the session of state [s]: a PUT goes to the
    URL of its token and carries its byte range, a progress report stays
    within the part count, a completion call carries the session and a
    strictly ascending list of records that satisfy [Q]. *)
Definition planned (Q : Part -> Prop) (s : State) (a : Action) : Prop :=
  match a with
  | PutCall p url first last =>
      1 <= p <= Z.of_nat (totalParts s) /\
      token_url s p = Ok url /\
      first = part_start (chunkSize (this s)) p /\
      last = part_end (chunkSize (this s)) (fileSize s) p
  | Report (PUploading n m _) => n = totalParts s /\ (m <= n)%nat
  | CompleteCall uid parts b k =>
      StronglySorted Z.lt (map PartNumber parts) /\
      Forall (fun part => 1 <= PartNumber part /\ Q part) parts /\
      uid = uploadId (this s) /\ b = bucket (this s) /\ k = key (this s)
  | _ => True
  end.

(** The actions that can precede the session reply. *)
Definition pre_session (a : Action) : Prop :=
  match a with
  | Report PInitiating | InitCall _ _ | AbortCall _ _ _ => True
  | _ => False
  end.

(** The invariant behind the properties of the requests of a run. *)
Record sound (Q : Part -> Prop) (s : State) : Prop := mkSound {
  sd_length : length (partsArray s) = totalParts s;
  sd_numbered : numbered (partsArray s);
  sd_records : forall idx part, partsArray s !! idx = Some (Some part) -> Q part;
  sd_flights :
    Forall (fun f => 1 <= fl_part f <= Z.of_nat (totalParts s) /\
                     token_url s (fl_part f) = Ok (fl_url f)) (flights s);
  sd_trace : Forall (planned Q s) (trace s)
}.

(** Before the session reply nothing is in flight and nothing but the
    session request has been made. *)
Definition fresh (s : State) : Prop :=
  pc s = AwaitInit -> flights s = [] /\ Forall pre_session (trace s).

(** [s'] is [s] after some parts have been dispatched by the inner loop
    of [upload]. *)
Inductive dispatches : State -> State -> Prop :=
| dispatches_refl (s : State) : dispatches s s
| dispatches_step (s s' : State) (idx : nat) (url : JsVal) :
    (idx < totalParts s)%nat ->
    aborted (this s) = false ->
    token_url s (Z.of_nat idx + 1) = Ok url ->
    dispatches (uploadPart_next (Z.of_nat idx + 1) url 0 s) s' ->
    dispatches s s'.

(** The two phases of a run with respect to the completion call: none
    made yet, or made once with nothing left in flight. *)
Definition transferring (s : State) : Prop :=
  completes (trace s) = [] /\
  match pc s with AwaitComplete | Resolved _ => False | _ => True end.

(** Nothing is in flight and the transfer loop is over. *)
Definition idle (s : State) : Prop :=
  flights s = [] /\
  match pc s with AwaitInit | AwaitBatch _ => False | _ => True end.

Definition finalized (s : State) : Prop :=
  flights s = [] /\ length (completes (trace s)) = 1%nat /\
  match pc s with AwaitInit | AwaitBatch _ => False | _ => True end.

(** The invariant behind the properties of the completion call. *)
Definition once (s : State) : Prop :=
  (transferring s /\ (pc s = AwaitInit -> flights s = [])) \/ finalized s.

(** The session id is set, or the run has not got to a session: it
    awaits the session reply or has failed without one. *)
Definition in_session (s : State) : Prop :=
  truthy (uploadId (this s)) = true \/
  (completes (trace s) = [] /\ flights s = [] /\
   match pc s with
   | AwaitInit | AwaitAbort _ | Rejected _ => True
   | _ => False
   end).

(** [upload] has settled. *)
Definition settled (s : State) : Prop :=
  match pc s with Resolved _ | Rejected _ => True | _ => False end.

(** [upload] has failed: it is cancelling the session or has rejected. *)
Definition failed (s : State) (e : JsError) : Prop :=
  pc s = AwaitAbort e \/ pc s = Rejected e.

(** [upload] has left its transfer and completion stages: it has
    resolved, or it has failed. *)
Definition over (s : State) : Prop :=
  match pc s with
  | Resolved _ | AwaitAbort _ | Rejected _ => True
  | _ => False
  end.

(** Nothing has been transferred: no part in flight, no PUT made, no
    record stored, and only empty completion lists. *)
Definition barren (s : State) : Prop :=
  flights s = [] /\
  (forall p, put_count p (trace s) = 0%nat) /\
  Forall (fun slot => slot = None) (partsArray s) /\
  Forall (fun parts => parts = []) (completes (trace s)).

(** [abort()] is called right after [upload] has started, then the
    session reply [o] arrives. *)
Definition aborted_early (u : Uploader) (size : Z) (cb : bool)
    (o : FetchOutcome) (evs : list Event) : option State :=
  upload u size cb (CallAbort :: InitSettled o :: evs).

(** A run with [maxRetries = -1]. *)
Definition no_attempt_run : option State :=
  upload (new_uploader 5242880 (-1) 1000) 12582912 false
    [InitSettled (resp_json (session "u" three_tokens));
     CompleteSettled (resp_json (VObj [("location", VStr "l")]))].

(** The failed run of [straggler_run] before its last part settles. *)
Definition straggler_before : option State :=
  upload (new_uploader 5242880 1 1000) 12582912 true
    [InitSettled (resp_json (session "u" three_tokens));
     PutSettled 3 resp_503;
     AbortSettled (NetFail "offline")].

(** A token with a numeric [partNumber]. *)
Definition token_number (tok : JsVal) : option Z :=
  match tok with
  | VObj f => match assoc "partNumber" f with VNum n => Some n | _ => None end
  | _ => None
  end.

(** The two states belong to the same session of the same file. *)
Definition same_session (s s' : State) : Prop :=
  chunkSize (this s') = chunkSize (this s) /\
  presignedUrls (this s') = presignedUrls (this s) /\
  uploadId (this s') = uploadId (this s) /\
  bucket (this s') = bucket (this s) /\
  key (this s') = key (this s) /\
  fileSize s' = fileSize s /\
  totalParts s' = totalParts s.

(** ** The sibling classes *)

(** The classes [S3MultipartUploaderDirectPresigned] and
    [S3MultipartUploader] throw errors with messages of their own; their
    functions end in an [Outcome] over the error type of the class. *)
Inductive Outcome (E A : Type) : Type :=
| Returned (a : A)
| Raised (e : E).
Arguments Returned {E A} a.
Arguments Raised {E A} e.

#[global] Instance outcome_bind {E} : MBind (Outcome E) := fun A B k m =>
  match m with
  | Returned a => k a
  | Raised e => Raised e
  end.

Definition raises {E A} (m : Outcome E A) : bool :=
  match m with Raised _ => true | Returned _ => false end.

(** *** [S3MultipartUploaderDirectPresigned] *)

Inductive DirectError : Type :=
| ErrInvalidUploadData
    (* 'Invalid upload data: missing uploadId or presignedUrls' *)
| ErrNotInitialized
    (* 'Upload not initialized. Call initialize() first with presigned URLs.' *)
| ErrRuntime (e : JsError)
    (* an error of the runtime *).

(** The uploader as the constructor of lines 377-392 leaves it:
    [bucket] and [key] start as [null]. *)
Definition new_direct_uploader (chunk retries delay : Z) : Uploader :=
  {| chunkSize := chunk; maxRetries := retries; retryDelay := delay;
     uploadId := VNull; presignedUrls := []; bucket := VNull;
     key := VNull; aborted := false |}.

(** A property read in a function of this class. *)
Definition direct_prop (v : JsVal) (k : string) : Outcome DirectError JsVal :=
  match prop v k with
  | Ok x => Returned x
  | Throw e => Raised (ErrRuntime e)
  end.

(** [initialize(uploadData)], lines 414-423. The second component is
    [this] afterwards: the three assignments of lines 419-421 come before
    the sort, which throws when it compares a token that is [null] or
    [undefined] or whose [partNumber] cannot be converted to a number,
    and the assignment of line 422 is not made in that case. *)
Definition initialize (this : Uploader) (uploadData : JsVal)
  : Outcome DirectError unit * Uploader :=
  let checked : Outcome DirectError (JsVal * list JsVal) :=
    uid ← direct_prop uploadData "uploadId";
    if negb (truthy uid) then Raised ErrInvalidUploadData
    else
      urls ← direct_prop uploadData "presignedUrls";
      if negb (truthy urls) || negb (isArray urls)
      then Raised ErrInvalidUploadData
      else
        match urls with
        | VArr items => Returned (uid, items)
        | _ => Raised ErrInvalidUploadData
        end in
  match checked with
  | Raised e => (Raised e, this)
  | Returned (uid, items) =>
      let assigned (b k : JsVal) (urls : list JsVal) : Uploader :=
        {| chunkSize := chunkSize this; maxRetries := maxRetries this;
           retryDelay := retryDelay this; uploadId := uid;
           presignedUrls := urls; bucket := b; key := k;
           aborted := aborted this |} in
      match prop uploadData "bucket", prop uploadData "key" with
      | Ok b, Ok k =>
          match sort_tokens items with
          | Ok sorted => (Returned tt, assigned b k sorted)
          | Throw e => (Raised (ErrRuntime e), assigned b k (presignedUrls this))
          end
      | Throw e, _ | _, Throw e => (Raised (ErrRuntime e), this)
      end
  end.

(** The guard of [upload], lines 533-542: the number of parts that
    [upload] goes on with, or the error it rejects with before it does
    anything else. *)
Definition direct_upload_guard (this : Uploader) : Outcome DirectError nat :=
  if negb (truthy (uploadId this))
     || (length (presignedUrls this) =? 0)%nat
  then Raised ErrNotInitialized
  else Returned (length (presignedUrls this)).

(** The chunk size that the sample page sets on the uploader before
    [initialize] and [upload]: [Math.ceil(fileSize / totalParts)] with
    [totalParts] the number of tokens loaded (startUpload). *)
Definition sample_chunkSize (fileSize : Z) (tokens : nat) : option Z :=
  ceil_div fileSize (Z.of_nat tokens).

(** *** [S3MultipartUploader] *)

Inductive LazyError : Type :=
| LzGetUrlFailed (detail : JsVal)
    (* `Failed to get presigned URL: ${...}` *)
| LzInvalidServerResponse
    (* 'Invalid response from server' *)
| LzInvalidInitiate
    (* 'Invalid response from initiate upload' *)
| LzNoUrl
    (* 'No presigned URL received for part upload' *)
| LzUploadFailed (statusText : string)
    (* `Upload failed: ${statusText}` *)
| LzNoETag
    (* 'No ETag received from upload' *)
| LzNetwork (reason : string)
    (* the rejection of fetch() itself *)
| LzRuntime (e : JsError)
    (* an error of the runtime *).

Definition lazy_prop (v : JsVal) (k : string) : Outcome LazyError JsVal :=
  match prop v k with
  | Ok x => Returned x
  | Throw e => Raised (LzRuntime e)
  end.

(** [getPresignedUrl(operation, params)] from the point where its
    [fetch] settles, lines 721-741. The template literal of line 735
    converts [errorMessage] to a string, which can throw instead. *)
Definition getPresignedUrl (o : FetchOutcome) : Outcome LazyError JsVal :=
  match o with
  | NetFail reason => Raised (LzNetwork reason)
  | Responded response =>
      data ← match r_json response with
             | Some data => Returned data
             | None =>
                 if negb (r_ok response)
                 then Raised (LzGetUrlFailed (VStr (r_statusText response)))
                 else Raised LzInvalidServerResponse
             end;
      if negb (r_ok response) then
        e ← lazy_prop data "error";
        m ← lazy_prop data "message";
        let errorMessage := js_or (js_or e m) (VStr (r_statusText response)) in
        match js_text errorMessage with
        | Throw error => Raised (LzRuntime error)
        | Ok _ => Raised (LzGetUrlFailed errorMessage)
        end
      else Returned data
  end.

(** [initiateUpload(fileName, fileType)] from the point where the
    request settles, lines 749-767, with [this] afterwards. *)
Definition initiateUpload (this : Uploader) (o : FetchOutcome)
  : Outcome LazyError JsVal * Uploader :=
  let checked : Outcome LazyError (JsVal * JsVal * JsVal * JsVal) :=
    response ← getPresignedUrl o;
    uid ← lazy_prop response "uploadId";
    if negb (truthy uid) then Raised LzInvalidInitiate
    else
      b ← lazy_prop response "bucket";
      if negb (truthy b) then Raised LzInvalidInitiate
      else
        k ← lazy_prop response "key";
        if negb (truthy k) then Raised LzInvalidInitiate
        else Returned (response, uid, b, k) in
  match checked with
  | Raised e => (Raised e, this)
  | Returned (response, uid, b, k) =>
      (Returned response,
       {| chunkSize := chunkSize this; maxRetries := maxRetries this;
          retryDelay := retryDelay this; uploadId := uid;
          presignedUrls := presignedUrls this; bucket := b; key := k;
          aborted := aborted this |})
  end.

(** What the [uploadPart] of this class does to the outside world: the
    request for the token of attempt [n], the PUT of attempt [n] to the
    URL received, and the pause. *)
Inductive LazyIO : Type :=
| TokenRequest (n : Z)
| LazyPut (n : Z) (url : JsVal)
| LazyWait (ms : Z).

(** Lines 791-813 once the PUT has settled. *)
Definition lazy_put_part (partNumber : Z) (o : FetchOutcome)
  : Outcome LazyError Part :=
  match o with
  | NetFail reason => Raised (LzNetwork reason)
  | Responded r =>
      if negb (r_ok r) then Raised (LzUploadFailed (r_statusText r))
      else
        match strip_quotes <$> r_etag r with
        | None => Raised LzNoETag
        | Some etag =>
            if String.eqb etag EmptyString then Raised LzNoETag
            else Returned {| PartNumber := partNumber; ETag := etag |}
        end
  end.

Section LazyUploadPart.
Variable maxRetries_n retryDelay_n : Z.
Variable partNumber : Z.
(** The outcome of the token request and of the PUT of each attempt,
    numbered from 1. *)
Variable api : Z -> FetchOutcome.
Variable net : Z -> FetchOutcome.

(** The body of the [try] block of lines 777-813 for attempt [n]. *)
Definition lazy_attempt (n : Z) : Outcome LazyError Part * list LazyIO :=
  match (presignedData ← getPresignedUrl (api n);
         lazy_prop presignedData "url") with
  | Raised e => (Raised e, [TokenRequest n])
  | Returned url =>
      if negb (truthy url) then (Raised LzNoUrl, [TokenRequest n])
      else (lazy_put_part partNumber (net n), [TokenRequest n; LazyPut n url])
  end.

(** The [while (retries < this.maxRetries)] loop of lines 776-825. *)
Fixpoint lazy_uploadPart_loop (fuel : nat) (retries : Z) (log : list LazyIO)
  : option (Outcome LazyError (option Part) * list LazyIO) :=
  if retries <? maxRetries_n then
    match fuel with
    | O => None
    | S fuel' =>
        let '(r, io) := lazy_attempt (retries + 1) in
        let log := log ++ io in
        match r with
        | Returned part => Some (Returned (Some part), log)
        | Raised error =>
            let retries := retries + 1 in
            if retries >=? maxRetries_n then Some (Raised error, log)
            else lazy_uploadPart_loop fuel' retries
                   (log ++ [LazyWait (retryDelay_n * retries)])
        end
    end
  else Some (Returned None, log).

Definition lazy_uploadPart
  : option (Outcome LazyError (option Part) * list LazyIO) :=
  lazy_uploadPart_loop (Z.to_nat maxRetries_n) 0 [].
End LazyUploadPart.

Definition token_requests (log : list LazyIO) : list Z :=
  omap (fun io => match io with TokenRequest n => Some n | _ => None end) log.

Definition lazy_puts (log : list LazyIO) : list Z :=
  omap (fun io => match io with LazyPut n _ => Some n | _ => None end) log.

(** ** The Lambda functions *)

(** The server side of the protocol: the handler of the third part of
    uploader-presigned.js, which hands out one token per request, and
    the [handleInitiate] of lambda-presigned-example.js, which hands out
    all tokens at once. [handleComplete] and [handleAbort] are the same
    in both files (and in terraform/lambda-function.js, up to logging).

    An operation of the S3 SDK is a value of [S3Call]; what its promise
    settles with is chosen by the environment, a function from calls to
    outcomes. Every function returns what it returns or throws together
    with the calls it has made, in order. A response body is the value
    that the source passes to [JSON.stringify]. *)

Inductive S3Call : Type :=
| CreateMultipartUpload (Bucket Key ContentType : JsVal)
| SignUploadPart (Bucket Key PartNumber UploadId : JsVal)
    (* getSignedUrlPromise('uploadPart', ...) *)
| CompleteMultipartUpload (Bucket Key UploadId : JsVal)
    (Parts : list (JsVal * JsVal))
    (* Parts: the pairs (PartNumber, ETag) *)
| AbortMultipartUpload (Bucket Key UploadId : JsVal).

(** A promise of the SDK resolves with a value or rejects with an error
    that has the given [message]. *)
Inductive S3Outcome : Type :=
| S3Resolved (v : JsVal)
| S3Rejected (message : JsVal).

Inductive SrvError : Type :=
| S3Failure (message : JsVal)
    (* the rejection of an SDK promise *)
| SrvTypeError (what : string)
    (* TypeError of the runtime: the property [what] is read on null or
       undefined, or an object whose own [what] hides the inherited
       method cannot be converted to a primitive *)
| PresignFailure (partNumber : Z) (detail : string)
    (* `Failed to generate presigned URL for part ${n}: ${error.message}`,
       with [detail] the message as a string *).

Record LambdaResponse : Type := mkLambdaResponse {
  statusCode : Z;
  headers : list (string * string);
  resp_body : JsVal
}.

(** What the functions take from the runtime and the deployment:
    ToString of the values that can be converted and for which [text]
    has no rendering of its own, the message of a TypeError, the value
    of [Date.now().toString()] and of [process.env.S3_BUCKET]. *)
Record Runtime : Type := mkRuntime {
  to_string : JsVal -> string;
  type_error_text : string -> string;
  now : string;
  env_S3_BUCKET : JsVal
}.

(** [`${v}`]: a TypeError for a value that cannot be converted to a
    primitive. *)
Definition text (rt : Runtime) (v : JsVal) : Outcome SrvError string :=
  if unconvertible v then Raised (SrvTypeError "toString")
  else Returned match v with
                | VStr s => s
                | VNum n => pretty n
                | _ => to_string rt v
                end.

(** ToNumber, with the same TypeError; [None] is NaN. *)
Definition number_of (v : JsVal) : Outcome SrvError (option Z) :=
  match js_number v with
  | Ok n => Returned n
  | Throw _ => Raised (SrvTypeError "toString")
  end.

Definition srv_prop (v : JsVal) (k : string) : Outcome SrvError JsVal :=
  match prop v k with
  | Ok x => Returned x
  | Throw _ => Raised (SrvTypeError k)
  end.

Definition corsHeaders : list (string * string) :=
  [("Access-Control-Allow-Origin", "*"); ("Content-Type", "application/json")].

Definition preflightHeaders : list (string * string) :=
  [("Access-Control-Allow-Origin", "*");
   ("Access-Control-Allow-Methods", "POST, OPTIONS");
   ("Access-Control-Allow-Headers", "Content-Type");
   ("Access-Control-Max-Age", "86400")].

Definition json_response (status : Z) (body : JsVal) : LambdaResponse :=
  {| statusCode := status; headers := corsHeaders; resp_body := body |}.

(** [{ error: message }] with status 400. *)
Definition bad_request (message : string) : LambdaResponse :=
  json_response 400 (VObj [("error", VStr message)]).

(** [a.PartNumber - b.PartNumber]; [None] is NaN, as in
    [compare_tokens]. *)
Definition compare_parts (a b : JsVal) : Outcome SrvError (option Z) :=
  x ← srv_prop a "PartNumber";
  y ← srv_prop b "PartNumber";
  n ← number_of x;
  m ← number_of y;
  Returned (js_sub n m).

(** SortCompare around it, as in [sort_compare]. *)
Definition sort_compare_parts (a b : JsVal) : Outcome SrvError (option Z) :=
  match a, b with
  | VUndefined, VUndefined => Returned (Some 0)
  | VUndefined, _ => Returned (Some 1)
  | _, VUndefined => Returned (Some (-1))
  | _, _ => compare_parts a b
  end.

Fixpoint insert_part (x : JsVal) (sorted : list JsVal)
  : Outcome SrvError (list JsVal) :=
  match sorted with
  | [] => Returned [x]
  | y :: rest =>
      c ← sort_compare_parts x y;
      match c with
      | Some d => if 0 <? d then (r ← insert_part x rest; Returned (y :: r))
                  else Returned (x :: sorted)
      | None => Returned (x :: sorted)
      end
  end.

(** [parts.sort((a, b) => a.PartNumber - b.PartNumber)] *)
Fixpoint sort_parts (l : list JsVal) : Outcome SrvError (list JsVal) :=
  match l with
  | [] => Returned []
  | x :: rest => s ← sort_parts rest; insert_part x s
  end.

(** [!(!part.PartNumber || !part.ETag)] *)
Definition valid_part (part : JsVal) : Outcome SrvError bool :=
  pn ← srv_prop part "PartNumber";
  if negb (truthy pn) then Returned false
  else et ← srv_prop part "ETag"; Returned (truthy et).

(** The validation loop of lines 1345-1353 from index [i] on: the index
    of the first invalid part. *)
Fixpoint first_invalid (parts : list JsVal) (i : nat)
  : Outcome SrvError (option nat) :=
  match parts with
  | [] => Returned None
  | part :: rest =>
      match valid_part part with
      | Raised e => Raised e
      | Returned true => first_invalid rest (S i)
      | Returned false => Returned (Some i)
      end
  end.

(** [sortedParts.map(part => ({ PartNumber: part.PartNumber,
    ETag: part.ETag }))] *)
Fixpoint map_parts (parts : list JsVal)
  : Outcome SrvError (list (JsVal * JsVal)) :=
  match parts with
  | [] => Returned []
  | part :: rest =>
      pn ← srv_prop part "PartNumber";
      et ← srv_prop part "ETag";
      fs ← map_parts rest;
      Returned ((pn, et) :: fs)
  end.

Section Handlers.
Variable rt : Runtime.
Variable s3 : S3Call -> S3Outcome.

(** [handleComplete], uploader-presigned.js lines 1332-1384. *)
Definition handleComplete (Bucket Key uploadId parts : JsVal)
  : Outcome SrvError LambdaResponse * list S3Call :=
  match parts with
  | VArr items =>
      if negb (truthy uploadId) || (length items =? 0)%nat
      then (Returned (bad_request "uploadId and parts array are required"), [])
      else
        let checked : Outcome SrvError (nat + list (JsVal * JsVal)) :=
          sortedParts ← sort_parts items;
          bad ← first_invalid sortedParts 0;
          match bad with
          | Some i => Returned (inl i)
          | None => ps ← map_parts sortedParts; Returned (inr ps)
          end in
        match checked with
        | Raised e => (Raised e, [])
        | Returned (inl i) =>
            (Returned (bad_request
               ("Invalid part at index " +:+ pretty i
                +:+ ": PartNumber and ETag are required")), [])
        | Returned (inr ps) =>
            let call := CompleteMultipartUpload Bucket Key uploadId ps in
            (match s3 call with
             | S3Rejected message => Raised (S3Failure message)
             | S3Resolved result =>
                 location ← srv_prop result "Location";
                 b ← srv_prop result "Bucket";
                 k ← srv_prop result "Key";
                 etag ← srv_prop result "ETag";
                 Returned (json_response 200
                   (VObj [("location", location); ("bucket", b);
                          ("key", k); ("etag", etag)]))
             end, [call])
        end
  | _ => (Returned (bad_request "uploadId and parts array are required"), [])
  end.

(** [handleAbort], lines 1389-1421: the [catch] answers 200 as well. *)
Definition handleAbort (Bucket Key uploadId : JsVal)
  : Outcome SrvError LambdaResponse * list S3Call :=
  if negb (truthy uploadId)
  then (Returned (bad_request "uploadId is required"), [])
  else
    let call := AbortMultipartUpload Bucket Key uploadId in
    (Returned (json_response 200
       (VObj [("message",
               VStr (match s3 call with
                     | S3Resolved _ => "Upload aborted successfully"
                     | S3Rejected _ => "Abort request processed"
                     end))])), [call]).

(** [handleUpload], lines 1297-1327. *)
Definition handleUpload (Bucket Key uploadId partNumber : JsVal)
  : Outcome SrvError LambdaResponse * list S3Call :=
  if negb (truthy uploadId) || negb (truthy partNumber)
  then (Returned (bad_request "uploadId and partNumber are required"), [])
  else
    let call := SignUploadPart Bucket Key partNumber uploadId in
    (match s3 call with
     | S3Rejected message => Raised (S3Failure message)
     | S3Resolved presignedUrl =>
         Returned (json_response 200 (VObj [("url", presignedUrl)]))
     end, [call]).

(** [handleInitiate] of uploader-presigned.js, lines 1269-1292. *)
Definition handleInitiate (Bucket Key fileType : JsVal)
  : Outcome SrvError LambdaResponse * list S3Call :=
  let call := CreateMultipartUpload Bucket Key
                (js_or fileType (VStr "application/octet-stream")) in
  (match s3 call with
   | S3Rejected message => Raised (S3Failure message)
   | S3Resolved created =>
       UploadId ← srv_prop created "UploadId";
       Returned (json_response 200
         (VObj [("uploadId", UploadId); ("bucket", Bucket); ("key", Key)]))
   end, [call]).

(** The [for] loop of lambda-presigned-example.js, lines 142-168, with
    [k] iterations left. The error thrown in its [catch] is built with
    a template literal that converts [error.message] to a string. *)
Fixpoint sign_parts (k : nat) (partNumber : Z) (Bucket Key UploadId : JsVal)
  : Outcome SrvError (list JsVal) * list S3Call :=
  match k with
  | O => (Returned [], [])
  | S k' =>
      let call := SignUploadPart Bucket Key (VNum partNumber) UploadId in
      match s3 call with
      | S3Resolved presignedUrl =>
          let '(r, calls) := sign_parts k' (partNumber + 1) Bucket Key UploadId in
          (rest ← r;
           Returned (VObj [("partNumber", VNum partNumber);
                           ("url", presignedUrl)] :: rest),
           call :: calls)
      | S3Rejected message =>
          let cancel := AbortMultipartUpload Bucket Key UploadId in
          (match s3 cancel with
           | S3Resolved _ =>
               detail ← text rt message;
               Raised (PresignFailure partNumber detail)
           | S3Rejected message' => Raised (S3Failure message')
           end, [call; cancel])
      end
  end.

(** [handleInitiate] of lambda-presigned-example.js, lines 121-184.
    [totalParts < 1] converts a truthy [totalParts] to a number, and the
    loop runs for the part numbers [1..ToNumber(totalParts)].
    [fileName] is not used and [fileSize] only for a value that is
    never read; it is taken to be one that converts to a number, as a
    number or a string does. *)
Definition handleInitiate_all (Bucket Key fileType totalParts : JsVal)
  : Outcome SrvError LambdaResponse * list S3Call :=
  match (if truthy totalParts then number_of totalParts
         else Returned None) with
  | Raised e => (Raised e, [])
  | Returned n =>
      if negb (truthy totalParts)
         || match n with Some t => t <? 1 | None => false end
      then (Returned (bad_request
              "totalParts is required and must be greater than 0"), [])
      else
        let call := CreateMultipartUpload Bucket Key
                      (js_or fileType (VStr "application/octet-stream")) in
        match s3 call with
        | S3Rejected message => (Raised (S3Failure message), [call])
        | S3Resolved created =>
            match srv_prop created "UploadId" with
            | Raised e => (Raised e, [call])
            | Returned UploadId =>
                let '(r, calls) :=
                  sign_parts (Z.to_nat (default 0 n)) 1 Bucket Key UploadId in
                (presignedUrls ← r;
                 Returned (json_response 200
                   (VObj [("uploadId", UploadId); ("bucket", Bucket);
                          ("key", Key); ("presignedUrls", VArr presignedUrls)])),
                 call :: calls)
            end
        end
  end.

(** [error.message] *)
Definition message_of (e : SrvError) : JsVal :=
  match e with
  | S3Failure message => message
  | SrvTypeError what => VStr (type_error_text rt what)
  | PresignFailure partNumber detail =>
      VStr ("Failed to generate presigned URL for part " +:+ pretty partNumber
            +:+ ": " +:+ detail)
  end.

(** The [catch] of lines 1256-1263 around the operation handlers. *)
Definition internal_error (r : Outcome SrvError LambdaResponse * list S3Call)
  : Outcome SrvError LambdaResponse * list S3Call :=
  (match r.1 with
   | Returned response => Returned response
   | Raised error =>
       Returned (json_response 500
         (VObj [("error",
                 js_or (message_of error) (VStr "Internal server error"))]))
   end, r.2).

(** [event.body]: a string, given with the outcome of [JSON.parse] on
    it ([None] when it throws), or a value that is not a string. *)
Inductive EventBody : Type :=
| BodyText (parsed : option JsVal)
| BodyValue (v : JsVal).

Record LambdaEvent : Type := mkLambdaEvent {
  httpMethod : JsVal;
  event_body : EventBody
}.

Definition is_string (v : JsVal) (s : string) : bool :=
  match v with VStr s' => String.eqb s' s | _ => false end.

(** [exports.handler] of uploader-presigned.js, lines 1182-1264, for an
    [event] that is an object. The destructuring of line 1212 and the
    template literal of line 1227, which is evaluated when [key] is
    falsy, are outside the [try]: their TypeError is the rejection of
    the handler. The template literal of the [default] case is inside
    it. *)
Definition handler (event : LambdaEvent)
  : Outcome SrvError LambdaResponse * list S3Call :=
  if is_string (httpMethod event) "OPTIONS" then
    (Returned {| statusCode := 200; headers := preflightHeaders;
                 resp_body := VStr EmptyString |}, [])
  else
    match match event_body event with
          | BodyText parsed => parsed
          | BodyValue v => Some v
          end with
    | None => (Returned (bad_request "Invalid JSON in request body"), [])
    | Some body =>
        let fields : Outcome SrvError (list JsVal) :=
          operation ← srv_prop body "operation";
          uploadId ← srv_prop body "uploadId";
          partNumber ← srv_prop body "partNumber";
          parts ← srv_prop body "parts";
          fileName ← srv_prop body "fileName";
          fileType ← srv_prop body "fileType";
          bucket ← srv_prop body "bucket";
          key ← srv_prop body "key";
          Returned [operation; uploadId; partNumber; parts; fileName;
                    fileType; bucket; key] in
        match fields with
        | Returned [operation; uploadId; partNumber; parts; fileName;
                    fileType; bucket; key] =>
            if negb (truthy operation)
            then (Returned (bad_request "Operation is required"), [])
            else
              let Bucket := js_or bucket (env_S3_BUCKET rt) in
              match (if truthy key then Returned key
                     else name ← text rt (js_or fileName (VStr (now rt)));
                          Returned (VStr ("uploads/" +:+ name))) with
              | Raised e => (Raised e, [])
              | Returned Key =>
                  internal_error
                    (if is_string operation "initiate"
                     then handleInitiate Bucket Key fileType
                     else if is_string operation "upload"
                     then handleUpload Bucket Key uploadId partNumber
                     else if is_string operation "complete"
                     then handleComplete Bucket Key uploadId parts
                     else if is_string operation "abort"
                     then handleAbort Bucket Key uploadId
                     else (name ← text rt operation;
                           Returned (bad_request
                                       ("Unknown operation: " +:+ name)), []))
              end
        | Returned _ => (Raised (SrvTypeError "operation"), [])
        | Raised e => (Raised e, [])
        end
    end.
End Handlers.

(** The response as [fetch] sees it behind the API gateway: [ok] for a
    status in 200..299, the JSON body parsed again. The bodies taken
    through it hold strings, integers, arrays and objects, on which
    [JSON.stringify] followed by [JSON.parse] is the identity. *)
Definition as_fetched (statusText : string) (response : LambdaResponse)
  : FetchOutcome :=
  Responded {| r_ok := (200 <=? statusCode response)
                       && (statusCode response <? 300);
               r_status := statusCode response;
               r_statusText := statusText;
               r_etag := None;
               r_json := Some (resp_body response) |}.

(** A completion record as the client sends it in the request body. *)
Definition part_json (part : Part) : JsVal :=
  VObj [("PartNumber", VNum (PartNumber part)); ("ETag", VStr (ETag part))].

(** *** Vocabulary of the properties of the Lambda functions *)

(** The numeric [PartNumber] of a part of a completion request. *)
Definition part_field_number (part : JsVal) : option Z :=
  match part with
  | VObj f => match assoc "PartNumber" f with VNum n => Some n | _ => None end
  | _ => None
  end.

(** The pair ([PartNumber], [ETag]) of a part object. *)
Definition part_pair (part : JsVal) : JsVal * JsVal :=
  match part with
  | VObj f => (assoc "PartNumber" f, assoc "ETag" f)
  | _ => (VUndefined, VUndefined)
  end.

(** Both fields of the part are truthy. *)
Definition complete_part (part : JsVal) : bool :=
  truthy (part_pair part).1 && truthy (part_pair part).2.

(** The status of a response, [None] for a thrown error. *)
Definition status_of (res : Outcome SrvError LambdaResponse) : option Z :=
  match res with
  | Returned response => Some (statusCode response)
  | Raised _ => None
  end.

(** The request has no body to destructure: [event.body] is [undefined]
    or [null], or the JSON text [null]. *)
Definition bodiless (event : LambdaEvent) : bool :=
  match event_body event with
  | BodyValue VUndefined | BodyValue VNull | BodyText (Some VUndefined)
  | BodyText (Some VNull) => true
  | _ => false
  end.

(** [body.k] for a body that can be destructured. *)
Definition body_field (body : JsVal) (k : string) : JsVal :=
  match body with VObj f => assoc k f | _ => VUndefined end.

(** [event.body] is given as the source sees it: a string as
    [BodyText], with what [JSON.parse] makes of it. *)
Definition body_represented (event : LambdaEvent) : bool :=
  match event_body event with
  | BodyValue (VStr _) => false
  | _ => true
  end.

(** The request names an operation and no [key], and its [fileName]
    cannot be converted to a string: [Key] cannot be built. *)
Definition key_unrenderable (event : LambdaEvent) : bool :=
  match match event_body event with
        | BodyText parsed => parsed
        | BodyValue v => Some v
        end with
  | Some body =>
      truthy (body_field body "operation")
      && negb (truthy (body_field body "key"))
      && unconvertible (body_field body "fileName")
  | None => false
  end.

(** [{ partNumber: p, url }] as [handleInitiate] builds it. *)
Definition signed_token (url : Z -> JsVal) (p : Z) : JsVal :=
  VObj [("partNumber", VNum p); ("url", url p)].

(** The part numbers [from, from + 1, ...], [k] of them. *)
Definition numbers_from (from : Z) (k : nat) : list Z :=
  map (fun j => from + Z.of_nat j) (seq 0 k).

(** An S3 in which every operation succeeds: sessions get the id [uid]
    and the token of part [p] is [url p]. *)
Definition s3_fine (uid : JsVal) (url : Z -> JsVal) (call : S3Call) : S3Outcome :=
  match call with
  | CreateMultipartUpload _ _ _ => S3Resolved (VObj [("UploadId", uid)])
  | SignUploadPart _ _ (VNum p) _ => S3Resolved (url p)
  | SignUploadPart _ _ _ _ => S3Rejected (VStr "bad part number")
  | CompleteMultipartUpload b k _ _ =>
      S3Resolved (VObj [("Location", VStr "l"); ("Bucket", b); ("Key", k);
                        ("ETag", VStr "e")])
  | AbortMultipartUpload _ _ _ => S3Resolved (VObj [])
  end.

(** A runtime for the examples. *)
Definition plain_runtime : Runtime :=
  {| to_string := js_string;
     type_error_text := fun what =>
       if String.eqb what "toString"
       then "Cannot convert object to primitive value"
       else "Cannot read properties of undefined";
     now := "1700000000000"; env_S3_BUCKET := VStr "your-bucket-name" |}.

(** What the four operation handlers have in common: at most one S3
    call, and a response that is either a 200 given after one call or a
    400 given without any. *)
Definition well_behaved
    (r : Outcome SrvError LambdaResponse * list S3Call) : Prop :=
  (length r.2 <= 1)%nat /\
  match r.1 with
  | Returned response =>
      (statusCode response = 200 /\ length r.2 = 1%nat) \/
      (statusCode response = 400 /\ r.2 = [])
  | Raised _ => True
  end.

(** *** Being suspended *)

(** While a batch is awaited, some part is in flight. *)
Definition waiting (s : State) : Prop :=
  forall i, pc s = AwaitBatch i -> flights s <> [].

(** What [upload] is suspended on in state [s] can settle: the session
    request, the PUT or the timer of a part in flight, the completion
    request, the cancel request. *)
Definition pending (s : State) : Prop :=
  match pc s with
  | AwaitInit => forall o, is_Some (step s (InitSettled o))
  | AwaitBatch _ =>
      exists f, In f (flights s) /\
        if fl_sleeping f then is_Some (step s (TimerFired (fl_part f)))
        else forall o, is_Some (step s (PutSettled (fl_part f) o))
  | AwaitComplete => forall o, is_Some (step s (CompleteSettled o))
  | AwaitAbort _ => forall o, is_Some (step s (AbortSettled o))
  | Resolved _ | Rejected _ => True
  end.

(** The sum of the pauses of a log. *)
Definition total_wait (log : list PartIO) : Z :=
  foldr Z.add 0 (waits_of log).

(** *** Counting the attempts of a run *)

(** [s'] is [s] after the inner loop of [upload] has dispatched some
    parts with indices in [lo, hi), in ascending order. *)
Inductive dispatches_in : nat -> nat -> State -> State -> Prop :=
| dispatches_in_refl (lo hi : nat) (s : State) :
    (lo <= hi)%nat -> dispatches_in lo hi s s
| dispatches_in_step (lo hi : nat) (s s' : State) (idx : nat) (url : JsVal) :
    (lo <= idx < hi)%nat ->
    aborted (this s) = false ->
    dispatches_in (S idx) hi (uploadPart_next (Z.of_nat idx + 1) url 0 s) s' ->
    dispatches_in lo hi s s'.

(** The PUTs that a part in flight has behind it or under way. *)
Definition attempts_made (f : Flight) : nat :=
  (Z.to_nat (fl_retries f) + (if fl_sleeping f then 0 else 1))%nat.

(** No part is in flight twice; a part in flight has been PUT once per
    failed attempt, and once more when it is at a PUT; a part that is
    not in flight has been PUT at most [maxRetries] times. *)
Record counted (s : State) : Prop := mkCounted {
  ct_nodup : NoDup (map fl_part (flights s));
  ct_flights :
    Forall (fun f => put_count (fl_part f) (trace s) = attempts_made f /\
                     0 <= fl_retries f < maxRetries (this s)) (flights s);
  ct_others : forall p, ~ In p (map fl_part (flights s)) ->
    Z.of_nat (put_count p (trace s)) <= Z.max 0 (maxRetries (this s))
}.

(** The parts from index [lo] on have not been dispatched. *)
Definition untouched_from (lo : nat) (s : State) : Prop :=
  forall idx, (lo <= idx)%nat ->
    put_count (Z.of_nat idx + 1) (trace s) = 0%nat /\
    ~ In (Z.of_nat idx + 1) (map fl_part (flights s)).

(** The parts that the loop of [upload] has still to dispatch have not
    been dispatched. *)
Definition frontier (s : State) : Prop :=
  match pc s with
  | AwaitInit => untouched_from 0 s
  | AwaitBatch i => untouched_from (i + maxConcurrent) s
  | _ => True
  end.

(** *** A run in which nothing fails *)

(** The URL of part [p] as a value, [undefined] when reading it throws. *)
Definition url_at (s : State) (p : Z) : JsVal :=
  match token_url s p with Ok v => v | Throw _ => VUndefined end.

(** Part [p] at the PUT of its first attempt. *)
Definition first_flight (s : State) (p : Z) : Flight :=
  {| fl_part := p; fl_url := url_at s p; fl_retries := 0;
     fl_sleeping := false |}.

(** [p] is one of the parts [lo .. hi - 1]. *)
Definition between (lo hi p : Z) : bool := (lo <=? p) && (p <? hi).

(** The session reply, then the PUT of every part settling in the order
    of the part numbers, then the completion reply. *)
Definition smooth_events (n : nat) (o : FetchOutcome) (net : Z -> FetchOutcome)
    (reply : FetchOutcome) : list Event :=
  InitSettled o :: map (fun p => PutSettled p (net p)) (numbers_from 1 n)
  ++ [CompleteSettled reply].

(** [upload] awaits batch [i], of which the parts [lo .. hi - 1] are at
    their first PUT, the parts before them are done, and no other part
    has been started. *)
Record smooth (lo hi : Z) (i : nat) (s : State) : Prop := mkSmooth {
  sm_pc : pc s = AwaitBatch i;
  sm_flights :
    flights s = map (first_flight s) (numbers_from lo (Z.to_nat (hi - lo)));
  sm_hi : hi = Z.of_nat (Nat.min (i + maxConcurrent) (totalParts s)) + 1;
  sm_lo : Z.of_nat i + 1 <= lo < hi;
  sm_aborted : aborted (this s) = false;
  sm_retries : 1 <= maxRetries (this s);
  sm_tokens : Forall (fun tok => is_obj tok = true) (presignedUrls (this s));
  sm_length : length (presignedUrls (this s)) = totalParts s;
  sm_puts : forall p,
    put_count p (trace s) = if between 1 hi p then 1%nat else 0%nat;
  sm_completes : completes (trace s) = []
}.
(** * Properties *)

(** ** Worked examples *)

Example uploadPart_fail_fail_ok :
  uploadPart 3 1000 2 (fun n => if n <=? 2 then resp_503 else resp_ok "abc") =
  Some (Ok (Some {| PartNumber := 2; ETag := "abc" |}),
        [Attempt 1; Wait 1000; Attempt 2; Wait 2000; Attempt 3]).
Proof. reflexivity. Qed.

Example uploadPart_all_fail :
  uploadPart 3 1000 2 (fun _ => resp_503) =
  Some (Throw (ErrUploadFailed "Service Unavailable" 503),
        [Attempt 1; Wait 1000; Attempt 2; Wait 2000; Attempt 3]).
Proof. reflexivity. Qed.

Example uploadPart_quoted_etag :
  uploadPart 3 1000 1 (fun _ => resp_ok (String dquote ("d41d8" +:+ String dquote EmptyString))) =
  Some (Ok (Some {| PartNumber := 1; ETag := "d41d8" |}), [Attempt 1]).
Proof. reflexivity. Qed.

Example scenario_B_waits :
  waits_of [Attempt 1; Wait 1000; Attempt 2; Wait 2000; Attempt 3]
  = [1 * 1000; 2 * 1000].
Proof. reflexivity. Qed.

Example default_uploader_of_constructor :
  (match Presigned_constructor VUndefined with
   | Ok t => uploader_of t
   | Throw _ => None
   end) = Some default_uploader.
Proof. reflexivity. Qed.

Example uploadPart_negative_maxRetries :
  uploadPart (-1) 1000 1 (fun _ => resp_ok "abc") = Some (Ok None, []).
Proof. reflexivity. Qed.

Example scenario_A_trace :
  trace <$> scenario_A =
  Some [InitCall 12582912 (Some 3);
        PutCall 1 (VStr "u1") 0 5242880;
        PutCall 2 (VStr "u2") 5242880 10485760;
        PutCall 3 (VStr "u3") 10485760 12582912;
        CompleteCall (VStr "u")
          [mkPart 1 "e1"; mkPart 2 "e2"; mkPart 3 "e3"] (VStr "b") (VStr "k")].
Proof. reflexivity. Qed.

Example scenario_B_trace :
  (pc <$> scenario_B) = Some (Resolved (VObj [("location", VStr "l")])) /\
  (trace <$> scenario_B)
  = Some [InitCall 12582912 (Some 3);
          PutCall 1 (VStr "u1") 0 5242880;
          PutCall 2 (VStr "u2") 5242880 10485760;
          PutCall 3 (VStr "u3") 10485760 12582912;
          Sleep 2 1000;
          PutCall 2 (VStr "u2") 5242880 10485760;
          Sleep 2 2000;
          PutCall 2 (VStr "u2") 5242880 10485760;
          CompleteCall (VStr "u")
            [mkPart 1 "e1"; mkPart 2 "e2"; mkPart 3 "e3"] (VStr "b") (VStr "k")].
Proof. split; vm_compute; reflexivity. Qed.

(** ** Byte ranges *)

Lemma ceil_div_bounds (a b n : Z) :
  0 < b -> ceil_div a b = Some n -> b * (n - 1) < a <= b * n.
Proof.
  unfold ceil_div. intros Hb H.
  destruct (Z.eqb_spec b 0) as [->|_]; [lia|].
  injection H as <-.
  pose proof (Z.mul_div_le (- a) b Hb).
  pose proof (Z.mul_succ_div_gt (- a) b Hb).
  lia.
Qed.

Lemma ceil_div_pos (a b : Z) : b <> 0 -> is_Some (ceil_div a b).
Proof.
  unfold ceil_div. intros Hb. destruct (Z.eqb_spec b 0); [done|eauto].
Qed.

Lemma part_range_inner (chunk size n p : Z) :
  0 < chunk -> chunk * (n - 1) < size -> 1 <= p < n ->
  part_end chunk size p = part_start chunk (p + 1).
Proof. unfold part_end, part_start. intros. nia. Qed.

Lemma part_range_last (chunk size n : Z) :
  0 < chunk -> size <= chunk * n -> part_end chunk size n = size.
Proof. unfold part_end, part_start. intros. nia. Qed.

(** C2. For [fileSize > 0] and [chunkSize > 0] the ranges computed by
    [uploadSinglePart] for the parts [1..totalParts], with [totalParts =
    ceil(fileSize / chunkSize)] as computed by [getPresignedUrls], tile
    [0, fileSize): the first range starts at 0, each range ends where the
    next one starts, the last one ends at [fileSize], every byte offset
    lies in exactly one range, every part before the last has length
    [chunkSize] and the last has a length between 1 and [chunkSize]. *)
Theorem plan_tiles_file (size chunk : Z) :
  0 < size -> 0 < chunk ->
  exists n,
    ceil_div size chunk = Some n /\ 1 <= n /\
    part_start chunk 1 = 0 /\
    part_end chunk size n = size /\
    (forall p, 1 <= p < n ->
       part_end chunk size p = part_start chunk (p + 1) /\
       part_end chunk size p - part_start chunk p = chunk) /\
    0 < part_end chunk size n - part_start chunk n <= chunk /\
    (forall b, 0 <= b < size ->
       exists p, (1 <= p <= n /\
                  part_start chunk p <= b < part_end chunk size p) /\
         forall q, 1 <= q <= n ->
           part_start chunk q <= b < part_end chunk size q -> q = p).
Proof.
  intros Hsize Hchunk.
  destruct (ceil_div_pos size chunk) as [n Hn]; [lia|].
  pose proof (ceil_div_bounds _ _ _ Hchunk Hn) as [Hlo Hhi].
  exists n. split; [done|].
  assert (1 <= n) by nia.
  split; [done|]. split; [unfold part_start; lia|].
  split; [by apply part_range_last|].
  split.
  { intros p Hp. split; [by eapply part_range_inner|].
    unfold part_end, part_start. nia. }
  split.
  { rewrite part_range_last by done. unfold part_start. nia. }
  intros b Hb.
  exists (b / chunk + 1).
  pose proof (Z.mul_div_le b chunk Hchunk).
  pose proof (Z.mul_succ_div_gt b chunk Hchunk).
  assert (0 <= b / chunk) by (apply Z.div_pos; lia).
  split.
  - unfold part_end, part_start. split; [nia|]. split; [nia|].
    apply Z.min_glb_lt; nia.
  - unfold part_end, part_start. intros q Hq [Hq1 Hq2].
    apply Z.min_glb_lt_iff in Hq2 as [Hq2 _]. nia.
Qed.

Lemma plan_tiles_file_witness :
  exists n, ceil_div 12582912 5242880 = Some n /\ 1 <= n /\
    part_start 5242880 1 = 0 /\
    part_end 5242880 12582912 n = 12582912 /\
    (forall p, 1 <= p < n ->
       part_end 5242880 12582912 p = part_start 5242880 (p + 1) /\
       part_end 5242880 12582912 p - part_start 5242880 p = 5242880) /\
    0 < part_end 5242880 12582912 n - part_start 5242880 n <= 5242880 /\
    (forall b, 0 <= b < 12582912 ->
       exists p, (1 <= p <= n /\
                  part_start 5242880 p <= b < part_end 5242880 12582912 p) /\
         forall q, 1 <= q <= n ->
           part_start 5242880 q <= b < part_end 5242880 12582912 q -> q = p).
Proof. apply (plan_tiles_file 12582912 5242880); lia. Defined.

Example scenario_A_parts :
  ceil_div 12582912 5242880 = Some 3 /\
  map (fun p => part_end 5242880 12582912 p - part_start 5242880 p) [1; 2; 3]
  = [5242880; 5242880; 2097152].
Proof. split; reflexivity. Qed.

(** ** Constructor defaults *)

Lemma js_or_truthy (v : JsVal) (d : Z) : d <> 0 -> truthy (js_or v (VNum d)) = true.
Proof.
  intros Hd. unfold js_or. destruct (truthy v) eqn:E; [done|].
  simpl. by destruct (Z.eqb_spec d 0).
Qed.

Lemma js_or_defaulted (options : JsVal) (name : string) (d : Z) (v : JsVal) :
  prop (default_param options) name = Ok v ->
  defaulted options name d (js_or v (VNum d)).
Proof.
  intros H. exists v. split; [done|]. unfold js_or.
  split; intros ->; done.
Qed.

Lemma truthy_not_zero (v : JsVal) : truthy v = true -> v <> VNum 0.
Proof. by intros H ->. Qed.

(** C10. Each of the three constructors returns for every [options]
    argument but [null] (the default parameter replaces [undefined]
    only, and a property of [null] cannot be read), and in the object it
    builds a falsy [chunkSize], [maxRetries] or [retryDelay] option (0,
    [undefined], [null], NaN, [false], the empty string) is replaced by
    the default 5 MiB, 3 or 1000, and a truthy one is stored as given;
    hence no options object yields a stored value of 0 for any of the
    three. *)
Theorem constructor_falsy_options
    (ctor : JsVal -> Result Tuning) (options : JsVal) :
  In ctor constructors ->
  options <> VNull ->
  exists t,
    ctor options = Ok t /\
    defaulted options "chunkSize" default_chunkSize (t_chunkSize t) /\
    defaulted options "maxRetries" default_maxRetries (t_maxRetries t) /\
    defaulted options "retryDelay" default_retryDelay (t_retryDelay t) /\
    t_chunkSize t <> VNum 0 /\ t_maxRetries t <> VNum 0 /\
    t_retryDelay t <> VNum 0.
Proof.
  intros Hctor Hnull.
  assert (exists cs mr rd,
    prop (default_param options) "chunkSize" = Ok cs /\
    prop (default_param options) "maxRetries" = Ok mr /\
    prop (default_param options) "retryDelay" = Ok rd)
    as (cs & mr & rd & Hcs & Hmr & Hrd).
  { destruct options; try done; simpl; by eexists _, _, _. }
  exists {| t_chunkSize := js_or cs (VNum default_chunkSize);
            t_maxRetries := js_or mr (VNum default_maxRetries);
            t_retryDelay := js_or rd (VNum default_retryDelay) |}.
  split.
  - unfold constructors in Hctor. simpl in Hctor.
    destruct Hctor as [<-|[<-|[<-|[]]]];
      unfold Presigned_constructor, DirectPresigned_constructor,
        Uploader_constructor; by rewrite Hcs, Hmr, Hrd.
  - simpl. repeat split; try (by apply js_or_defaulted);
      apply truthy_not_zero, js_or_truthy; done.
Qed.

Lemma constructor_falsy_options_witness :
  exists t,
    Uploader_constructor zero_options = Ok t /\
    defaulted zero_options "chunkSize" default_chunkSize (t_chunkSize t) /\
    defaulted zero_options "maxRetries" default_maxRetries (t_maxRetries t) /\
    defaulted zero_options "retryDelay" default_retryDelay (t_retryDelay t) /\
    t_chunkSize t <> VNum 0 /\ t_maxRetries t <> VNum 0 /\
    t_retryDelay t <> VNum 0.
Proof.
  apply (constructor_falsy_options Uploader_constructor zero_options).
  - right. right. left. reflexivity.
  - discriminate.
Defined.

(** The three constructors on the options of the witness, on no
    argument, and on [null]. *)
Example constructor_zero_options :
  map (fun ctor => ctor zero_options) constructors
  = replicate 3 (Ok {| t_chunkSize := VNum 5242880; t_maxRetries := VNum 3;
                       t_retryDelay := VNum 1000 |}) /\
  map (fun ctor => ctor VUndefined) constructors
  = replicate 3 (Ok {| t_chunkSize := VNum 5242880; t_maxRetries := VNum 3;
                       t_retryDelay := VNum 1000 |}) /\
  map (fun ctor => throws (ctor VNull)) constructors = [true; true; true].
Proof. repeat split; reflexivity. Qed.

Example constructor_zero_retries :
  Presigned_constructor (VObj [("maxRetries", VNum 0); ("chunkSize", VNum 1024)])
  = Ok {| t_chunkSize := VNum 1024; t_maxRetries := VNum 3;
          t_retryDelay := VNum 1000 |}.
Proof. reflexivity. Qed.

(** ** The retry loop *)

Section UploadPartFacts.
Variables (maxR delay p : Z) (net : Z -> FetchOutcome).

(** The recursion budget [maxRetries - retries] is never exhausted. *)
Lemma uploadPart_loop_total (fuel : nat) (retries : Z) (log : list PartIO) :
  maxR - retries <= Z.of_nat fuel ->
  is_Some (uploadPart_loop maxR delay p net fuel retries log).
Proof.
  revert retries log.
  induction fuel as [|fuel IH]; intros retries log Hfuel; simpl.
  - destruct (Z.ltb_spec retries maxR); [lia|eauto].
  - destruct (Z.ltb_spec retries maxR); [|eauto].
    destruct (put_part p (net (retries + 1))); [eauto|].
    destruct (Z.geb_spec (retries + 1) maxR) as [?|?]; [eauto|].
    apply IH. lia.
Qed.

Lemma uploadPart_total : is_Some (uploadPart maxR delay p net).
Proof. apply uploadPart_loop_total. lia. Qed.

(** What the loop appends to the log and how it ends. *)
Lemma uploadPart_loop_spec (fuel : nat) :
  forall retries log r log',
  uploadPart_loop maxR delay p net fuel retries log = Some (r, log') ->
  exists k : nat,
    log' = log ++ schedule delay (retries + 1) k /\
    match r with
    | Ok None => k = 0%nat /\ maxR <= retries
    | Ok (Some part) =>
        (1 <= k)%nat /\ retries + Z.of_nat k <= maxR /\
        put_part p (net (retries + Z.of_nat k)) = Ok part
    | Throw e =>
        (1 <= k)%nat /\ retries + Z.of_nat k = maxR /\
        put_part p (net maxR) = Throw e
    end.
Proof.
  induction fuel as [|fuel IH]; intros retries log r log'; simpl.
  - destruct (Z.ltb_spec retries maxR); [done|].
    intros [= <- <-]. exists 0%nat. by rewrite app_nil_r.
  - destruct (Z.ltb_spec retries maxR) as [Hlt|Hge].
    2:{ intros [= <- <-]. exists 0%nat. by rewrite app_nil_r. }
    destruct (put_part p (net (retries + 1))) as [part|e] eqn:Hput.
    { intros [= <- <-]. exists 1%nat. simpl.
      repeat split; [lia|lia|]. by replace (retries + Z.of_nat 1) with (retries + 1) by lia. }
    destruct (Z.geb_spec (retries + 1) maxR) as [Hlast|Hmore].
    { intros [= <- <-]. exists 1%nat. simpl.
      repeat split; [lia|lia|]. by replace maxR with (retries + 1) by lia. }
    intros Hrec. apply IH in Hrec as (k & -> & Hk).
    assert (1 <= k)%nat as Hk1.
    { destruct r as [[part|]|e']; lia. }
    exists (S k). split.
    + destruct k as [|k]; [lia|].
      rewrite <- !app_assoc. reflexivity.
    + replace (retries + Z.of_nat (S k)) with (retries + 1 + Z.of_nat k) by lia.
      destruct r as [[part|]|e']; [| lia |]; repeat split; try lia; apply Hk.
Qed.

Lemma uploadPart_log (r : Result (option Part)) (log : list PartIO) :
  uploadPart maxR delay p net = Some (r, log) ->
  exists k : nat, log = schedule delay 1 k /\
    (Z.of_nat k <= Z.max 0 maxR) /\
    forall e, r = Throw e -> Z.of_nat k = maxR /\ put_part p (net maxR) = Throw e.
Proof.
  intros H. apply uploadPart_loop_spec in H as (k & -> & Hk).
  exists k. split; [done|]. split.
  - destruct r as [[part|]|e]; lia.
  - intros e ->. split; [lia|apply Hk].
Qed.
End UploadPartFacts.

Lemma attempts_of_schedule (delay from : Z) (k : nat) :
  attempts_of (schedule delay from k) = map (fun j => from + Z.of_nat j) (seq 0 k).
Proof.
  revert from. induction k as [|k IH]; intros from; [done|].
  simpl. unfold attempts_of in *. simpl. f_equal; [lia|].
  destruct k as [|k]; [done|].
  change (omap _ (Wait ?w :: ?l)) with (attempts_of l). unfold attempts_of.
  rewrite IH. rewrite <- seq_shift, map_map.
  apply map_ext. intros j. lia.
Qed.

Lemma elem_of_schedule (delay from : Z) (k : nat) (n : Z) :
  In (Attempt n) (schedule delay from k) <-> from <= n < from + Z.of_nat k.
Proof.
  revert from. induction k as [|k IH]; intros from.
  - simpl. lia.
  - change (schedule delay from (S k)) with
      (Attempt from :: match k with
                       | O => []
                       | S _ => Wait (delay * from) :: schedule delay (from + 1) k
                       end).
    destruct k as [|k].
    + simpl. split; [intros [[= <-]|[]]; lia | intros ?; left; f_equal; lia].
    + cbn [In]. rewrite IH. split.
      * intros [[= <-]|[[=]|?]]; lia.
      * intros ?. destruct (decide (n = from)) as [->|]; [by left|].
        right; right. lia.
Qed.

Lemma wait_before_schedule (delay from : Z) (k : nat) (n : Z) :
  wait_before n (schedule delay from k) =
  if decide (from < n < from + Z.of_nat k) then Some (delay * (n - 1)) else None.
Proof.
  revert from. induction k as [|k IH]; intros from.
  - simpl. case_decide; [lia|done].
  - change (schedule delay from (S k)) with
      (Attempt from :: match k with
                       | O => []
                       | S _ => Wait (delay * from) :: schedule delay (from + 1) k
                       end).
    destruct k as [|k].
    + simpl. case_decide; [lia|done].
    + change (wait_before n (Attempt from :: Wait (delay * from) ::
                schedule delay (from + 1) (S k)))
        with (if from + 1 =? n then Some (delay * from)
              else wait_before n (schedule delay (from + 1) (S k))).
      destruct (Z.eqb_spec (from + 1) n) as [<-|Hne].
      * case_decide; [|lia]. do 2 f_equal. lia.
      * rewrite IH. repeat case_decide; try done; lia.
Qed.

(** When every attempt fails, [uploadPart] makes [maxRetries] attempts in
    all and throws the error of the last one. *)
Lemma uploadPart_all_attempts_fail (maxR delay p : Z) (net : Z -> FetchOutcome) :
  1 <= maxR ->
  (forall n, exists e, put_part p (net n) = Throw e) ->
  exists e, uploadPart maxR delay p net
            = Some (Throw e, schedule delay 1 (Z.to_nat maxR)) /\
    put_part p (net maxR) = Throw e /\
    attempts_of (schedule delay 1 (Z.to_nat maxR))
    = map (fun j => 1 + Z.of_nat j) (seq 0 (Z.to_nat maxR)).
Proof.
  intros HmaxR Hfail.
  destruct (uploadPart_total maxR delay p net) as [[r log] Hrun].
  pose proof (uploadPart_loop_spec _ _ _ _ _ _ _ _ _ Hrun) as (k & Hlog & Hk).
  simpl in Hlog. subst log.
  destruct r as [[part|]|e].
  - destruct Hk as (_ & _ & Hput).
    destruct (Hfail (0 + Z.of_nat k)) as [e He]. congruence.
  - lia.
  - destruct Hk as (_ & Hk & Hput). exists e.
    replace (Z.to_nat maxR) with k by lia.
    split; [done|]. split; [done|]. apply attempts_of_schedule.
Qed.

(** C3, evaluated on the code. With the default [maxRetries = 3] a part
    whose every attempt is answered with status 503 is attempted three
    times in all (two retries), after which [uploadPart] throws the last
    error; in [upload] the third failure of part 3 already takes the
    [catch] path (the abort call is made with that error pending) and no
    fourth PUT of the part is ever made or awaited. *)
Theorem uploadPart_default_attempts (p : Z) :
  uploadPart 3 1000 p (fun _ => resp_503)
  = Some (Throw (ErrUploadFailed "Service Unavailable" 503),
          [Attempt 1; Wait 1000; Attempt 2; Wait 2000; Attempt 3]) /\
  length (attempts_of [Attempt 1; Wait 1000; Attempt 2; Wait 2000; Attempt 3])
  = 3%nat /\
  (pc <$> scenario_C)
  = Some (AwaitAbort (ErrUploadFailed "Service Unavailable" 503)) /\
  (put_count 3 ∘ trace <$> scenario_C) = Some 3%nat /\
  (scenario_C ≫= fun s => step s (PutSettled 3 resp_503)) = None /\
  (scenario_C ≫= fun s => step s (TimerFired 3)) = None.
Proof. repeat split; reflexivity. Qed.

(** ** Retry delays *)

Lemma wait_in_schedule (delay from : Z) (k : nat) (ms : Z) :
  In (Wait ms) (schedule delay from k) ->
  exists n, from <= n /\ n + 1 < from + Z.of_nat k /\ ms = delay * n.
Proof.
  revert from. induction k as [|k IH]; intros from; [done|].
  change (schedule delay from (S k)) with
    (Attempt from :: match k with
                     | O => []
                     | S _ => Wait (delay * from) :: schedule delay (from + 1) k
                     end).
  intros [Hin|Hin]; [done|]. destruct k as [|k]; [done|].
  destruct Hin as [[= <-]|Hin].
  - exists from. lia.
  - apply IH in Hin as (n & Hn & Hk & ->). exists n. lia.
Qed.

(** C4. Retry attempts are numbered from 1: retry attempt number [n] of
    a part is the attempt made after [n] attempts have failed. Every
    call of [uploadPart] returns, and in its log every retry attempt
    number [n] that is made is immediately preceded by a pause of
    [retryDelay * n] milliseconds, where [n] is also the number of the
    attempt that has just failed (the [retries] of the source after its
    increment): retry attempt 2 is preceded by a pause of 2 times the
    base delay and retry attempt 3 by one of 3 times the base delay.
    The first attempt is preceded by no pause, and there is no pause
    but these. *)
Theorem retry_delay_linear (maxR delay p : Z) (net : Z -> FetchOutcome) :
  exists r log,
    uploadPart maxR delay p net = Some (r, log) /\
    wait_before 1 log = None /\
    (forall n, 1 <= n -> In (retry_attempt n) log ->
       wait_before_retry n log = Some (delay * n)) /\
    (forall ms, In (Wait ms) log ->
       exists n, 1 <= n /\ In (retry_attempt n) log /\ ms = delay * n).
Proof.
  destruct (uploadPart_total maxR delay p net) as [[r log] Hrun].
  exists r, log. split; [done|].
  apply uploadPart_log in Hrun as (k & -> & _).
  split; [|split].
  - rewrite wait_before_schedule. case_decide; [lia|done].
  - intros n Hn Hin. unfold retry_attempt in Hin.
    apply elem_of_schedule in Hin.
    unfold wait_before_retry. rewrite wait_before_schedule.
    case_decide; [|lia]. do 2 f_equal. lia.
  - intros ms Hin. apply wait_in_schedule in Hin as (n & Hn & Hk & ->).
    exists n. split; [done|]. split; [|done].
    apply elem_of_schedule. lia.
Qed.

Lemma retry_delay_linear_witness :
  exists r log,
    uploadPart 4 1000 2 (fun _ => resp_503) = Some (r, log) /\
    log = [Attempt 1; Wait 1000; Attempt 2; Wait 2000; Attempt 3;
           Wait 3000; Attempt 4] /\
    wait_before_retry 1 log = Some (1000 * 1) /\
    wait_before_retry 2 log = Some (1000 * 2) /\
    wait_before_retry 3 log = Some (1000 * 3).
Proof.
  destruct (retry_delay_linear 4 1000 2 (fun _ => resp_503))
    as (r & log & Hrun & _ & Hlog & _).
  exists r, log. split; [exact Hrun|].
  assert (log = [Attempt 1; Wait 1000; Attempt 2; Wait 2000; Attempt 3;
                 Wait 3000; Attempt 4]) as Hl.
  { vm_compute in Hrun. by injection Hrun as _ <-. }
  split; [exact Hl|].
  repeat split; apply Hlog; try lia; rewrite Hl; unfold retry_attempt;
    simpl; tauto.
Defined.

(** Scenario B of the specification: part 2 fails twice and then
    succeeds, with two pauses, of 1 and 2 times the base delay. *)
Example scenario_B_delays :
  uploadPart 3 1000 2 fail_twice
  = Some (Ok (Some {| PartNumber := 2; ETag := "abc" |}),
          [Attempt 1; Wait 1000; Attempt 2; Wait 2000; Attempt 3]) /\
  waits_of [Attempt 1; Wait 1000; Attempt 2; Wait 2000; Attempt 3]
  = [1000 * 1; 1000 * 2].
Proof. split; reflexivity. Qed.

(** ** Validation of the session reply *)

(** The comparator throws when it cannot be applied to one of its
    arguments, and only then; what it throws is a TypeError. *)
Lemma compare_tokens_throws (a b : JsVal) :
  throws (compare_tokens a b) = negb (sortable a && sortable b).
Proof.
  unfold compare_tokens, sortable, js_number.
  destruct (prop a "partNumber") as [x|]; simpl; [|done].
  destruct (prop b "partNumber") as [y|]; simpl; [|by rewrite andb_false_r].
  by destruct (unconvertible x), (unconvertible y).
Qed.

Lemma compare_tokens_error (a b : JsVal) (e : JsError) :
  compare_tokens a b = Throw e -> exists what, e = ErrType what.
Proof.
  unfold compare_tokens, js_number.
  destruct a, b; simpl; try (intros [= <-]; by eexists);
    repeat (case_match; simpl; try done); intros [= <-]; by eexists.
Qed.

Lemma sort_compare_defined (a b : JsVal) :
  is_undefined a = false -> is_undefined b = false ->
  sort_compare a b = compare_tokens a b.
Proof. by destruct a, b. Qed.

Lemma sort_compare_error (a b : JsVal) (e : JsError) :
  sort_compare a b = Throw e -> exists what, e = ErrType what.
Proof.
  destruct a, b; simpl; try done; apply compare_tokens_error.
Qed.

Lemma insert_token_error (x : JsVal) (l : list JsVal) (e : JsError) :
  insert_token x l = Throw e -> exists what, e = ErrType what.
Proof.
  induction l as [|y l IH]; simpl; [done|].
  destruct (sort_compare x y) as [c|e'] eqn:Hc; simpl.
  - destruct c as [d|]; [|done]. destruct (0 <? d); [|done].
    destruct (insert_token x l) as [r|e'']; simpl; [done|].
    intros [= <-]. by apply IH.
  - intros [= <-]. by eapply sort_compare_error.
Qed.

Lemma sort_tokens_error (l : list JsVal) (e : JsError) :
  sort_tokens l = Throw e -> exists what, e = ErrType what.
Proof.
  induction l as [|x l IH]; simpl; [done|].
  destruct (sort_tokens l) as [s|e']; simpl.
  - apply insert_token_error.
  - intros [= <-]. by apply IH.
Qed.

Lemma insert_token_perm (x : JsVal) (l l' : list JsVal) :
  insert_token x l = Ok l' -> l' ≡ₚ x :: l.
Proof.
  revert l'. induction l as [|y l IH]; intros l'; simpl.
  - by intros [= <-].
  - destruct (sort_compare x y) as [c|]; [|done]. simpl.
    destruct c as [d|]; [|by intros [= <-]].
    destruct (0 <? d); [|by intros [= <-]].
    destruct (insert_token x l) as [r|]; [|done]. simpl.
    intros [= <-]. rewrite (IH r eq_refl). apply Permutation_swap.
Qed.

Lemma sort_tokens_perm (l l' : list JsVal) :
  sort_tokens l = Ok l' -> l' ≡ₚ l.
Proof.
  revert l'. induction l as [|x l IH]; intros l'; simpl.
  - by intros [= <-].
  - destruct (sort_tokens l) as [s|]; [|done]. simpl.
    intros H. apply insert_token_perm in H. by rewrite H, (IH s).
Qed.

Lemma sort_tokens_length (l l' : list JsVal) :
  sort_tokens l = Ok l' -> length l' = length l.
Proof. intros H. by rewrite (sort_tokens_perm _ _ H). Qed.

Lemma forallb_perm {A} (f : A -> bool) (l l' : list A) :
  l ≡ₚ l' -> forallb f l = forallb f l'.
Proof.
  induction 1 as [|x l l' _ IH|x y l|l l' l'' _ IH1 _ IH2]; simpl.
  - done.
  - by rewrite IH.
  - by destruct (f x), (f y).
  - by rewrite IH1.
Qed.

(** An [undefined] token goes behind the tokens that are not
    [undefined], without a comparison. *)
Lemma insert_undefined (ds us : list JsVal) :
  Forall (fun tok => is_undefined tok = false) ds ->
  Forall (fun tok => is_undefined tok = true) us ->
  insert_token VUndefined (ds ++ us) = Ok (ds ++ VUndefined :: us).
Proof.
  intros Hds Hus. induction Hds as [|y ds Hy Hds IH]; cbn [app insert_token].
  - destruct Hus as [|u us Hu Hus]; [done|]. by destruct u.
  - assert (sort_compare VUndefined y = Ok (Some 1)) as -> by (by destruct y).
    simpl. by rewrite IH.
Qed.

(** A token that is not [undefined] is compared with the first of the
    tokens that are not; when the comparator can be applied to all of
    them the insertion succeeds. *)
Lemma insert_defined (x : JsVal) (ds us : list JsVal) :
  is_undefined x = false -> sortable x = true ->
  Forall (fun tok => is_undefined tok = false) ds ->
  Forall (fun tok => sortable tok = true) ds ->
  Forall (fun tok => is_undefined tok = true) us ->
  exists ds', insert_token x (ds ++ us) = Ok (ds' ++ us) /\ ds' ≡ₚ x :: ds.
Proof.
  intros Hx Hsx Hds Hsort Hus.
  induction Hds as [|y ds Hy Hds IH]; cbn [app insert_token].
  - exists [x]. split; [|done].
    destruct Hus as [|u us Hu Hus]; [done|].
    destruct u; try done. by destruct x.
  - apply Forall_cons in Hsort as [Hsy Hsort].
    rewrite sort_compare_defined by done.
    pose proof (compare_tokens_throws x y) as Hc. rewrite Hsx, Hsy in Hc.
    destruct (compare_tokens x y) as [c|]; [|done]. simpl.
    destruct c as [d|]; [|by exists (x :: y :: ds)].
    destruct (0 <? d); [|by exists (x :: y :: ds)].
    destruct (IH Hsort) as (ds' & -> & Hperm). simpl.
    exists (y :: ds'). split; [done|]. rewrite Hperm. apply Permutation_swap.
Qed.

Lemma insert_first (x : JsVal) (us : list JsVal) :
  is_undefined x = false ->
  Forall (fun tok => is_undefined tok = true) us ->
  insert_token x us = Ok (x :: us).
Proof.
  intros Hx Hus. destruct Hus as [|u us' Hu Hus]; [done|]. simpl.
  destruct u; try done. by destruct x.
Qed.

Lemma insert_throws (x y : JsVal) (rest : list JsVal) :
  is_undefined x = false -> is_undefined y = false ->
  sortable x && sortable y = false ->
  throws (insert_token x (y :: rest)) = true.
Proof.
  intros Hx Hy Hs. cbn [insert_token]. rewrite sort_compare_defined by done.
  pose proof (compare_tokens_throws x y) as Hc. rewrite Hs in Hc.
  by destruct (compare_tokens x y).
Qed.

(** The sort throws exactly when the comparator is called, which takes
    two tokens that are not [undefined], and one of these is one it
    throws on. A sorted list has its [undefined] tokens at the end. *)
Lemma sort_tokens_spec (l : list JsVal) :
  match sort_tokens l with
  | Ok s =>
      unsortable l = false /\
      exists ds us, s = ds ++ us /\
        Forall (fun tok => is_undefined tok = false) ds /\
        Forall (fun tok => is_undefined tok = true) us /\
        ds ≡ₚ defined_tokens l
  | Throw _ => unsortable l = true
  end.
Proof.
  induction l as [|x rest IH]; simpl sort_tokens.
  { split; [done|]. by exists [], []. }
  assert (defined_tokens (x :: rest)
          = if is_undefined x then defined_tokens rest
            else x :: defined_tokens rest) as Hcons.
  { unfold defined_tokens. simpl. by destruct (is_undefined x). }
  unfold unsortable in *. rewrite Hcons.
  destruct (sort_tokens rest) as [s|e]; cbn [mbind result_bind].
  2:{ apply andb_true_iff in IH as [Hlen Hall].
      apply negb_true_iff in Hall. apply Nat.leb_le in Hlen.
      destruct (is_undefined x).
      - rewrite Hall, andb_true_r. by apply Nat.leb_le.
      - cbn [forallb length]. rewrite Hall, andb_false_r, andb_true_r.
        apply Nat.leb_le. lia. }
  destruct IH as (Hok & ds & us & -> & Hds & Hus & Hperm).
  rewrite <- (forallb_perm _ _ _ Hperm), <- (Permutation_length Hperm) in Hok.
  destruct (is_undefined x) eqn:Hx.
  - destruct x; try done. rewrite insert_undefined by done.
    rewrite <- (forallb_perm _ _ _ Hperm), <- (Permutation_length Hperm).
    split; [done|]. exists ds, (VUndefined :: us).
    split; [done|]. split; [done|]. split; [by constructor|done].
  - cbn [forallb length].
    rewrite <- (forallb_perm _ _ _ Hperm), <- (Permutation_length Hperm).
    destruct ds as [|y ds].
    + rewrite insert_first by done. split; [done|].
      exists [x], us. simpl.
      split; [done|]. split; [by repeat constructor|]. split; [done|].
      by rewrite <- Hperm.
    + cbn [forallb length]. change (2 <=? S (S (length ds)))%nat with true.
      cbn [andb]. apply Forall_cons in Hds as Hds'. destruct Hds' as [Hy Hds'].
      destruct (sortable x && (sortable y && forallb sortable ds)) eqn:Hall;
        cbn [negb].
      * apply andb_true_iff in Hall as [Hsx Hall].
        assert (Forall (fun tok => sortable tok = true) (y :: ds)) as Hs.
        { apply Forall_forall. intros tok Htok.
          change (forallb sortable (y :: ds) = true) in Hall.
          rewrite forallb_forall in Hall. by apply Hall, list_elem_of_In. }
        destruct (insert_defined x (y :: ds) us Hx Hsx Hds Hs Hus)
          as (ds' & -> & Hperm').
        split; [done|]. exists ds', us. split; [done|].
        split; [|split; [done|]].
        -- rewrite Hperm'. by constructor.
        -- by rewrite Hperm', Hperm.
      * assert (sortable x && sortable y = false) as Hxy.
        { destruct (sortable x) eqn:Hsx; [|done].
          destruct (sortable y) eqn:Hsy; [|done]. exfalso.
          cbn [andb] in Hall. apply andb_false_iff in Hok as [Hok|Hok].
          - destruct ds; [simpl in Hall; done|simpl in Hok; done].
          - apply negb_false_iff in Hok. cbn [forallb] in Hok.
            rewrite ?Hsy in Hok. cbn [andb] in Hok. congruence. }
        pose proof (insert_throws x y (ds ++ us) Hx Hy Hxy) as Hthrow.
        change ((y :: ds) ++ us) with (y :: ds ++ us).
        by destruct (insert_token x (y :: ds ++ us)).
Qed.

Lemma sort_tokens_throws (l : list JsVal) :
  throws (sort_tokens l) = unsortable l.
Proof.
  pose proof (sort_tokens_spec l) as H.
  destruct (sort_tokens l); simpl; [by destruct H|done].
Qed.

(** When the comparator can be applied to every token, the sort
    succeeds. *)
Lemma sort_tokens_sortable (l : list JsVal) :
  Forall (fun tok => sortable tok = true) l ->
  exists l', sort_tokens l = Ok l' /\ l' ≡ₚ l.
Proof.
  intros Hall. pose proof (sort_tokens_throws l) as H.
  assert (unsortable l = false) as Hs.
  { unfold unsortable. apply andb_false_iff. right. apply negb_false_iff.
    apply forallb_forall. intros tok Htok. unfold defined_tokens in Htok.
    apply filter_In in Htok as [Htok _].
    rewrite Forall_forall in Hall. by apply Hall, list_elem_of_In. }
  rewrite Hs in H. destruct (sort_tokens l) as [l'|] eqn:Hsort; [|done].
  exists l'. split; [done|]. by apply sort_tokens_perm.
Qed.

(** Part numbers that are not numbers are converted before they are
    subtracted, and one that cannot be converted makes the sort throw. *)
Example conversions :
  map number_of_value
    [VStr "12"; VStr " 0x1F "; VStr "1e3"; VStr "abc"; VStr EmptyString;
     VNull; VBool true; VUndefined; VArr []; VArr [VNum 5];
     VArr [VNum 1; VNum 2]; VObj []]
  = [Some 12; Some 31; Some 1000; None; Some 0; Some 0; Some 1; None;
     Some 0; Some 5; None; None] /\
  map unconvertible
    [VObj [("toString", VNull); ("valueOf", VNull)]; VObj [("valueOf", VNull)];
     VArr [VObj [("toString", VNum 1)]]; VObj []]
  = [true; false; true; false] /\
  sort_tokens [VObj [("partNumber", VStr "10")]; VObj [("partNumber", VStr "9")];
               VUndefined; VObj [("partNumber", VBool true)]]
  = Ok [VObj [("partNumber", VBool true)]; VObj [("partNumber", VStr "9")];
        VObj [("partNumber", VStr "10")]; VUndefined] /\
  sort_tokens [VObj [("partNumber", VObj [("toString", VNull)])]; token 2 "u2"]
  = Throw (ErrType "toString") /\
  sort_tokens [VObj [("partNumber", VObj [("toString", VNull)])]]
  = Ok [VObj [("partNumber", VObj [("toString", VNull)])]].
Proof. repeat split; vm_compute; reflexivity. Qed.

(** A failing [getPresignedUrls] leaves [this] as it was. *)
Lemma getPresignedUrls_throw_keeps_this
    (u : Uploader) (size : Z) (o : FetchOutcome) :
  throws (getPresignedUrls u size o).1 = true ->
  (getPresignedUrls u size o).2 = u.
Proof.
  unfold getPresignedUrls.
  match goal with |- context [match ?c with Ok _ => _ | Throw _ => _ end] =>
    destruct c as [[[[[data uid] sorted] b] k]|e] end; simpl; done.
Qed.

(** A successful one stores as many tokens as [totalParts]. *)
Lemma getPresignedUrls_ok_length
    (u : Uploader) (size : Z) (o : FetchOutcome) (data : JsVal) :
  (getPresignedUrls u size o).1 = Ok data ->
  let u' := (getPresignedUrls u size o).2 in
  ceil_div size (chunkSize u) = Some (Z.of_nat (length (presignedUrls u'))) /\
  chunkSize u' = chunkSize u /\ maxRetries u' = maxRetries u /\
  retryDelay u' = retryDelay u /\ aborted u' = aborted u /\
  truthy (uploadId u') = true.
Proof.
  unfold getPresignedUrls.
  destruct o as [reason|response]; [done|].
  destruct (read_json ErrGetUrlsFailed response) as [d|]; [|done]. simpl.
  destruct (check_ok ErrGetUrlsFailed response d) as [[]|]; [|done]. simpl.
  destruct (prop d "uploadId") as [uid|]; [|done]. simpl.
  destruct (prop d "presignedUrls") as [urls|]; [|done]. simpl.
  destruct (truthy uid) eqn:Huid; [|done]. simpl.
  destruct (truthy urls); [|done]. simpl.
  destruct urls as [| | | | | |items|]; try done. simpl.
  destruct (length_is (length items) (ceil_div size (chunkSize u))) eqn:Hlen;
    [|done]. simpl.
  destruct (sort_tokens items) as [sorted|] eqn:Hsort; [|done]. simpl.
  destruct (prop d "bucket") as [b|]; [|done]. simpl.
  destruct (prop d "key") as [k|]; [|done]. simpl.
  intros _. repeat split; try done.
  apply sort_tokens_length in Hsort. rewrite Hsort.
  unfold length_is in Hlen.
  destruct (ceil_div size (chunkSize u)) as [t|]; [|done].
  apply Z.eqb_eq in Hlen. by rewrite Hlen.
Qed.

(** *** Frame facts of the small operations *)

Lemma put_count_app (p : Z) (t1 t2 : list Action) :
  put_count p (t1 ++ t2) = (put_count p t1 + put_count p t2)%nat.
Proof. unfold put_count. by rewrite List.filter_app, length_app. Qed.

Lemma fail_frame (e : JsError) (s : State) :
  this (fail e s) = this s /\ flights (fail e s) = flights s /\
  partsArray (fail e s) = partsArray s /\ totalParts (fail e s) = totalParts s /\
  fileSize (fail e s) = fileSize s /\ onProgress (fail e s) = onProgress s /\
  (pc (fail e s) = AwaitAbort e \/ pc (fail e s) = Rejected e) /\
  forall p, put_count p (trace (fail e s)) = put_count p (trace s).
Proof.
  unfold fail. destruct (truthy (uploadId (this s))); simpl.
  - repeat split; auto. intros p. rewrite put_count_app. unfold put_count. simpl. lia.
  - repeat split; auto. intros p. rewrite put_count_app.
    unfold put_count. destruct (onProgress s); simpl; lia.
Qed.

(** ** The scheduler *)

(** *** Arrays *)

Lemma array_set_length {A} (i : nat) (v : option A) (a : list (option A)) :
  (i < length a)%nat -> length (array_set i v a) = length a.
Proof.
  intros Hi. unfold array_set.
  destruct (Nat.ltb_spec i (length a)); [|lia]. apply length_insert.
Qed.

Lemma array_set_lookup {A} (i j : nat) (v : option A) (a : list (option A)) :
  (i < length a)%nat ->
  array_set i v a !! j = if decide (i = j) then Some v else a !! j.
Proof.
  intros Hi. unfold array_set.
  destruct (Nat.ltb_spec i (length a)); [|lia].
  case_decide as Hij.
  - subst j. by apply list_lookup_insert_eq.
  - by apply list_lookup_insert_ne.
Qed.

Lemma numbered_array_set (i : nat) (v : option Part) (a : list (option Part)) :
  (i < length a)%nat ->
  (forall part, v = Some part -> PartNumber part = Z.of_nat i + 1) ->
  numbered a -> numbered (array_set i v a).
Proof.
  intros Hi Hv Ha idx part. rewrite array_set_lookup by done.
  case_decide as Hidx.
  - subst idx. intros [= ->]. by apply Hv.
  - apply Ha.
Qed.

Lemma numbered_replicate (n : nat) : numbered (replicate n None).
Proof.
  intros idx part H. apply lookup_replicate in H as [? _]. done.
Qed.

Lemma slot_of_part (idx : nat) : Z.to_nat (Z.of_nat idx + 1 - 1) = idx.
Proof. lia. Qed.

(** When every slot holds the record of its part, the filtered list is
    the parts [1..n] in ascending order. *)
Lemma defined_parts_numbers (a : list (option Part)) :
  numbered a ->
  (forall idx, (idx < length a)%nat -> exists part, a !! idx = Some (Some part)) ->
  map PartNumber (defined_parts a) = part_numbers (length a).
Proof.
  unfold part_numbers.
  induction a as [|x a IH] using rev_ind; intros Hnum Hall; [done|].
  rewrite length_app. simpl.
  replace (length a + 1)%nat with (S (length a)) by lia.
  rewrite seq_S, !map_app. simpl.
  unfold defined_parts in *. rewrite omap_app, map_app.
  f_equal.
  - apply IH.
    + intros idx part H. apply (Hnum idx part).
      rewrite lookup_app_l; [done|]. by apply lookup_lt_Some in H.
    + intros idx Hidx. destruct (Hall idx) as [part Hpart].
      { rewrite length_app. simpl. lia. }
      exists part. by rewrite lookup_app_l in Hpart.
  - destruct (Hall (length a)) as [part Hpart].
    { rewrite length_app. simpl. lia. }
    pose proof (Hnum _ _ Hpart) as Hn.
    rewrite lookup_app_r, Nat.sub_diag in Hpart by lia.
    simpl in Hpart. injection Hpart as ->. simpl. rewrite Hn. f_equal. lia.
Qed.

(** *** One batch *)

Lemma completes_app (t1 t2 : list Action) :
  completes (t1 ++ t2) = completes t1 ++ completes t2.
Proof. apply omap_app. Qed.

Lemma completes_report (q : Progress) (s : State) :
  completes (trace (report q s)) = completes (trace s).
Proof.
  simpl. rewrite completes_app. destruct (onProgress s); simpl;
    by rewrite app_nil_r.
Qed.

Lemma dispatch_batch_frame (k : nat) :
  forall i j s s' out,
  dispatch_batch k i j s = (s', out) ->
  this s' = this s /\ pc s' = pc s /\ totalParts s' = totalParts s /\
  fileSize s' = fileSize s /\ onProgress s' = onProgress s /\
  completes (trace s') = completes (trace s).
Proof.
  induction k as [|k IH]; intros i j s s' out; simpl.
  - by intros [= <- <-].
  - destruct (i + j <? totalParts s)%nat; [|by intros [= <- <-]].
    destruct (prop _ "url") as [url|e]; [|by intros [= <- <-]].
    unfold uploadSinglePart.
    destruct (aborted (this s)).
    + destruct (dispatch_batch k i (S j) s) as [s1 later] eqn:Hrec.
      intros [= <- <-]. by apply IH in Hrec.
    + destruct (dispatch_batch k i (S j) _) as [s1 later] eqn:Hrec.
      intros [= <- <-]. apply IH in Hrec.
      destruct Hrec as (-> & -> & -> & -> & -> & ->).
      unfold uploadPart_next, part_done.
      destruct (0 <? maxRetries (this s)); simpl;
        rewrite completes_app; simpl; rewrite ?app_nil_r; try done.
      repeat split; try done. destruct (onProgress s); simpl; by rewrite ?app_nil_r.
Qed.

Lemma dispatch_batch_spec (k : nat) :
  forall i j s s' out,
  dispatch_batch k i j s = (s', out) ->
  length (partsArray s) = totalParts s ->
  length (partsArray s') = totalParts s /\
  (numbered (partsArray s) -> numbered (partsArray s')) /\
  (1 <= maxRetries (this s) -> partsArray s' = partsArray s) /\
  exists new, flights s' = flights s ++ new /\ (length new <= k)%nat /\
    Forall (fun f => Z.of_nat (i + j) + 1 <= fl_part f <= Z.of_nat (totalParts s) /\
                     fl_retries f = 0 /\ 0 < maxRetries (this s)) new /\
    (1 <= maxRetries (this s) -> aborted (this s) = false ->
     out = Promises None ->
     forall idx, (i + j <= idx < Nat.min (i + j + k) (totalParts s))%nat ->
       In (Z.of_nat idx + 1) (map fl_part new)).
Proof.
  induction k as [|k IH]; intros i j s s' out; simpl.
  - intros [= <- <-] Hlen. repeat split; try done.
    exists []. rewrite app_nil_r. repeat split; try done. intros. lia.
  - destruct (Nat.ltb_spec (i + j) (totalParts s)) as [Hin|Hout].
    2:{ intros [= <- <-] Hlen. repeat split; try done.
        exists []. rewrite app_nil_r.
        repeat split; try done; simpl; lia. }
    destruct (prop _ "url") as [url|e].
    2:{ intros [= <- <-] Hlen. repeat split; try done.
        exists []. rewrite app_nil_r.
        repeat split; try done; simpl; lia. }
    unfold uploadSinglePart.
    destruct (aborted (this s)) eqn:Hab.
    { destruct (dispatch_batch k i (S j) s) as [s1 later] eqn:Hrec.
      intros [= <- <-] Hlen.
      destruct (IH _ _ _ _ _ Hrec Hlen) as (Hl & Hn & Hp & new & Hf & Hk & Hall & _).
      repeat split; try done.
      exists new. split; [done|]. split; [lia|]. split; [|done].
      eapply Forall_impl; [exact Hall|]. simpl. intros f. lia. }
    unfold uploadPart_next.
    destruct (Z.ltb_spec 0 (maxRetries (this s))) as [Hretry|Hnone].
    + match goal with |- context [dispatch_batch k i (S j) ?s0] =>
        destruct (dispatch_batch k i (S j) s0) as [s1 later] eqn:Hrec end.
      intros Hres Hlen.
      destruct (IH _ _ _ _ _ Hrec Hlen) as (Hl & Hn & Hp & new & Hf & Hk & Hall & Hcov).
      simpl in *. injection Hres as <- <-.
      repeat split; try done.
      eexists (_ :: new). split; [by rewrite Hf, <- app_assoc|].
      split; [simpl; lia|]. split.
      * constructor; [simpl; lia|].
        eapply Forall_impl; [exact Hall|]. simpl. intros f. lia.
      * intros HmaxR _ Hout idx Hidx. simpl.
        destruct (decide (idx = (i + j)%nat)) as [->|Hne]; [by left|].
        right. apply Hcov; try done.
        -- by destruct later.
        -- lia.
    + match goal with |- context [dispatch_batch k i (S j) ?s0] =>
        destruct (dispatch_batch k i (S j) s0) as [s1 later] eqn:Hrec end.
      intros Hres Hlen.
      assert (length (partsArray (part_done (Z.of_nat (i + j) + 1) None s))
              = totalParts s) as Hlen1.
      { simpl. rewrite slot_of_part, array_set_length; lia. }
      destruct (IH _ _ _ _ _ Hrec Hlen1) as (Hl & Hn & Hp & new & Hf & Hk & Hall & Hcov).
      simpl in *. injection Hres as <- <-.
      repeat split; try done.
      * intros Hnum. apply Hn. rewrite slot_of_part.
        apply numbered_array_set; [lia|done|done].
      * lia.
      * exists new. split; [done|]. split; [lia|]. split; [|lia].
        eapply Forall_impl; [exact Hall|]. simpl. intros f. lia.
Qed.

(** The trace only grows. *)
Lemma fail_trace (e : JsError) (s : State) :
  exists ext, trace (fail e s) = trace s ++ ext.
Proof. unfold fail. destruct (truthy _); simpl; eauto. Qed.

Lemma dispatch_batch_trace (k : nat) :
  forall i j s s' out,
  dispatch_batch k i j s = (s', out) -> exists ext, trace s' = trace s ++ ext.
Proof.
  induction k as [|k IH]; intros i j s s' out; simpl.
  - intros [= <- <-]. exists []. by rewrite app_nil_r.
  - destruct (i + j <? totalParts s)%nat.
    2:{ intros [= <- <-]. exists []. by rewrite app_nil_r. }
    destruct (prop _ "url") as [url|e].
    2:{ intros [= <- <-]. exists []. by rewrite app_nil_r. }
    unfold uploadSinglePart. destruct (aborted (this s)).
    + destruct (dispatch_batch k i (S j) s) as [s1 later] eqn:Hrec.
      intros [= <- <-]. by apply IH in Hrec.
    + destruct (dispatch_batch k i (S j) _) as [s1 later] eqn:Hrec.
      intros [= <- <-]. apply IH in Hrec as [ext ->].
      unfold uploadPart_next, part_done.
      destruct (0 <? maxRetries (this s)); simpl; rewrite <- app_assoc; eauto.
Qed.

(** *** The outer loop *)

Arguments dispatch_batch : simpl never.

Lemma wf_fail (e : JsError) (s : State) :
  length (partsArray s) = totalParts s ->
  Forall (fun f => 1 <= fl_part f <= Z.of_nat (totalParts s) /\
                   0 <= fl_retries f < maxRetries (this s)) (flights s) ->
  numbered (partsArray s) ->
  (length (flights s) <= maxConcurrent)%nat ->
  (1 <= maxRetries (this s) \/ totalParts s = 0%nat ->
   Forall (fun parts => map PartNumber parts = part_numbers (totalParts s))
     (completes (trace s))) ->
  wf (fail e s).
Proof.
  intros Hlen Hfl Hnum Hbound Hcomp. unfold fail.
  destruct (truthy (uploadId (this s))); constructor; simpl; try done.
  - rewrite completes_app. simpl. by rewrite app_nil_r.
  - rewrite completes_app. destruct (onProgress s); simpl; by rewrite app_nil_r.
Qed.

Lemma upload_loop_total (fuel : nat) :
  forall i s, (totalParts s - i <= fuel)%nat -> is_Some (upload_loop fuel i s).
Proof.
  induction fuel as [|fuel IH]; intros i s Hfuel; simpl.
  - destruct (Nat.ltb_spec i (totalParts s)); [lia|eauto].
  - destruct (Nat.ltb_spec i (totalParts s)); [|eauto].
    destruct (aborted (this s)); [eauto|].
    destruct (dispatch_batch maxConcurrent i 0 s) as [s1 [e|[e|]]] eqn:Hd;
      [eauto|eauto|].
    destruct (flights s1); [|eauto].
    apply IH. apply dispatch_batch_frame in Hd as (_ & _ & -> & _).
    unfold maxConcurrent. lia.
Qed.

Lemma upload_loop_frame (fuel : nat) :
  forall i s s', upload_loop fuel i s = Some s' ->
  this s' = this s /\ totalParts s' = totalParts s /\
  fileSize s' = fileSize s /\ onProgress s' = onProgress s /\
  pc s' <> AwaitInit.
Proof.
  assert (forall e s, this (fail e s) = this s /\
            totalParts (fail e s) = totalParts s /\
            fileSize (fail e s) = fileSize s /\
            onProgress (fail e s) = onProgress s /\
            pc (fail e s) <> AwaitInit) as Hfail.
  { intros e s. unfold fail. by destruct (truthy (uploadId (this s))). }
  induction fuel as [|fuel IH]; intros i s s'; simpl.
  - destruct (i <? totalParts s)%nat.
    + destruct (aborted (this s)); [|done]. intros [= <-]. apply Hfail.
    + by intros [= <-].
  - destruct (i <? totalParts s)%nat; [|by intros [= <-]].
    destruct (aborted (this s)); [intros [= <-]; apply Hfail|].
    destruct (dispatch_batch maxConcurrent i 0 s) as [s1 out] eqn:Hd.
    apply dispatch_batch_frame in Hd as (Hthis & _ & Htot & Hsize & Hcb & _).
    rewrite <- Hthis, <- Htot, <- Hsize, <- Hcb.
    destruct out as [e|[e|]]; [intros [= <-]; apply Hfail..|].
    destruct (flights s1); [apply IH|by intros [= <-]].
Qed.

(** With the flag set, the loop dispatches nothing. *)
Lemma upload_loop_aborted (fuel : nat) (i : nat) (s s' : State) :
  aborted (this s) = true ->
  upload_loop fuel i s = Some s' ->
  s' = fail ErrUploadAborted s \/ s' = finish_transfers s.
Proof.
  intros Hab. destruct fuel; simpl; rewrite Hab;
    destruct (i <? totalParts s)%nat; intros [= <-]; auto.
Qed.

Lemma upload_loop_wf (fuel : nat) :
  forall i s s', loop_ready i s -> upload_loop fuel i s = Some s' -> wf s'.
Proof.
  assert (forall i s, loop_ready i s -> (totalParts s <= i)%nat ->
            wf (finish_transfers s)) as Hfinish.
  { intros i s [Hfl Hlen Hnum Hcomp Hrec] Hi.
    constructor; simpl; try done.
    - by rewrite Hfl.
    - rewrite Hfl. simpl. lia.
    - intros HmaxR. rewrite !completes_app. simpl.
      apply Forall_app. split.
      + specialize (Hcomp HmaxR). destruct (onProgress s); simpl;
          by rewrite app_nil_r.
      + constructor; [|done]. rewrite <- Hlen.
        apply defined_parts_numbers; [done|].
        intros idx Hidx. destruct HmaxR as [HmaxR|Hzero]; [|lia].
        apply (Hrec HmaxR). lia. }
  assert (forall e i s, loop_ready i s -> wf (fail e s)) as Hfail.
  { intros e i s [Hfl Hlen Hnum Hcomp Hrec].
    apply wf_fail; try done; rewrite Hfl; [done|simpl; lia]. }
  induction fuel as [|fuel IH]; intros i s s' Hready; simpl.
  - destruct (Nat.ltb_spec i (totalParts s)).
    + destruct (aborted (this s)); [|done]. intros [= <-]. by eapply Hfail.
    + intros [= <-]. by eapply Hfinish.
  - destruct (Nat.ltb_spec i (totalParts s)) as [Hi|Hi].
    2:{ intros [= <-]. by eapply Hfinish. }
    destruct (aborted (this s)) eqn:Hab; [intros [= <-]; by eapply Hfail|].
    destruct (dispatch_batch maxConcurrent i 0 s) as [s1 out] eqn:Hd.
    pose proof (dispatch_batch_frame _ _ _ _ _ _ Hd)
      as (Hthis & Hpc & Htot & Hsize & Hcb & Htr).
    destruct Hready as [Hfl Hlen Hnum Hcomp Hrec].
    pose proof (dispatch_batch_spec _ _ _ _ _ _ Hd Hlen)
      as (Hlen1 & Hnum1 & Hparts & new & Hnew & Hk & Hall & Hcov).
    rewrite Hfl in Hnew. simpl in Hnew.
    assert (Forall (fun f => 1 <= fl_part f <= Z.of_nat (totalParts s1) /\
                             0 <= fl_retries f < maxRetries (this s1))
              (flights s1)) as Hfl1.
    { rewrite Hnew, Hthis, Htot. eapply Forall_impl; [exact Hall|].
      simpl. intros f. lia. }
    assert (wf_tail : forall e, wf (fail e s1)).
    { intros e. apply wf_fail; try done.
      - by rewrite Htot.
      - by apply Hnum1.
      - by rewrite Hnew.
      - by rewrite Hthis, Htot, Htr. }
    destruct out as [e|[e|]]; [intros [= <-]; apply wf_tail..|].
    destruct (flights s1) as [|f fs] eqn:Hfs.
    + apply IH. constructor; try done.
      * by rewrite Htot.
      * by apply Hnum1.
      * by rewrite Hthis, Htot, Htr.
      * rewrite Hthis. intros HmaxR idx Hidx. exfalso.
        specialize (Hcov HmaxR Hab eq_refl i).
        rewrite <- Hnew in Hcov. simpl in Hcov. apply Hcov.
        unfold maxConcurrent. lia.
    + intros [= <-]. constructor; simpl; try done.
      * by rewrite Htot.
      * by rewrite Hfs.
      * by apply Hnum1.
      * rewrite Hfs, Hnew. done.
      * intros i' [= <-]. rewrite Hthis. intros HmaxR idx Hidx.
        rewrite Htot in Hidx.
        destruct (Nat.lt_ge_cases idx i) as [Hlt|Hge].
        -- left. destruct (Hrec HmaxR idx) as [part Hpart]; [lia|].
           exists part. simpl. by rewrite Hparts.
        -- right. simpl. rewrite Hfs, Hnew.
           apply Hcov; try done. simpl. unfold maxConcurrent in *. lia.
      * by rewrite Hthis, Htot, Htr.
Qed.

(** *** One task *)

Lemma take_flight_spec (p : Z) (b : bool) (fs : list Flight) (f : Flight)
    (rest : list Flight) :
  take_flight p b fs = Some (f, rest) ->
  fl_part f = p /\ fl_sleeping f = b /\ fs ≡ₚ f :: rest.
Proof.
  revert f rest. induction fs as [|g fs IH]; intros f rest; simpl; [done|].
  destruct (Z.eqb_spec (fl_part g) p) as [Hp|Hp]; simpl.
  - destruct (Bool.eqb (fl_sleeping g) b) eqn:Hb.
    + intros [= <- <-]. apply Bool.eqb_prop in Hb. done.
    + destruct (take_flight p b fs) as [[g' others]|]; [|done]. simpl.
      intros [= <- <-]. destruct (IH _ _ eq_refl) as (? & ? & Hperm).
      repeat split; try done. rewrite Hperm. apply Permutation_swap.
  - destruct (take_flight p b fs) as [[g' others]|]; [|done]. simpl.
    intros [= <- <-]. destruct (IH _ _ eq_refl) as (? & ? & Hperm).
    repeat split; try done. rewrite Hperm. apply Permutation_swap.
Qed.

Lemma put_part_number (p : Z) (o : FetchOutcome) (part : Part) :
  put_part p o = Ok part -> PartNumber part = p.
Proof.
  unfold put_part. destruct o as [|r]; [done|].
  destruct (negb (r_ok r)); [done|].
  destruct (strip_quotes <$> r_etag r) as [etag|]; [|done].
  destruct (String.eqb etag EmptyString); [done|]. by intros [= <-].
Qed.

Lemma covered_mono (n : nat) (s s' : State) :
  covered n s ->
  (forall idx, recorded idx s -> recorded idx s') ->
  (forall idx, In (Z.of_nat idx + 1) (map fl_part (flights s)) ->
     In (Z.of_nat idx + 1) (map fl_part (flights s')) \/ recorded idx s') ->
  covered n s'.
Proof.
  intros Hcov Hrec Hfl idx Hidx.
  destruct (Hcov idx Hidx) as [H|H]; [left; auto|].
  destruct (Hfl idx H); auto.
Qed.

Lemma wf_batch_progress (s s' : State) :
  wf s -> batch_progress s = Some s' -> wf s'.
Proof.
  intros Hwf. unfold batch_progress.
  destruct (pc s) as [|i| | | |] eqn:Hpc; try (by intros [= <-]).
  destruct (flights s) eqn:Hfl; [|by intros [= <-]].
  apply upload_loop_wf. destruct Hwf.
  constructor; try done.
  intros HmaxR idx Hidx.
  destruct (wf_batch0 i Hpc HmaxR idx) as [H|H]; [lia|done|].
  rewrite Hfl in H. done.
Qed.

Lemma wf_start (u : Uploader) (size : Z) (cb : bool) :
  wf (upload_start u size cb).
Proof.
  constructor; simpl; try done.
  - intros _. split; [done|]. rewrite !completes_app.
    destruct cb; done.
  - lia.
  - intros _. rewrite !completes_app. destruct cb; simpl; constructor.
Qed.

Lemma wf_step (s s' : State) (ev : Event) :
  wf s -> step s ev = Some s' -> wf s'.
Proof.
  intros Hwf. destruct ev as [o|p o|p|o|o|]; simpl.
  - (* the session reply *)
    destruct (pc s) eqn:Hpc; try done.
    destruct (getPresignedUrls (this s) (fileSize s) o) as [[data|e] u] eqn:Hget.
    + pose proof (getPresignedUrls_ok_length (this s) (fileSize s) o data) as Hok.
      rewrite Hget in Hok. simpl in Hok.
      destruct (Hok eq_refl) as (_ & _ & HmaxR & _).
      destruct (wf_init _ Hwf Hpc) as [Hfl Hcomp].
      apply upload_loop_wf. constructor; simpl; try done.
      * by rewrite length_replicate.
      * apply numbered_replicate.
      * intros _. rewrite completes_app, Hcomp.
        destruct (onProgress s); simpl; constructor.
      * intros _ idx Hidx. lia.
    + intros [= <-].
      pose proof (getPresignedUrls_throw_keeps_this (this s) (fileSize s) o) as Hkeep.
      rewrite Hget in Hkeep. simpl in Hkeep. rewrite Hkeep by done.
      destruct Hwf. apply wf_fail; simpl; done.
  - (* a PUT settles *)
    destruct (take_flight p false (flights s)) as [[f rest]|] eqn:Htake; [|done].
    simpl. apply take_flight_spec in Htake as (Hp & Hsl & Hperm).
    pose proof (wf_flights _ Hwf) as Hfl. rewrite Hperm in Hfl.
    apply Forall_cons in Hfl as [[Hrange Hretries] Hrest].
    pose proof (wf_bound _ Hwf) as Hbound. rewrite Hperm in Hbound. simpl in Hbound.
    assert (forall x, In x (map fl_part (flights s)) ->
              x = p \/ In x (map fl_part rest)) as Hin.
    { intros x Hx. apply list_elem_of_In in Hx. rewrite Hperm in Hx.
      apply list_elem_of_In in Hx. simpl in Hx. rewrite Hp in Hx.
      destruct Hx; auto. }
    assert (pc s <> AwaitInit) as Hnot_init.
    { intros Hpc. destruct (wf_init _ Hwf Hpc) as [Hnil _].
      rewrite Hnil in Hperm. by apply Permutation_nil_cons in Hperm. }
    destruct (put_part p o) as [part|e] eqn:Hput.
    + apply put_part_number in Hput.
      apply wf_batch_progress.
      assert (Z.to_nat (p - 1) < length (partsArray s))%nat as Hslot.
      { rewrite (wf_length _ Hwf). lia. }
      destruct Hwf. constructor; simpl; try done.
      * by rewrite array_set_length.
      * apply numbered_array_set; [done| |done]. intros ? [= <-]. lia.
      * lia.
      * intros i Hpc HmaxR. eapply covered_mono; [by apply wf_batch0| |].
        -- intros idx [q Hq]. unfold recorded. simpl.
           rewrite array_set_lookup by done. case_decide; eauto.
        -- intros idx Hidx. simpl. apply Hin in Hidx as [Hidx|Hidx]; [|by left].
           right. unfold recorded. simpl. rewrite array_set_lookup by done.
           case_decide; [eauto|lia].
      * intros HmaxR. rewrite completes_app.
        destruct (onProgress s); simpl; rewrite app_nil_r; auto.
    + destruct (Z.geb_spec (fl_retries f + 1) (maxRetries (this s))) as [Hlast|Hmore].
      * destruct Hwf.
        destruct (pc s) eqn:Hpc; intros [= <-];
          try (constructor; simpl; try done; try lia; by rewrite Hpc).
        apply wf_fail; simpl; try done. lia.
      * intros [= <-]. destruct Hwf. constructor; simpl; try done.
        -- apply Forall_app. split; [done|]. constructor; [simpl; lia|done].
        -- rewrite length_app. simpl. lia.
        -- intros i Hpc HmaxR. eapply covered_mono; [by apply wf_batch0|done|].
           intros idx Hidx. simpl. left. rewrite map_app, in_app_iff. simpl.
           apply Hin in Hidx as [Hidx|Hidx]; auto.
        -- intros HmaxR. rewrite completes_app. simpl. rewrite app_nil_r. auto.
  - (* a pause ends *)
    destruct (take_flight p true (flights s)) as [[f rest]|] eqn:Htake; [|done].
    simpl. apply take_flight_spec in Htake as (Hp & Hsl & Hperm).
    pose proof (wf_flights _ Hwf) as Hfl. rewrite Hperm in Hfl.
    apply Forall_cons in Hfl as [[Hrange Hretries] Hrest].
    pose proof (wf_bound _ Hwf) as Hbound. rewrite Hperm in Hbound. simpl in Hbound.
    assert (forall x, In x (map fl_part (flights s)) ->
              x = p \/ In x (map fl_part rest)) as Hin.
    { intros x Hx. apply list_elem_of_In in Hx. rewrite Hperm in Hx.
      apply list_elem_of_In in Hx. simpl in Hx. rewrite Hp in Hx.
      destruct Hx; auto. }
    assert (pc s <> AwaitInit) as Hnot_init.
    { intros Hpc. destruct (wf_init _ Hwf Hpc) as [Hnil _].
      rewrite Hnil in Hperm. by apply Permutation_nil_cons in Hperm. }
    apply wf_batch_progress. unfold uploadPart_next. simpl.
    destruct (Z.ltb_spec (fl_retries f) (maxRetries (this s))); [|lia].
    destruct Hwf. constructor; simpl; try done.
    + apply Forall_app. split; [done|]. constructor; [simpl; lia|done].
    + rewrite length_app. simpl. lia.
    + intros i Hpc HmaxR. eapply covered_mono; [by apply wf_batch0|done|].
      intros idx Hidx. simpl. left. rewrite map_app, in_app_iff. simpl.
      apply Hin in Hidx as [Hidx|Hidx]; auto.
    + intros HmaxR. rewrite completes_app. simpl. rewrite app_nil_r. auto.
  - (* the completion reply *)
    destruct (pc s) eqn:Hpc; try done.
    destruct (completeUpload o) as [result|e]; intros [= <-]; destruct Hwf.
    + constructor; simpl; try done.
      intros HmaxR. rewrite completes_app.
      destruct (onProgress s); simpl; rewrite app_nil_r; auto.
    + apply wf_fail; done.
  - (* the abort reply *)
    destruct (pc s) eqn:Hpc; try done.
    destruct (abortUpload o); intros [= <-]; destruct Hwf;
      constructor; simpl; try done.
    intros HmaxR. rewrite completes_app.
    destruct (onProgress s); simpl; rewrite app_nil_r; auto.
  - (* abort() *)
    intros [= <-]. unfold abort. simpl.
    destruct (truthy (uploadId (this s))); destruct Hwf;
      constructor; simpl; try done.
    + intros Hpc. destruct (wf_init0 Hpc) as [? Hc]. split; [done|].
      rewrite completes_app, Hc. done.
    + intros HmaxR. rewrite completes_app. simpl. rewrite app_nil_r. auto.
Qed.

(** *** Runs *)

Lemma batch_progress_frame (s s' : State) :
  batch_progress s = Some s' ->
  this s' = this s /\ totalParts s' = totalParts s /\
  fileSize s' = fileSize s /\ onProgress s' = onProgress s.
Proof.
  unfold batch_progress.
  destruct (pc s); try (by intros [= <-]).
  destruct (flights s); [|by intros [= <-]].
  intros H. apply upload_loop_frame in H. tauto.
Qed.

Lemma batch_progress_total (s : State) : is_Some (batch_progress s).
Proof.
  unfold batch_progress.
  destruct (pc s); eauto. destruct (flights s); eauto.
  apply upload_loop_total. lia.
Qed.

(** Every event that can occur is processed: the recursion budget of
    the outer loop always suffices. *)
Lemma step_total (s : State) (ev : Event) : enabled ev s -> is_Some (step s ev).
Proof.
  destruct ev as [o|p o|p|o|o|]; simpl.
  - intros ->. destruct (getPresignedUrls _ _ o) as [[data|e] u]; [|eauto].
    apply upload_loop_total. simpl. lia.
  - intros [[f rest] ->]. simpl.
    destruct (put_part p o); [apply batch_progress_total|].
    destruct (_ >=? _); [|eauto]. simpl. destruct (pc s); eauto.
  - intros [[f rest] ->]. simpl. apply batch_progress_total.
  - intros ->. destruct (completeUpload o); eauto.
  - intros [e ->]. destruct (abortUpload o); eauto.
  - eauto.
Qed.

(** The configuration, the file and the callback stay what they were. *)
Lemma step_frame (s s' : State) (ev : Event) :
  step s ev = Some s' ->
  maxRetries (this s') = maxRetries (this s) /\
  chunkSize (this s') = chunkSize (this s) /\
  retryDelay (this s') = retryDelay (this s) /\
  fileSize s' = fileSize s /\ onProgress s' = onProgress s.
Proof.
  assert (forall e s, this (fail e s) = this s /\
            fileSize (fail e s) = fileSize s /\
            onProgress (fail e s) = onProgress s) as Hfail.
  { intros e s0. unfold fail. by destruct (truthy (uploadId (this s0))). }
  destruct ev as [o|p o|p|o|o|]; simpl.
  - destruct (pc s); try done.
    destruct (getPresignedUrls (this s) (fileSize s) o) as [[data|e] u] eqn:Hget.
    + pose proof (getPresignedUrls_ok_length (this s) (fileSize s) o data) as Hok.
      rewrite Hget in Hok. simpl in Hok.
      destruct (Hok eq_refl) as (_ & ? & ? & ? & _).
      intros Hloop. apply upload_loop_frame in Hloop as (-> & _ & -> & -> & _).
      done.
    + pose proof (getPresignedUrls_throw_keeps_this (this s) (fileSize s) o) as Hkeep.
      rewrite Hget in Hkeep. simpl in Hkeep. rewrite Hkeep by done.
      intros [= <-]. by destruct (Hfail e (set_this (this s) s)) as (-> & -> & ->).
  - destruct (take_flight p false (flights s)) as [[f rest]|]; [|done]. simpl.
    destruct (put_part p o) as [part|e].
    + intros H. apply batch_progress_frame in H as (-> & _ & -> & ->). done.
    + destruct (_ >=? _); [|by intros [= <-]]. simpl.
      destruct (pc s); intros [= <-]; try done.
      by destruct (Hfail e (set_flights rest s)) as (-> & -> & ->).
  - destruct (take_flight p true (flights s)) as [[f rest]|]; [|done]. simpl.
    intros H. apply batch_progress_frame in H as (-> & _ & -> & ->).
    unfold uploadPart_next. simpl. by destruct (_ <? _).
  - destruct (pc s); try done.
    destruct (completeUpload o) as [result|e]; intros [= <-]; [done|].
    by destruct (Hfail e s) as (-> & -> & ->).
  - destruct (pc s); try done. by destruct (abortUpload o); intros [= <-].
  - intros [= <-]. unfold abort. simpl.
    by destruct (truthy (uploadId (this s))).
Qed.

Lemma run_app (s : State) (evs1 evs2 : list Event) :
  run s (evs1 ++ evs2) = run s evs1 ≫= fun s1 => run s1 evs2.
Proof.
  revert s. induction evs1 as [|ev evs1 IH]; intros s; simpl; [done|].
  destruct (step s ev) as [s1|]; simpl; [apply IH|done].
Qed.

Lemma run_wf (s s' : State) (evs : list Event) :
  wf s -> run s evs = Some s' -> wf s'.
Proof.
  revert s. induction evs as [|ev evs IH]; intros s Hwf; simpl.
  - by intros [= <-].
  - destruct (step s ev) as [s1|] eqn:Hstep; [|done]. simpl.
    apply IH. by eapply wf_step.
Qed.

Lemma run_frame (s s' : State) (evs : list Event) :
  run s evs = Some s' ->
  maxRetries (this s') = maxRetries (this s) /\
  chunkSize (this s') = chunkSize (this s) /\
  retryDelay (this s') = retryDelay (this s) /\
  fileSize s' = fileSize s /\ onProgress s' = onProgress s.
Proof.
  revert s. induction evs as [|ev evs IH]; intros s; simpl.
  - by intros [= <-].
  - destruct (step s ev) as [s1|] eqn:Hstep; [|done]. simpl.
    intros H. apply IH in H as (-> & -> & -> & -> & ->).
    by apply step_frame in Hstep.
Qed.

(** A PUT can only settle successfully when retries are configured. *)
Lemma run_success_retries (s s' : State) (evs : list Event) (p : Z) :
  wf s -> run s evs = Some s' -> succeeds p evs -> 1 <= maxRetries (this s').
Proof.
  intros Hwf Hrun (o & part & Hin & Hput).
  apply in_split in Hin as (evs1 & evs2 & ->).
  rewrite run_app in Hrun.
  destruct (run s evs1) as [s1|] eqn:Hrun1; [|done].
  change (run s1 (PutSettled p o :: evs2) = Some s') in Hrun.
  pose proof (run_frame _ _ _ Hrun) as [Hsame _].
  simpl in Hrun.
  destruct (take_flight p false (flights s1)) as [[f rest]|] eqn:Htake;
    [|done].
  pose proof (run_wf _ _ _ Hwf Hrun1) as Hwf1.
  apply take_flight_spec in Htake as (_ & _ & Hperm).
  pose proof (wf_flights _ Hwf1) as Hfl. rewrite Hperm in Hfl.
  apply Forall_cons in Hfl as [[_ Hretries] _].
  lia.
Qed.

(** The trace only grows, also along the loops and the runs. *)
Lemma upload_loop_trace (fuel : nat) :
  forall i s s', upload_loop fuel i s = Some s' ->
  exists ext, trace s' = trace s ++ ext.
Proof.
  assert (forall s, exists ext, trace (finish_transfers s) = trace s ++ ext)
    as Hfinish.
  { intros s. simpl. rewrite <- app_assoc. eauto. }
  induction fuel as [|fuel IH]; intros i s s'; simpl.
  - destruct (i <? totalParts s)%nat; [|intros [= <-]; apply Hfinish].
    destruct (aborted (this s)); [|done]. intros [= <-]. apply fail_trace.
  - destruct (i <? totalParts s)%nat; [|intros [= <-]; apply Hfinish].
    destruct (aborted (this s)); [intros [= <-]; apply fail_trace|].
    destruct (dispatch_batch maxConcurrent i 0 s) as [s1 out] eqn:Hd.
    apply dispatch_batch_trace in Hd as [ext1 Hext1].
    assert (forall s2, (exists ext, trace s2 = trace s1 ++ ext) ->
              exists ext, trace s2 = trace s ++ ext) as Hglue.
    { intros s2 [ext ->]. rewrite Hext1, <- app_assoc. eauto. }
    destruct out as [e|[e|]];
      [intros [= <-]; apply Hglue, fail_trace..|].
    destruct (flights s1).
    + intros H. apply Hglue. by eapply IH.
    + intros [= <-]. apply Hglue. exists []. simpl. by rewrite app_nil_r.
Qed.

Lemma step_trace (s s' : State) (ev : Event) :
  step s ev = Some s' -> exists ext, trace s' = trace s ++ ext.
Proof.
  assert (forall s0 s1, batch_progress s0 = Some s1 ->
            exists ext, trace s1 = trace s0 ++ ext) as Hbatch.
  { intros s0 s1. unfold batch_progress.
    destruct (pc s0); try (intros [= <-]; exists []; by rewrite app_nil_r).
    destruct (flights s0); [apply upload_loop_trace|].
    intros [= <-]. exists []. by rewrite app_nil_r. }
  destruct ev as [o|p o|p|o|o|]; simpl.
  - destruct (pc s); try done.
    destruct (getPresignedUrls (this s) (fileSize s) o) as [[data|e] u'].
    + intros H. apply upload_loop_trace in H as [ext ->]. simpl.
      rewrite <- app_assoc. eauto.
    + intros [= <-]. apply (fail_trace e (set_this u' s)).
  - destruct (take_flight p false (flights s)) as [[f rest]|]; [|done]. simpl.
    destruct (put_part p o) as [part|e].
    + intros H. apply Hbatch in H as [ext ->]. simpl.
      rewrite <- app_assoc. eauto.
    + destruct (_ >=? _); [|intros [= <-]; simpl; eauto]. simpl.
      destruct (pc s); intros [= <-];
        try (exists []; simpl; by rewrite app_nil_r).
      apply (fail_trace e (set_flights rest s)).
  - destruct (take_flight p true (flights s)) as [[f rest]|]; [|done]. simpl.
    intros H. apply Hbatch in H as [ext ->].
    unfold uploadPart_next. simpl.
    destruct (_ <? _); simpl; rewrite <- app_assoc; eauto.
  - destruct (pc s); try done.
    destruct (completeUpload o) as [result|e]; intros [= <-];
      [simpl; eauto|apply fail_trace].
  - destruct (pc s); try done.
    destruct (abortUpload o); intros [= <-]; simpl; eauto.
    exists []. by rewrite app_nil_r.
  - intros [= <-]. unfold abort. simpl.
    destruct (truthy _); simpl; eauto. exists []. by rewrite app_nil_r.
Qed.

Lemma run_trace (s s' : State) (evs : list Event) :
  run s evs = Some s' -> exists ext, trace s' = trace s ++ ext.
Proof.
  revert s. induction evs as [|ev evs IH]; intros s; simpl.
  - intros [= <-]. exists []. by rewrite app_nil_r.
  - destruct (step s ev) as [s1|] eqn:Hstep; [|done]. simpl.
    intros H. apply IH in H as [ext2 ->].
    apply step_trace in Hstep as [ext1 ->].
    rewrite <- app_assoc. eauto.
Qed.

(** ** No validation of the sizes *)

(** C7 as stated fails: for an empty file ([fileSize = 0]) and the
    default configuration [upload] is not rejected; it sends the
    authorization request with [totalParts = 0], and when the service
    answers with an empty token list it goes on to the completion call
    with no parts and resolves. *)
Lemma empty_file_counterexample :
  let s := upload_start default_uploader 0 false in
  pc s = AwaitInit /\ trace s = [InitCall 0 (Some 0)] /\
  (pc <$> empty_file_run) = Some (Resolved (VObj [("location", VStr "l")])) /\
  (trace <$> empty_file_run)
  = Some [InitCall 0 (Some 0); CompleteCall (VStr "u") [] (VStr "b") (VStr "k")].
Proof. repeat split; reflexivity. Qed.

(** C7, amended. [upload] validates neither [chunkSize] nor [fileSize]:
    for every configuration and every file size, also when [chunkSize <=
    0] or [fileSize <= 0], it is suspended, not rejected, after its
    synchronous part, and what it has done by then is to report
    ['initiating'] (when a callback was given) and to send the
    authorization request with [totalParts = ceil(fileSize / chunkSize)];
    no part transfer has been started. Whatever happens afterwards,
    every run of [upload] has begun with that request. *)
Theorem upload_start_unvalidated (u : Uploader) (size : Z) (cb : bool) :
  let s := upload_start u size cb in
  let request := (if cb then [Report PInitiating] else [])
                 ++ [InitCall size (ceil_div size (chunkSize u))] in
  pc s = AwaitInit /\
  trace s = request /\
  flights s = [] /\
  (forall p, put_count p (trace s) = 0%nat) /\
  (forall evs s', upload u size cb evs = Some s' ->
     exists rest, trace s' = request ++ rest).
Proof.
  assert (trace (upload_start u size cb)
          = (if cb then [Report PInitiating] else [])
            ++ [InitCall size (ceil_div size (chunkSize u))]) as Htrace.
  { unfold upload_start. by destruct cb. }
  simpl. repeat split; try done.
  - intros p. change (put_count p (trace (upload_start u size cb)) = 0%nat).
    rewrite Htrace. by destruct cb.
  - intros evs s' Hrun. apply run_trace in Hrun as [ext Hext].
    exists ext. by rewrite Hext, Htrace.
Qed.

Lemma upload_start_unvalidated_witness :
  exists s', empty_file_run = Some s' /\
    let s := upload_start default_uploader 0 false in
    let request := (if false then [Report PInitiating] else [])
                   ++ [InitCall 0 (ceil_div 0 (chunkSize default_uploader))] in
    pc s = AwaitInit /\ trace s = request /\ flights s = [] /\
    (forall p, put_count p (trace s) = 0%nat) /\
    exists rest, trace s' = request ++ rest.
Proof.
  eexists. split; [vm_compute; reflexivity|].
  destruct (upload_start_unvalidated default_uploader 0 false)
    as (Hpc & Htrace & Hfl & Hputs & Hruns).
  repeat split; try done.
  apply (Hruns empty_file_events). vm_compute. reflexivity.
Defined.

Example negative_chunk_request :
  trace (upload_start (new_uploader (-4) 3 1000) 10 false)
  = [InitCall 10 (Some (-2))].
Proof. reflexivity. Qed.

(** ** Malformed session replies *)

(** C6, evaluated on the code. A reply for a file of one part whose
    only token lacks its [url] is malformed in the sense of the
    specification, yet it passes the checks that [getPresignedUrls]
    makes: the call returns the reply, the session is stored, and
    [upload] starts the transfer of part 1, towards the URL
    [undefined]. *)
Theorem token_without_url_accepted :
  malformed (ceil_div 1 default_chunkSize) reply_without_url = true /\
  fails_checks (ceil_div 1 default_chunkSize) reply_without_url = false /\
  (getPresignedUrls default_uploader 1 (resp_json reply_without_url)).1
  = Ok reply_without_url /\
  uploadId (getPresignedUrls default_uploader 1 (resp_json reply_without_url)).2
  = VStr "u" /\
  presignedUrls
    (getPresignedUrls default_uploader 1 (resp_json reply_without_url)).2
  = [VObj [("partNumber", VNum 1)]] /\
  (trace <$> upload default_uploader 1 false
               [InitSettled (resp_json reply_without_url)])
  = Some [InitCall 1 (Some 1); PutCall 1 VUndefined 0 1].
Proof. repeat split; reflexivity. Qed.

(** X25. What [getPresignedUrls] rejects. On a reply with a success
    status and a JSON body it throws exactly when the session id is
    missing (falsy), the token list is missing or not an array, the
    token count differs from [totalParts], or the sort of the tokens
    throws, which takes two tokens or more (not counting [undefined]
    ones, which a JSON body does not have) and among them one that is
    [null] or whose [partNumber] cannot be converted to a number; the
    [url] of a token is not looked at, nor is the [partNumber] of a
    single token. On any other reply it throws. Whenever it throws,
    [this] is left as it was (no [uploadId], token list, bucket or key
    is assigned) and [upload] takes its [catch] path without starting
    any part transfer. *)
Theorem getPresignedUrls_rejects (s : State) (o : FetchOutcome) :
  pc s = AwaitInit ->
  let res := getPresignedUrls (this s) (fileSize s) o in
  (forall r data,
     o = Responded r -> r_ok r = true -> r_json r = Some data ->
     throws res.1
     = fails_checks (ceil_div (fileSize s) (chunkSize (this s))) data
       || tokens_unsortable data) /\
  (proper_reply o = false -> throws res.1 = true) /\
  (throws res.1 = true ->
     res.2 = this s /\
     exists s', step s (InitSettled o) = Some s' /\
       this s' = this s /\ flights s' = flights s /\
       partsArray s' = partsArray s /\
       forall p, put_count p (trace s') = put_count p (trace s)).
Proof.
  intros Hpc res. split; [|split].
  - intros r data -> Hok Hjson. subst res.
    unfold getPresignedUrls, read_json, check_ok. rewrite Hjson, Hok. simpl.
    destruct data as [| | | | | | |f]; try done. simpl.
    unfold fails_checks.
    destruct (truthy (assoc "uploadId" f)); [|done]. simpl.
    destruct (assoc "presignedUrls" f) as [| | [] | | | [] |items|]; try done.
    { simpl. unfold truthy. by destruct (z =? 0). }
    simpl.
    destruct (length_is (length items) _); [|done]. simpl.
    rewrite <- sort_tokens_throws. by destruct (sort_tokens items).
  - subst res. unfold getPresignedUrls, proper_reply, read_json, check_ok.
    destruct o as [reason|r]; [done|].
    destruct (r_json r) as [data|]; destruct (r_ok r); simpl; try done.
    destruct (prop data "error"), (prop data "message"); simpl; try done.
    by destruct (js_text _).
  - intros Hthrow. split; [by apply getPresignedUrls_throw_keeps_this|].
    pose proof (getPresignedUrls_throw_keeps_this _ _ _ Hthrow) as Hkeep.
    subst res. simpl. rewrite Hpc.
    destruct (getPresignedUrls (this s) (fileSize s) o) as [[data|e] u];
      [done|]. simpl in Hkeep. subst u.
    eexists. split; [done|].
    destruct (fail_frame e (set_this (this s) s)) as (-> & -> & -> & _ & _ & _ & _ & Hputs).
    repeat split; try done.
Qed.

Lemma getPresignedUrls_rejects_witness :
  let s := upload_start (new_uploader 5242880 3 1000) 10485760 false in
  let o := resp_json reply_with_opaque_number in
  let res := getPresignedUrls (this s) (fileSize s) o in
  throws res.1 = true /\
  fails_checks (ceil_div (fileSize s) (chunkSize (this s)))
    reply_with_opaque_number = false /\
  throws (getPresignedUrls (this s) (fileSize s) resp_503).1 = true /\
  (res.2 = this s /\
   exists s', step s (InitSettled o) = Some s' /\
     this s' = this s /\ flights s' = flights s /\
     partsArray s' = partsArray s /\
     forall p, put_count p (trace s') = put_count p (trace s)).
Proof.
  intros s o res.
  destruct (getPresignedUrls_rejects s o eq_refl) as (Hiff & _ & Hkeep).
  destruct (getPresignedUrls_rejects s resp_503 eq_refl) as (_ & Hbad & _).
  split; [|split; [|split]].
  - unfold res.
    rewrite (Hiff _ reply_with_opaque_number eq_refl eq_refl eq_refl).
    vm_compute. reflexivity.
  - vm_compute. reflexivity.
  - apply Hbad. reflexivity.
  - apply Hkeep. vm_compute. reflexivity.
Defined.

(** ** The concurrency ceiling *)

(** C9. In every state that a run of [upload] reaches, whatever the file
    size and whatever the order and timing in which the transfers
    settle, at most [maxConcurrent = 5] parts are in flight (suspended
    at the PUT of an attempt or at the pause before a retry). *)
Theorem concurrency_ceiling
    (u : Uploader) (size : Z) (cb : bool) (evs : list Event) (s : State) :
  upload u size cb evs = Some s ->
  (length (flights s) <= maxConcurrent)%nat /\ maxConcurrent = 5%nat.
Proof.
  unfold upload. intros Hrun. split; [|done].
  eapply wf_bound, run_wf; [apply wf_start|exact Hrun].
Qed.

Lemma concurrency_ceiling_witness :
  exists s, seven_parts_start = Some s /\
    map fl_part (flights s) = [1; 2; 3; 4; 5] /\
    ((length (flights s) <= maxConcurrent)%nat /\ maxConcurrent = 5%nat).
Proof.
  eexists. split; [vm_compute; reflexivity|]. split; [reflexivity|].
  apply (concurrency_ceiling (new_uploader 1 3 1000) 7 false
           [InitSettled (resp_json (session "u" seven_tokens))]).
  vm_compute. reflexivity.
Defined.

(** ** The parts submitted for completion *)

Lemma step_keeps_stage (s s' : State) (ev : Event) :
  pc s <> AwaitInit -> step s ev = Some s' ->
  totalParts s' = totalParts s /\ pc s' <> AwaitInit.
Proof.
  assert (forall e s, totalParts (fail e s) = totalParts s /\
            pc (fail e s) <> AwaitInit) as Hfail.
  { intros e s0. unfold fail. by destruct (truthy (uploadId (this s0))). }
  assert (forall s0 s1, pc s0 <> AwaitInit -> batch_progress s0 = Some s1 ->
            totalParts s1 = totalParts s0 /\ pc s1 <> AwaitInit) as Hbatch.
  { intros s0 s1 Hpc. unfold batch_progress.
    destruct (pc s0) eqn:E; try (intros [= <-]; by rewrite E).
    destruct (flights s0); [|intros [= <-]; by rewrite E].
    intros H. apply upload_loop_frame in H. tauto. }
  intros Hpc. destruct ev as [o|p o|p|o|o|]; simpl.
  - destruct (pc s); done.
  - destruct (take_flight p false (flights s)) as [[f rest]|]; [|done]. simpl.
    destruct (put_part p o) as [part|e].
    + intros H. by apply Hbatch in H.
    + destruct (_ >=? _); [|by intros [= <-]]. simpl.
      destruct (pc s) eqn:E; intros [= <-]; simpl; try (by rewrite E).
      apply (Hfail e (set_flights rest s)).
  - destruct (take_flight p true (flights s)) as [[f rest]|]; [|done]. simpl.
    intros H. apply Hbatch in H.
    + revert H. unfold uploadPart_next. simpl. by destruct (_ <? _).
    + unfold uploadPart_next. simpl. by destruct (_ <? _).
  - destruct (pc s); try done.
    destruct (completeUpload o) as [result|e]; intros [= <-]; [done|].
    apply Hfail.
  - destruct (pc s); try done. by destruct (abortUpload o); intros [= <-].
  - intros [= <-]. unfold abort. simpl.
    by destruct (truthy (uploadId (this s))).
Qed.

Lemma session_stage_step (s s' : State) (ev : Event) :
  wf s -> session_stage s -> step s ev = Some s' -> session_stage s'.
Proof.
  intros Hwf [[Hpc Hnone]|[[Hpc Hsized]|(Hfl & Hnone & Hdead)]] Hstep.
  - destruct (wf_init _ Hwf Hpc) as [Hfl _].
    destruct ev as [o|p o|p|o|o|]; simpl in Hstep; rewrite ?Hpc, ?Hfl in Hstep;
      try done.
    + destruct (getPresignedUrls (this s) (fileSize s) o)
        as [[data|e] u] eqn:Hget.
      * right. left.
        pose proof (getPresignedUrls_ok_length (this s) (fileSize s) o data) as Hok.
        rewrite Hget in Hok. simpl in Hok.
        destruct (Hok eq_refl) as (Hceil & Hchunk & _).
        apply upload_loop_frame in Hstep as (Hthis & Htot & Hsize & _ & Hpc').
        split; [done|]. unfold sized. rewrite Hthis, Htot, Hsize. simpl.
        by rewrite Hchunk.
      * right. right. injection Hstep as <-.
        unfold fail. destruct (truthy _); simpl; rewrite Hfl.
        -- split; [done|]. split; [|eauto].
           rewrite completes_app, Hnone. done.
        -- split; [done|]. split; [|eauto].
           rewrite completes_app, Hnone. by destruct (onProgress s).
    + left. injection Hstep as <-. unfold abort. simpl.
      destruct (truthy _); simpl; [|done].
      split; [done|]. rewrite completes_app, Hnone. done.
  - right. left.
    destruct (step_keeps_stage _ _ _ Hpc Hstep) as [Htot Hpc'].
    destruct (step_frame _ _ _ Hstep) as (_ & Hchunk & _ & Hsize & _).
    split; [done|]. unfold sized. by rewrite Hchunk, Htot, Hsize.
  - right. right.
    destruct ev as [o|p o|p|o|o|]; simpl in Hstep; rewrite ?Hfl in Hstep;
      try done.
    + destruct Hdead as [e [Hpc | Hpc]]; by rewrite Hpc in Hstep.
    + destruct Hdead as [e [Hpc | Hpc]]; by rewrite Hpc in Hstep.
    + destruct Hdead as [e [Hpc | Hpc]]; rewrite Hpc in Hstep; [|done].
      destruct (abortUpload o); injection Hstep as <-; simpl.
      * split; [done|]. split; [|eauto].
        rewrite completes_app, Hnone. by destruct (onProgress s).
      * split; [done|]. eauto.
    + injection Hstep as <-. unfold abort. simpl.
      destruct (truthy _); simpl; [|done].
      split; [done|]. split; [|done]. rewrite completes_app, Hnone. done.
Qed.

Lemma session_stage_run (s s' : State) (evs : list Event) :
  wf s -> session_stage s -> run s evs = Some s' -> session_stage s'.
Proof.
  revert s. induction evs as [|ev evs IH]; intros s Hwf Hstage; simpl.
  - by intros [= <-].
  - destruct (step s ev) as [s1|] eqn:Hstep; [|done]. simpl.
    apply IH; [by eapply wf_step|by eapply session_stage_step].
Qed.

Lemma part_numbers_sorted (n : nat) :
  StronglySorted Z.lt (part_numbers n) /\ NoDup (part_numbers n).
Proof.
  unfold part_numbers. generalize 1%nat as from.
  induction n as [|n IH]; intros from; simpl.
  - split; constructor.
  - destruct (IH (S from)) as [Hs Hn]. split.
    + constructor; [done|]. apply Forall_forall. intros x Hx.
      apply list_elem_of_In, in_map_iff in Hx as (k & <- & Hk).
      apply in_seq in Hk. lia.
    + constructor; [|done]. intros Hx.
      apply list_elem_of_In, in_map_iff in Hx as (k & Heq & Hk).
      apply in_seq in Hk. lia.
Qed.

(** C1. In every run of [upload], whatever the order in which the part
    transfers settle: if the transfer of every part [1..totalParts]
    succeeds, then the list passed to a completion call has the part
    numbers [1, 2, ..., totalParts] in this order, hence ascending and
    without duplicate or gap, and [totalParts] is [ceil(fileSize /
    chunkSize)]. *)
Theorem finalization_sorted
    (u : Uploader) (size : Z) (cb : bool) (evs : list Event) (s : State)
    (parts : list Part) :
  upload u size cb evs = Some s ->
  (forall p, 1 <= p <= Z.of_nat (totalParts s) -> succeeds p evs) ->
  In parts (completes (trace s)) ->
  map PartNumber parts = part_numbers (totalParts s) /\
  StronglySorted Z.lt (map PartNumber parts) /\
  NoDup (map PartNumber parts) /\
  ceil_div size (chunkSize u) = Some (Z.of_nat (totalParts s)).
Proof.
  unfold upload. intros Hrun Hall Hin.
  pose proof (run_wf _ _ _ (wf_start u size cb) Hrun) as Hwf.
  assert (1 <= maxRetries (this s) \/ totalParts s = 0%nat) as Hlive.
  { destruct (totalParts s) as [|n] eqn:Hn; [by right|left].
    eapply (run_success_retries _ _ _ 1); [apply wf_start|exact Hrun|].
    apply Hall. lia. }
  pose proof (wf_complete _ Hwf Hlive) as Hcomp.
  rewrite Forall_forall in Hcomp.
  specialize (Hcomp parts (proj2 (list_elem_of_In _ _) Hin)).
  rewrite Hcomp.
  destruct (part_numbers_sorted (totalParts s)) as [Hsorted Hnodup].
  repeat split; try done.
  assert (session_stage (upload_start u size cb)) as Hstage0.
  { left. split; [done|]. simpl. rewrite !completes_app. by destruct cb. }
  pose proof (session_stage_run _ _ _ (wf_start u size cb) Hstage0 Hrun)
    as [[_ Hnone]|[[_ Hsized]|(_ & Hnone & _)]];
    try (rewrite Hnone in Hin; done).
  unfold sized in Hsized.
  destruct (run_frame _ _ _ Hrun) as (_ & Hc & _ & Hf & _).
  rewrite Hc, Hf in Hsized. destruct cb; exact Hsized.
Qed.

Lemma finalization_sorted_witness :
  exists s, upload default_uploader 12582912 false shuffled_events
            = Some s /\
    completes (trace s) = [[mkPart 1 "e1"; mkPart 2 "e2"; mkPart 3 "e3"]] /\
    (map PartNumber [mkPart 1 "e1"; mkPart 2 "e2"; mkPart 3 "e3"]
     = part_numbers (totalParts s) /\
     StronglySorted Z.lt
       (map PartNumber [mkPart 1 "e1"; mkPart 2 "e2"; mkPart 3 "e3"]) /\
     NoDup (map PartNumber [mkPart 1 "e1"; mkPart 2 "e2"; mkPart 3 "e3"]) /\
     ceil_div 12582912 (chunkSize default_uploader)
     = Some (Z.of_nat (totalParts s))).
Proof.
  eexists. split; [vm_compute; reflexivity|]. split; [reflexivity|].
  apply (finalization_sorted default_uploader 12582912 false shuffled_events).
  - vm_compute. reflexivity.
  - intros p Hp. simpl in Hp.
    assert (p = 1 \/ p = 2 \/ p = 3) as [->|[->| ->]] by lia.
    + exists (resp_ok "e1"), (mkPart 1 "e1"). split; [simpl; tauto|reflexivity].
    + exists (resp_ok "e2"), (mkPart 2 "e2"). split; [simpl; tauto|reflexivity].
    + exists (resp_ok "e3"), (mkPart 3 "e3"). split; [simpl; tauto|reflexivity].
  - left. reflexivity.
Defined.

(** ** The failure path *)

Lemma abortUpload_swallows (o : FetchOutcome) : abortUpload o = Ok tt.
Proof. by destruct o. Qed.

Lemma await_abort_stable (s s' : State) (ev : Event) (e : JsError) :
  pc s = AwaitAbort e -> is_abort_reply ev = false ->
  step s ev = Some s' ->
  pc s' = AwaitAbort e /\ onProgress s' = onProgress s.
Proof.
  intros Hpc Hev. destruct ev as [o|p o|p|o|o|]; simpl; try done.
  - by rewrite Hpc.
  - destruct (take_flight p false (flights s)) as [[f rest]|]; [|done]. simpl.
    destruct (put_part p o) as [part|e'].
    + unfold batch_progress. simpl. rewrite Hpc. by intros [= <-].
    + destruct (_ >=? _); simpl; rewrite ?Hpc; by intros [= <-].
  - destruct (take_flight p true (flights s)) as [[f rest]|]; [|done]. simpl.
    unfold batch_progress, uploadPart_next. simpl.
    destruct (_ <? _); simpl; rewrite Hpc; by intros [= <-].
  - by rewrite Hpc.
  - intros [= <-]. unfold abort. simpl. by destruct (truthy _).
Qed.

Lemma await_abort_run (s s' : State) (evs : list Event) (e : JsError) :
  pc s = AwaitAbort e -> forallb (fun ev => negb (is_abort_reply ev)) evs = true ->
  run s evs = Some s' ->
  pc s' = AwaitAbort e /\ onProgress s' = onProgress s.
Proof.
  revert s. induction evs as [|ev evs IH]; intros s Hpc Hevs; simpl.
  - by intros [= <-].
  - simpl in Hevs. apply andb_prop in Hevs as [Hev Hevs].
    apply negb_true_iff in Hev.
    destruct (step s ev) as [s1|] eqn:Hstep; [|done]. simpl.
    destruct (await_abort_stable _ _ _ _ Hpc Hev Hstep) as [Hpc1 Hcb1].
    intros Hrun. destruct (IH _ Hpc1 Hevs Hrun) as [-> ->]. done.
Qed.

(** Once [upload] has rejected, it stays rejected with the same error and
    only the parts still in flight and [abort()] act. *)
Lemma rejected_step (s s' : State) (ev : Event) (e : JsError) :
  pc s = Rejected e -> step s ev = Some s' ->
  pc s' = Rejected e /\
  exists late, trace s' = trace s ++ late /\
    forallb straggler_action late = true.
Proof.
  intros Hpc. destruct ev as [o|p o|p|o|o|]; simpl; try (by rewrite Hpc).
  - destruct (take_flight p false (flights s)) as [[f rest]|]; [|done]. simpl.
    destruct (put_part p o) as [part|e'].
    + unfold batch_progress. simpl. rewrite Hpc. intros [= <-]. simpl.
      split; [done|]. eexists. split; [done|]. by destruct (onProgress s).
    + destruct (_ >=? _); simpl; rewrite ?Hpc; intros [= <-]; simpl.
      * split; [done|]. exists []. by rewrite app_nil_r.
      * split; [done|]. by eexists.
  - destruct (take_flight p true (flights s)) as [[f rest]|]; [|done]. simpl.
    unfold batch_progress, uploadPart_next. simpl.
    destruct (_ <? _); simpl; rewrite Hpc; intros [= <-]; simpl.
    + split; [done|]. by eexists.
    + split; [done|]. eexists. split; [done|]. by destruct (onProgress s).
  - intros [= <-]. unfold abort. simpl. destruct (truthy _); simpl.
    + split; [done|]. by eexists.
    + split; [done|]. exists []. by rewrite app_nil_r.
Qed.

Lemma rejected_run (s s' : State) (evs : list Event) (e : JsError) :
  pc s = Rejected e -> run s evs = Some s' ->
  pc s' = Rejected e /\
  exists late, trace s' = trace s ++ late /\
    forallb straggler_action late = true.
Proof.
  revert s. induction evs as [|ev evs IH]; intros s Hpc; simpl.
  - intros [= <-]. split; [done|]. exists []. by rewrite app_nil_r.
  - destruct (step s ev) as [s1|] eqn:Hstep; [|done]. simpl. intros Hrun.
    destruct (rejected_step _ _ _ _ Hpc Hstep) as (Hpc1 & l1 & Ht1 & Hl1).
    destruct (IH _ Hpc1 Hrun) as (Hpc' & l2 & Ht2 & Hl2).
    split; [done|]. exists (l1 ++ l2). rewrite Ht2, Ht1, <- app_assoc.
    split; [done|]. by rewrite forallb_app, Hl1, Hl2.
Qed.

(** C5 as stated fails: the ['error'] event is not the final progress
    event. With [maxRetries = 1], part 3 of a batch of three fails while
    parts 1 and 2 are in flight; the session is cancelled (the cancel
    call fails, which is swallowed), ['error'] is reported and [upload]
    rejects with the error of part 3. Part 1 then succeeds: its record
    is stored and an ['uploading'] event is reported, after the
    ['error'] event and after the rejection. *)
Lemma error_event_not_final_counterexample :
  (pc <$> straggler_run)
  = Some (Rejected (ErrUploadFailed "Service Unavailable" 503)) /\
  (trace <$> straggler_run)
  = Some [Report PInitiating; InitCall 12582912 (Some 3);
          Report (PUploading 3 0 None);
          PutCall 1 (VStr "u1") 0 5242880;
          PutCall 2 (VStr "u2") 5242880 10485760;
          PutCall 3 (VStr "u3") 10485760 12582912;
          AbortCall (VStr "u") (VStr "b") (VStr "k");
          Report (PError (ErrUploadFailed "Service Unavailable" 503));
          Report (PUploading 3 1 (Some 1))] /\
  (last ∘ trace <$> straggler_run)
  = Some (Some (Report (PUploading 3 1 (Some 1)))).
Proof. repeat split; vm_compute; reflexivity. Qed.

(** C5, amended. When the session request, a part transfer after its
    last allowed attempt, or the completion request fails with [e]
    while [this.uploadId] is set, [upload] first issues the abort call
    and waits for it; whatever else settles meanwhile and however the
    abort call ends (also when it fails), [upload] then reports the
    ['error'] event carrying [e] (when a callback was given) and is
    rejected with that same [e]. This is the last action of [upload]
    itself and it stays rejected with [e], but the ['error'] event need
    not be the last progress event: whatever happens afterwards, the
    only further actions are those of the parts that were still in
    flight (their PUTs, pauses and ['uploading'] events) and the cancel
    calls of [abort()]. *)
Theorem upload_failure_path (s : State) (ev : Event) (e : JsError) :
  stage_failure s ev e ->
  truthy (uploadId (this s)) = true ->
  exists s1,
    step s ev = Some s1 /\
    pc s1 = AwaitAbort e /\
    trace s1 = trace s ++ [AbortCall (uploadId (this s)) (bucket (this s))
                             (key (this s))] /\
    forall evs s2 o,
      forallb (fun ev => negb (is_abort_reply ev)) evs = true ->
      run s1 evs = Some s2 ->
      exists s3,
        step s2 (AbortSettled o) = Some s3 /\
        pc s3 = Rejected e /\
        trace s3 = trace s2 ++ (if onProgress s then [Report (PError e)] else []) /\
        forall later s4,
          run s3 later = Some s4 ->
          pc s4 = Rejected e /\
          exists late, trace s4 = trace s3 ++ late /\
            forallb straggler_action late = true.
Proof.
  intros Hfail Huid.
  assert (forall s0, this s0 = this s -> trace s0 = trace s ->
            onProgress s0 = onProgress s ->
            exists s1, Some (fail e s0) = Some s1 /\ pc s1 = AwaitAbort e /\
              trace s1 = trace s ++ [AbortCall (uploadId (this s))
                                       (bucket (this s)) (key (this s))] /\
              onProgress s1 = onProgress s) as Hcatch.
  { intros s0 Hthis Htrace Hcb. eexists. split; [done|].
    unfold fail. rewrite Hthis, Huid. simpl. by rewrite Htrace. }
  assert (exists s1, step s ev = Some s1 /\ pc s1 = AwaitAbort e /\
            trace s1 = trace s ++ [AbortCall (uploadId (this s))
                                     (bucket (this s)) (key (this s))] /\
            onProgress s1 = onProgress s) as (s1 & Hstep & Hpc & Htr & Hcb).
  { destruct ev as [o|p o|p|o|o|]; simpl in Hfail; try done.
    - destruct Hfail as [Hpc Hget]. simpl. rewrite Hpc.
      pose proof (getPresignedUrls_throw_keeps_this (this s) (fileSize s) o) as Hkeep.
      destruct (getPresignedUrls (this s) (fileSize s) o) as [r u].
      simpl in *. subst r. rewrite Hkeep by done. by apply Hcatch.
    - destruct Hfail as [[i Hpc] (f & rest & Htake & Hput & Hlast)].
      simpl. rewrite Htake. simpl. rewrite Hput.
      destruct (Z.geb_spec (fl_retries f + 1) (maxRetries (this s))); [|lia].
      simpl. rewrite Hpc. by apply Hcatch.
    - destruct Hfail as [Hpc Hcomp]. simpl. rewrite Hpc, Hcomp. by apply Hcatch. }
  exists s1. repeat split; try done.
  intros evs s2 o Hevs Hrun.
  destruct (await_abort_run _ _ _ _ Hpc Hevs Hrun) as [Hpc2 Hcb2].
  simpl. rewrite Hpc2, abortUpload_swallows. eexists. split; [done|].
  split; [done|]. split; [simpl; by rewrite Hcb2, Hcb|].
  intros later s4 Hlater. by apply (rejected_run _ _ later).
Qed.

Lemma upload_failure_path_witness :
  exists s, scenario_C_before = Some s /\
  exists s1,
    step s (PutSettled 3 resp_503) = Some s1 /\
    pc s1 = AwaitAbort (ErrUploadFailed "Service Unavailable" 503) /\
    trace s1 = trace s ++ [AbortCall (uploadId (this s)) (bucket (this s))
                             (key (this s))] /\
    forall evs s2 o,
      forallb (fun ev => negb (is_abort_reply ev)) evs = true ->
      run s1 evs = Some s2 ->
      exists s3,
        step s2 (AbortSettled o) = Some s3 /\
        pc s3 = Rejected (ErrUploadFailed "Service Unavailable" 503) /\
        trace s3 = trace s2
                   ++ (if onProgress s
                       then [Report (PError (ErrUploadFailed "Service Unavailable" 503))]
                       else []) /\
        forall later s4,
          run s3 later = Some s4 ->
          pc s4 = Rejected (ErrUploadFailed "Service Unavailable" 503) /\
          exists late, trace s4 = trace s3 ++ late /\
            forallb straggler_action late = true.
Proof.
  eexists. split; [vm_compute; reflexivity|].
  apply upload_failure_path.
  - split; [eexists; reflexivity|].
    eexists _, _. split; [reflexivity|]. split; [reflexivity|]. discriminate.
  - reflexivity.
Defined.

(** In every reachable state the attempt a part in flight is at is none
    beyond the [maxRetries]-th. *)
Lemma attempts_never_exceed_maxRetries
    (u : Uploader) (size : Z) (cb : bool) (evs : list Event) (s : State)
    (f : Flight) :
  upload u size cb evs = Some s -> In f (flights s) ->
  1 <= fl_retries f + 1 <= maxRetries (this s).
Proof.
  unfold upload. intros Hrun Hin.
  pose proof (run_wf _ _ _ (wf_start u size cb) Hrun) as Hwf.
  pose proof (wf_flights _ Hwf) as Hfl. rewrite Forall_forall in Hfl.
  apply list_elem_of_In, Hfl in Hin. lia.
Qed.

(** ** [abort()] *)

Lemma quiet_tail (s' s : State) :
  (exists e, s' = fail e s) \/ s' = finish_transfers s ->
  this s' = this s /\ flights s' = flights s /\ partsArray s' = partsArray s /\
  (forall q, put_count q (trace s') = put_count q (trace s)) /\
  (forall a, In a (trace s) -> In a (trace s')).
Proof.
  intros [[e ->]| ->].
  - destruct (fail_frame e s) as (-> & -> & -> & _ & _ & _ & _ & Hputs).
    repeat split; try done.
    unfold fail. destruct (truthy _); simpl; intros a Ha;
      apply in_app_iff; by left.
  - simpl. repeat split; try done.
    + intros q. rewrite !put_count_app. unfold put_count.
      destruct (onProgress s); simpl; lia.
    + intros a Ha. apply in_app_iff. left. apply in_app_iff. by left.
Qed.

Lemma batch_progress_aborted (s s' : State) :
  aborted (this s) = true -> batch_progress s = Some s' ->
  this s' = this s /\ flights s' = flights s /\ partsArray s' = partsArray s /\
  (forall q, put_count q (trace s') = put_count q (trace s)) /\
  (forall a, In a (trace s) -> In a (trace s')).
Proof.
  intros Hab. unfold batch_progress.
  destruct (pc s); try (by intros [= <-]).
  destruct (flights s) eqn:Hfl; [|by intros [= <-]].
  intros H. apply upload_loop_aborted in H; [|done].
  rewrite <- Hfl. apply quiet_tail. destruct H; eauto.
Qed.

(** C8 as stated fails: in scenario D the flag is set while parts 2 and
    3 are in flight; when the PUT of part 2 then succeeds, its record is
    stored in [partsArray] and an ['uploading'] progress event with two
    uploaded parts is reported. *)
Lemma abort_keeps_results_counterexample :
  exists s s',
    scenario_D = Some s /\ aborted (this s) = true /\
    map fl_part (flights s) = [2; 3] /\
    step s (PutSettled 2 (resp_ok "e2")) = Some s' /\
    partsArray s = [Some (mkPart 1 "e1"); None; None] /\
    partsArray s' = [Some (mkPart 1 "e1"); Some (mkPart 2 "e2"); None] /\
    trace s' = trace s ++ [Report (PUploading 3 2 (Some 2))].
Proof.
  eexists _, _. split; [vm_compute; reflexivity|].
  repeat split; vm_compute; reflexivity.
Qed.

(** C8, amended. The promise of [abortUpload] is never rejected, so
    [abort()] never throws. Once [this.aborted] is true in a reachable
    state it stays true, no part that is not already in flight is
    dispatched, and no PUT is issued for such a part (the only PUTs are
    retries of parts in flight). The result of a transfer that is in
    flight is not discarded: when its PUT succeeds, the record is stored
    in its slot of [partsArray] and, when a callback was given, an
    ['uploading'] progress event for the part is reported. *)
Theorem abort_semantics
    (u : Uploader) (size : Z) (cb : bool) (evs : list Event) (s : State) :
  upload u size cb evs = Some s ->
  aborted (this s) = true ->
  (forall o, abortUpload o = Ok tt) /\
  (forall ev s', step s ev = Some s' ->
     aborted (this s') = true /\
     (forall q, In q (map fl_part (flights s')) ->
                In q (map fl_part (flights s))) /\
     (forall q, ~ In q (map fl_part (flights s)) ->
                put_count q (trace s') = put_count q (trace s))) /\
  (forall p o part,
     is_Some (take_flight p false (flights s)) ->
     put_part p o = Ok part ->
     exists s', step s (PutSettled p o) = Some s' /\
       partsArray s' !! Z.to_nat (p - 1) = Some (Some part) /\
       (cb = true ->
        exists n, In (Report (PUploading (totalParts s) n (Some p))) (trace s'))).
Proof.
  unfold upload. intros Hrun Hab.
  pose proof (run_wf _ _ _ (wf_start u size cb) Hrun) as Hwf.
  split; [apply abortUpload_swallows|]. split.
  - intros ev s' Hstep.
    destruct ev as [o|p o|p|o|o|]; simpl in Hstep.
    + destruct (pc s) eqn:Hpc; try done.
      destruct (getPresignedUrls (this s) (fileSize s) o)
        as [[data|e] u'] eqn:Hget.
      * pose proof (getPresignedUrls_ok_length (this s) (fileSize s) o data) as Hok.
        rewrite Hget in Hok. simpl in Hok.
        destruct (Hok eq_refl) as (_ & _ & _ & _ & Hab' & _).
        apply upload_loop_aborted in Hstep; [|simpl; congruence].
        match type of Hstep with _ = fail _ ?s0 \/ _ =>
          destruct (quiet_tail s' s0) as (-> & -> & _ & Hputs & _) end.
        { destruct Hstep; eauto. }
        simpl. split; [congruence|]. split; [done|].
        intros q _. rewrite Hputs. simpl. rewrite put_count_app.
        unfold put_count. destruct (onProgress s); simpl; lia.
      * pose proof (getPresignedUrls_throw_keeps_this (this s) (fileSize s) o) as Hkeep.
        rewrite Hget in Hkeep. simpl in Hkeep. specialize (Hkeep eq_refl).
        subst u'. injection Hstep as <-.
        destruct (fail_frame e (set_this (this s) s))
          as (-> & -> & _ & _ & _ & _ & _ & Hputs).
        simpl. repeat split; try done; intros q _; apply Hputs.
    + destruct (take_flight p false (flights s)) as [[f rest]|] eqn:Htake;
        [|done].
      simpl in Hstep. apply take_flight_spec in Htake as (Hp & _ & Hperm).
      assert (forall q, In q (map fl_part rest) ->
                In q (map fl_part (flights s))) as Hsub.
      { intros q Hq. apply list_elem_of_In. rewrite Hperm.
        apply list_elem_of_In. simpl. by right. }
      destruct (put_part p o) as [part|e].
      * apply batch_progress_aborted in Hstep as (-> & -> & _ & Hputs & _);
          [|done].
        simpl. repeat split; try done.
        intros q _. rewrite Hputs. simpl. rewrite put_count_app.
        unfold put_count. destruct (onProgress s); simpl; lia.
      * destruct (_ >=? _).
        -- simpl in Hstep.
           assert (s' = set_flights rest s \/ s' = fail e (set_flights rest s))
             as [-> | ->] by (destruct (pc s); injection Hstep as <-; auto).
           ++ simpl. repeat split; done.
           ++ destruct (fail_frame e (set_flights rest s))
                as (-> & -> & _ & _ & _ & _ & _ & Hputs).
              simpl. repeat split; try done; intros q _; apply Hputs.
        -- injection Hstep as <-. simpl. repeat split; try done.
           ++ intros q. rewrite map_app, in_app_iff. simpl.
              intros [Hq|[<-|[]]]; [by apply Hsub|].
              apply list_elem_of_In. rewrite Hperm. apply list_elem_of_In.
              simpl. by left.
           ++ intros q _. rewrite put_count_app. unfold put_count. simpl. lia.
    + destruct (take_flight p true (flights s)) as [[f rest]|] eqn:Htake;
        [|done].
      simpl in Hstep. apply take_flight_spec in Htake as (Hp & _ & Hperm).
      assert (In p (map fl_part (flights s))) as Hpin.
      { apply list_elem_of_In. rewrite Hperm. apply list_elem_of_In.
        simpl. by left. }
      assert (forall q, In q (map fl_part rest) ->
                In q (map fl_part (flights s))) as Hsub.
      { intros q Hq. apply list_elem_of_In. rewrite Hperm.
        apply list_elem_of_In. simpl. by right. }
      apply batch_progress_aborted in Hstep as (-> & -> & _ & Hputs & _).
      2:{ unfold uploadPart_next. simpl. by destruct (_ <? _). }
      unfold uploadPart_next in *. simpl in *.
      destruct (_ <? _); simpl in *.
      * repeat split; try done.
        -- intros q. rewrite map_app, in_app_iff. simpl.
           intros [Hq|[<-|[]]]; auto.
        -- intros q Hq. rewrite Hputs, put_count_app. unfold put_count. simpl.
           destruct (Z.eqb_spec p q) as [->|]; [done|simpl; lia].
      * repeat split; try done.
        intros q _. rewrite Hputs, put_count_app. unfold put_count.
        destruct (onProgress s); simpl; lia.
    + destruct (pc s); try done.
      destruct (completeUpload o) as [result|e]; injection Hstep as <-.
      * simpl. repeat split; try done. intros q _. rewrite put_count_app.
        unfold put_count. destruct (onProgress s); simpl; lia.
      * destruct (fail_frame e s) as (-> & -> & _ & _ & _ & _ & _ & Hputs).
        repeat split; try done; intros q _; apply Hputs.
    + destruct (pc s); try done.
      destruct (abortUpload o); injection Hstep as <-; simpl;
        repeat split; try done.
      intros q _. rewrite put_count_app.
      unfold put_count. destruct (onProgress s); simpl; lia.
    + injection Hstep as <-. unfold abort. simpl.
      destruct (truthy _); simpl; repeat split; try done.
      intros q _. rewrite put_count_app. unfold put_count. simpl. lia.
  - intros p o part [[f rest] Htake] Hput.
    destruct (step_total s (PutSettled p o)) as [s' Hstep].
    { simpl. rewrite Htake. eauto. }
    exists s'. split; [done|].
    simpl in Hstep. rewrite Htake in Hstep. simpl in Hstep.
    rewrite Hput in Hstep.
    apply take_flight_spec in Htake as (Hp & _ & Hperm).
    pose proof (wf_flights _ Hwf) as Hfl. rewrite Hperm in Hfl.
    apply Forall_cons in Hfl as [[Hrange _] _].
    apply batch_progress_aborted in Hstep as (_ & _ & -> & _ & Htrace);
      [|done].
    simpl. split.
    + rewrite array_set_lookup; [by case_decide|].
      rewrite (wf_length _ Hwf). lia.
    + intros ->. eexists. apply Htrace. simpl. apply in_app_iff. right.
      assert (onProgress s = true) as ->; [|simpl; by left].
      by destruct (run_frame _ _ _ Hrun) as (_ & _ & _ & _ & ->).
Qed.

Lemma abort_semantics_witness :
  exists s, scenario_D = Some s /\
  (forall o, abortUpload o = Ok tt) /\
  (forall ev s', step s ev = Some s' ->
     aborted (this s') = true /\
     (forall q, In q (map fl_part (flights s')) ->
                In q (map fl_part (flights s))) /\
     (forall q, ~ In q (map fl_part (flights s)) ->
                put_count q (trace s') = put_count q (trace s))) /\
  (forall p o part,
     is_Some (take_flight p false (flights s)) ->
     put_part p o = Ok part ->
     exists s', step s (PutSettled p o) = Some s' /\
       partsArray s' !! Z.to_nat (p - 1) = Some (Some part) /\
       (true = true ->
        exists n, In (Report (PUploading (totalParts s) n (Some p))) (trace s'))).
Proof.
  eexists. split; [vm_compute; reflexivity|].
  apply (abort_semantics (new_uploader 5242880 3 1000) 12582912 true
           scenario_D_events); vm_compute; reflexivity.
Defined.

Example abort_in_last_batch :
  (trace <$> (scenario_D ≫= fun s =>
     run s [PutSettled 2 (resp_ok "e2"); PutSettled 3 (resp_ok "e3")]))
  = Some [Report PInitiating; InitCall 12582912 (Some 3);
          Report (PUploading 3 0 None);
          PutCall 1 (VStr "u1") 0 5242880;
          PutCall 2 (VStr "u2") 5242880 10485760;
          PutCall 3 (VStr "u3") 10485760 12582912;
          Report (PUploading 3 1 (Some 1));
          AbortCall (VStr "u") (VStr "b") (VStr "k");
          Report (PUploading 3 2 (Some 2));
          Report (PUploading 3 3 (Some 3));
          Report PCompleting;
          CompleteCall (VStr "u")
            [mkPart 1 "e1"; mkPart 2 "e2"; mkPart 3 "e3"] (VStr "b") (VStr "k")].
Proof. vm_compute. reflexivity. Qed.

(** * Further properties of the uploader *)

(** ** Entity tags *)

Lemma strip_quotes_clean (s : string) :
  ~ In dquote (String.list_ascii_of_string (strip_quotes s)).
Proof.
  induction s as [|c s IH]; simpl; [tauto|].
  destruct (Ascii.eqb c dquote) eqn:E; simpl; [done|].
  intros [->|H]; [|done]. by rewrite Ascii.eqb_refl in E.
Qed.

(** X1. A part transfer succeeds only on a success-status response that
    carries an ETag header, and the record it returns has the part
    number asked for and the header value without its double quotes,
    which is not empty: a header made of quotes only is a failure. *)
Theorem put_part_etag (p : Z) (o : FetchOutcome) (part : Part) :
  put_part p o = Ok part ->
  PartNumber part = p /\
  ETag part <> EmptyString /\
  ~ In dquote (String.list_ascii_of_string (ETag part)) /\
  exists r h, o = Responded r /\ r_ok r = true /\ r_etag r = Some h /\
              ETag part = strip_quotes h.
Proof.
  unfold put_part. destruct o as [reason|r]; [done|].
  destruct (r_ok r) eqn:Hok; simpl; [|done].
  destruct (r_etag r) as [h|] eqn:Hh; simpl; [|done].
  destruct (String.eqb (strip_quotes h) EmptyString) eqn:He; [done|].
  intros [= <-]. simpl. repeat split.
  - intros Heq. rewrite Heq in He. done.
  - apply strip_quotes_clean.
  - by exists r, h.
Qed.

Lemma put_part_etag_witness :
  let part := {| PartNumber := 4; ETag := "d41d8" |} in
  let o := resp_ok (String dquote ("d41d8" +:+ String dquote EmptyString)) in
  PartNumber part = 4 /\
  ETag part <> EmptyString /\
  ~ In dquote (String.list_ascii_of_string (ETag part)) /\
  exists r h, o = Responded r /\ r_ok r = true /\ r_etag r = Some h /\
              ETag part = strip_quotes h.
Proof.
  apply (put_part_etag 4
           (resp_ok (String dquote ("d41d8" +:+ String dquote EmptyString)))).
  vm_compute. reflexivity.
Defined.

(** ** The first successful attempt *)

Lemma uploadPart_loop_first_success
    (maxR delay p : Z) (net : Z -> FetchOutcome) (part : Part) (k : Z) :
  k <= maxR ->
  put_part p (net k) = Ok part ->
  forall (d fuel : nat) (retries : Z) (log : list PartIO),
  Z.of_nat d = k - 1 - retries ->
  maxR - retries <= Z.of_nat fuel ->
  (forall j, retries < j < k -> throws (put_part p (net j)) = true) ->
  uploadPart_loop maxR delay p net fuel retries log
  = Some (Ok (Some part), log ++ schedule delay (retries + 1) (S d)).
Proof.
  intros Hk Hok. induction d as [|d IH]; intros fuel retries log Hd Hfuel Hfail.
  - assert (retries + 1 = k) as Hr by lia.
    destruct fuel as [|fuel]; [lia|]. simpl.
    destruct (Z.ltb_spec retries maxR); [|lia].
    rewrite Hr, Hok. done.
  - destruct fuel as [|fuel]; [lia|]. simpl.
    destruct (Z.ltb_spec retries maxR); [|lia].
    specialize (Hfail (retries + 1) ltac:(lia)) as Hthrow.
    destruct (put_part p (net (retries + 1))) as [?|e]; [done|].
    destruct (Z.geb_spec (retries + 1) maxR); [lia|].
    rewrite (IH fuel (retries + 1)); [|lia|lia|intros j Hj; apply Hfail; lia].
    rewrite <- !app_assoc. done.
Qed.

(** X2. [uploadPart] stops at the first attempt that succeeds: when
    attempt [k <= maxRetries] is the first one whose PUT succeeds, the
    record of that attempt is returned after exactly [k] attempts, with
    the pause [retryDelay * n] after each failed attempt [n] and none
    after the successful one. *)
Theorem uploadPart_first_success
    (maxR delay p : Z) (net : Z -> FetchOutcome) (part : Part) (k : Z) :
  1 <= k <= maxR ->
  put_part p (net k) = Ok part ->
  (forall j, 1 <= j < k -> throws (put_part p (net j)) = true) ->
  uploadPart maxR delay p net
  = Some (Ok (Some part), schedule delay 1 (Z.to_nat k)) /\
  attempts_of (schedule delay 1 (Z.to_nat k))
  = map (fun j => 1 + Z.of_nat j) (seq 0 (Z.to_nat k)).
Proof.
  intros Hk Hok Hfail. split; [|apply attempts_of_schedule].
  unfold uploadPart.
  rewrite (uploadPart_loop_first_success maxR delay p net part k
             ltac:(lia) Hok (Z.to_nat (k - 1)) (Z.to_nat maxR) 0 []);
    [|lia|lia|intros j Hj; apply Hfail; lia].
  replace (S (Z.to_nat (k - 1))) with (Z.to_nat k) by lia. done.
Qed.

Lemma uploadPart_first_success_witness :
  uploadPart 3 1000 2 fail_twice
  = Some (Ok (Some {| PartNumber := 2; ETag := "abc" |}),
          schedule 1000 1 (Z.to_nat 3)) /\
  attempts_of (schedule 1000 1 (Z.to_nat 3))
  = map (fun j => 1 + Z.of_nat j) (seq 0 (Z.to_nat 3)).
Proof.
  apply (uploadPart_first_success 3 1000 2 fail_twice
           {| PartNumber := 2; ETag := "abc" |} 3).
  - lia.
  - vm_compute. reflexivity.
  - intros j Hj. assert (j = 1 \/ j = 2) as [-> | ->] by lia;
      vm_compute; reflexivity.
Defined.

(** ** The order of the tokens *)

Lemma compare_tokens_numbers (a b : JsVal) (x y : Z) :
  token_number a = Some x -> token_number b = Some y ->
  compare_tokens a b = Ok (Some (x - y)).
Proof.
  destruct a as [| | | | | |?|fa]; try done.
  destruct b as [| | | | | |?|fb]; try done.
  unfold compare_tokens. simpl.
  destruct (assoc "partNumber" fa); try done.
  destruct (assoc "partNumber" fb); try done.
  by intros [= ->] [= ->].
Qed.

Lemma sort_compare_numbers (a b : JsVal) (x y : Z) :
  token_number a = Some x -> token_number b = Some y ->
  sort_compare a b = Ok (Some (x - y)).
Proof.
  intros Ha Hb. rewrite <- (compare_tokens_numbers a b x y Ha Hb).
  destruct a; try done. by destruct b.
Qed.

Lemma insert_token_numbers (x : JsVal) (n : Z) (l : list JsVal) (ns : list Z) :
  token_number x = Some n ->
  Forall2 (fun tok m => token_number tok = Some m) l ns ->
  StronglySorted Z.le ns ->
  exists l' ns', insert_token x l = Ok l' /\
    Forall2 (fun tok m => token_number tok = Some m) l' ns' /\
    StronglySorted Z.le ns' /\ ns' ≡ₚ n :: ns /\ l' ≡ₚ x :: l /\
    (Forall (fun m => n <= m) ns -> l' = x :: l).
Proof.
  intros Hx Hl. induction Hl as [|y m rest ms Hy Hrest IH]; intros Hs.
  - exists [x], [n]. simpl. repeat split; try done.
    + by repeat constructor.
    + by repeat constructor.
  - cbn [insert_token]. rewrite (sort_compare_numbers x y n m Hx Hy). simpl.
    apply StronglySorted_inv in Hs as [Hs Hm].
    destruct (Z.ltb_spec 0 (n - m)).
    + destruct (IH Hs) as (l' & ns' & -> & H2 & Hs' & Hp & Hp' & _).
      exists (y :: l'), (m :: ns'). simpl. repeat split.
      * by constructor.
      * constructor; [done|]. rewrite Hp. constructor; [lia|done].
      * rewrite Hp. apply perm_swap.
      * rewrite Hp'. apply perm_swap.
      * intros Hle. apply Forall_cons in Hle as [? _]. lia.
    + exists (x :: y :: rest), (n :: m :: ms). repeat split; try done.
      * by repeat constructor.
      * constructor; [by constructor|].
        constructor; [lia|]. eapply Forall_impl; [exact Hm|].
        simpl. intros; lia.
Qed.

Lemma sort_tokens_numbers (l : list JsVal) (ns : list Z) :
  Forall2 (fun tok m => token_number tok = Some m) l ns ->
  exists l' ns', sort_tokens l = Ok l' /\
    Forall2 (fun tok m => token_number tok = Some m) l' ns' /\
    StronglySorted Z.le ns' /\ ns' ≡ₚ ns /\ l' ≡ₚ l /\
    (StronglySorted Z.le ns -> l' = l).
Proof.
  induction 1 as [|x n rest ms Hx Hrest IH].
  - exists [], []. repeat split; try done; constructor.
  - destruct IH as (l1 & ns1 & Hsort & H2 & Hs & Hp & Hp' & Hid).
    destruct (insert_token_numbers x n l1 ns1 Hx H2 Hs)
      as (l' & ns' & Hins & H2' & Hs' & Hq & Hq' & Hid').
    exists l', ns'. simpl. rewrite Hsort. simpl. rewrite Hins.
    repeat split; try done.
    + by rewrite Hq, Hp.
    + by rewrite Hq', Hp'.
    + intros Hsorted. apply StronglySorted_inv in Hsorted as [Hms Hle].
      rewrite <- (Hid Hms). apply Hid'. by rewrite Hp.
Qed.

Lemma part_numbers_le_sorted (n : nat) : StronglySorted Z.le (part_numbers n).
Proof.
  unfold part_numbers. generalize 1%nat.
  induction n as [|n IH]; intros from; simpl; constructor; [apply IH|].
  apply Forall_forall. intros z Hz.
  apply list_elem_of_fmap in Hz as (m & -> & Hm).
  apply elem_of_seq in Hm. lia.
Qed.

Lemma part_numbers_lookup (n : nat) (p : Z) :
  1 <= p <= Z.of_nat n -> part_numbers n !! Z.to_nat (p - 1) = Some p.
Proof.
  intros Hp. unfold part_numbers. rewrite list_lookup_fmap.
  rewrite lookup_seq_lt by lia. simpl. f_equal. lia.
Qed.

(** X3. When the tokens of an accepted reply carry numeric part numbers,
    [getPresignedUrls] stores the same tokens in ascending order of
    part number; when those numbers are 1..N in any order, the token
    of part [p] sits at index [p - 1], where [upload] reads it. *)
Theorem getPresignedUrls_orders_tokens
    (u : Uploader) (size : Z) (r : HttpResponse) (reply data : JsVal)
    (items : list JsVal) (ns : list Z) :
  (getPresignedUrls u size (Responded r)).1 = Ok data ->
  r_json r = Some reply ->
  prop reply "presignedUrls" = Ok (VArr items) ->
  Forall2 (fun tok m => token_number tok = Some m) items ns ->
  let stored := presignedUrls (getPresignedUrls u size (Responded r)).2 in
  stored ≡ₚ items /\
  (exists ns', Forall2 (fun tok m => token_number tok = Some m) stored ns' /\
               StronglySorted Z.le ns' /\ ns' ≡ₚ ns) /\
  (ns ≡ₚ part_numbers (length items) ->
   forall p, 1 <= p <= Z.of_nat (length items) ->
     exists tok, stored !! Z.to_nat (p - 1) = Some tok /\
                 token_number tok = Some p).
Proof.
  intros Hok Hjson Hurls Hnum.
  destruct (sort_tokens_numbers items ns Hnum)
    as (sorted & ns' & Hsort & H2 & Hs & Hp & Hp' & _).
  assert (presignedUrls (getPresignedUrls u size (Responded r)).2 = sorted)
    as ->.
  { revert Hok. unfold getPresignedUrls, read_json. rewrite Hjson. simpl.
    destruct (check_ok ErrGetUrlsFailed r reply); simpl; [|done].
    destruct (prop reply "uploadId") as [uid|]; simpl; [|done].
    rewrite Hurls. simpl.
    destruct (negb (truthy uid) || false || false); [done|].
    destruct (negb _); [done|]. rewrite Hsort. simpl.
    destruct (prop reply "bucket"); simpl; [|done].
    destruct (prop reply "key"); simpl; done. }
  simpl. split; [done|]. split; [by exists ns'|].
  intros Hall p Hrange.
  assert (ns' = part_numbers (length items)) as ->.
  { apply (StronglySorted_unique Z.le); [done|apply part_numbers_le_sorted|].
    by rewrite Hp. }
  pose proof (part_numbers_lookup (length items) p Hrange) as Hl.
  destruct (Forall2_lookup_r _ _ _ _ _ H2 Hl) as (tok & Htok & Hn).
  by exists tok.
Qed.

Lemma getPresignedUrls_orders_tokens_witness :
  let u := new_uploader 5242880 3 1000 in
  let items := [token 2 "u2"; token 1 "u1"; token 3 "u3"] in
  let r := mkResponse true 200 "OK" None (Some (session "u" items)) in
  let stored := presignedUrls (getPresignedUrls u 12582912 (Responded r)).2 in
  stored = three_tokens /\
  stored ≡ₚ items /\
  (exists ns', Forall2 (fun tok m => token_number tok = Some m) stored ns' /\
               StronglySorted Z.le ns' /\ ns' ≡ₚ [2; 1; 3]) /\
  ([2; 1; 3] ≡ₚ part_numbers (length items) ->
   forall p, 1 <= p <= Z.of_nat (length items) ->
     exists tok, stored !! Z.to_nat (p - 1) = Some tok /\
                 token_number tok = Some p).
Proof.
  split; [vm_compute; reflexivity|].
  apply (getPresignedUrls_orders_tokens (new_uploader 5242880 3 1000) 12582912
           (mkResponse true 200 "OK" None
              (Some (session "u" [token 2 "u2"; token 1 "u1"; token 3 "u3"])))
           (session "u" [token 2 "u2"; token 1 "u1"; token 3 "u3"])
           (session "u" three_tokens)).
  - vm_compute. reflexivity.
  - reflexivity.
  - reflexivity.
  - repeat constructor.
Defined.

(** ** The requests of a run *)

(** *** Records *)

Lemma defined_parts_length (a : list (option Part)) :
  (length (defined_parts a) <= length a)%nat.
Proof.
  unfold defined_parts, omap.
  induction a as [|[x|] a IH]; simpl in *; lia.
Qed.

Lemma defined_parts_lookup (a : list (option Part)) (part : Part) :
  In part (defined_parts a) -> exists idx, a !! idx = Some (Some part).
Proof.
  intros Hin. apply list_elem_of_In, list_elem_of_omap in Hin as (x & Hx & Hid).
  apply list_elem_of_lookup in Hx as [idx Hidx]. exists idx.
  simpl in Hid. by subst x.
Qed.

Lemma defined_parts_ascending (a : list (option Part)) (k : nat) :
  (forall idx part, a !! idx = Some (Some part) ->
     PartNumber part = Z.of_nat (k + idx) + 1) ->
  StronglySorted Z.lt (map PartNumber (defined_parts a)) /\
  Forall (fun q => Z.of_nat k < q) (map PartNumber (defined_parts a)).
Proof.
  revert k. induction a as [|x a IH]; intros k Hnum.
  - split; constructor.
  - destruct (IH (S k)) as [Hs Hf].
    { intros idx part Hl. rewrite (Hnum (S idx) part Hl). f_equal. lia. }
    assert (Forall (fun q => Z.of_nat k < q) (map PartNumber (defined_parts a)))
      as Hf'.
    { eapply Forall_impl; [exact Hf|]. simpl. intros; lia. }
    destruct x as [part|]; simpl; [|done].
    pose proof (Hnum 0%nat part eq_refl) as Hp.
    split; constructor; try done; try lia.
    eapply Forall_impl; [exact Hf|]. simpl. intros; lia.
Qed.

Lemma defined_parts_sorted (a : list (option Part)) :
  numbered a -> StronglySorted Z.lt (map PartNumber (defined_parts a)).
Proof.
  intros Hnum. apply (defined_parts_ascending a 0). exact Hnum.
Qed.

Lemma token_url_slot (s : State) (idx : nat) :
  token_url s (Z.of_nat idx + 1)
  = prop (default VUndefined (presignedUrls (this s) !! idx)) "url".
Proof. unfold token_url. by rewrite slot_of_part. Qed.

(** *** The invariant is kept by the pieces of [upload] *)

Lemma pre_session_planned (Q : Part -> Prop) (s : State) (a : Action) :
  pre_session a -> planned Q s a.
Proof. destruct a as [[]| | | | |]; done. Qed.

Lemma planned_mono (Q Q' : Part -> Prop) (s : State) (a : Action) :
  (forall part, Q part -> Q' part) -> planned Q s a -> planned Q' s a.
Proof.
  intros HQ. destruct a as [[]| | | | |]; simpl; try done.
  intros (? & ? & ?). repeat split; try tauto.
  eapply Forall_impl; [eauto|]. simpl. intros part [? ?]. auto.
Qed.

Lemma planned_same (Q : Part -> Prop) (s s' : State) (a : Action) :
  same_session s s' -> planned Q s a -> planned Q s' a.
Proof.
  intros (H1 & H2 & H3 & H4 & H5 & H6 & H7).
  destruct a as [[]| | | | |]; simpl; unfold token_url;
    rewrite ?H1, ?H2, ?H3, ?H4, ?H5, ?H6, ?H7; done.
Qed.

Lemma sound_mono (Q Q' : Part -> Prop) (s : State) :
  (forall part, Q part -> Q' part) -> sound Q s -> sound Q' s.
Proof.
  intros HQ [H1 H2 H3 H4 H5]. split; try done.
  - intros idx part Hl. apply HQ. by apply (H3 idx).
  - eapply Forall_impl; [exact H5|]. intros a. by apply planned_mono.
Qed.

Lemma sound_emit (Q : Part -> Prop) (s : State) (a : Action) :
  planned Q s a -> sound Q s -> sound Q (emit a s).
Proof.
  intros Ha [H1 H2 H3 H4 H5]. split; try done.
  apply Forall_app. split; [exact H5|]. by repeat constructor.
Qed.

Lemma sound_report (Q : Part -> Prop) (s : State) (q : Progress) :
  planned Q s (Report q) -> sound Q s -> sound Q (report q s).
Proof.
  intros Ha [H1 H2 H3 H4 H5]. split; try done.
  apply Forall_app. split; [exact H5|].
  simpl. destruct (onProgress s); by repeat constructor.
Qed.

Lemma sound_set_pc (Q : Part -> Prop) (s : State) (c : Pc) :
  sound Q s -> sound Q (set_pc c s).
Proof. intros [H1 H2 H3 H4 H5]. by split. Qed.

Lemma sound_set_flights (Q : Part -> Prop) (s : State) (fs : list Flight) :
  Forall (fun f => 1 <= fl_part f <= Z.of_nat (totalParts s) /\
                   token_url s (fl_part f) = Ok (fl_url f)) fs ->
  sound Q s -> sound Q (set_flights fs s).
Proof. intros Hfs [H1 H2 H3 H4 H5]. by split. Qed.

Lemma sound_fail (Q : Part -> Prop) (s : State) (e : JsError) :
  sound Q s -> sound Q (fail e s).
Proof.
  intros Hs. unfold fail. destruct (truthy (uploadId (this s))).
  - by apply sound_set_pc, sound_emit.
  - by apply sound_set_pc, sound_report.
Qed.

Lemma sound_part_done (Q : Part -> Prop) (s : State) (p : Z) (v : option Part) :
  1 <= p <= Z.of_nat (totalParts s) ->
  (forall part, v = Some part -> PartNumber part = p /\ Q part) ->
  sound Q s -> sound Q (part_done p v s).
Proof.
  intros Hp Hv [H1 H2 H3 H4 H5].
  assert (Z.to_nat (p - 1) < length (partsArray s))%nat as Hin by lia.
  assert (length (array_set (Z.to_nat (p - 1)) v (partsArray s)) = totalParts s)
    as Hlen by (by rewrite array_set_length).
  unfold part_done. apply sound_report.
  - simpl. split; [done|]. rewrite <- Hlen. apply defined_parts_length.
  - split; simpl; try done.
    + apply numbered_array_set; try done.
      intros part ->. destruct (Hv part eq_refl) as [-> _]. lia.
    + intros idx part. rewrite array_set_lookup by done.
      case_decide; [|apply H3]. intros [= ->]. by apply Hv.
Qed.

Lemma sound_uploadPart_next
    (Q : Part -> Prop) (s : State) (p : Z) (url : JsVal) (r : Z) :
  1 <= p <= Z.of_nat (totalParts s) ->
  token_url s p = Ok url ->
  sound Q s -> sound Q (uploadPart_next p url r s).
Proof.
  intros Hp Hurl Hs. unfold uploadPart_next.
  destruct (r <? maxRetries (this s)).
  - apply sound_set_flights.
    + apply Forall_app. split; [apply (sd_flights Q s Hs)|].
      constructor; [|constructor]. by simpl.
    + apply sound_emit; [|done]. by simpl.
  - by apply sound_part_done.
Qed.

Lemma sound_finish (Q : Part -> Prop) (s : State) :
  sound Q s -> sound Q (finish_transfers s).
Proof.
  intros Hs. unfold finish_transfers.
  apply sound_set_pc, sound_emit; [|by apply sound_report].
  simpl. repeat split.
  - apply defined_parts_sorted, (sd_numbered Q s Hs).
  - apply Forall_forall. intros part Hin.
    apply list_elem_of_In, defined_parts_lookup in Hin as [idx Hidx].
    split; [|by apply (sd_records Q s Hs idx)].
    rewrite (sd_numbered Q s Hs idx part Hidx). lia.
Qed.

Lemma sound_abort (Q : Part -> Prop) (s : State) :
  sound Q s -> sound Q (abort s).
Proof.
  intros [H1 H2 H3 H4 H5]. unfold abort.
  assert (sound Q (set_this (set_aborted true (this s)) s)) as Hs
    by (by split).
  destruct (truthy _); [by apply sound_emit|done].
Qed.

(** *** Batches as sequences of dispatches *)

Lemma dispatch_batch_S (k i j : nat) (s : State) :
  dispatch_batch (S k) i j s =
  if (i + j <? totalParts s)%nat then
    match prop (default VUndefined (presignedUrls (this s) !! (i + j)%nat)) "url" with
    | Throw error => (s, Thrown error)
    | Ok presignedUrl =>
        let '(s, rejected) :=
          uploadSinglePart (Z.of_nat (i + j) + 1) presignedUrl s in
        let '(s, later) := dispatch_batch k i (S j) s in
        (s, match later with
            | Thrown error => Thrown error
            | Promises r =>
                Promises (match rejected with Some e => Some e | None => r end)
            end)
    end
  else (s, Promises None).
Proof. reflexivity. Qed.

Lemma dispatches_trans (s1 s2 s3 : State) :
  dispatches s1 s2 -> dispatches s2 s3 -> dispatches s1 s3.
Proof.
  induction 1 as [|s s' idx url Hidx Hab Hurl Hd IH]; [done|].
  intros H3. eapply dispatches_step; eauto.
Qed.

Lemma dispatch_batch_dispatches (k : nat) :
  forall i j s s' out,
  dispatch_batch k i j s = (s', out) -> dispatches s s'.
Proof.
  induction k as [|k IH]; intros i j s s' out.
  - intros [= <- _]. constructor.
  - rewrite dispatch_batch_S.
    destruct (Nat.ltb_spec (i + j) (totalParts s)) as [Hlt|Hge];
      [|intros [= <- _]; constructor].
    rewrite <- token_url_slot.
    destruct (token_url s (Z.of_nat (i + j) + 1)) as [url|e] eqn:Hurl;
      [|intros [= <- _]; constructor].
    unfold uploadSinglePart. destruct (aborted (this s)) eqn:Hab.
    + destruct (dispatch_batch k i (S j) s) as [s2 later] eqn:Hd.
      intros [= <- _]. by eapply IH.
    + destruct (dispatch_batch k i (S j)
                  (uploadPart_next (Z.of_nat (i + j) + 1) url 0 s))
        as [s2 later] eqn:Hd.
      intros [= <- _]. eapply dispatches_step; eauto.
Qed.

Lemma upload_loop_cases (fuel : nat) :
  forall i s s', upload_loop fuel i s = Some s' ->
  exists s1, dispatches s s1 /\
    ((exists e, s' = fail e s1) \/
     (exists i', s' = set_pc (AwaitBatch i') s1 /\ flights s1 <> []) \/
     (s' = finish_transfers s1 /\ (flights s1 = [] \/ s1 = s))).
Proof.
  induction fuel as [|fuel IH]; intros i s s'; simpl.
  - destruct (i <? totalParts s)%nat.
    + destruct (aborted (this s)); [|done]. intros [= <-].
      exists s. split; [constructor|]. left. by eexists.
    + intros [= <-]. exists s. split; [constructor|]. right. right. tauto.
  - destruct (i <? totalParts s)%nat.
    + destruct (aborted (this s)).
      { intros [= <-]. exists s. split; [constructor|]. left. by eexists. }
      destruct (dispatch_batch maxConcurrent i 0 s) as [sd out] eqn:Hd.
      apply dispatch_batch_dispatches in Hd.
      destruct out as [e|[e|]].
      * intros [= <-]. exists sd. split; [done|]. left. by eexists.
      * intros [= <-]. exists sd. split; [done|]. left. by eexists.
      * destruct (flights sd) as [|f fs] eqn:Hfl.
        -- intros Hloop. destruct (IH _ _ _ Hloop) as (s1 & Hd1 & Hcase).
           exists s1. split; [by eapply dispatches_trans|].
           destruct Hcase as [He|[Hb|[Hf Hfl1]]]; [by left|by right; left|].
           right. right. split; [done|]. left.
           destruct Hfl1 as [?| ->]; done.
        -- intros [= <-]. exists sd. split; [done|]. right. left.
           exists i. split; [done|]. by rewrite Hfl.
    + intros [= <-]. exists s. split; [constructor|]. right. right. tauto.
Qed.

Lemma dispatches_frame (s s' : State) :
  dispatches s s' ->
  this s' = this s /\ totalParts s' = totalParts s /\
  fileSize s' = fileSize s /\ pc s' = pc s /\
  completes (trace s') = completes (trace s).
Proof.
  induction 1 as [|s s' idx url Hidx Hab Hurl Hd IH]; [done|].
  destruct IH as (-> & -> & -> & -> & ->).
  unfold uploadPart_next, part_done.
  destruct (0 <? maxRetries (this s)); simpl; repeat split; try done.
  - rewrite completes_app. simpl. by rewrite app_nil_r.
  - rewrite completes_app. destruct (onProgress s); simpl; by rewrite app_nil_r.
Qed.

Lemma sound_dispatches (Q : Part -> Prop) (s s' : State) :
  dispatches s s' -> sound Q s -> sound Q s'.
Proof.
  induction 1 as [|s s' idx url Hidx Hab Hurl Hd IH]; [done|].
  intros Hs. apply IH, sound_uploadPart_next; try done. lia.
Qed.

Lemma sound_upload_loop (Q : Part -> Prop) (fuel i : nat) (s s' : State) :
  upload_loop fuel i s = Some s' -> sound Q s -> sound Q s'.
Proof.
  intros Hloop Hs.
  destruct (upload_loop_cases _ _ _ _ Hloop) as (s1 & Hd & Hcase).
  pose proof (sound_dispatches Q _ _ Hd Hs) as Hs1.
  destruct Hcase as [[e ->]|[(i' & -> & _)|[-> _]]].
  - by apply sound_fail.
  - by apply sound_set_pc.
  - by apply sound_finish.
Qed.

Lemma sound_batch_progress (Q : Part -> Prop) (s s' : State) :
  sound Q s -> batch_progress s = Some s' -> sound Q s'.
Proof.
  intros Hs. unfold batch_progress.
  destruct (pc s); try (by intros [= <-]).
  destruct (flights s); [|by intros [= <-]].
  intros Hloop. by eapply sound_upload_loop.
Qed.

Lemma sound_start (Q : Part -> Prop) (u : Uploader) (size : Z) (cb : bool) :
  sound Q (upload_start u size cb) /\ fresh (upload_start u size cb).
Proof.
  split.
  - split; simpl; try done.
    destruct cb; by repeat constructor.
  - intros _. split; [done|]. simpl. destruct cb; by repeat constructor.
Qed.

Lemma sound_step (Q : Part -> Prop) (s s' : State) (ev : Event) :
  sound Q s -> fresh s ->
  (forall p o part, ev = PutSettled p o -> put_part p o = Ok part -> Q part) ->
  step s ev = Some s' ->
  sound Q s' /\ fresh s'.
Proof.
  intros Hs Hfresh HQ Hstep.
  assert (pc s <> AwaitInit -> pc s' <> AwaitInit) as Hpc.
  { intros Hne. by destruct (step_keeps_stage _ _ _ Hne Hstep). }
  assert (pc s <> AwaitInit -> sound Q s' -> sound Q s' /\ fresh s') as Hlater.
  { intros Hne Hs'. split; [done|]. intros Hinit. by apply Hpc in Hinit. }
  destruct ev as [o|p o|p|o|o|]; simpl in Hstep.
  - destruct (pc s) eqn:Epc; try done.
    destruct (Hfresh Epc) as [Hfl Hpre].
    pose proof (getPresignedUrls_throw_keeps_this (this s) (fileSize s) o) as Hkeep.
    destruct (getPresignedUrls (this s) (fileSize s) o) as [[data|e] u] eqn:Hg.
    + split.
      * eapply sound_upload_loop; [exact Hstep|].
        destruct Hs as [H1 H2 H3 H4 H5]. split; simpl.
        -- by rewrite length_replicate.
        -- apply numbered_replicate.
        -- intros idx part Hl. apply lookup_replicate in Hl as [? _]. done.
        -- rewrite Hfl. constructor.
        -- apply Forall_app. split.
           ++ eapply Forall_impl; [exact Hpre|]. intros a.
              apply pre_session_planned.
           ++ destruct (onProgress s); repeat constructor. simpl. lia.
      * intros Hinit. destruct (upload_loop_frame _ _ _ _ Hstep) as (_ & _ & _ & _ & Hne).
        done.
    + injection Hstep as <-. simpl in Hkeep. rewrite (Hkeep eq_refl).
      split.
      * apply sound_fail. destruct Hs. by split.
      * intros Hinit. destruct (fail_frame e (set_this (this s) s))
          as (_ & _ & _ & _ & _ & _ & [Hp|Hp] & _); rewrite Hp in Hinit; done.
  - destruct (take_flight p false (flights s)) as [[f rest]|] eqn:Htake;
      [|done]. simpl in Hstep.
    assert (pc s <> AwaitInit) as Hne.
    { intros Hinit. destruct (Hfresh Hinit) as [Hfl _].
      by rewrite Hfl in Htake. }
    apply Hlater; [done|].
    destruct (take_flight_spec _ _ _ _ _ Htake) as (Hf & _ & Hperm).
    pose proof (sd_flights Q s Hs) as Hfls. rewrite Hperm in Hfls.
    apply Forall_cons in Hfls as [[Hrange Hurl] Hrest]. rewrite Hf in *.
    pose proof (sound_set_flights Q s rest Hrest Hs) as Hs1.
    destruct (put_part p o) as [part|e] eqn:Hput.
    + eapply sound_batch_progress; [|exact Hstep].
      apply sound_part_done; try done.
      intros part' [= <-]. split; [by eapply put_part_number|by eapply HQ].
    + destruct (fl_retries f + 1 >=? maxRetries (this s)).
      * destruct (pc s); injection Hstep as <-; try done.
        by apply sound_fail.
      * injection Hstep as <-. apply sound_emit; [done|].
        apply sound_set_flights; [|done].
        apply Forall_app. split; [done|]. constructor; [|constructor]. by simpl.
  - destruct (take_flight p true (flights s)) as [[f rest]|] eqn:Htake;
      [|done]. simpl in Hstep.
    assert (pc s <> AwaitInit) as Hne.
    { intros Hinit. destruct (Hfresh Hinit) as [Hfl _].
      by rewrite Hfl in Htake. }
    apply Hlater; [done|].
    destruct (take_flight_spec _ _ _ _ _ Htake) as (Hf & _ & Hperm).
    pose proof (sd_flights Q s Hs) as Hfls. rewrite Hperm in Hfls.
    apply Forall_cons in Hfls as [[Hrange Hurl] Hrest]. rewrite Hf in *.
    eapply sound_batch_progress; [|exact Hstep].
    apply sound_uploadPart_next; try done.
    by apply sound_set_flights.
  - destruct (pc s) eqn:Epc; try done. apply Hlater; [done|].
    destruct (completeUpload o); injection Hstep as <-.
    + by apply sound_set_pc, sound_report.
    + by apply sound_fail.
  - destruct (pc s) eqn:Epc; try done. apply Hlater; [done|].
    destruct (abortUpload o); injection Hstep as <-.
    + by apply sound_set_pc, sound_report.
    + by apply sound_set_pc.
  - injection Hstep as <-. split; [by apply sound_abort|].
    intros Hinit. unfold abort in *.
    destruct (truthy _); simpl in *.
    + destruct (Hfresh Hinit) as [Hfl Hpre]. split; [done|].
      apply Forall_app. split; [done|]. by repeat constructor.
    + by apply Hfresh.
Qed.

Lemma sound_run (evs' : list Event) :
  forall (s s' : State) (evs : list Event),
  sound (backed evs) s -> fresh s -> run s evs' = Some s' ->
  sound (backed (evs ++ evs')) s' /\ fresh s'.
Proof.
  induction evs' as [|ev evs' IH]; intros s s' evs Hs Hfresh; simpl.
  - intros [= <-]. by rewrite app_nil_r.
  - destruct (step s ev) as [s1|] eqn:Hstep; [|done]. simpl. intros Hrun.
    replace (evs ++ ev :: evs') with ((evs ++ [ev]) ++ evs')
      by (by rewrite <- app_assoc).
    destruct (sound_step (backed (evs ++ [ev])) s s1 ev) as [Hs1 Hf1];
      try done.
    + eapply sound_mono; [|exact Hs]. intros part (o & Hin & Hput).
      exists o. split; [|done]. apply in_or_app. by left.
    + intros p o part -> Hput. exists o.
      rewrite (put_part_number _ _ _ Hput). split; [|done].
      apply in_or_app. right. by left.
    + by apply (IH s1).
Qed.

Lemma sound_upload
    (u : Uploader) (size : Z) (cb : bool) (evs : list Event) (s : State) :
  upload u size cb evs = Some s -> sound (backed evs) s.
Proof.
  intros Hrun. destruct (sound_start (backed []) u size cb) as [Hs Hf].
  by destruct (sound_run evs _ _ [] Hs Hf Hrun).
Qed.

(** *** What every request of a run carries *)

(** Membership in a computed list. *)
Ltac find_in := vm_compute; repeat (first [left; reflexivity | right]).

(** X4. Every PUT of a run is for a part of the session, goes to the
    URL of the token stored at index [p - 1] and carries the byte range
    [(p - 1) * chunkSize, min(p * chunkSize, fileSize)) of that part;
    this holds for first attempts and retries alike, under any
    interleaving of the events. *)
Theorem put_goes_to_its_token
    (u : Uploader) (size : Z) (cb : bool) (evs : list Event) (s : State)
    (p : Z) (url : JsVal) (first last : Z) :
  upload u size cb evs = Some s ->
  In (PutCall p url first last) (trace s) ->
  1 <= p <= Z.of_nat (totalParts s) /\
  token_url s p = Ok url /\
  first = part_start (chunkSize u) p /\
  last = part_end (chunkSize u) size p.
Proof.
  intros Hrun Hin.
  pose proof (sd_trace _ _ (sound_upload _ _ _ _ _ Hrun)) as Htr.
  rewrite Forall_forall in Htr.
  apply list_elem_of_In, Htr in Hin. simpl in Hin.
  destruct (run_frame _ _ _ Hrun) as (_ & Hc & _ & Hf & _).
  rewrite Hc, Hf in Hin. destruct cb; exact Hin.
Qed.

Lemma put_goes_to_its_token_witness :
  exists s, scenario_B = Some s /\
    1 <= 2 <= Z.of_nat (totalParts s) /\
    token_url s 2 = Ok (VStr "u2") /\
    5242880 = part_start (chunkSize (new_uploader 5242880 3 1000)) 2 /\
    10485760 = part_end (chunkSize (new_uploader 5242880 3 1000)) 12582912 2.
Proof.
  eexists. split; [vm_compute; reflexivity|].
  apply (put_goes_to_its_token (new_uploader 5242880 3 1000) 12582912 false
           [InitSettled (resp_json (session "u" three_tokens));
            PutSettled 2 resp_503; PutSettled 1 (resp_ok "e1"); TimerFired 2;
            PutSettled 2 (NetFail "reset"); PutSettled 3 (resp_ok "e3");
            TimerFired 2; PutSettled 2 (resp_ok "e2");
            CompleteSettled (resp_json (VObj [("location", VStr "l")]))]).
  - vm_compute. reflexivity.
  - find_in.
Defined.

(** X5. Every ['uploading'] progress report of a run carries the part
    count of the session as [totalParts] and a number of uploaded parts
    that does not exceed it. *)
Theorem progress_within_total
    (u : Uploader) (size : Z) (cb : bool) (evs : list Event) (s : State)
    (n m : nat) (current : option Z) :
  upload u size cb evs = Some s ->
  In (Report (PUploading n m current)) (trace s) ->
  n = totalParts s /\ (m <= n)%nat.
Proof.
  intros Hrun Hin.
  pose proof (sd_trace _ _ (sound_upload _ _ _ _ _ Hrun)) as Htr.
  rewrite Forall_forall in Htr.
  by apply list_elem_of_In, Htr in Hin.
Qed.

Lemma progress_within_total_witness :
  exists s, scenario_D = Some s /\ 3%nat = totalParts s /\ (1 <= 3)%nat.
Proof.
  eexists. split; [vm_compute; reflexivity|].
  apply (progress_within_total (new_uploader 5242880 3 1000) 12582912 true
           scenario_D_events _ 3 1 (Some 1)).
  - vm_compute. reflexivity.
  - find_in.
Defined.

(** X6. Every completion call of a run carries the id, bucket and key of
    the session, and a list of records that is strictly ascending in
    part number (so without duplicates), with part numbers from 1 on,
    and in which every record is the one returned for a successful PUT
    of that part that settled during the run; this needs no assumption
    on which transfers succeeded. *)
Theorem completion_records_backed
    (u : Uploader) (size : Z) (cb : bool) (evs : list Event) (s : State)
    (uid b k : JsVal) (parts : list Part) :
  upload u size cb evs = Some s ->
  In (CompleteCall uid parts b k) (trace s) ->
  uid = uploadId (this s) /\ b = bucket (this s) /\ k = key (this s) /\
  StronglySorted Z.lt (map PartNumber parts) /\
  forall part, In part parts -> 1 <= PartNumber part /\ backed evs part.
Proof.
  intros Hrun Hin.
  pose proof (sd_trace _ _ (sound_upload _ _ _ _ _ Hrun)) as Htr.
  rewrite Forall_forall in Htr.
  apply list_elem_of_In, Htr in Hin. simpl in Hin.
  destruct Hin as (Hs & HQ & -> & -> & ->). repeat split; try done.
  - rewrite Forall_forall in HQ. by apply HQ, list_elem_of_In.
  - rewrite Forall_forall in HQ. by apply HQ, list_elem_of_In.
Qed.

Lemma completion_records_backed_witness :
  exists s, scenario_B = Some s /\
    let parts := [mkPart 1 "e1"; mkPart 2 "e2"; mkPart 3 "e3"] in
    VStr "u" = uploadId (this s) /\ VStr "b" = bucket (this s) /\
    VStr "k" = key (this s) /\
    StronglySorted Z.lt (map PartNumber parts) /\
    forall part, In part parts ->
      1 <= PartNumber part /\
      backed [InitSettled (resp_json (session "u" three_tokens));
              PutSettled 2 resp_503; PutSettled 1 (resp_ok "e1"); TimerFired 2;
              PutSettled 2 (NetFail "reset"); PutSettled 3 (resp_ok "e3");
              TimerFired 2; PutSettled 2 (resp_ok "e2");
              CompleteSettled (resp_json (VObj [("location", VStr "l")]))]
             part.
Proof.
  eexists. split; [vm_compute; reflexivity|].
  apply (completion_records_backed (new_uploader 5242880 3 1000) 12582912 false).
  - vm_compute. reflexivity.
  - find_in.
Defined.

(** ** The completion call *)

Lemma completes_fail (e : JsError) (s : State) :
  completes (trace (fail e s)) = completes (trace s).
Proof.
  unfold fail. destruct (truthy _); simpl; rewrite completes_app.
  - simpl. by rewrite app_nil_r.
  - destruct (onProgress s); simpl; by rewrite app_nil_r.
Qed.

Lemma put_count_report (p : Z) (q : Progress) (s : State) :
  put_count p (trace (report q s)) = put_count p (trace s).
Proof.
  simpl. rewrite put_count_app.
  destruct (onProgress s); unfold put_count; simpl; lia.
Qed.

Lemma failed_fail (e : JsError) (s : State) : failed (fail e s) e.
Proof. unfold failed, fail. destruct (truthy _); simpl; tauto. Qed.

Lemma batch_progress_other (s s' : State) :
  (forall i, pc s <> AwaitBatch i) -> batch_progress s = Some s' -> s' = s.
Proof.
  unfold batch_progress. intros Hne.
  destruct (pc s) as [|i| | | |] eqn:Epc; try (by intros [= <-]).
  by destruct (Hne i).
Qed.

Lemma idle_step (s s' : State) (ev : Event) :
  idle s -> step s ev = Some s' ->
  idle s' /\
  (forall p, put_count p (trace s') = put_count p (trace s)) /\
  completes (trace s') = completes (trace s) /\
  partsArray s' = partsArray s /\
  (forall e, failed s e -> failed s' e).
Proof.
  intros [Hfl Hpc] Hstep. unfold idle, failed.
  destruct ev as [o|p o|p|o|o|]; simpl in Hstep.
  - by destruct (pc s).
  - by rewrite Hfl in Hstep.
  - by rewrite Hfl in Hstep.
  - destruct (pc s) eqn:Epc; try done.
    destruct (completeUpload o) as [result|e]; injection Hstep as <-.
    + simpl. rewrite completes_app.
      repeat split; try done.
      * intros p. apply (put_count_report p (PCompleted result) s).
      * destruct (onProgress s); simpl; by rewrite app_nil_r.
      * intros e [?|?]; done.
    + destruct (fail_frame e s) as (_ & Hf & Hp & _ & _ & _ & Hpc' & Hputs).
      rewrite Hf, Hp, completes_fail. repeat split; try done.
      * destruct Hpc' as [-> | ->]; done.
      * intros e' [?|?]; done.
  - destruct (pc s) as [| | |e0| |] eqn:Epc; try done.
    rewrite abortUpload_swallows in Hstep. injection Hstep as <-.
    simpl. rewrite completes_app. repeat split; try done.
    + intros p. apply (put_count_report p (PError e0) s).
    + destruct (onProgress s); simpl; by rewrite app_nil_r.
    + intros e [[= ->]|?]; [by right|done].
  - injection Hstep as <-. unfold abort.
    destruct (truthy _); simpl; repeat split; try done.
    + intros p. rewrite put_count_app. unfold put_count. simpl. lia.
    + rewrite completes_app. simpl. by rewrite app_nil_r.
Qed.

Lemma idle_run (evs : list Event) :
  forall s s', idle s -> run s evs = Some s' ->
  idle s' /\
  (forall p, put_count p (trace s') = put_count p (trace s)) /\
  completes (trace s') = completes (trace s) /\
  partsArray s' = partsArray s /\
  (forall e, failed s e -> failed s' e).
Proof.
  induction evs as [|ev evs IH]; intros s s' Hidle; simpl.
  - by intros [= <-].
  - destruct (step s ev) as [s1|] eqn:Hstep; [|done]. simpl. intros Hrun.
    destruct (idle_step _ _ _ Hidle Hstep) as (Hi & Hp & Hc & Ha & Hf).
    destruct (IH _ _ Hi Hrun) as (Hi' & Hp' & Hc' & Ha' & Hf').
    split; [done|]. split; [intros p; by rewrite Hp', Hp|].
    split; [congruence|]. split; [congruence|].
    intros e He. by apply Hf', Hf.
Qed.

Lemma upload_loop_once (fuel i : nat) (s s' : State) :
  flights s = [] -> completes (trace s) = [] ->
  upload_loop fuel i s = Some s' ->
  (transferring s' /\ pc s' <> AwaitInit) \/ finalized s'.
Proof.
  intros Hfl Hc Hloop.
  destruct (upload_loop_cases _ _ _ _ Hloop) as (s1 & Hd & Hcase).
  destruct (dispatches_frame _ _ Hd) as (_ & _ & _ & _ & Hc1).
  rewrite Hc in Hc1.
  destruct Hcase as [[e ->]|[(i' & -> & _)|[-> Hfl1]]].
  - left. unfold transferring. rewrite completes_fail.
    destruct (failed_fail e s1) as [-> | ->]; done.
  - left. by unfold transferring.
  - right. unfold finalized. simpl. repeat split.
    + destruct Hfl1 as [?| ->]; done.
    + rewrite !completes_app, Hc1.
      destruct (onProgress s1); done.
Qed.

Lemma batch_progress_once (s s' : State) :
  completes (trace s) = [] -> pc s <> AwaitInit ->
  match pc s with AwaitComplete | Resolved _ => False | _ => True end ->
  batch_progress s = Some s' -> once s'.
Proof.
  intros Hc Hne Hpc. unfold batch_progress.
  destruct (pc s) as [|i| | | |] eqn:Epc; try done;
    try (intros [= <-]; left; unfold transferring; rewrite Epc; by split).
  destruct (flights s) eqn:Hfl.
  - intros Hloop.
    destruct (upload_loop_once _ _ _ _ Hfl Hc Hloop) as [[Ht Hn]|Hf];
      [left|by right]. by split.
  - intros [= <-]. left. unfold transferring. rewrite Epc. by split.
Qed.

Lemma once_step (s s' : State) (ev : Event) :
  once s -> step s ev = Some s' -> once s'.
Proof.
  intros [[[Hc Hpc] Hinit]|Hfin] Hstep.
  2:{ right. destruct Hfin as (Hfl & Hlen & Hpc).
      destruct (idle_step s s' ev) as ([Hfl' Hpc'] & _ & Hc' & _); try done.
      unfold finalized. by rewrite Hc'. }
  destruct ev as [o|p o|p|o|o|]; simpl in Hstep.
  - destruct (pc s) eqn:Epc; try done.
    destruct (getPresignedUrls (this s) (fileSize s) o) as [[data|e] u].
    + eapply upload_loop_once in Hstep.
      * destruct Hstep as [[Ht Hn]|Hf]; [left; by split|by right].
      * simpl. by apply Hinit.
      * simpl. rewrite completes_app, Hc. by destruct (onProgress s).
    + injection Hstep as <-. left. unfold transferring.
      rewrite completes_fail.
      destruct (failed_fail e (set_this u s)) as [-> | ->]; done.
  - destruct (take_flight p false (flights s)) as [[f rest]|] eqn:Htake;
      [|done]. simpl in Hstep.
    assert (pc s <> AwaitInit) as Hne.
    { intros Hi. by rewrite (Hinit Hi) in Htake. }
    destruct (put_part p o) as [part|e].
    + eapply batch_progress_once; [| | |exact Hstep]; try done.
      simpl. rewrite completes_app, Hc. by destruct (onProgress s).
    + destruct (fl_retries f + 1 >=? maxRetries (this s)).
      * destruct (pc s) eqn:Epc; injection Hstep as <-; try done;
          left; unfold transferring; simpl; try rewrite Epc; try done.
        rewrite completes_fail.
        destruct (failed_fail e (set_flights rest s)) as [-> | ->]; done.
      * injection Hstep as <-. left. unfold transferring. simpl.
        rewrite completes_app, Hc. split; [done|]. by destruct (pc s).
  - destruct (take_flight p true (flights s)) as [[f rest]|] eqn:Htake;
      [|done]. simpl in Hstep.
    assert (pc s <> AwaitInit) as Hne.
    { intros Hi. by rewrite (Hinit Hi) in Htake. }
    eapply batch_progress_once; [| | |exact Hstep].
    + unfold uploadPart_next, part_done.
      destruct (_ <? _); simpl; rewrite completes_app, Hc; [done|].
      by destruct (onProgress s).
    + unfold uploadPart_next, part_done. by destruct (_ <? _).
    + unfold uploadPart_next, part_done. by destruct (_ <? _).
  - by destruct (pc s).
  - destruct (pc s) as [| | |e0| |] eqn:Epc; try done.
    rewrite abortUpload_swallows in Hstep. injection Hstep as <-.
    left. unfold transferring. simpl. rewrite completes_app, Hc.
    by destruct (onProgress s).
  - injection Hstep as <-. left. unfold transferring, abort.
    destruct (truthy _); simpl; rewrite ?completes_app, ?Hc; done.
Qed.

Lemma once_upload
    (u : Uploader) (size : Z) (cb : bool) (evs : list Event) (s : State) :
  upload u size cb evs = Some s -> once s.
Proof.
  unfold upload. assert (once (upload_start u size cb)) as Hstart.
  { left. unfold transferring. simpl. rewrite completes_app.
    by destruct cb. }
  revert Hstart. generalize (upload_start u size cb).
  induction evs as [|ev evs IH]; intros s0 H0; simpl.
  - by intros [= <-].
  - destruct (step s0 ev) as [s1|] eqn:Hstep; [|done]. simpl.
    apply IH. by eapply once_step.
Qed.

(** X7. A run of [upload] makes the completion call at most once, and
    only when no part is in flight; once it has been made, whatever
    happens next, no PUT and no second completion call follow and the
    records are not touched. *)
Theorem completion_at_most_once
    (u : Uploader) (size : Z) (cb : bool) (evs : list Event) (s : State) :
  upload u size cb evs = Some s ->
  (length (completes (trace s)) <= 1)%nat /\
  (completes (trace s) <> [] ->
   flights s = [] /\
   forall evs' s', run s evs' = Some s' ->
     completes (trace s') = completes (trace s) /\
     partsArray s' = partsArray s /\
     forall p, put_count p (trace s') = put_count p (trace s)).
Proof.
  intros Hrun. destruct (once_upload _ _ _ _ _ Hrun) as [[[Hc _] _]|Hfin].
  - rewrite Hc. simpl. split; [lia|done].
  - destruct Hfin as (Hfl & Hlen & Hpc). split; [lia|]. intros _.
    split; [done|]. intros evs' s' Hrun'.
    destruct (idle_run evs' s s') as (_ & Hp & Hc & Ha & _); done.
Qed.

Lemma completion_at_most_once_witness :
  exists s, scenario_B = Some s /\
  (length (completes (trace s)) <= 1)%nat /\
  (completes (trace s) <> [] ->
   flights s = [] /\
   forall evs' s', run s evs' = Some s' ->
     completes (trace s') = completes (trace s) /\
     partsArray s' = partsArray s /\
     forall p, put_count p (trace s') = put_count p (trace s)).
Proof.
  eexists. split; [vm_compute; reflexivity|].
  apply (completion_at_most_once (new_uploader 5242880 3 1000) 12582912 false
           [InitSettled (resp_json (session "u" three_tokens));
            PutSettled 2 resp_503; PutSettled 1 (resp_ok "e1"); TimerFired 2;
            PutSettled 2 (NetFail "reset"); PutSettled 3 (resp_ok "e3");
            TimerFired 2; PutSettled 2 (resp_ok "e2");
            CompleteSettled (resp_json (VObj [("location", VStr "l")]))]).
  vm_compute. reflexivity.
Defined.

(** ** After the outcome *)

Lemma over_step (s s' : State) (ev : Event) :
  over s -> step s ev = Some s' ->
  over s' /\ completes (trace s') = completes (trace s) /\
  (forall r, pc s = Resolved r -> pc s' = Resolved r) /\
  (forall e, failed s e -> failed s' e).
Proof.
  unfold over, failed. intros Hover Hstep.
  assert (forall i, pc s <> AwaitBatch i) as Hnb.
  { intros i Hi. by rewrite Hi in Hover. }
  destruct ev as [o|p o|p|o|o|]; simpl in Hstep.
  - by destruct (pc s).
  - destruct (take_flight p false (flights s)) as [[f rest]|]; [|done].
    simpl in Hstep. destruct (put_part p o) as [part|e].
    + apply batch_progress_other in Hstep; [|done]. subst s'. simpl.
      rewrite completes_app. split; [done|]. split; [|done].
      destruct (onProgress s); simpl; by rewrite app_nil_r.
    + destruct (_ >=? _).
      * destruct (pc s) eqn:Epc; try done; injection Hstep as <-; simpl;
          rewrite Epc; done.
      * injection Hstep as <-. simpl. rewrite completes_app. simpl.
        by rewrite app_nil_r.
  - destruct (take_flight p true (flights s)) as [[f rest]|]; [|done].
    simpl in Hstep.
    apply batch_progress_other in Hstep;
      [|unfold uploadPart_next, part_done; by destruct (_ <? _)].
    subst s'. unfold uploadPart_next, part_done.
    destruct (_ <? _); simpl; rewrite completes_app; simpl.
    + by rewrite app_nil_r.
    + split; [done|]. split; [|done].
      destruct (onProgress s); simpl; by rewrite app_nil_r.
  - by destruct (pc s).
  - destruct (pc s) as [| | |e0| |] eqn:Epc; try done.
    rewrite abortUpload_swallows in Hstep. injection Hstep as <-.
    simpl. rewrite completes_app. split; [done|]. split.
    + destruct (onProgress s); simpl; by rewrite app_nil_r.
    + split; [done|]. intros e [[= ->]|?]; [by right|done].
  - injection Hstep as <-. unfold abort.
    destruct (truthy _); simpl; rewrite ?completes_app; simpl;
      rewrite ?app_nil_r; done.
Qed.

(** X8. The outcome of [upload] is final: once it has resolved, or has
    failed (it is cancelling the session or has rejected), no later
    event (late successes and retries of parts still in flight, the
    reply of the cancel call, calls of [abort()]) makes it resolve or
    fail differently, and none triggers a completion call. *)
Theorem outcome_is_final (s s' : State) (evs : list Event) :
  over s -> run s evs = Some s' ->
  over s' /\ completes (trace s') = completes (trace s) /\
  (forall r, pc s = Resolved r -> pc s' = Resolved r) /\
  (forall e, failed s e -> failed s' e).
Proof.
  revert s. induction evs as [|ev evs IH]; intros s Hover; simpl.
  - by intros [= <-].
  - destruct (step s ev) as [s1|] eqn:Hstep; [|done]. simpl. intros Hrun.
    destruct (over_step _ _ _ Hover Hstep) as (Ho & Hc & Hr & Hf).
    destruct (IH _ Ho Hrun) as (Ho' & Hc' & Hr' & Hf').
    split; [done|]. split; [congruence|]. split.
    + intros r Hpc. by apply Hr', Hr.
    + intros e He. by apply Hf', Hf.
Qed.

Lemma outcome_is_final_witness :
  exists s s', straggler_before = Some s /\ straggler_run = Some s' /\
  failed s (ErrUploadFailed "Service Unavailable" 503) /\
  partsArray s' = [Some (mkPart 1 "e1"); None; None] /\
  over s' /\ completes (trace s') = completes (trace s) /\
  (forall r, pc s = Resolved r -> pc s' = Resolved r) /\
  (forall e, failed s e -> failed s' e).
Proof.
  eexists _, _. split; [vm_compute; reflexivity|].
  split; [vm_compute; reflexivity|].
  split; [right; vm_compute; reflexivity|].
  split; [vm_compute; reflexivity|].
  apply (outcome_is_final _ _ [PutSettled 1 (resp_ok "e1")]).
  - vm_compute. exact I.
  - vm_compute. reflexivity.
Defined.

(** ** [abort()] before the session reply *)

(** X9. When [abort()] is called before the session reply has arrived
    and the reply is then accepted with at least one token, [upload]
    starts no part transfer at all: it fails with ['Upload aborted'],
    cancels the session it has just been given, never makes a PUT and
    never makes the completion call, whatever happens afterwards. *)
Theorem abort_before_session
    (u : Uploader) (size : Z) (cb : bool) (o : FetchOutcome)
    (evs : list Event) (s : State) (data : JsVal) :
  let u0 := set_aborted true (set_aborted false u) in
  let u1 := (getPresignedUrls u0 size o).2 in
  (getPresignedUrls u0 size o).1 = Ok data ->
  presignedUrls u1 <> [] ->
  aborted_early u size cb o evs = Some s ->
  failed s ErrUploadAborted /\
  (forall p, put_count p (trace s) = 0%nat) /\
  flights s = [] /\
  completes (trace s) = [] /\
  In (AbortCall (uploadId u1) (bucket u1) (key u1)) (trace s).
Proof.
  intros u0 u1 Hok Hne. unfold aborted_early, upload.
  change (run (upload_start u size cb) (CallAbort :: InitSettled o :: evs))
    with (s1 ← step (abort (upload_start u size cb)) (InitSettled o);
          run s1 evs).
  set (s0 := abort (upload_start u size cb)).
  assert (this s0 = u0 /\ pc s0 = AwaitInit /\ fileSize s0 = size /\
          flights s0 = [] /\ completes (trace s0) = [] /\
          forall p, put_count p (trace s0) = 0%nat)
    as (Hthis & Hpc & Hsize & Hfl & Hc & Hputs).
  { unfold s0, abort. simpl.
    destruct (truthy (uploadId u)); destruct cb; done. }
  destruct (getPresignedUrls_ok_length u0 size o data Hok)
    as (_ & _ & _ & _ & Hab & Huid).
  fold u1 in Hab, Huid.
  unfold step. rewrite Hpc, Hthis, Hsize.
  destruct (getPresignedUrls u0 size o) as [r u'] eqn:Hg.
  simpl in Hok, u1. subst r. subst u1.
  set (s1 := set_partsArray _ _).
  assert (upload_loop (length (presignedUrls u')) 0 s1
          = Some (fail ErrUploadAborted s1)) as ->.
  { destruct (presignedUrls u') as [|tok toks] eqn:Htoks; [done|].
    simpl. rewrite Hab. done. }
  simpl. intros Hrun.
  assert (pc (fail ErrUploadAborted s1) = AwaitAbort ErrUploadAborted /\
          trace (fail ErrUploadAborted s1)
          = trace s1 ++ [AbortCall (uploadId u') (bucket u') (key u')])
    as [Hpc2 Htr2].
  { unfold fail. simpl. by rewrite Huid. }
  destruct (idle_run evs (fail ErrUploadAborted s1) s)
    as ([Hfl' _] & Hp' & Hc' & _ & Hf'); try done.
  { split; [|by rewrite Hpc2].
    by destruct (fail_frame ErrUploadAborted s1) as (_ & -> & _). }
  split; [apply Hf'; by left|].
  split.
  { intros p. rewrite Hp'.
    destruct (fail_frame ErrUploadAborted s1) as (_ & _ & _ & _ & _ & _ & _ & ->).
    simpl. rewrite put_count_app, Hputs. by destruct (onProgress s0). }
  split; [done|]. split.
  { rewrite Hc', completes_fail. simpl. rewrite completes_app, Hc.
    by destruct (onProgress s0). }
  destruct (run_trace _ _ _ Hrun) as [ext ->]. rewrite Htr2.
  apply in_or_app. left. apply in_or_app. right. by left.
Qed.

Lemma abort_before_session_witness :
  let o := resp_json (session "u" three_tokens) in
  exists s,
    aborted_early default_uploader 12582912 true o [AbortSettled (NetFail "offline")]
    = Some s /\
    pc s = Rejected ErrUploadAborted /\
    failed s ErrUploadAborted /\
    (forall p, put_count p (trace s) = 0%nat) /\
    flights s = [] /\
    completes (trace s) = [] /\
    In (AbortCall (VStr "u") (VStr "b") (VStr "k")) (trace s).
Proof.
  eexists. split; [vm_compute; reflexivity|]. split; [reflexivity|].
  apply (abort_before_session default_uploader 12582912 true
           (resp_json (session "u" three_tokens))
           [AbortSettled (NetFail "offline")] _ (session "u" three_tokens)).
  - vm_compute. reflexivity.
  - vm_compute. done.
  - vm_compute. reflexivity.
Defined.

(** ** A retry limit that allows no attempt *)

Lemma array_set_none {A} (i : nat) (a : list (option A)) :
  Forall (fun slot => slot = None) a ->
  Forall (fun slot => slot = None) (array_set i None a).
Proof.
  intros Ha. unfold array_set. destruct (i <? length a)%nat.
  - by apply Forall_insert.
  - apply Forall_app. split; [done|]. apply Forall_app. split.
    + by apply Forall_replicate.
    + by repeat constructor.
Qed.

Lemma defined_parts_none (a : list (option Part)) :
  Forall (fun slot => slot = None) a -> defined_parts a = [].
Proof. induction 1 as [|x a -> _ IH]; [done|]. exact IH. Qed.

Lemma barren_fail (e : JsError) (s : State) : barren s -> barren (fail e s).
Proof.
  intros (Hfl & Hp & Ha & Hc).
  destruct (fail_frame e s) as (_ & Hf & Hpa & _ & _ & _ & _ & Hputs).
  unfold barren. rewrite Hf, Hpa, completes_fail.
  repeat split; try done. intros p. by rewrite Hputs.
Qed.

Lemma barren_dispatches (s s' : State) :
  maxRetries (this s) <= 0 -> dispatches s s' -> barren s -> barren s'.
Proof.
  intros Hmax Hd. induction Hd as [|s s' idx url Hidx Hab Hurl Hd IH]; [done|].
  intros (Hfl & Hp & Ha & Hc). apply IH.
  - unfold uploadPart_next. by destruct (Z.ltb_spec 0 (maxRetries (this s))).
  - unfold uploadPart_next.
    destruct (Z.ltb_spec 0 (maxRetries (this s))); [lia|].
    unfold barren, part_done. simpl. repeat split; try done.
    + intros p. rewrite put_count_app, Hp.
      destruct (onProgress s); done.
    + by apply array_set_none.
    + rewrite completes_app. destruct (onProgress s); simpl;
        by rewrite app_nil_r.
Qed.

Lemma barren_upload_loop (fuel i : nat) (s s' : State) :
  maxRetries (this s) <= 0 -> upload_loop fuel i s = Some s' ->
  barren s -> barren s'.
Proof.
  intros Hmax Hloop Hs.
  destruct (upload_loop_cases _ _ _ _ Hloop) as (s1 & Hd & Hcase).
  pose proof (barren_dispatches _ _ Hmax Hd Hs) as (Hfl & Hp & Ha & Hc).
  destruct Hcase as [[e ->]|[(i' & -> & Hne)|[-> _]]]; [by apply barren_fail|done|].
  unfold barren, finish_transfers. simpl. repeat split; try done.
  - intros p. rewrite put_count_app, put_count_app, Hp.
    destruct (onProgress s1); done.
  - rewrite !completes_app. apply Forall_app. split.
    + apply Forall_app. split; [done|]. by destruct (onProgress s1).
    + simpl. constructor; [|constructor]. by apply defined_parts_none.
Qed.

Lemma barren_step (s s' : State) (ev : Event) :
  maxRetries (this s) <= 0 -> barren s -> step s ev = Some s' -> barren s'.
Proof.
  intros Hmax Hs Hstep. pose proof Hs as (Hfl & Hp & Ha & Hc).
  destruct ev as [o|p o|p|o|o|]; simpl in Hstep.
  - destruct (pc s); try done.
    pose proof (getPresignedUrls_ok_length (this s) (fileSize s) o) as Hlen.
    pose proof (getPresignedUrls_throw_keeps_this (this s) (fileSize s) o) as Hkeep.
    destruct (getPresignedUrls (this s) (fileSize s) o) as [[data|e] u].
    + destruct (Hlen data eq_refl) as (_ & _ & Hm & _). simpl in Hm.
      eapply barren_upload_loop; [|exact Hstep|]; [simpl; lia|].
      unfold barren. simpl. repeat split; try done.
      * intros p. rewrite put_count_app, Hp. by destruct (onProgress s).
      * by apply Forall_replicate.
      * rewrite completes_app. destruct (onProgress s); simpl;
          by rewrite app_nil_r.
    + injection Hstep as <-. apply barren_fail. simpl in Hkeep.
      by rewrite (Hkeep eq_refl).
  - by rewrite Hfl in Hstep.
  - by rewrite Hfl in Hstep.
  - destruct (pc s); try done.
    destruct (completeUpload o) as [result|e]; injection Hstep as <-;
      [|by apply barren_fail].
    unfold barren. simpl. repeat split; try done.
    + intros p. rewrite put_count_app, Hp. by destruct (onProgress s).
    + rewrite completes_app. destruct (onProgress s); simpl;
        by rewrite app_nil_r.
  - destruct (pc s) as [| | |e0| |]; try done.
    rewrite abortUpload_swallows in Hstep. injection Hstep as <-.
    unfold barren. simpl. repeat split; try done.
    + intros p. rewrite put_count_app, Hp. by destruct (onProgress s).
    + rewrite completes_app. destruct (onProgress s); simpl;
        by rewrite app_nil_r.
  - injection Hstep as <-. unfold barren, abort.
    destruct (truthy _); simpl; repeat split; try done.
    + intros p. by rewrite put_count_app, Hp.
    + rewrite completes_app. simpl. by rewrite app_nil_r.
Qed.

(** X10. With a retry limit [maxRetries <= 0] (a negative value is
    truthy and is stored by the constructor) the retry loop allows no
    attempt: a run of [upload] makes no PUT at all, nothing is ever in
    flight, and every completion call it makes carries an empty part
    list. *)
Theorem no_attempt_allowed
    (u : Uploader) (size : Z) (cb : bool) (evs : list Event) (s : State) :
  maxRetries u <= 0 ->
  upload u size cb evs = Some s ->
  (forall p, put_count p (trace s) = 0%nat) /\
  flights s = [] /\
  forall parts, In parts (completes (trace s)) -> parts = [].
Proof.
  intros Hmax. unfold upload.
  assert (barren (upload_start u size cb)) as Hstart.
  { unfold barren. simpl. repeat split; try done.
    - intros p. by destruct cb.
    - rewrite completes_app. by destruct cb. }
  assert (maxRetries (this (upload_start u size cb)) <= 0) as Hm by done.
  revert Hstart Hm. generalize (upload_start u size cb).
  induction evs as [|ev evs IH]; intros s0 H0 Hm; simpl.
  - intros [= <-]. destruct H0 as (Hfl & Hp & _ & Hc).
    repeat split; try done. intros parts Hin.
    rewrite Forall_forall in Hc. by apply Hc, list_elem_of_In.
  - destruct (step s0 ev) as [s1|] eqn:Hstep; [|done]. simpl.
    apply IH; [by eapply barren_step|].
    destruct (step_frame _ _ _ Hstep) as (-> & _). done.
Qed.

Lemma no_attempt_allowed_witness :
  exists s, no_attempt_run = Some s /\
    pc s = Resolved (VObj [("location", VStr "l")]) /\
    completes (trace s) = [[]] /\
    (forall p, put_count p (trace s) = 0%nat) /\
    flights s = [] /\
    forall parts, In parts (completes (trace s)) -> parts = [].
Proof.
  eexists. split; [vm_compute; reflexivity|]. split; [reflexivity|].
  split; [reflexivity|].
  apply (no_attempt_allowed (new_uploader 5242880 (-1) 1000) 12582912 false
           [InitSettled (resp_json (session "u" three_tokens));
            CompleteSettled (resp_json (VObj [("location", VStr "l")]))]).
  - vm_compute. discriminate.
  - vm_compute. reflexivity.
Defined.

(** * The sibling classes *)

(** ** [initialize] and the guard of [upload] *)

(** X11. [initialize] of the direct class, on upload data with a truthy
    [uploadId] and an array of tokens, whatever the number of tokens.
    When the tokens can be sorted (at most one of them is not
    [undefined], or none of these is [null] or has a [partNumber] that
    cannot be converted to a number), it stores the id and the tokens
    (reordered only) and leaves the tuning options alone; an accepted
    empty token list makes the following [upload] refuse to start with
    the error ['Upload not initialized...'], and with at least one
    token [upload] goes on with as many parts as there are tokens. When
    they cannot be sorted, the
    sort throws a TypeError after the id, the bucket and the key have
    been assigned: the uploader is left with the new session id and
    its old token list. Upload data refused with ['Invalid upload
    data...'] leaves the uploader as it was. *)
Theorem initialize_then_upload
    (this : Uploader) (uploadData uid : JsVal) (items : list JsVal) :
  prop uploadData "uploadId" = Ok uid ->
  truthy uid = true ->
  prop uploadData "presignedUrls" = Ok (VArr items) ->
  (unsortable items = false ->
   exists this',
     initialize this uploadData = (Returned tt, this') /\
     uploadId this' = uid /\ presignedUrls this' ≡ₚ items /\
     chunkSize this' = chunkSize this /\ maxRetries this' = maxRetries this /\
     retryDelay this' = retryDelay this /\
     direct_upload_guard this'
     = match items with
       | [] => Raised ErrNotInitialized
       | _ :: _ => Returned (length items)
       end) /\
  (unsortable items = true ->
   exists what this',
     initialize this uploadData = (Raised (ErrRuntime (ErrType what)), this') /\
     uploadId this' = uid /\ presignedUrls this' = presignedUrls this /\
     chunkSize this' = chunkSize this /\ maxRetries this' = maxRetries this /\
     retryDelay this' = retryDelay this) /\
  (forall other,
     (initialize this other).1 = Raised ErrInvalidUploadData ->
     (initialize this other).2 = this).
Proof.
  intros Huid Htruthy Hurls.
  assert (exists b k, prop uploadData "bucket" = Ok b /\
                      prop uploadData "key" = Ok k) as (b & k & Hb & Hk).
  { destruct uploadData; try done; by eexists _, _. }
  pose proof (sort_tokens_throws items) as Hthrows.
  split; [|split].
  - intros Hsortable. rewrite Hsortable in Hthrows.
    destruct (sort_tokens items) as [sorted|] eqn:Hsort; [|done].
    pose proof (sort_tokens_perm _ _ Hsort) as Hperm.
    eexists. unfold initialize, direct_prop.
    rewrite Huid, Hurls, Hb, Hk. simpl. rewrite Htruthy. simpl.
    rewrite Hsort.
    split; [reflexivity|]. simpl. repeat split; try done.
    unfold direct_upload_guard. simpl. rewrite Htruthy. simpl.
    rewrite (Permutation_length Hperm).
    by destruct items.
  - intros Hunsortable. rewrite Hunsortable in Hthrows.
    destruct (sort_tokens items) as [|e] eqn:Hsort; [done|].
    destruct (sort_tokens_error _ _ Hsort) as [what ->].
    eexists _, _. unfold initialize, direct_prop.
    rewrite Huid, Hurls, Hb, Hk. simpl. rewrite Htruthy. simpl.
    rewrite Hsort. split; [reflexivity|]. done.
  - intros other. unfold initialize, direct_prop.
    destruct (prop other "uploadId") as [u|]; simpl; [|done].
    destruct (truthy u); simpl; [|done].
    destruct (prop other "presignedUrls") as [urls|]; simpl; [|done].
    destruct (negb (truthy urls) || negb (isArray urls)); [done|].
    destruct urls; try done.
    destruct (prop other "bucket"); [|done].
    destruct (prop other "key"); [|done].
    destruct (sort_tokens items0); done.
Qed.

Lemma initialize_then_upload_witness :
  let this := new_direct_uploader 5242880 3 1000 in
  let items := [token 2 "u2"; token 1 "u1"] in
  let uploadData := VObj [("uploadId", VStr "u"); ("presignedUrls", VArr items)] in
  (initialize this uploadData).2.(presignedUrls) = [token 1 "u1"; token 2 "u2"] /\
  exists this',
    initialize this uploadData = (Returned tt, this') /\
    uploadId this' = VStr "u" /\ presignedUrls this' ≡ₚ items /\
    chunkSize this' = chunkSize this /\ maxRetries this' = maxRetries this /\
    retryDelay this' = retryDelay this /\
    direct_upload_guard this' = Returned 2%nat.
Proof.
  intros this items uploadData. split; [vm_compute; reflexivity|].
  apply (initialize_then_upload this uploadData (VStr "u") items).
  - reflexivity.
  - reflexivity.
  - reflexivity.
  - vm_compute. reflexivity.
Defined.

(** Two tokens of which the first has a part number that cannot be
    converted, and an empty token list. *)
Example initialize_partial :
  let this := new_direct_uploader 5242880 3 1000 in
  initialize this
    (VObj [("uploadId", VStr "u"); ("bucket", VStr "b");
           ("presignedUrls",
            VArr [VObj [("partNumber", VObj [("toString", VNull)])];
                  token 2 "u2"])])
  = (Raised (ErrRuntime (ErrType "toString")),
     {| chunkSize := 5242880; maxRetries := 3; retryDelay := 1000;
        uploadId := VStr "u"; presignedUrls := []; bucket := VStr "b";
        key := VUndefined; aborted := false |}) /\
  direct_upload_guard
    (initialize this
       (VObj [("uploadId", VStr "u"); ("presignedUrls", VArr [])])).2
  = Raised ErrNotInitialized.
Proof. split; vm_compute; reflexivity. Qed.

(** ** The chunk size of the sample page *)

Lemma ceil_div_unique (a b n : Z) :
  0 < b -> b * (n - 1) < a <= b * n -> ceil_div a b = Some n.
Proof.
  intros Hb Ha. unfold ceil_div. destruct (Z.eqb_spec b 0); [lia|].
  f_equal. assert (- a / b = - n) as ->; [|lia].
  symmetry. apply (Z.div_unique _ _ _ (b * n - a)); lia.
Qed.

(** X12. The sample page derives [chunkSize = ceil(fileSize / N)] from
    the number [N] of tokens it was given. For a file of more than
    [(N - 1)^2] bytes this chunk size cuts the file into exactly [N]
    parts: the part count of that chunk size is [N], the ranges are
    adjacent, every range but the last has [chunkSize] bytes, none is
    empty, and the last one ends at the end of the file. *)
Theorem sample_chunk_tiles (size : Z) (tokens : nat) (chunk : Z) :
  0 < size -> (1 <= tokens)%nat ->
  (Z.of_nat tokens - 1) * (Z.of_nat tokens - 1) < size ->
  sample_chunkSize size tokens = Some chunk ->
  0 < chunk /\
  ceil_div size chunk = Some (Z.of_nat tokens) /\
  part_end chunk size (Z.of_nat tokens) = size /\
  (forall p, 1 <= p < Z.of_nat tokens ->
     part_end chunk size p = part_start chunk (p + 1) /\
     part_end chunk size p - part_start chunk p = chunk) /\
  (forall p, 1 <= p <= Z.of_nat tokens ->
     part_start chunk p < part_end chunk size p).
Proof.
  intros Hsize Htok Hsq Hchunk. unfold sample_chunkSize in Hchunk.
  apply ceil_div_bounds in Hchunk; [|lia].
  set (N := Z.of_nat tokens) in *.
  assert (1 <= N) as HN by lia.
  assert (0 < chunk) as Hpos by nia.
  assert (chunk * (N - 1) < size) as Hlast by nia.
  split; [done|]. split; [apply ceil_div_unique; lia|].
  split; [apply (part_range_last chunk size N); lia|]. split.
  - intros p Hp.
    pose proof (part_range_inner chunk size N p Hpos Hlast Hp) as Hin.
    split; [done|]. rewrite Hin. unfold part_start. lia.
  - intros p Hp. unfold part_end, part_start. nia.
Qed.

Lemma sample_chunk_tiles_witness :
  0 < 419430400 /\
  ceil_div 2097152000 419430400 = Some (Z.of_nat 5) /\
  part_end 419430400 2097152000 (Z.of_nat 5) = 2097152000 /\
  (forall p, 1 <= p < Z.of_nat 5 ->
     part_end 419430400 2097152000 p = part_start 419430400 (p + 1) /\
     part_end 419430400 2097152000 p - part_start 419430400 p = 419430400) /\
  (forall p, 1 <= p <= Z.of_nat 5 ->
     part_start 419430400 p < part_end 419430400 2097152000 p).
Proof.
  apply (sample_chunk_tiles 2097152000 5 419430400).
  - lia.
  - lia.
  - vm_compute. reflexivity.
  - vm_compute. reflexivity.
Defined.

(** For a small file the derived chunk size leaves the last parts
    without bytes: 5 bytes and 4 tokens give a chunk size of 2, and
    part 4 would start at offset 6. *)
Example sample_chunk_small_file :
  sample_chunkSize 5 4 = Some 2 /\
  part_start 2 4 = 6 /\ part_end 2 5 4 = 5 /\ ceil_div 5 2 = Some 3.
Proof. vm_compute. repeat split. Qed.

(** ** The on-demand class *)

(** X13. [initiateUpload] of the on-demand class accepts a
    success-status JSON object exactly when its [uploadId], [bucket] and
    [key] are all truthy (the eager class checks the id only); it then
    stores the three and returns the reply. Whenever it throws, for any
    outcome of the request, the uploader is left as it was. *)
Theorem initiateUpload_requires_three
    (this : Uploader) (r : HttpResponse) (f : list (string * JsVal)) :
  r_ok r = true -> r_json r = Some (VObj f) ->
  let res := initiateUpload this (Responded r) in
  raises res.1
  = negb (truthy (assoc "uploadId" f) && truthy (assoc "bucket" f)
          && truthy (assoc "key" f)) /\
  (raises res.1 = false ->
   res.1 = Returned (VObj f) /\
   uploadId res.2 = assoc "uploadId" f /\ bucket res.2 = assoc "bucket" f /\
   key res.2 = assoc "key" f) /\
  (forall o, raises (initiateUpload this o).1 = true ->
             (initiateUpload this o).2 = this).
Proof.
  intros Hok Hjson. split; [|split].
  - unfold initiateUpload, getPresignedUrl, lazy_prop.
    rewrite Hjson, Hok. simpl.
    destruct (truthy (assoc "uploadId" f)); simpl; [|done].
    destruct (truthy (assoc "bucket" f)); simpl; [|done].
    destruct (truthy (assoc "key" f)); done.
  - unfold initiateUpload, getPresignedUrl, lazy_prop.
    rewrite Hjson, Hok. simpl.
    destruct (truthy (assoc "uploadId" f)); simpl; [|done].
    destruct (truthy (assoc "bucket" f)); simpl; [|done].
    destruct (truthy (assoc "key" f)); done.
  - intros o. unfold initiateUpload.
    destruct (_ ≫= _) as [[[[? ?] ?] ?]|]; done.
Qed.

Lemma initiateUpload_requires_three_witness :
  let this := new_uploader 5242880 3 1000 in
  let f := [("uploadId", VStr "u"); ("bucket", VStr "b")] in
  let res := initiateUpload this
               (Responded (mkResponse true 200 "OK" None (Some (VObj f)))) in
  res.1 = Raised LzInvalidInitiate /\
  raises res.1
  = negb (truthy (assoc "uploadId" f) && truthy (assoc "bucket" f)
          && truthy (assoc "key" f)) /\
  (raises res.1 = false ->
   res.1 = Returned (VObj f) /\
   uploadId res.2 = assoc "uploadId" f /\ bucket res.2 = assoc "bucket" f /\
   key res.2 = assoc "key" f) /\
  (forall o, raises (initiateUpload this o).1 = true ->
             (initiateUpload this o).2 = this).
Proof.
  split; [vm_compute; reflexivity|].
  apply (initiateUpload_requires_three (new_uploader 5242880 3 1000)
           (mkResponse true 200 "OK" None
              (Some (VObj [("uploadId", VStr "u"); ("bucket", VStr "b")])))).
  - reflexivity.
  - reflexivity.
Defined.

(** *** One token request per attempt *)

Lemma lazy_attempt_io (p : Z) (api net : Z -> FetchOutcome) (n : Z) :
  let '(r, io) := lazy_attempt p api net n in
  token_requests io = [n] /\
  (lazy_puts io = [] \/ lazy_puts io = [n]) /\
  (raises (getPresignedUrl (api n)) = true ->
   lazy_puts io = [] /\ raises r = true).
Proof.
  unfold lazy_attempt.
  destruct (getPresignedUrl (api n)) as [data|e]; simpl; [|by auto].
  destruct (lazy_prop data "url") as [url|e]; simpl; [|by auto].
  destruct (truthy url); simpl; repeat split; auto; done.
Qed.

Lemma token_requests_app (l1 l2 : list LazyIO) :
  token_requests (l1 ++ l2) = token_requests l1 ++ token_requests l2.
Proof. apply omap_app. Qed.

Lemma lazy_puts_app (l1 l2 : list LazyIO) :
  lazy_puts (l1 ++ l2) = lazy_puts l1 ++ lazy_puts l2.
Proof. apply omap_app. Qed.

Lemma lazy_uploadPart_loop_spec
    (maxR delay p : Z) (api net : Z -> FetchOutcome) (fuel : nat) :
  forall retries log r log',
  lazy_uploadPart_loop maxR delay p api net fuel retries log = Some (r, log') ->
  exists ext (k : nat),
    log' = log ++ ext /\
    token_requests ext = map (fun j => retries + 1 + Z.of_nat j) (seq 0 k) /\
    Z.of_nat k <= Z.max 0 (maxR - retries) /\
    lazy_puts ext ⊆+ token_requests ext /\
    ((forall n, raises (getPresignedUrl (api n)) = true) ->
     lazy_puts ext = [] /\
     (retries < maxR -> raises r = true /\ Z.of_nat k = maxR - retries)).
Proof.
  induction fuel as [|fuel IH]; intros retries log r log'; simpl.
  - destruct (Z.ltb_spec retries maxR); [done|]. intros [= <- <-].
    exists [], 0%nat. rewrite app_nil_r. repeat split; try done; lia.
  - destruct (Z.ltb_spec retries maxR) as [Hlt|Hge].
    2:{ intros [= <- <-]. exists [], 0%nat. rewrite app_nil_r.
        repeat split; try done; lia. }
    pose proof (lazy_attempt_io p api net (retries + 1)) as Hio.
    destruct (lazy_attempt p api net (retries + 1)) as [[part|e] io].
    + destruct Hio as (Htok & Hputs & Hfail). intros [= <- <-].
      exists io, 1%nat. split; [done|]. split.
      { rewrite Htok. simpl. f_equal. lia. }
      split; [lia|]. split.
      { rewrite Htok. destruct Hputs as [-> | ->]; [|done].
        apply submseteq_nil_l. }
      intros Hall. destruct (Hfail (Hall _)) as [_ ?]. done.
    + destruct Hio as (Htok & Hputs & Hfail).
      assert (lazy_puts io ⊆+ token_requests io) as Hsub.
      { rewrite Htok. destruct Hputs as [-> | ->]; [|done].
        apply submseteq_nil_l. }
      destruct (Z.geb_spec (retries + 1) maxR) as [Hlast|Hmore].
      * intros [= <- <-]. exists io, 1%nat. split; [done|]. split.
        { rewrite Htok. simpl. f_equal. lia. }
        split; [lia|]. split; [done|].
        intros Hall. destruct (Hfail (Hall _)) as [-> _].
        split; [done|]. intros _. split; [done|]. lia.
      * intros Hloop.
        destruct (IH _ _ _ _ Hloop) as (ext & k & -> & Htoks & Hk & Hsub' & Hall').
        exists (io ++ LazyWait (delay * (retries + 1)) :: ext), (S k).
        split; [by rewrite <- !app_assoc|].
        rewrite token_requests_app, lazy_puts_app. simpl.
        change (token_requests (LazyWait (delay * (retries + 1)) :: ext))
          with (token_requests ext).
        change (lazy_puts (LazyWait (delay * (retries + 1)) :: ext))
          with (lazy_puts ext).
        rewrite Htok, Htoks. split.
        { simpl. f_equal; [lia|]. rewrite <- fmap_S_seq, <- list_fmap_compose.
          apply list_fmap_ext. intros _ j _. simpl. lia. }
        split; [lia|]. split.
        { rewrite Htok in Hsub. rewrite <- Htoks.
          by apply (submseteq_app _ [retries + 1]). }
        intros Hall. destruct (Hall' Hall) as [-> Hrest].
        destruct (Hfail (Hall _)) as [-> _]. split; [done|]. intros _.
        destruct (Hrest ltac:(lia)) as [? ?]. split; [done|]. lia.
Qed.

(** X14. [uploadPart] of the on-demand class always returns, and asks
    for a fresh token at every attempt: the token requests are those of
    attempts [1..k] with [k <= max(0, maxRetries)], and every PUT
    belongs to an attempt whose token request was made, so there are at
    most as many PUTs as token requests. A failing token request uses up
    an attempt like a failing PUT: when every token request fails, no
    PUT is made and, for [maxRetries >= 1], the call throws after
    exactly [maxRetries] token requests. *)
Theorem lazy_uploadPart_budget
    (maxR delay p : Z) (api net : Z -> FetchOutcome) :
  exists r log (k : nat),
    lazy_uploadPart maxR delay p api net = Some (r, log) /\
    token_requests log = map (fun j => 1 + Z.of_nat j) (seq 0 k) /\
    Z.of_nat k <= Z.max 0 maxR /\
    lazy_puts log ⊆+ token_requests log /\
    (length (lazy_puts log) <= length (token_requests log))%nat /\
    ((forall n, raises (getPresignedUrl (api n)) = true) ->
     lazy_puts log = [] /\
     (1 <= maxR -> raises r = true /\ Z.of_nat k = maxR)).
Proof.
  assert (forall fuel retries log, maxR - retries <= Z.of_nat fuel ->
            is_Some (lazy_uploadPart_loop maxR delay p api net fuel retries log))
    as Htotal.
  { induction fuel as [|fuel IH]; intros retries log Hfuel; simpl.
    - destruct (Z.ltb_spec retries maxR); [lia|by eexists].
    - destruct (Z.ltb_spec retries maxR); [|by eexists].
      destruct (lazy_attempt p api net (retries + 1)) as [[part|e] io];
        [by eexists|].
      destruct (_ >=? _); [by eexists|]. apply IH. lia. }
  destruct (Htotal (Z.to_nat maxR) 0 [] ltac:(lia)) as [[r log] Hrun].
  destruct (lazy_uploadPart_loop_spec _ _ _ _ _ _ _ _ _ _ Hrun)
    as (ext & k & -> & Htoks & Hk & Hsub & Hall).
  exists r, ext, k. simpl. split; [exact Hrun|]. split; [exact Htoks|].
  split; [lia|]. split; [done|]. split; [by apply submseteq_length|].
  intros Hfail. destruct (Hall Hfail) as [-> Hrest]. split; [done|].
  intros Hmax. destruct (Hrest ltac:(lia)) as [? ?]. split; [done|]. lia.
Qed.

(** * The Lambda functions *)

(** ** Sorting and checking the parts of a completion request *)

Lemma compare_parts_numbers (a b : JsVal) (x y : Z) :
  part_field_number a = Some x -> part_field_number b = Some y ->
  compare_parts a b = Returned (Some (x - y)).
Proof.
  destruct a as [| | | | | |?|fa]; try done.
  destruct b as [| | | | | |?|fb]; try done.
  unfold compare_parts, srv_prop. simpl.
  destruct (assoc "PartNumber" fa); try done.
  destruct (assoc "PartNumber" fb); try done.
  by intros [= ->] [= ->].
Qed.

Lemma sort_compare_parts_numbers (a b : JsVal) (x y : Z) :
  part_field_number a = Some x -> part_field_number b = Some y ->
  sort_compare_parts a b = Returned (Some (x - y)).
Proof.
  intros Ha Hb. rewrite <- (compare_parts_numbers a b x y Ha Hb).
  destruct a; try done. by destruct b.
Qed.

Lemma insert_part_numbers (x : JsVal) (n : Z) (l : list JsVal) (ns : list Z) :
  part_field_number x = Some n ->
  Forall2 (fun part m => part_field_number part = Some m) l ns ->
  StronglySorted Z.le ns ->
  exists l' ns', insert_part x l = Returned l' /\
    Forall2 (fun part m => part_field_number part = Some m) l' ns' /\
    StronglySorted Z.le ns' /\ ns' ≡ₚ n :: ns /\ l' ≡ₚ x :: l /\
    (Forall (fun m => n <= m) ns -> l' = x :: l).
Proof.
  intros Hx Hl. induction Hl as [|y m rest ms Hy Hrest IH]; intros Hs.
  - exists [x], [n]. simpl. repeat split; try done.
    + by repeat constructor.
    + by repeat constructor.
  - cbn [insert_part]. rewrite (sort_compare_parts_numbers x y n m Hx Hy).
    simpl.
    apply StronglySorted_inv in Hs as [Hs Hm].
    destruct (Z.ltb_spec 0 (n - m)).
    + destruct (IH Hs) as (l' & ns' & -> & H2 & Hs' & Hp & Hp' & _).
      exists (y :: l'), (m :: ns'). simpl. repeat split.
      * by constructor.
      * constructor; [done|]. rewrite Hp. constructor; [lia|done].
      * rewrite Hp. apply perm_swap.
      * rewrite Hp'. apply perm_swap.
      * intros Hle. apply Forall_cons in Hle as [? _]. lia.
    + exists (x :: y :: rest), (n :: m :: ms). repeat split; try done.
      * by repeat constructor.
      * constructor; [by constructor|].
        constructor; [lia|]. eapply Forall_impl; [exact Hm|].
        simpl. intros; lia.
Qed.

Lemma sort_parts_numbers (l : list JsVal) (ns : list Z) :
  Forall2 (fun part m => part_field_number part = Some m) l ns ->
  exists l' ns', sort_parts l = Returned l' /\
    Forall2 (fun part m => part_field_number part = Some m) l' ns' /\
    StronglySorted Z.le ns' /\ ns' ≡ₚ ns /\ l' ≡ₚ l /\
    (StronglySorted Z.le ns -> l' = l).
Proof.
  induction 1 as [|x n rest ms Hx Hrest IH].
  - exists [], []. repeat split; try done; constructor.
  - destruct IH as (l1 & ns1 & Hsort & H2 & Hs & Hp & Hp' & Hid).
    destruct (insert_part_numbers x n l1 ns1 Hx H2 Hs)
      as (l' & ns' & Hins & H2' & Hs' & Hq & Hq' & Hid').
    exists l', ns'. simpl. rewrite Hsort. simpl. rewrite Hins.
    repeat split; try done.
    + by rewrite Hq, Hp.
    + by rewrite Hq', Hp'.
    + intros Hsorted. apply StronglySorted_inv in Hsorted as [Hms Hle].
      rewrite <- (Hid Hms). apply Hid'. by rewrite Hp.
Qed.

Lemma first_invalid_objects (l : list JsVal) (i : nat) :
  Forall (fun part => is_obj part = true) l ->
  if forallb complete_part l
  then first_invalid l i = Returned None
  else exists j, first_invalid l i = Returned (Some j).
Proof.
  intros Hobj. revert i. induction Hobj as [|part l Hpart Hl IH]; intros i.
  - done.
  - destruct part as [| | | | | | |f]; try done. simpl.
    unfold valid_part, srv_prop, complete_part. simpl.
    destruct (truthy (assoc "PartNumber" f)); simpl; [|by eexists].
    destruct (truthy (assoc "ETag" f)); simpl; [|by eexists].
    apply IH.
Qed.

Lemma map_parts_objects (l : list JsVal) :
  Forall (fun part => is_obj part = true) l ->
  map_parts l = Returned (map part_pair l).
Proof.
  induction 1 as [|part l Hpart Hl IH]; [done|].
  destruct part as [| | | | | | |f]; try done. simpl.
  unfold srv_prop. simpl. by rewrite IH.
Qed.

Lemma part_field_number_obj (l : list JsVal) (ns : list Z) :
  Forall2 (fun part m => part_field_number part = Some m) l ns ->
  Forall (fun part => is_obj part = true) l.
Proof.
  induction 1 as [|part m l ms Hpart Hl IH]; constructor; [|done].
  by destruct part.
Qed.

Lemma handleComplete_valid
    (s3 : S3Call -> S3Outcome) (Bucket Key uploadId : JsVal)
    (items : list JsVal) (ns : list Z) :
  truthy uploadId = true -> items <> [] ->
  Forall2 (fun part m => part_field_number part = Some m) items ns ->
  forallb complete_part items = true ->
  exists sorted ns',
    sorted ≡ₚ items /\
    Forall2 (fun part m => part_field_number part = Some m) sorted ns' /\
    StronglySorted Z.le ns' /\
    (StronglySorted Z.le ns -> sorted = items) /\
    handleComplete s3 Bucket Key uploadId (VArr items)
    = let call := CompleteMultipartUpload Bucket Key uploadId
                    (map part_pair sorted) in
      (match s3 call with
       | S3Rejected message => Raised (S3Failure message)
       | S3Resolved result =>
           location ← srv_prop result "Location";
           b ← srv_prop result "Bucket";
           k ← srv_prop result "Key";
           etag ← srv_prop result "ETag";
           Returned (json_response 200
             (VObj [("location", location); ("bucket", b);
                    ("key", k); ("etag", etag)]))
       end, [call]).
Proof.
  intros Huid Hne Hnum Hall.
  destruct (sort_parts_numbers items ns Hnum)
    as (sorted & ns' & Hsort & H2 & Hs & Hp & Hp' & Hid).
  pose proof (part_field_number_obj _ _ H2) as Hobj.
  pose proof (first_invalid_objects sorted 0 Hobj) as Hinv.
  rewrite (forallb_perm complete_part _ _ Hp'), Hall in Hinv.
  exists sorted, ns'. split; [done|]. split; [done|]. split; [done|].
  split; [done|].
  unfold handleComplete. rewrite Huid.
  destruct items as [|item items]; [done|].
  change (length (item :: items) =? 0)%nat with false.
  simpl negb. simpl orb. cbv iota. rewrite Hsort. simpl.
  rewrite Hinv. simpl. by rewrite (map_parts_objects _ Hobj).
Qed.

(** X15. [handleComplete], for a request with a truthy [uploadId] and a
    non-empty list of part objects with numeric part numbers: when every
    part has a truthy [PartNumber] and a truthy [ETag], exactly one S3
    call is made, the completion of that session with the same parts in
    ascending order of part number (a list given in ascending order is
    passed on as it is), and an S3 rejection is rethrown; when some part
    lacks a field, the answer is a 400 and S3 is not called at all. *)
Theorem handleComplete_checks_parts
    (s3 : S3Call -> S3Outcome) (Bucket Key uploadId : JsVal)
    (items : list JsVal) (ns : list Z) :
  truthy uploadId = true -> items <> [] ->
  Forall2 (fun part m => part_field_number part = Some m) items ns ->
  let res := handleComplete s3 Bucket Key uploadId (VArr items) in
  if forallb complete_part items then
    exists sorted ns',
      sorted ≡ₚ items /\
      Forall2 (fun part m => part_field_number part = Some m) sorted ns' /\
      StronglySorted Z.le ns' /\
      (StronglySorted Z.le ns -> sorted = items) /\
      let call := CompleteMultipartUpload Bucket Key uploadId
                    (map part_pair sorted) in
      res.2 = [call] /\
      (forall message, s3 call = S3Rejected message ->
                       res.1 = Raised (S3Failure message)) /\
      (forall f, s3 call = S3Resolved (VObj f) -> status_of res.1 = Some 200)
  else
    res.2 = [] /\ status_of res.1 = Some 400.
Proof.
  intros Huid Hne Hnum. cbv zeta.
  destruct (forallb complete_part items) eqn:Hall.
  - destruct (handleComplete_valid s3 Bucket Key uploadId items ns
                Huid Hne Hnum Hall)
      as (sorted & ns' & Hp & H2 & Hs & Hid & ->).
    exists sorted, ns'. cbv zeta. simpl.
    split; [done|]. split; [done|]. split; [done|].
    split; [done|]. split; [done|]. split.
    + intros message ->. done.
    + intros f ->. done.
  - destruct (sort_parts_numbers items ns Hnum)
      as (sorted & ns' & Hsort & H2 & Hs & Hp & Hp' & Hid).
    pose proof (part_field_number_obj _ _ H2) as Hobj.
    pose proof (first_invalid_objects sorted 0 Hobj) as Hinv.
    rewrite (forallb_perm complete_part _ _ Hp'), Hall in Hinv.
    unfold handleComplete. rewrite Huid.
    destruct items as [|item items]; [done|].
    change (length (item :: items) =? 0)%nat with false.
    simpl negb. simpl orb. cbv iota. rewrite Hsort. simpl.
    destruct Hinv as [j ->]. simpl. done.
Qed.

Lemma handleComplete_checks_parts_witness :
  let items := [VObj [("PartNumber", VNum 2); ("ETag", VStr "e2")];
                VObj [("PartNumber", VNum 1); ("ETag", VStr "e1")]] in
  let res := handleComplete (s3_fine (VStr "u") (fun _ => VStr "url"))
               (VStr "b") (VStr "k") (VStr "u") (VArr items) in
  res.2 = [CompleteMultipartUpload (VStr "b") (VStr "k") (VStr "u")
             [(VNum 1, VStr "e1"); (VNum 2, VStr "e2")]] /\
  if forallb complete_part items then
    exists sorted ns',
      sorted ≡ₚ items /\
      Forall2 (fun part m => part_field_number part = Some m) sorted ns' /\
      StronglySorted Z.le ns' /\
      (StronglySorted Z.le [2; 1] -> sorted = items) /\
      let call := CompleteMultipartUpload (VStr "b") (VStr "k") (VStr "u")
                    (map part_pair sorted) in
      res.2 = [call] /\
      (forall message,
         s3_fine (VStr "u") (fun _ => VStr "url") call = S3Rejected message ->
         res.1 = Raised (S3Failure message)) /\
      (forall f,
         s3_fine (VStr "u") (fun _ => VStr "url") call = S3Resolved (VObj f) ->
         status_of res.1 = Some 200)
  else
    res.2 = [] /\ status_of res.1 = Some 400.
Proof.
  split; [vm_compute; reflexivity|].
  apply (handleComplete_checks_parts (s3_fine (VStr "u") (fun _ => VStr "url"))
           (VStr "b") (VStr "k") (VStr "u")
           [VObj [("PartNumber", VNum 2); ("ETag", VStr "e2")];
            VObj [("PartNumber", VNum 1); ("ETag", VStr "e1")]] [2; 1]).
  - reflexivity.
  - done.
  - repeat constructor.
Defined.

(** ** The handler *)

Lemma handleInitiate_shape (s3 : S3Call -> S3Outcome) (B K fileType : JsVal) :
  well_behaved (handleInitiate s3 B K fileType).
Proof.
  unfold well_behaved, handleInitiate. simpl. split; [lia|].
  destruct (s3 _) as [created|m]; [|done].
  destruct (srv_prop created "UploadId"); simpl; [|done]. by left.
Qed.

Lemma handleUpload_shape (s3 : S3Call -> S3Outcome) (B K uid pn : JsVal) :
  well_behaved (handleUpload s3 B K uid pn).
Proof.
  unfold well_behaved, handleUpload.
  destruct (negb (truthy uid) || negb (truthy pn)); simpl.
  - split; [lia|]. by right.
  - split; [lia|]. destruct (s3 _); [|done]. by left.
Qed.

Lemma handleAbort_shape (s3 : S3Call -> S3Outcome) (B K uid : JsVal) :
  well_behaved (handleAbort s3 B K uid).
Proof.
  unfold well_behaved, handleAbort.
  destruct (negb (truthy uid)); simpl; (split; [lia|]); [by right|by left].
Qed.

Lemma handleComplete_shape (s3 : S3Call -> S3Outcome) (B K uid parts : JsVal) :
  well_behaved (handleComplete s3 B K uid parts).
Proof.
  unfold well_behaved, handleComplete.
  destruct parts as [| | | | | |items|];
    try (simpl; split; [lia|]; by right).
  destruct (negb (truthy uid) || (length items =? 0)%nat);
    [simpl; split; [lia|]; by right|].
  destruct (sort_parts items) as [sorted|e]; simpl; [|split; [lia|done]].
  destruct (first_invalid sorted 0) as [[i|]|e]; simpl;
    [split; [lia|]; by right| |split; [lia|done]].
  destruct (map_parts sorted) as [ps|e]; simpl; [|split; [lia|done]].
  split; [lia|].
  destruct (s3 _) as [result|m]; [|done].
  destruct (srv_prop result "Location"); simpl; [|done].
  destruct (srv_prop result "Bucket"); simpl; [|done].
  destruct (srv_prop result "Key"); simpl; [|done].
  destruct (srv_prop result "ETag"); simpl; [|done]. by left.
Qed.

Lemma srv_prop_field (body : JsVal) (k : string) :
  body <> VUndefined -> body <> VNull ->
  srv_prop body k = Returned (body_field body k).
Proof. by destruct body. Qed.

Lemma unconvertible_js_or (v : JsVal) (s : string) :
  unconvertible (js_or v (VStr s)) = unconvertible v.
Proof. unfold js_or. destruct (truthy v) eqn:Hv; [done|]. by destruct v. Qed.

Lemma internal_error_shape
    (rt : Runtime) (r : Outcome SrvError LambdaResponse * list S3Call) :
  well_behaved r ->
  exists response,
    (internal_error rt r).1 = Returned response /\
    (internal_error rt r).2 = r.2 /\
    (statusCode response = 200 \/ statusCode response = 400 \/
     statusCode response = 500) /\
    (statusCode response = 400 -> r.2 = []).
Proof.
  destruct r as [[response|e] calls]. intros [Hlen Hshape]; simpl in *.
  - exists response. split; [done|]. split; [done|].
    destruct Hshape as [[-> ?]|[-> ->]]; split; auto; lia.
  - intros _. eexists. split; [done|]. split; [done|]. simpl.
    split; [auto|lia].
Qed.

(** X16. The handler answers every request, given as an event object,
    with status 200, 400 or 500, with two exceptions, both TypeErrors
    thrown outside the [try] blocks, which make it reject without any
    S3 call: a request that
    has no body to destructure ([event.body] undefined or null, or the
    JSON text null) and is not a preflight; and a request that names an
    operation and no [key] and whose [fileName] cannot be converted to
    a string for the template literal of [Key]. No other request makes
    it reject. A request makes at most one S3 call, and a 400 is
    answered before any S3 call. The body of the event is given as the
    source sees it, a string body as [BodyText]. *)
Theorem handler_outcomes
    (rt : Runtime) (s3 : S3Call -> S3Outcome) (event : LambdaEvent) :
  body_represented event = true ->
  let res := handler rt s3 event in
  (length res.2 <= 1)%nat /\
  match res.1 with
  | Returned response =>
      (is_string (httpMethod event) "OPTIONS" = true \/
       (bodiless event = false /\ key_unrenderable event = false)) /\
      (statusCode response = 200 \/ statusCode response = 400 \/
       statusCode response = 500) /\
      (statusCode response = 400 -> res.2 = [])
  | Raised e =>
      is_string (httpMethod event) "OPTIONS" = false /\
      (bodiless event = true \/ key_unrenderable event = true) /\
      res.2 = [] /\ exists what, e = SrvTypeError what
  end.
Proof.
  intros _. cbv zeta. unfold handler, key_unrenderable, bodiless.
  destruct (is_string (httpMethod event) "OPTIONS") eqn:Hopt.
  { simpl. split; [lia|]. split; [by left|]. split; [by left|done]. }
  assert (forall body : JsVal,
    let res :=
      match
        (operation ← srv_prop body "operation";
         uploadId ← srv_prop body "uploadId";
         partNumber ← srv_prop body "partNumber";
         parts ← srv_prop body "parts";
         fileName ← srv_prop body "fileName";
         fileType ← srv_prop body "fileType";
         bucket ← srv_prop body "bucket";
         key ← srv_prop body "key";
         Returned [operation; uploadId; partNumber; parts; fileName;
                   fileType; bucket; key])
      with
      | Returned [operation; uploadId; partNumber; parts; fileName;
                  fileType; bucket; key] =>
          if negb (truthy operation)
          then (Returned (bad_request "Operation is required"), [])
          else
            let Bucket := js_or bucket (env_S3_BUCKET rt) in
            match (if truthy key then Returned key
                   else name ← text rt (js_or fileName (VStr (now rt)));
                        Returned (VStr ("uploads/" +:+ name))) with
            | Raised e => (Raised e, [])
            | Returned Key =>
                internal_error rt
                  (if is_string operation "initiate"
                   then handleInitiate s3 Bucket Key fileType
                   else if is_string operation "upload"
                   then handleUpload s3 Bucket Key uploadId partNumber
                   else if is_string operation "complete"
                   then handleComplete s3 Bucket Key uploadId parts
                   else if is_string operation "abort"
                   then handleAbort s3 Bucket Key uploadId
                   else (name ← text rt operation;
                         Returned (bad_request
                                     ("Unknown operation: " +:+ name)), []))
            end
      | Returned _ => (Raised (SrvTypeError "operation"), [])
      | Raised e => (Raised e, [])
      end in
    let nullish := match body with VUndefined | VNull => true | _ => false end in
    let unrenderable :=
      truthy (body_field body "operation")
      && negb (truthy (body_field body "key"))
      && unconvertible (body_field body "fileName") in
    (length res.2 <= 1)%nat /\
    match res.1 with
    | Returned response =>
        (nullish = false /\ unrenderable = false) /\
        (statusCode response = 200 \/ statusCode response = 400 \/
         statusCode response = 500) /\
        (statusCode response = 400 -> res.2 = [])
    | Raised e =>
        (nullish = true \/ unrenderable = true) /\
        res.2 = [] /\ exists what, e = SrvTypeError what
    end) as Hbody.
  { intros body. cbv zeta.
    assert (body = VUndefined \/ body = VNull \/
            (body <> VUndefined /\ body <> VNull)) as [->|[->|[Hu Hn]]]
      by (destruct body; auto).
    { simpl. split; [lia|]. split; [by left|]. split; [done|by eexists]. }
    { simpl. split; [lia|]. split; [by left|]. split; [done|by eexists]. }
    rewrite !(srv_prop_field body) by done. cbn [mbind outcome_bind].
    assert (match body with
            | VUndefined | VNull => true
            | _ => false
            end = false) as -> by (by destruct body).
    destruct (truthy (body_field body "operation")); cbn [negb andb];
      [|simpl; split; [lia|]; split; [done|]; split; [by right; left|done]].
    assert (forall Key,
      let r := internal_error rt
        (if is_string (body_field body "operation") "initiate"
         then handleInitiate s3
                (js_or (body_field body "bucket") (env_S3_BUCKET rt)) Key
                (body_field body "fileType")
         else if is_string (body_field body "operation") "upload"
         then handleUpload s3
                (js_or (body_field body "bucket") (env_S3_BUCKET rt)) Key
                (body_field body "uploadId") (body_field body "partNumber")
         else if is_string (body_field body "operation") "complete"
         then handleComplete s3
                (js_or (body_field body "bucket") (env_S3_BUCKET rt)) Key
                (body_field body "uploadId") (body_field body "parts")
         else if is_string (body_field body "operation") "abort"
         then handleAbort s3
                (js_or (body_field body "bucket") (env_S3_BUCKET rt)) Key
                (body_field body "uploadId")
         else (name ← text rt (body_field body "operation");
               Returned (bad_request ("Unknown operation: " +:+ name)), [])) in
      (length r.2 <= 1)%nat /\
      exists response, r.1 = Returned response /\
        (statusCode response = 200 \/ statusCode response = 400 \/
         statusCode response = 500) /\
        (statusCode response = 400 -> r.2 = [])) as Hop.
    { intros Key. cbv zeta.
      match goal with |- context [internal_error rt ?R] =>
        assert (well_behaved R) as Hwb
      end.
      { repeat case_match; first
          [apply handleInitiate_shape | apply handleUpload_shape
          |apply handleComplete_shape | apply handleAbort_shape | idtac].
        unfold well_behaved. simpl. split; [lia|].
        destruct (text rt _); simpl; [by right|done]. }
      destruct (internal_error_shape rt _ Hwb) as (response & -> & -> & Hst & Hno).
      split; [apply Hwb|]. by exists response. }
    destruct (truthy (body_field body "key")) eqn:Hkey; cbn [negb andb].
    - destruct (Hop (body_field body "key")) as (Hlen & response & Hr & Hst & Hno).
      split; [done|]. rewrite Hr. done.
    - destruct (text rt (js_or (body_field body "fileName") (VStr (now rt))))
        as [name|e] eqn:Htext; unfold text in Htext;
        rewrite unconvertible_js_or in Htext;
        destruct (unconvertible (body_field body "fileName")); try done;
        cbn [mbind outcome_bind].
      + destruct (Hop (VStr ("uploads/" +:+ name)))
          as (Hlen & response & Hr & Hst & Hno).
        split; [done|]. rewrite Hr. done.
      + injection Htext as <-. simpl. split; [lia|]. split; [by right|].
        split; [done|by eexists]. }
  destruct (event_body event) as [[body|]|body].
  - pose proof (Hbody body) as Hb. cbv zeta in Hb.
    destruct Hb as [Hlen Hres]. split; [done|].
    match goal with |- match ?x with _ => _ end => destruct x as [response|e] end.
    + destruct Hres as ([Hn Hk] & Hst & Hno). split; [right|done].
      split; [|done]. by destruct body.
    + destruct Hres as (Hor & Hno & Hwhat). split; [done|]. split; [|done].
      destruct Hor as [Hn|Hk]; [left|by right]. by destruct body.
  - simpl. split; [lia|]. split; [by right|]. split; [by right; left|done].
  - pose proof (Hbody body) as Hb. cbv zeta in Hb.
    destruct Hb as [Hlen Hres]. split; [done|].
    match goal with |- match ?x with _ => _ end => destruct x as [response|e] end.
    + destruct Hres as ([Hn Hk] & Hst & Hno). split; [right|done].
      split; [|done]. by destruct body.
    + destruct Hres as (Hor & Hno & Hwhat). split; [done|]. split; [|done].
      destruct Hor as [Hn|Hk]; [left|by right]. by destruct body.
Qed.

Lemma handler_outcomes_witness :
  let event :=
    {| httpMethod := VStr "POST";
       event_body :=
         BodyText (Some (VObj [("operation", VStr "initiate");
                               ("fileName", VObj [("toString", VNum 1)])])) |} in
  let res := handler plain_runtime (s3_fine (VStr "u") (fun _ => VStr "url"))
               event in
  res = (Raised (SrvTypeError "toString"), []) /\
  bodiless event = false /\ key_unrenderable event = true /\
  (length res.2 <= 1)%nat /\
  match res.1 with
  | Returned response =>
      (is_string (httpMethod event) "OPTIONS" = true \/
       (bodiless event = false /\ key_unrenderable event = false)) /\
      (statusCode response = 200 \/ statusCode response = 400 \/
       statusCode response = 500) /\
      (statusCode response = 400 -> res.2 = [])
  | Raised e =>
      is_string (httpMethod event) "OPTIONS" = false /\
      (bodiless event = true \/ key_unrenderable event = true) /\
      res.2 = [] /\ exists what, e = SrvTypeError what
  end.
Proof.
  intros event res. split; [vm_compute; reflexivity|].
  split; [reflexivity|]. split; [vm_compute; reflexivity|].
  apply (handler_outcomes plain_runtime
           (s3_fine (VStr "u") (fun _ => VStr "url")) event).
  reflexivity.
Defined.

Example handler_without_body :
  handler plain_runtime (s3_fine (VStr "u") (fun _ => VStr "url"))
    {| httpMethod := VStr "POST"; event_body := BodyValue VUndefined |}
  = (Raised (SrvTypeError "operation"), []) /\
  status_of (handler plain_runtime (fun _ => S3Rejected (VStr "NoSuchUpload"))
    {| httpMethod := VStr "POST";
       event_body := BodyText (Some (VObj [("operation", VStr "abort");
                                           ("uploadId", VStr "u")])) |}).1
  = Some 200 /\
  status_of (handler plain_runtime (fun _ => S3Rejected (VStr "NoSuchUpload"))
    {| httpMethod := VStr "POST";
       event_body := BodyText (Some (VObj [("operation", VStr "upload");
                                           ("uploadId", VStr "u");
                                           ("partNumber", VNum 1)])) |}).1
  = Some 500.
Proof. vm_compute. repeat split. Qed.

(** A [fileName] that cannot be converted to a string makes the handler
    reject when no [key] is given and not otherwise; an operation that
    cannot be converted is answered with 500. *)
Example handler_opaque_file_name :
  let opaque := VObj [("toString", VNum 1)] in
  let s3 := s3_fine (VStr "u") (fun _ => VStr "url") in
  handler plain_runtime s3
    {| httpMethod := VStr "POST";
       event_body := BodyText (Some (VObj [("operation", VStr "initiate");
                                           ("fileName", opaque)])) |}
  = (Raised (SrvTypeError "toString"), []) /\
  status_of (handler plain_runtime s3
    {| httpMethod := VStr "POST";
       event_body := BodyText (Some (VObj [("operation", VStr "initiate");
                                           ("fileName", opaque);
                                           ("key", VStr "k")])) |}).1
  = Some 200 /\
  status_of (handler plain_runtime s3
    {| httpMethod := VStr "POST";
       event_body := BodyText (Some (VObj [("operation", opaque)])) |}).1
  = Some 500.
Proof. vm_compute. repeat split. Qed.

(** ** Handing out all tokens at once *)

Lemma numbers_from_S (from : Z) (k : nat) :
  numbers_from from (S k) = from :: numbers_from (from + 1) k.
Proof.
  unfold numbers_from. simpl. f_equal; [lia|].
  rewrite <- fmap_S_seq, <- list_fmap_compose.
  apply list_fmap_ext. intros _ j _. simpl. lia.
Qed.

Lemma numbers_from_range (from : Z) (k : nat) (p : Z) :
  In p (numbers_from from k) <-> from <= p < from + Z.of_nat k.
Proof.
  unfold numbers_from. rewrite <- list_elem_of_In, list_elem_of_fmap. split.
  - intros (j & -> & Hj). apply elem_of_seq in Hj. lia.
  - intros Hp. exists (Z.to_nat (p - from)). split; [lia|].
    apply elem_of_seq. lia.
Qed.

Lemma sign_parts_fine
    (rt : Runtime) (s3 : S3Call -> S3Outcome) (url : Z -> JsVal) (B K U : JsVal) (k : nat) :
  forall from,
  (forall p, from <= p < from + Z.of_nat k ->
     s3 (SignUploadPart B K (VNum p) U) = S3Resolved (url p)) ->
  sign_parts rt s3 k from B K U
  = (Returned (map (signed_token url) (numbers_from from k)),
     map (fun p => SignUploadPart B K (VNum p) U) (numbers_from from k)).
Proof.
  induction k as [|k IH]; intros from Hs3; [done|].
  simpl sign_parts. rewrite (Hs3 from) by lia.
  rewrite (IH (from + 1)) by (intros p Hp; apply Hs3; lia).
  by rewrite numbers_from_S.
Qed.


(** [handleInitiate] on a numeric [totalParts]. *)
Lemma handleInitiate_all_number
    (rt : Runtime) (s3 : S3Call -> S3Outcome) (B K fileType : JsVal) (n : Z) :
  handleInitiate_all rt s3 B K fileType (VNum n)
  = if n <? 1
    then (Returned (bad_request
            "totalParts is required and must be greater than 0"), [])
    else
      let call := CreateMultipartUpload B K
                    (js_or fileType (VStr "application/octet-stream")) in
      match s3 call with
      | S3Rejected message => (Raised (S3Failure message), [call])
      | S3Resolved created =>
          match srv_prop created "UploadId" with
          | Raised e => (Raised e, [call])
          | Returned UploadId =>
              let '(r, calls) := sign_parts rt s3 (Z.to_nat n) 1 B K UploadId in
              (presignedUrls ← r;
               Returned (json_response 200
                 (VObj [("uploadId", UploadId); ("bucket", B);
                        ("key", K); ("presignedUrls", VArr presignedUrls)])),
               call :: calls)
          end
      end.
Proof.
  unfold handleInitiate_all, number_of. simpl.
  destruct (Z.eqb_spec n 0) as [->|Hn]; simpl; [done|].
  by destruct (n <? 1).
Qed.

Lemma handleInitiate_all_ok
    (rt : Runtime) (s3 : S3Call -> S3Outcome) (url : Z -> JsVal)
    (B K fileType created uid : JsVal) (n : Z) :
  s3 (CreateMultipartUpload B K
        (js_or fileType (VStr "application/octet-stream")))
  = S3Resolved created ->
  srv_prop created "UploadId" = Returned uid ->
  1 <= n ->
  (forall p, 1 <= p <= n ->
     s3 (SignUploadPart B K (VNum p) uid) = S3Resolved (url p)) ->
  handleInitiate_all rt s3 B K fileType (VNum n)
  = (Returned (json_response 200
       (VObj [("uploadId", uid); ("bucket", B); ("key", K);
              ("presignedUrls",
               VArr (map (signed_token url) (numbers_from 1 (Z.to_nat n))))])),
     CreateMultipartUpload B K
       (js_or fileType (VStr "application/octet-stream"))
     :: map (fun p => SignUploadPart B K (VNum p) uid)
          (numbers_from 1 (Z.to_nat n))).
Proof.
  intros Hcreate Huid Hn Hsign. rewrite handleInitiate_all_number.
  destruct (Z.ltb_spec n 1); [lia|]. cbv zeta. rewrite Hcreate, Huid.
  rewrite (sign_parts_fine rt s3 url); [done|].
  intros p Hp. apply Hsign. lia.
Qed.



(** ** Client and server together *)

Lemma signed_tokens_numbers (url : Z -> JsVal) (ps : list Z) :
  Forall2 (fun tok m => token_number tok = Some m)
    (map (signed_token url) ps) ps.
Proof. induction ps as [|p ps IH]; constructor; done. Qed.

Lemma numbers_from_sorted (from : Z) (k : nat) :
  StronglySorted Z.le (numbers_from from k).
Proof.
  revert from. induction k as [|k IH]; intros from; [constructor|].
  rewrite numbers_from_S. constructor; [apply IH|].
  apply Forall_forall. intros p Hp.
  apply list_elem_of_In, numbers_from_range in Hp. lia.
Qed.

Lemma numbers_from_lookup (k : nat) (p : Z) :
  1 <= p <= Z.of_nat k -> numbers_from 1 k !! Z.to_nat (p - 1) = Some p.
Proof.
  intros Hp. unfold numbers_from. rewrite list_lookup_fmap.
  rewrite lookup_seq_lt by lia. simpl. f_equal. lia.
Qed.

Lemma getPresignedUrls_accepts
    (u : Uploader) (size : Z) (r : HttpResponse)
    (uid B K : JsVal) (items : list JsVal) :
  r_ok r = true ->
  r_json r = Some (VObj [("uploadId", uid); ("bucket", B); ("key", K);
                         ("presignedUrls", VArr items)]) ->
  truthy uid = true ->
  ceil_div size (chunkSize u) = Some (Z.of_nat (length items)) ->
  sort_tokens items = Ok items ->
  getPresignedUrls u size (Responded r)
  = (Ok (VObj [("uploadId", uid); ("bucket", B); ("key", K);
               ("presignedUrls", VArr items)]),
     {| chunkSize := chunkSize u; maxRetries := maxRetries u;
        retryDelay := retryDelay u; uploadId := uid;
        presignedUrls := items; bucket := B; key := K;
        aborted := aborted u |}).
Proof.
  intros Hok Hjson Huid Hlen Hsort.
  unfold getPresignedUrls, read_json, check_ok. rewrite Hjson, Hok. simpl.
  rewrite Huid. simpl. rewrite Hlen. unfold length_is.
  rewrite Z.eqb_refl. simpl. rewrite Hsort. done.
Qed.

(** X18. The client and the server that hands out all tokens agree on a
    session: for a file of at least one byte and a positive chunk size,
    when the server is asked for the [totalParts] that [upload] sends
    and S3 opens the session and signs every part, the server's answer
    is accepted by [getPresignedUrls], which stores the session id,
    bucket and key of the server and exactly [totalParts] tokens, so
    that [upload] reads for part [p] the URL that S3 signed for
    part [p]. *)
Theorem session_handshake
    (rt : Runtime) (s3 : S3Call -> S3Outcome) (url : Z -> JsVal)
    (B K fileType created uid : JsVal)
    (u : Uploader) (size : Z) (statusText : string) :
  0 < size -> 0 < chunkSize u -> truthy uid = true ->
  s3 (CreateMultipartUpload B K
        (js_or fileType (VStr "application/octet-stream")))
  = S3Resolved created ->
  srv_prop created "UploadId" = Returned uid ->
  (forall p, 1 <= p ->
     s3 (SignUploadPart B K (VNum p) uid) = S3Resolved (url p)) ->
  exists (n : nat) (response : LambdaResponse),
    (1 <= n)%nat /\
    trace (upload_start u size false) = [InitCall size (Some (Z.of_nat n))] /\
    (handleInitiate_all rt s3 B K fileType (VNum (Z.of_nat n))).1
    = Returned response /\
    let r := getPresignedUrls (set_aborted false u) size
               (as_fetched statusText response) in
    throws r.1 = false /\
    uploadId r.2 = uid /\ bucket r.2 = B /\ key r.2 = K /\
    length (presignedUrls r.2) = n /\
    forall p, 1 <= p <= Z.of_nat n ->
      prop (default VUndefined (presignedUrls r.2 !! Z.to_nat (p - 1))) "url"
      = Ok (url p).
Proof.
  intros Hsize Hchunk Huid Hcreate Hprop Hsign.
  destruct (ceil_div_pos size (chunkSize u) ltac:(lia)) as [N HN].
  pose proof (ceil_div_bounds _ _ _ Hchunk HN) as Hb.
  assert (1 <= N) as HN1 by nia.
  exists (Z.to_nat N). eexists. split; [lia|]. split.
  { simpl. rewrite HN. do 3 f_equal. lia. }
  rewrite Z2Nat.id by lia.
  rewrite (handleInitiate_all_ok rt s3 url B K fileType created uid N);
    try done; [|intros p Hp; apply Hsign; lia].
  split; [reflexivity|]. cbv zeta.
  set (items := map (signed_token url) (numbers_from 1 (Z.to_nat N))).
  assert (length items = Z.to_nat N) as Hlen.
  { unfold items, numbers_from. by rewrite !length_map, length_seq. }
  unfold as_fetched.
  rewrite (getPresignedUrls_accepts (set_aborted false u) size _ uid B K items);
    try done.
  - simpl. repeat split; try done.
    intros p Hp. unfold items. rewrite list_lookup_fmap.
    rewrite numbers_from_lookup by lia. done.
  - simpl. rewrite HN, Hlen. f_equal. lia.
  - destruct (sort_tokens_numbers items _
                (signed_tokens_numbers url (numbers_from 1 (Z.to_nat N))))
      as (l' & ns' & Hsort & _ & _ & _ & _ & Hid).
    rewrite Hsort. f_equal. apply Hid, numbers_from_sorted.
Qed.

Lemma session_handshake_witness :
  let url p := VStr ("https://s3/part" +:+ pretty p) in
  let s3 := s3_fine (VStr "u") url in
  let u := new_uploader 5242880 3 1000 in
  exists (n : nat) (response : LambdaResponse),
    (1 <= n)%nat /\
    trace (upload_start u 12582912 false)
    = [InitCall 12582912 (Some (Z.of_nat n))] /\
    (handleInitiate_all plain_runtime s3 (VStr "b") (VStr "k") VUndefined
       (VNum (Z.of_nat n))).1
    = Returned response /\
    let r := getPresignedUrls (set_aborted false u) 12582912
               (as_fetched "OK" response) in
    throws r.1 = false /\
    uploadId r.2 = VStr "u" /\ bucket r.2 = VStr "b" /\ key r.2 = VStr "k" /\
    length (presignedUrls r.2) = n /\
    forall p, 1 <= p <= Z.of_nat n ->
      prop (default VUndefined (presignedUrls r.2 !! Z.to_nat (p - 1))) "url"
      = Ok (url p).
Proof.
  apply (session_handshake plain_runtime
           (s3_fine (VStr "u") (fun p => VStr ("https://s3/part" +:+ pretty p)))
           (fun p => VStr ("https://s3/part" +:+ pretty p))
           (VStr "b") (VStr "k") VUndefined
           (VObj [("UploadId", VStr "u")]) (VStr "u")
           (new_uploader 5242880 3 1000) 12582912 "OK").
  - lia.
  - simpl. lia.
  - reflexivity.
  - reflexivity.
  - reflexivity.
  - intros p Hp. reflexivity.
Defined.

(** X19. An empty file never gets a session from the server that hands
    out all tokens: [upload] asks for [totalParts = 0], the server
    answers 400 without calling S3, and [upload] on a fresh uploader
    rejects with the server's message, without a cancel request and
    without any PUT. *)
Theorem empty_file_refused
    (rt : Runtime) (s3 : S3Call -> S3Outcome) (B K fileType : JsVal)
    (u : Uploader) (cb : bool) (statusText : string) :
  chunkSize u <> 0 -> truthy (uploadId u) = false ->
  let s0 := upload_start u 0 cb in
  let e := ErrGetUrlsFailed
             (VStr "totalParts is required and must be greater than 0") in
  In (InitCall 0 (Some 0)) (trace s0) /\
  exists response,
    handleInitiate_all rt s3 B K fileType (VNum 0) = (Returned response, []) /\
    statusCode response = 400 /\
    exists s1,
      step s0 (InitSettled (as_fetched statusText response)) = Some s1 /\
      pc s1 = Rejected e /\
      trace s1 = trace s0 ++ (if cb then [Report (PError e)] else []).
Proof.
  intros Hchunk Huid. cbv zeta.
  assert (ceil_div 0 (chunkSize u) = Some 0) as Hceil.
  { unfold ceil_div. destruct (Z.eqb_spec (chunkSize u) 0); [done|].
    simpl. by rewrite Z.div_0_l. }
  split.
  { simpl. rewrite Hceil. apply in_or_app. right. by left. }
  eexists. split; [reflexivity|]. split; [reflexivity|].
  eexists. split.
  { unfold step. simpl pc. cbv iota. simpl. unfold fail. simpl.
    rewrite Huid. reflexivity. }
  split; [reflexivity|]. simpl. by destruct cb.
Qed.

Lemma empty_file_refused_witness :
  let s0 := upload_start default_uploader 0 true in
  let e := ErrGetUrlsFailed
             (VStr "totalParts is required and must be greater than 0") in
  In (InitCall 0 (Some 0)) (trace s0) /\
  exists response,
    handleInitiate_all plain_runtime (s3_fine (VStr "u") (fun _ => VStr "url"))
      (VStr "b") (VStr "k") VUndefined (VNum 0)
    = (Returned response, []) /\
    statusCode response = 400 /\
    exists s1,
      step s0 (InitSettled (as_fetched "Bad Request" response)) = Some s1 /\
      pc s1 = Rejected e /\
      trace s1 = trace s0 ++ (if true then [Report (PError e)] else []).
Proof.
  apply (empty_file_refused plain_runtime
           (s3_fine (VStr "u") (fun _ => VStr "url"))
           (VStr "b") (VStr "k") VUndefined default_uploader true "Bad Request").
  - vm_compute. discriminate.
  - reflexivity.
Defined.

(** *** The completion request *)

Lemma in_session_step (s s' : State) (ev : Event) :
  in_session s -> step s ev = Some s' -> in_session s'.
Proof.
  intros Hs Hstep. unfold in_session in *.
  destruct ev as [o|p o|p|o|o|]; simpl in Hstep.
  - destruct (pc s) eqn:Epc; try done.
    pose proof (getPresignedUrls_ok_length (this s) (fileSize s) o) as Hlen.
    pose proof (getPresignedUrls_throw_keeps_this (this s) (fileSize s) o) as Hkeep.
    destruct (getPresignedUrls (this s) (fileSize s) o) as [[data|e] u].
    + left. destruct (Hlen data eq_refl) as (_ & _ & _ & _ & _ & Huid).
      destruct (upload_loop_frame _ _ _ _ Hstep) as (-> & _). exact Huid.
    + injection Hstep as <-. simpl in Hkeep. rewrite (Hkeep eq_refl).
      destruct (fail_frame e (set_this (this s) s))
        as (-> & -> & _ & _ & _ & _ & Hpc & _).
      rewrite completes_fail. simpl.
      destruct Hs as [?|(? & ? & _)]; [by left|right].
      destruct Hpc as [-> | ->]; done.
  - destruct (take_flight p false (flights s)) as [[f rest]|] eqn:Htake;
      [|done]. simpl in Hstep.
    destruct Hs as [Huid|(_ & Hfl & _)]; [|by rewrite Hfl in Htake]. left.
    destruct (put_part p o).
    + by destruct (batch_progress_frame _ _ Hstep) as (-> & _).
    + destruct (_ >=? _).
      * destruct (pc s); injection Hstep as <-; try done.
        by destruct (fail_frame e (set_flights rest s)) as (-> & _).
      * by injection Hstep as <-.
  - destruct (take_flight p true (flights s)) as [[f rest]|] eqn:Htake;
      [|done]. simpl in Hstep.
    destruct Hs as [Huid|(_ & Hfl & _)]; [|by rewrite Hfl in Htake]. left.
    destruct (batch_progress_frame _ _ Hstep) as (-> & _).
    unfold uploadPart_next, part_done. by destruct (_ <? _).
  - destruct (pc s) eqn:Epc; try done.
    destruct Hs as [Huid|(_ & _ & ?)]; [|done]. left.
    destruct (completeUpload o); injection Hstep as <-; [done|].
    by destruct (fail_frame e s) as (-> & _).
  - destruct (pc s) as [| | |e0| |] eqn:Epc; try done.
    rewrite abortUpload_swallows in Hstep. injection Hstep as <-. simpl.
    destruct Hs as [?|(Hc & ? & _)]; [by left|right].
    rewrite completes_app, Hc. by destruct (onProgress s).
  - injection Hstep as <-. unfold abort.
    destruct (truthy (uploadId (this (set_this _ s)))) eqn:Huid; simpl in *.
    + by left.
    + destruct Hs as [?|(Hc & ? & ?)]; [by left|by right].
Qed.

Lemma in_session_upload
    (u : Uploader) (size : Z) (cb : bool) (evs : list Event) (s : State) :
  upload u size cb evs = Some s -> in_session s.
Proof.
  unfold upload. assert (in_session (upload_start u size cb)) as Hstart.
  { right. simpl. rewrite completes_app. by destruct cb. }
  revert Hstart. generalize (upload_start u size cb).
  induction evs as [|ev evs IH]; intros s0 H0; simpl.
  - by intros [= <-].
  - destruct (step s0 ev) as [s1|] eqn:Hstep; [|done]. simpl.
    apply IH. by eapply in_session_step.
Qed.

Lemma put_part_etag_nonempty (p : Z) (o : FetchOutcome) (part : Part) :
  put_part p o = Ok part -> ETag part <> EmptyString.
Proof.
  unfold put_part. destruct o as [reason|r]; [done|].
  destruct (r_ok r); simpl; [|done].
  destruct (r_etag r) as [h|]; simpl; [|done].
  destruct (String.eqb (strip_quotes h) EmptyString) eqn:He; [done|].
  intros [= <-]. simpl. intros Heq. by rewrite Heq in He.
Qed.

Lemma in_completes (tr : list Action) (uid b k : JsVal) (parts : list Part) :
  In (CompleteCall uid parts b k) tr -> completes tr <> [].
Proof.
  intros Hin Hnil.
  assert (parts ∈ completes tr) as Hel.
  { apply list_elem_of_omap. exists (CompleteCall uid parts b k).
    split; [by apply list_elem_of_In|done]. }
  rewrite Hnil in Hel. by apply not_elem_of_nil in Hel.
Qed.

(** X20. The completion request of a run, taken to [handleComplete]: an
    empty part list (an empty file, or no attempt allowed) is answered
    with a 400 before S3 is called, which the client turns into the
    error ['Failed to complete upload: uploadId and parts array are
    required']; a non-empty list passes the server's checks as it is,
    in the order sent, and S3 is asked once to complete the session
    with exactly the part numbers and ETags that the client recorded;
    when S3 resolves, the 200 answer is what [completeUpload] returns. *)
Theorem completion_reaches_s3
    (u : Uploader) (size : Z) (cb : bool) (evs : list Event) (s : State)
    (uid b k : JsVal) (parts : list Part)
    (s3 : S3Call -> S3Outcome) (Bucket Key : JsVal) (statusText : string) :
  upload u size cb evs = Some s ->
  In (CompleteCall uid parts b k) (trace s) ->
  let res := handleComplete s3 Bucket Key uid (VArr (map part_json parts)) in
  let call := CompleteMultipartUpload Bucket Key uid
                (map (fun part => (VNum (PartNumber part), VStr (ETag part)))
                   parts) in
  match parts with
  | [] =>
      res.2 = [] /\
      exists response, res.1 = Returned response /\
        statusCode response = 400 /\
        completeUpload (as_fetched statusText response)
        = Throw (ErrCompleteFailed
                   (VStr "uploadId and parts array are required"))
  | _ :: _ =>
      res.2 = [call] /\
      (forall message, s3 call = S3Rejected message -> raises res.1 = true) /\
      (forall f, s3 call = S3Resolved (VObj f) ->
         exists response, res.1 = Returned response /\
           statusCode response = 200 /\
           completeUpload (as_fetched statusText response)
           = Ok (resp_body response))
  end.
Proof.
  intros Hrun Hin. cbv zeta.
  pose proof (sd_trace _ _ (sound_upload _ _ _ _ _ Hrun)) as Htr.
  rewrite Forall_forall in Htr.
  pose proof (Htr _ (proj2 (list_elem_of_In _ _) Hin)) as Hplan.
  simpl in Hplan. destruct Hplan as (Hsorted & HQ & Huid & _ & _).
  assert (truthy uid = true) as Htruthy.
  { destruct (in_session_upload _ _ _ _ _ Hrun) as [Ht|(Hc & _)];
      [by rewrite Huid|]. by apply in_completes in Hin. }
  destruct parts as [|part parts].
  - unfold handleComplete. rewrite Htruthy. simpl.
    split; [done|]. eexists. split; [reflexivity|]. split; [reflexivity|].
    reflexivity.
  - set (all := part :: parts) in *.
    assert (Forall2 (fun item m => part_field_number item = Some m)
              (map part_json all) (map PartNumber all)) as Hnum.
    { clear. induction all; constructor; done. }
    assert (forallb complete_part (map part_json all) = true) as Hall.
    { apply forallb_forall. intros item Hitem.
      apply in_map_iff in Hitem as (q & <- & Hq).
      rewrite Forall_forall in HQ.
      destruct (HQ q (proj2 (list_elem_of_In _ _) Hq))
        as (Hpn & o & _ & Hput).
      apply put_part_etag_nonempty in Hput.
      unfold complete_part. simpl.
      destruct (Z.eqb_spec (PartNumber q) 0); [lia|]. simpl.
      destruct (String.eqb_spec (ETag q) EmptyString); done. }
    assert (StronglySorted Z.le (map PartNumber all)) as Hle.
    { clear -Hsorted. induction Hsorted as [|x l Hl IH Hx]; constructor;
        [done|]. eapply Forall_impl; [exact Hx|]. simpl. intros; lia. }
    destruct (handleComplete_valid s3 Bucket Key uid (map part_json all)
                (map PartNumber all) Htruthy ltac:(done) Hnum Hall)
      as (sorted & ns' & _ & _ & _ & Hid & ->).
    rewrite (Hid Hle). cbv zeta. rewrite map_map. unfold all. simpl.
    split; [done|]. split.
    + intros message ->. done.
    + intros f ->. simpl. eexists. split; [reflexivity|].
      split; [reflexivity|]. reflexivity.
Qed.

Lemma completion_reaches_s3_witness :
  exists s, scenario_B = Some s /\
  let parts := [mkPart 1 "e1"; mkPart 2 "e2"; mkPart 3 "e3"] in
  let s3 := s3_fine (VStr "u") (fun _ => VStr "url") in
  let res := handleComplete s3 (VStr "b") (VStr "k") (VStr "u")
               (VArr (map part_json parts)) in
  let call := CompleteMultipartUpload (VStr "b") (VStr "k") (VStr "u")
                (map (fun part => (VNum (PartNumber part), VStr (ETag part)))
                   parts) in
  res.2 = [call] /\
  (forall message, s3 call = S3Rejected message -> raises res.1 = true) /\
  (forall f, s3 call = S3Resolved (VObj f) ->
     exists response, res.1 = Returned response /\
       statusCode response = 200 /\
       completeUpload (as_fetched "OK" response) = Ok (resp_body response)).
Proof.
  eexists. split; [vm_compute; reflexivity|].
  eapply (completion_reaches_s3 (new_uploader 5242880 3 1000) 12582912 false
           [InitSettled (resp_json (session "u" three_tokens));
            PutSettled 2 resp_503; PutSettled 1 (resp_ok "e1"); TimerFired 2;
            PutSettled 2 (NetFail "reset"); PutSettled 3 (resp_ok "e3");
            TimerFired 2; PutSettled 2 (resp_ok "e2");
            CompleteSettled (resp_json (VObj [("location", VStr "l")]))]
           _ (VStr "u") (VStr "b") (VStr "k")
           [mkPart 1 "e1"; mkPart 2 "e2"; mkPart 3 "e3"]
           (s3_fine (VStr "u") (fun _ => VStr "url"))
           (VStr "b") (VStr "k") "OK").
  - vm_compute. reflexivity.
  - find_in.
Defined.

(** * Liveness and timing *)

(** ** [upload] is never stuck *)

Lemma upload_loop_waiting (fuel i : nat) (s s' : State) :
  upload_loop fuel i s = Some s' -> waiting s'.
Proof.
  intros Hloop.
  destruct (upload_loop_cases _ _ _ _ Hloop) as (s1 & _ & Hcase).
  destruct Hcase as [[e ->]|[(i' & -> & Hne)|[-> _]]]; intros j Hpc.
  - by destruct (failed_fail e s1) as [H|H]; rewrite H in Hpc.
  - done.
  - done.
Qed.

Lemma batch_progress_waiting (s s' : State) :
  batch_progress s = Some s' -> waiting s'.
Proof.
  unfold batch_progress.
  destruct (pc s) as [|i| | | |] eqn:Epc;
    try (intros [= <-] j Hpc; by rewrite Epc in Hpc).
  destruct (flights s) eqn:Hfl.
  - apply upload_loop_waiting.
  - intros [= <-] j _. by rewrite Hfl.
Qed.

Lemma waiting_step (s s' : State) (ev : Event) :
  waiting s -> step s ev = Some s' -> waiting s'.
Proof.
  intros Hw Hstep.
  destruct ev as [o|p o|p|o|o|]; simpl in Hstep.
  - destruct (pc s); try done.
    destruct (getPresignedUrls (this s) (fileSize s) o) as [[data|e] u].
    + by eapply upload_loop_waiting.
    + injection Hstep as <-. intros j Hpc.
      by destruct (failed_fail e (set_this u s)) as [H|H]; rewrite H in Hpc.
  - destruct (take_flight p false (flights s)) as [[f rest]|]; [|done].
    simpl in Hstep. destruct (put_part p o).
    + by eapply batch_progress_waiting.
    + destruct (_ >=? _).
      * destruct (pc s) eqn:Epc; injection Hstep as <-; intros j Hpc;
          simpl in Hpc; try (by rewrite Epc in Hpc).
        by destruct (failed_fail e (set_flights rest s)) as [H|H];
          rewrite H in Hpc.
      * injection Hstep as <-. intros j _. simpl. by destruct rest.
  - destruct (take_flight p true (flights s)) as [[f rest]|]; [|done].
    simpl in Hstep. by eapply batch_progress_waiting.
  - destruct (pc s) eqn:Epc; try done.
    destruct (completeUpload o); injection Hstep as <-; intros j Hpc;
      [done|].
    by destruct (failed_fail e s) as [H|H]; rewrite H in Hpc.
  - destruct (pc s) eqn:Epc; try done.
    rewrite abortUpload_swallows in Hstep. by injection Hstep as <-.
  - injection Hstep as <-. intros j Hpc. unfold abort in *.
    destruct (truthy _); simpl in *; by apply (Hw j).
Qed.

(** X21. A run of [upload] is never suspended with nothing to wait
    for: in every state that a run reaches, [upload] has settled, or it
    awaits the session reply, the completion reply or the cancel reply,
    or it awaits a batch of which at least one part is still in flight,
    and the settling of what it awaits is a task that the run can
    process. *)
Theorem upload_never_stuck
    (u : Uploader) (size : Z) (cb : bool) (evs : list Event) (s : State) :
  upload u size cb evs = Some s -> pending s.
Proof.
  intros Hrun.
  assert (waiting s) as Hw.
  { revert Hrun. unfold upload.
    assert (waiting (upload_start u size cb)) as Hstart by (by intros j).
    revert Hstart. generalize (upload_start u size cb).
    induction evs as [|ev evs IH]; intros s0 H0; simpl.
    - by intros [= <-].
    - destruct (step s0 ev) as [s1|] eqn:Hstep; [|done]. simpl.
      apply IH. by eapply waiting_step. }
  unfold pending. destruct (pc s) as [|i| |e| |] eqn:Epc; try done.
  - intros o. by apply step_total.
  - destruct (flights s) as [|f fs] eqn:Hfl; [by destruct (Hw i Epc)|].
    exists f. split; [by left|].
    assert (is_Some (take_flight (fl_part f) (fl_sleeping f) (flights s)))
      as Htake.
    { rewrite Hfl. simpl. rewrite Z.eqb_refl, eqb_reflx. by eexists. }
    destruct (fl_sleeping f).
    + by apply step_total.
    + intros o. by apply step_total.
  - intros o. by apply step_total.
  - intros o. apply step_total. by exists e.
Qed.

Lemma upload_never_stuck_witness :
  exists s, scenario_C_before = Some s /\
    pc s = AwaitBatch 0 /\
    map fl_part (flights s) = [3] /\
    pending s.
Proof.
  eexists. split; [vm_compute; reflexivity|]. split; [reflexivity|].
  split; [reflexivity|].
  apply (upload_never_stuck (new_uploader 5242880 3 1000) 12582912 true
           [InitSettled (resp_json (session "u" three_tokens));
            PutSettled 1 (resp_ok "e1"); PutSettled 2 (resp_ok "e2");
            PutSettled 3 resp_503; TimerFired 3;
            PutSettled 3 resp_503; TimerFired 3]).
  vm_compute. reflexivity.
Defined.

(** ** The time spent waiting *)

Lemma waits_of_schedule (delay from : Z) (k : nat) :
  waits_of (schedule delay from (S k))
  = map (fun j => delay * (from + Z.of_nat j)) (seq 0 k).
Proof.
  revert from. induction k as [|k IH]; intros from; [done|].
  change (waits_of (schedule delay from (S (S k))))
    with (delay * from :: waits_of (schedule delay (from + 1) (S k))).
  rewrite IH. simpl. f_equal; [f_equal; lia|].
  rewrite <- fmap_S_seq, <- list_fmap_compose.
  apply list_fmap_ext. intros _ j _. simpl. f_equal. lia.
Qed.

Lemma total_wait_schedule (delay from : Z) (k : nat) :
  2 * total_wait (schedule delay from (S k))
  = delay * Z.of_nat k * (2 * from + Z.of_nat k - 1).
Proof.
  revert from. induction k as [|k IH]; intros from.
  - change (total_wait (schedule delay from 1)) with 0. lia.
  - change (total_wait (schedule delay from (S (S k))))
      with (delay * from + total_wait (schedule delay (from + 1) (S k))).
    specialize (IH (from + 1)). nia.
Qed.

(** X22. How long a part that cannot be transferred keeps [upload]
    waiting: when every attempt fails, [uploadPart] gives up after
    [maxRetries] attempts, does not pause after the last one, and the
    pauses it has taken add up to
    [retryDelay * maxRetries * (maxRetries - 1) / 2] milliseconds. *)
Theorem uploadPart_total_wait (maxR delay p : Z) (net : Z -> FetchOutcome) :
  1 <= maxR ->
  (forall n, exists e, put_part p (net n) = Throw e) ->
  exists e log,
    uploadPart maxR delay p net = Some (Throw e, log) /\
    last log = Some (Attempt maxR) /\
    length (waits_of log) = Z.to_nat (maxR - 1) /\
    2 * total_wait log = delay * maxR * (maxR - 1).
Proof.
  intros Hmax Hfail.
  destruct (uploadPart_all_attempts_fail maxR delay p net Hmax Hfail)
    as (e & Hrun & _ & _).
  exists e, (schedule delay 1 (Z.to_nat maxR)). split; [done|].
  replace (Z.to_nat maxR) with (S (Z.to_nat (maxR - 1))) by lia.
  split; [|split].
  - replace maxR with (1 + Z.of_nat (Z.to_nat (maxR - 1))) at 2 by lia.
    generalize (Z.to_nat (maxR - 1)). generalize 1. clear.
    intros from k. revert from. induction k as [|k IH]; intros from.
    + simpl. do 2 f_equal. lia.
    + change (schedule delay from (S (S k)))
        with (Attempt from :: Wait (delay * from)
              :: schedule delay (from + 1) (S k)).
      rewrite !last_cons. rewrite (IH (from + 1)).
      do 2 f_equal. lia.
  - rewrite waits_of_schedule. by rewrite length_map, length_seq.
  - rewrite total_wait_schedule, Z2Nat.id by lia. ring.
Qed.

Lemma uploadPart_total_wait_witness :
  exists e log,
    uploadPart 3 1000 1 (fun _ => resp_503) = Some (Throw e, log) /\
    last log = Some (Attempt 3) /\
    length (waits_of log) = Z.to_nat (3 - 1) /\
    2 * total_wait log = 1000 * 3 * (3 - 1).
Proof.
  apply (uploadPart_total_wait 3 1000 1 (fun _ => resp_503)).
  - lia.
  - intros n. eexists. reflexivity.
Defined.

(** ** The attempts of a whole run *)

Lemma put_count_put (p q : Z) (url : JsVal) (a b : Z) (tr : list Action) :
  put_count p (tr ++ [PutCall q url a b])
  = (put_count p tr + (if (q =? p)%Z then 1 else 0))%nat.
Proof.
  rewrite put_count_app. unfold put_count at 2. simpl.
  by destruct (q =? p).
Qed.

Lemma counted_same (s s' : State) :
  flights s' = flights s ->
  maxRetries (this s') = maxRetries (this s) ->
  (forall p, put_count p (trace s') = put_count p (trace s)) ->
  counted s -> counted s'.
Proof.
  intros Hfl Hmax Hput [H1 H2 H3]. split.
  - by rewrite Hfl.
  - rewrite Hfl, Hmax. eapply Forall_impl; [exact H2|].
    simpl. intros f. by rewrite Hput.
  - intros p. rewrite Hfl, Hmax, Hput. apply H3.
Qed.

Lemma untouched_same (lo lo' : nat) (s s' : State) :
  (lo <= lo')%nat ->
  flights s' = flights s ->
  (forall p, put_count p (trace s') = put_count p (trace s)) ->
  untouched_from lo s -> untouched_from lo' s'.
Proof.
  intros Hlo Hfl Hput Hu idx Hidx. rewrite Hfl, Hput. apply Hu. lia.
Qed.

Lemma counted_fail (e : JsError) (s : State) : counted s -> counted (fail e s).
Proof.
  destruct (fail_frame e s) as (Ht & Hf & _ & _ & _ & _ & _ & Hp).
  apply counted_same; try done. by rewrite Ht.
Qed.

Lemma counted_report (q : Progress) (s : State) :
  counted s -> counted (report q s).
Proof.
  apply counted_same; try done. intros p. apply put_count_report.
Qed.

Lemma dispatches_in_le (lo hi : nat) (s s' : State) :
  dispatches_in lo hi s s' -> (lo <= hi)%nat.
Proof. induction 1; lia. Qed.

Lemma dispatches_in_weaken (lo lo' hi hi' : nat) (s s' : State) :
  (lo' <= lo)%nat -> (hi <= hi')%nat ->
  dispatches_in lo hi s s' -> dispatches_in lo' hi' s s'.
Proof.
  intros Hlo Hhi Hd. revert lo' Hlo.
  induction Hd as [lo hi s Hle|lo hi s s' idx url Hidx Hab Hd IH];
    intros lo' Hlo.
  - constructor. lia.
  - eapply dispatches_in_step; [|done|apply IH]; lia.
Qed.

Lemma dispatches_in_trans (lo mid hi : nat) (s1 s2 s3 : State) :
  dispatches_in lo mid s1 s2 -> dispatches_in mid hi s2 s3 ->
  dispatches_in lo hi s1 s3.
Proof.
  intros H12 H23. pose proof (dispatches_in_le _ _ _ _ H23) as Hle.
  induction H12 as [lo mid s Hlm|lo mid s s' idx url Hidx Hab Hd IH].
  - eapply dispatches_in_weaken; [| |exact H23]; lia.
  - eapply dispatches_in_step; [|done|by apply IH]. lia.
Qed.

Lemma dispatch_batch_in (k : nat) :
  forall i j s s' out,
  dispatch_batch k i j s = (s', out) ->
  dispatches_in (i + j) (i + j + k) s s'.
Proof.
  induction k as [|k IH]; intros i j s s' out.
  - intros [= <- _]. constructor. lia.
  - rewrite dispatch_batch_S.
    destruct (Nat.ltb_spec (i + j) (totalParts s)) as [Hlt|Hge];
      [|intros [= <- _]; constructor; lia].
    destruct (prop _ "url") as [url|e];
      [|intros [= <- _]; constructor; lia].
    unfold uploadSinglePart. destruct (aborted (this s)) eqn:Hab.
    + destruct (dispatch_batch k i (S j) s) as [s2 later] eqn:Hd.
      intros [= <- _]. apply IH in Hd.
      eapply dispatches_in_weaken; [| |exact Hd]; lia.
    + destruct (dispatch_batch k i (S j)
                  (uploadPart_next (Z.of_nat (i + j) + 1) url 0 s))
        as [s2 later] eqn:Hd.
      intros [= <- _]. apply IH in Hd.
      eapply dispatches_in_step; [|done|].
      * split; [reflexivity|lia].
      * eapply dispatches_in_weaken; [| |exact Hd]; lia.
Qed.

Lemma upload_loop_cases_in (fuel : nat) :
  forall i s s', upload_loop fuel i s = Some s' ->
  exists s1 hi, dispatches_in i hi s s1 /\
    ((exists e, s' = fail e s1) \/
     (exists i', s' = set_pc (AwaitBatch i') s1 /\
                 (hi <= i' + maxConcurrent)%nat) \/
     s' = finish_transfers s1).
Proof.
  induction fuel as [|fuel IH]; intros i s s'; simpl.
  - destruct (i <? totalParts s)%nat.
    + destruct (aborted (this s)); [|done]. intros [= <-].
      exists s, i. split; [by constructor|]. left. by eexists.
    + intros [= <-]. exists s, i. split; [by constructor|]. by right; right.
  - destruct (i <? totalParts s)%nat.
    + destruct (aborted (this s)).
      { intros [= <-]. exists s, i. split; [by constructor|]. left.
        by eexists. }
      destruct (dispatch_batch maxConcurrent i 0 s) as [sd out] eqn:Hd.
      apply dispatch_batch_in in Hd. rewrite Nat.add_0_r in Hd.
      destruct out as [e|[e|]].
      * intros [= <-]. exists sd, (i + maxConcurrent)%nat.
        split; [done|]. left. by eexists.
      * intros [= <-]. exists sd, (i + maxConcurrent)%nat.
        split; [done|]. left. by eexists.
      * destruct (flights sd) as [|f fs] eqn:Hfl.
        -- intros Hloop.
           destruct (IH _ _ _ Hloop) as (s1 & hi & Hd1 & Hcase).
           exists s1, hi. split; [by eapply dispatches_in_trans|done].
        -- intros [= <-]. exists sd, (i + maxConcurrent)%nat.
           split; [done|]. right. left. exists i. by split.
    + intros [= <-]. exists s, i. split; [by constructor|]. by right; right.
Qed.

Lemma counted_dispatches (lo hi : nat) (s s' : State) :
  dispatches_in lo hi s s' ->
  counted s -> untouched_from lo s ->
  counted s' /\ untouched_from hi s' /\
  maxRetries (this s') = maxRetries (this s).
Proof.
  induction 1 as [lo hi s Hle|lo hi s s' idx url Hidx Hab Hd IH];
    intros Hc Hu.
  - split; [done|]. split; [|done]. by eapply untouched_same.
  - destruct (Hu idx ltac:(lia)) as [Hzero Hnot].
    destruct Hc as [H1 H2 H3].
    set (p := Z.of_nat idx + 1) in *.
    assert (counted (uploadPart_next p url 0 s) /\
            untouched_from (S idx) (uploadPart_next p url 0 s) /\
            maxRetries (this (uploadPart_next p url 0 s)) = maxRetries (this s))
      as (Hc' & Hu' & Hm').
    { unfold uploadPart_next.
      destruct (Z.ltb_spec 0 (maxRetries (this s))) as [Hpos|Hneg].
      - split; [|split; [|done]].
        + split; simpl.
          * rewrite map_app. simpl. apply NoDup_app. split; [done|]. split.
            -- intros q Hq [->|[]]%list_elem_of_In.
               by apply Hnot, list_elem_of_In.
            -- apply NoDup_singleton.
          * apply Forall_app. split.
            -- apply Forall_forall. intros f Hf.
               rewrite Forall_forall in H2. destruct (H2 f Hf) as [Hcount Hr].
               split; [|done]. rewrite put_count_put, Hcount.
               destruct (Z.eqb_spec p (fl_part f)) as [Heq|]; [|lia].
               destruct Hnot. rewrite Heq. apply in_map.
               by apply list_elem_of_In.
            -- constructor; [|constructor]. simpl.
               rewrite put_count_put, Hzero, Z.eqb_refl.
               split; [done|lia].
          * intros q Hq. rewrite map_app in Hq. simpl in Hq.
            rewrite put_count_put.
            destruct (Z.eqb_spec p q) as [->|].
            -- destruct Hq. apply in_or_app. right. by left.
            -- rewrite Nat.add_0_r. apply H3. intros Hin. apply Hq.
               apply in_or_app. by left.
        + intros idx' Hidx'. simpl. rewrite put_count_put.
          destruct (Hu idx' ltac:(lia)) as [Hz Hn].
          destruct (Z.eqb_spec p (Z.of_nat idx' + 1)); [lia|].
          split; [lia|]. rewrite map_app. simpl. intros Hin.
          apply in_app_or in Hin as [Hin|[Heq|[]]]; [done|lia].
      - unfold part_done. split; [|split; [|done]].
        + apply (counted_same s); try done.
          intros q. simpl. rewrite put_count_app.
          destruct (onProgress s); unfold put_count; simpl; lia.
        + apply (untouched_same lo _ s); try done; [lia|].
          intros q. simpl. rewrite put_count_app.
          destruct (onProgress s); unfold put_count; simpl; lia. }
    destruct (IH Hc' Hu') as (Hc'' & Hu'' & Hm'').
    split; [done|]. split; [done|]. congruence.
Qed.

Lemma counted_upload_loop (fuel i : nat) (s s' : State) :
  upload_loop fuel i s = Some s' ->
  counted s -> untouched_from i s ->
  counted s' /\ frontier s'.
Proof.
  intros Hloop Hc Hu.
  destruct (upload_loop_cases_in _ _ _ _ Hloop) as (s1 & hi & Hd & Hcase).
  destruct (counted_dispatches _ _ _ _ Hd Hc Hu) as (Hc1 & Hu1 & _).
  destruct Hcase as [[e ->]|[(i' & -> & Hhi) | ->]].
  - split; [by apply counted_fail|]. unfold frontier.
    by destruct (failed_fail e s1) as [-> | ->].
  - split; [by destruct Hc1|]. unfold frontier. simpl.
    by apply (untouched_same hi _ s1).
  - split; [|done]. unfold finish_transfers.
    apply (counted_same s1); try done.
    intros p. simpl. rewrite !put_count_app.
    destruct (onProgress s1); unfold put_count; simpl; lia.
Qed.

Lemma counted_batch_progress (s s' : State) :
  batch_progress s = Some s' ->
  counted s -> frontier s ->
  counted s' /\ frontier s'.
Proof.
  unfold batch_progress.
  destruct (pc s) as [|i| | | |] eqn:Epc; try (by intros [= <-]).
  destruct (flights s) eqn:Hfl; [|by intros [= <-]].
  intros Hloop Hc Hf. unfold frontier in Hf. rewrite Epc in Hf.
  by eapply counted_upload_loop.
Qed.

Lemma counted_replace
    (s s' : State) (f : Flight) (rest : list Flight) (new : option Flight) :
  counted s -> flights s ≡ₚ f :: rest ->
  flights s' = rest ++ option_list new ->
  maxRetries (this s') = maxRetries (this s) ->
  (forall q, q <> fl_part f -> put_count q (trace s') = put_count q (trace s)) ->
  match new with
  | Some f' =>
      fl_part f' = fl_part f /\
      put_count (fl_part f) (trace s') = attempts_made f' /\
      0 <= fl_retries f' < maxRetries (this s)
  | None =>
      Z.of_nat (put_count (fl_part f) (trace s')) <= Z.max 0 (maxRetries (this s))
  end ->
  counted s' /\ (forall lo, untouched_from lo s -> untouched_from lo s').
Proof.
  intros [H1 H2 H3] Hperm Hfl Hmax Hother Hnew.
  rewrite Hperm in H1, H2. simpl in H1.
  apply NoDup_cons in H1 as [Hnotin Hnodup].
  apply Forall_cons in H2 as [[Hcount Hr] Hrest].
  assert (forall q, In q (map fl_part (flights s))
                    <-> q = fl_part f \/ In q (map fl_part rest)) as Hin.
  { intros q. rewrite <- !list_elem_of_In, Hperm. simpl.
    rewrite elem_of_cons. done. }
  assert (forall q, In q (map fl_part (flights s')) ->
                    In q (map fl_part (flights s))) as Hsub.
  { intros q. rewrite Hfl, map_app, Hin. intros [?|Hq]%in_app_or; [auto|].
    destruct new as [f'|]; [|done]. destruct Hnew as (Hp & _).
    destruct Hq as [<-|[]]. auto. }
  split.
  - split.
    + rewrite Hfl, map_app. apply NoDup_app. split; [done|]. split.
      * intros q Hq Hq'. destruct new as [f'|]; [|by inversion Hq'].
        destruct Hnew as (Hp & _). simpl in Hq'.
        apply list_elem_of_In in Hq' as [<-|[]]. rewrite Hp in Hq. done.
      * destruct new; [apply NoDup_singleton|constructor].
    + rewrite Hfl, Hmax. apply Forall_app. split.
      * apply Forall_forall. intros g Hg. rewrite Forall_forall in Hrest.
        destruct (Hrest g Hg) as [Hcg Hrg]. split; [|done].
        rewrite Hother; [done|]. intros Heq. apply Hnotin.
        rewrite <- Heq. by apply list_elem_of_fmap_2.
      * destruct new as [f'|]; [|constructor].
        destruct Hnew as (Hp & Hc & Hr'). constructor; [|constructor].
        by rewrite Hp.
    + intros q Hq. rewrite Hmax.
      destruct (decide (q = fl_part f)) as [->|Hne].
      * destruct new as [f'|]; [|done]. destruct Hq.
        rewrite Hfl, map_app. apply in_or_app. right.
        destruct Hnew as (<- & _). by left.
      * rewrite Hother by done. apply H3. rewrite Hin.
        intros [?|Hq']; [done|]. apply Hq. rewrite Hfl, map_app.
        apply in_or_app. by left.
  - intros lo Hu idx Hidx. destruct (Hu idx Hidx) as [Hz Hn]. split.
    + rewrite Hother; [done|]. intros Heq. apply Hn. rewrite Hin. by left.
    + intros Hq. by apply Hn, Hsub.
Qed.

Lemma counted_step (s s' : State) (ev : Event) :
  counted s -> frontier s -> step s ev = Some s' ->
  counted s' /\ frontier s'.
Proof.
  intros Hc Hf Hstep.
  destruct ev as [o|p o|p|o|o|]; simpl in Hstep.
  - destruct (pc s) eqn:Epc; try done.
    unfold frontier in Hf. rewrite Epc in Hf.
    pose proof (getPresignedUrls_ok_length (this s) (fileSize s) o) as Hlen.
    pose proof (getPresignedUrls_throw_keeps_this (this s) (fileSize s) o) as Hkeep.
    destruct (getPresignedUrls (this s) (fileSize s) o) as [[data|e] u].
    + destruct (Hlen data eq_refl) as (_ & _ & Hm & _). simpl in Hm.
      eapply counted_upload_loop; [exact Hstep| |].
      * apply (counted_same s); try done.
        intros q. simpl. rewrite put_count_app.
        destruct (onProgress s); unfold put_count; simpl; lia.
      * apply (untouched_same 0 _ s); try done.
        intros q. simpl. rewrite put_count_app.
        destruct (onProgress s); unfold put_count; simpl; lia.
    + injection Hstep as <-. simpl in Hkeep. rewrite (Hkeep eq_refl).
      split; [apply counted_fail; by destruct Hc|]. unfold frontier.
      by destruct (failed_fail e (set_this (this s) s)) as [-> | ->].
  - destruct (take_flight p false (flights s)) as [[f rest]|] eqn:Htake;
      [|done]. simpl in Hstep.
    destruct (take_flight_spec _ _ _ _ _ Htake) as (Hp & Hsl & Hperm).
    pose proof (ct_flights s Hc) as Hfs. rewrite Hperm in Hfs.
    apply Forall_cons in Hfs as [[Hcount Hr] _].
    unfold attempts_made in Hcount. rewrite Hsl in Hcount. subst p.
    destruct (put_part (fl_part f) o) as [part|e].
    + destruct (counted_replace s
                  (part_done (fl_part f) (Some part) (set_flights rest s))
                  f rest None Hc Hperm) as [Hc' Hu']; try done.
      * simpl. by rewrite app_nil_r.
      * intros q _. simpl. rewrite put_count_app.
        destruct (onProgress s); unfold put_count; simpl; lia.
      * simpl. rewrite put_count_app, Hcount.
        destruct (onProgress s); unfold put_count; simpl; lia.
      * eapply counted_batch_progress; [exact Hstep|done|].
        unfold frontier in *. simpl. destruct (pc s); try done; by apply Hu'.
    + destruct (Z.geb_spec (fl_retries f + 1) (maxRetries (this s))).
      * destruct (counted_replace s (set_flights rest s) f rest None Hc Hperm)
          as [Hc' Hu']; try done.
        { simpl. by rewrite app_nil_r. }
        { simpl. rewrite Hcount. lia. }
        destruct (pc s) eqn:Epc; injection Hstep as <-;
          try (split; [done|]; unfold frontier in *; simpl; rewrite Epc in *;
               try done; by apply Hu').
        split; [by apply counted_fail|]. unfold frontier.
        by destruct (failed_fail e (set_flights rest s)) as [-> | ->].
      * injection Hstep as <-.
        match goal with
        | |- counted ?s1 /\ _ =>
            destruct (counted_replace s s1 f rest
                        (Some {| fl_part := fl_part f; fl_url := fl_url f;
                                 fl_retries := fl_retries f + 1;
                                 fl_sleeping := true |}) Hc Hperm)
              as [Hc' Hu']; try done
        end.
        { intros q _. simpl. rewrite put_count_app. unfold put_count. simpl.
          lia. }
        { simpl. split; [done|]. split; [|lia].
          rewrite put_count_app, Hcount. unfold put_count, attempts_made.
          simpl. lia. }
        split; [done|]. unfold frontier in *. simpl.
        destruct (pc s); try done; by apply Hu'.
  - destruct (take_flight p true (flights s)) as [[f rest]|] eqn:Htake;
      [|done]. simpl in Hstep.
    destruct (take_flight_spec _ _ _ _ _ Htake) as (Hp & Hsl & Hperm).
    pose proof (ct_flights s Hc) as Hfs. rewrite Hperm in Hfs.
    apply Forall_cons in Hfs as [[Hcount Hr] _].
    unfold attempts_made in Hcount. rewrite Hsl in Hcount. subst p.
    eapply counted_batch_progress; [exact Hstep| |].
    all: unfold uploadPart_next; simpl.
    all: destruct (Z.ltb_spec (fl_retries f) (maxRetries (this s))); [|lia].
    all: match goal with
         | |- context [set_flights ?fs ?s0] =>
             destruct (counted_replace s (set_flights fs s0) f rest
                         (Some {| fl_part := fl_part f; fl_url := fl_url f;
                                  fl_retries := fl_retries f;
                                  fl_sleeping := false |}) Hc Hperm)
               as [Hc' Hu']; try done
         end.
    all: try (intros q Hq; simpl; rewrite put_count_put;
              destruct (Z.eqb_spec (fl_part f) q); [done|lia]).
    all: try (simpl; split; [done|]; split; [|lia];
              rewrite put_count_put, Z.eqb_refl, Hcount;
              unfold attempts_made; simpl; lia).
    unfold frontier in *. simpl. destruct (pc s); try done; by apply Hu'.
  - destruct (pc s) eqn:Epc; try done.
    destruct (completeUpload o) as [result|e]; injection Hstep as <-.
    + split; [|done]. apply (counted_same s); try done.
      intros q. apply (put_count_report q (PCompleted result) s).
    + split; [by apply counted_fail|]. unfold frontier.
      by destruct (failed_fail e s) as [-> | ->].
  - destruct (pc s) as [| | |e0| |] eqn:Epc; try done.
    rewrite abortUpload_swallows in Hstep. injection Hstep as <-.
    split; [|done]. apply (counted_same s); try done.
    intros q. apply (put_count_report q (PError e0) s).
  - injection Hstep as <-.
    assert (flights (abort s) = flights s /\
            maxRetries (this (abort s)) = maxRetries (this s) /\
            pc (abort s) = pc s /\
            forall q, put_count q (trace (abort s)) = put_count q (trace s))
      as (Hfl & Hm & Hpc & Hput).
    { unfold abort. destruct (truthy _); simpl; repeat split; try done.
      intros q. rewrite put_count_app. unfold put_count. simpl. lia. }
    split; [by apply (counted_same s)|].
    unfold frontier in *. rewrite Hpc.
    destruct (pc s); try done;
      (eapply untouched_same; [reflexivity|exact Hfl|exact Hput|exact Hf]).
Qed.

(** X23. In a whole run of [upload], no part is in flight twice and no
    part is PUT more than [maxRetries] times, first attempt included:
    a part is dispatched once, and each of its attempts but the last
    allowed one can be followed by one more. *)
Theorem attempts_per_part
    (u : Uploader) (size : Z) (cb : bool) (evs : list Event) (s : State)
    (p : Z) :
  upload u size cb evs = Some s ->
  Z.of_nat (put_count p (trace s)) <= Z.max 0 (maxRetries u) /\
  NoDup (map fl_part (flights s)).
Proof.
  intros Hrun.
  assert (counted s /\ frontier s) as [Hc _].
  { revert Hrun. unfold upload.
    assert (counted (upload_start u size cb) /\
            frontier (upload_start u size cb)) as Hstart.
    { split.
      - split; simpl; [constructor|constructor|].
        intros q _. rewrite put_count_app. destruct cb; unfold put_count;
          simpl; lia.
      - intros idx _. simpl. split; [|tauto]. rewrite put_count_app.
        by destruct cb. }
    revert Hstart. generalize (upload_start u size cb).
    induction evs as [|ev evs IH]; intros s0 [H0 H0']; simpl.
    - by intros [= <-].
    - destruct (step s0 ev) as [s1|] eqn:Hstep; [|done]. simpl.
      apply IH. by eapply counted_step. }
  destruct (run_frame _ _ _ Hrun) as (Hm & _). simpl in Hm. rewrite <- Hm.
  split; [|by destruct Hc].
  destruct (in_dec Z.eq_dec p (map fl_part (flights s))) as [Hin|Hnot].
  - apply in_map_iff in Hin as (f & <- & Hf).
    pose proof (ct_flights s Hc) as Hfs. rewrite Forall_forall in Hfs.
    destruct (Hfs f (proj2 (list_elem_of_In _ _) Hf)) as [-> Hr].
    unfold attempts_made. destruct (fl_sleeping f); lia.
  - by apply (ct_others s Hc).
Qed.

Lemma attempts_per_part_witness :
  exists s, scenario_C = Some s /\
    put_count 3 (trace s) = 3%nat /\
    Z.of_nat (put_count 3 (trace s))
    <= Z.max 0 (maxRetries (new_uploader 5242880 3 1000)) /\
    NoDup (map fl_part (flights s)).
Proof.
  eexists. split; [vm_compute; reflexivity|]. split; [reflexivity|].
  apply (attempts_per_part (new_uploader 5242880 3 1000) 12582912 true
           [InitSettled (resp_json (session "u" three_tokens));
            PutSettled 1 (resp_ok "e1"); PutSettled 2 (resp_ok "e2");
            PutSettled 3 resp_503; TimerFired 3;
            PutSettled 3 resp_503; TimerFired 3;
            PutSettled 3 resp_503]).
  vm_compute. reflexivity.
Defined.

(** ** A run in which nothing fails *)

Lemma first_flight_same (s s' : State) (p : Z) :
  this s' = this s -> first_flight s' p = first_flight s p.
Proof. intros H. unfold first_flight, url_at, token_url. by rewrite H. Qed.

Lemma token_url_obj (s : State) (idx : nat) :
  Forall (fun tok => is_obj tok = true) (presignedUrls (this s)) ->
  (idx < length (presignedUrls (this s)))%nat ->
  prop (default VUndefined (presignedUrls (this s) !! idx)) "url"
  = Ok (url_at s (Z.of_nat idx + 1)).
Proof.
  intros Hobj Hidx. unfold url_at. rewrite token_url_slot.
  destruct (lookup_lt_is_Some_2 _ _ Hidx) as [tok Htok]. rewrite Htok. simpl.
  rewrite Forall_forall in Hobj.
  pose proof (Hobj tok (list_elem_of_lookup_2 _ _ _ Htok)) as Ho.
  by destruct tok.
Qed.

Lemma between_none (lo hi p : Z) : hi <= lo -> between lo hi p = false.
Proof.
  intros Hle. unfold between.
  destruct (Z.leb_spec lo p), (Z.ltb_spec p hi); simpl; lia.
Qed.

Lemma dispatch_batch_smooth (k : nat) :
  forall i j s,
  aborted (this s) = false -> 1 <= maxRetries (this s) ->
  Forall (fun tok => is_obj tok = true) (presignedUrls (this s)) ->
  length (presignedUrls (this s)) = totalParts s ->
  let m := Nat.min k (totalParts s - (i + j)) in
  let lo := Z.of_nat (i + j) + 1 in
  exists s',
    dispatch_batch k i j s = (s', Promises None) /\
    this s' = this s /\ totalParts s' = totalParts s /\ pc s' = pc s /\
    flights s' = flights s ++ map (first_flight s) (numbers_from lo m) /\
    (forall p, put_count p (trace s')
               = (put_count p (trace s)
                  + if between lo (lo + Z.of_nat m) p then 1 else 0)%nat) /\
    completes (trace s') = completes (trace s).
Proof.
  induction k as [|k IH]; intros i j s Hab Hmax Hobj Hlen; cbv zeta.
  - exists s. simpl. rewrite app_nil_r. repeat split; try done.
    intros p. rewrite between_none by lia. lia.
  - rewrite dispatch_batch_S.
    destruct (Nat.ltb_spec (i + j) (totalParts s)) as [Hlt|Hge].
    2:{ exists s. replace (Nat.min (S k) (totalParts s - (i + j))) with 0%nat
          by lia.
        simpl. rewrite app_nil_r. repeat split; try done.
        intros p. rewrite between_none by lia. lia. }
    rewrite (token_url_obj s (i + j)) by (done || lia).
    unfold uploadSinglePart. rewrite Hab. unfold uploadPart_next.
    destruct (Z.ltb_spec 0 (maxRetries (this s))); [|lia].
    set (p0 := Z.of_nat (i + j) + 1).
    set (s1 := set_flights _ _).
    destruct (IH i (S j) s1) as (s' & Hd & Ht & Hn & Hpc & Hfl & Hput & Hc);
      try done.
    rewrite Hd. exists s'. split; [done|].
    replace (Nat.min (S k) (totalParts s - (i + j)))
      with (S (Nat.min k (totalParts s1 - (i + S j))))
      by (change (totalParts s1) with (totalParts s); lia).
    set (m := Nat.min k (totalParts s1 - (i + S j))) in *.
    rewrite numbers_from_S.
    replace (Z.of_nat (i + S j) + 1) with (p0 + 1) in * by lia.
    split; [done|]. split; [done|]. split; [done|]. split.
    { rewrite Hfl. unfold s1. simpl. by rewrite <- app_assoc. }
    split; [|by rewrite Hc; unfold s1; simpl; rewrite completes_app;
               simpl; rewrite app_nil_r].
    intros p. rewrite Hput. unfold s1. simpl. rewrite put_count_put.
    unfold between.
    destruct (Z.eqb_spec p0 p), (Z.leb_spec (p0 + 1) p), (Z.leb_spec p0 p),
             (Z.ltb_spec p (p0 + 1 + Z.of_nat m)),
             (Z.ltb_spec p (p0 + Z.of_nat (S m))); simpl; lia.
Qed.

Lemma between_glue (lo mid hi p : Z) :
  lo <= mid <= hi ->
  ((if between lo mid p then 1 else 0) + (if between mid hi p then 1 else 0))%nat
  = if between lo hi p then 1%nat else 0%nat.
Proof.
  intros Hle. unfold between.
  destruct (Z.leb_spec lo p), (Z.ltb_spec p mid), (Z.leb_spec mid p),
           (Z.ltb_spec p hi); simpl; lia.
Qed.

Lemma upload_loop_smooth (fuel i : nat) (s : State) :
  flights s = [] ->
  aborted (this s) = false -> 1 <= maxRetries (this s) ->
  Forall (fun tok => is_obj tok = true) (presignedUrls (this s)) ->
  length (presignedUrls (this s)) = totalParts s ->
  (forall p, put_count p (trace s)
             = if between 1 (Z.of_nat (Nat.min i (totalParts s)) + 1) p
               then 1%nat else 0%nat) ->
  completes (trace s) = [] ->
  exists s',
    upload_loop (S fuel) i s = Some s' /\
    this s' = this s /\ totalParts s' = totalParts s /\
    if (i <? totalParts s)%nat
    then smooth (Z.of_nat i + 1)
           (Z.of_nat (Nat.min (i + maxConcurrent) (totalParts s)) + 1) i s'
    else s' = finish_transfers s.
Proof.
  intros Hfl Hab Hmax Hobj Hlen Hput Hc.
  cbn [upload_loop]. destruct (Nat.ltb_spec i (totalParts s)) as [Hlt|Hge];
    [|by eexists].
  rewrite Hab.
  destruct (dispatch_batch_smooth maxConcurrent i 0 s Hab Hmax Hobj Hlen)
    as (s' & Hd & Ht & Hn & Hpc & Hfl' & Hput' & Hc').
  rewrite Hd. rewrite Nat.add_0_r in *.
  remember (Nat.min maxConcurrent (totalParts s - i)) as m eqn:Em.
  assert (Z.of_nat (Nat.min (i + maxConcurrent) (totalParts s))
          = Z.of_nat i + Z.of_nat m) as Hhi by lia.
  assert (flights s' <> []) as Hne.
  { rewrite Hfl', Hfl. destruct m as [|m']; [unfold maxConcurrent in Em; lia|].
    by rewrite numbers_from_S. }
  rewrite Hfl in Hfl'. simpl in Hfl'.
  destruct (flights s') as [|f fs] eqn:Hfs; [done|]. rewrite <- Hfs in *.
  eexists. split; [reflexivity|]. split; [done|]. split; [done|].
  split; simpl; try done; try congruence.
  - rewrite Hfl'. rewrite Hhi.
    replace (Z.to_nat (Z.of_nat i + Z.of_nat m + 1 - (Z.of_nat i + 1)))
      with m by lia.
    apply map_ext. intros p. symmetry. by apply first_flight_same.
  - unfold maxConcurrent in *. lia.
  - intros p. rewrite Hput', Hput, Hhi.
    replace (Nat.min i (totalParts s)) with i by lia.
    replace (Z.of_nat i + Z.of_nat m + 1)
      with (Z.of_nat i + 1 + Z.of_nat m) by lia.
    apply between_glue. lia.
Qed.

Lemma smooth_step
    (lo hi : Z) (i : nat) (s : State) (o : FetchOutcome) (part : Part) :
  smooth lo hi i s -> put_part lo o = Ok part ->
  exists s',
    step s (PutSettled lo o) = Some s' /\
    this s' = this s /\ totalParts s' = totalParts s /\
    (lo + 1 < hi -> smooth (lo + 1) hi i s') /\
    (lo + 1 = hi ->
     if (i + maxConcurrent <? totalParts s)%nat
     then smooth hi
            (Z.of_nat (Nat.min (i + maxConcurrent + maxConcurrent)
                         (totalParts s)) + 1)
            (i + maxConcurrent) s'
     else pc s' = AwaitComplete /\
          (forall p, put_count p (trace s')
                     = if between 1 hi p then 1%nat else 0%nat) /\
          length (completes (trace s')) = 1%nat).
Proof.
  intros [Hpc Hfl Hhi Hlo Hab Hmax Hobj Hlen Hput Hc] Hok.
  assert (Z.to_nat (hi - lo) = S (Z.to_nat (hi - (lo + 1)))) as Hk by lia.
  rewrite Hk, numbers_from_S in Hfl. simpl in Hfl.
  unfold step. rewrite Hfl. simpl take_flight.
  rewrite Z.eqb_refl. simpl. rewrite Hok.
  set (rest := map (first_flight s) (numbers_from (lo + 1) (Z.to_nat (hi - (lo + 1))))).
  set (s2 := part_done lo (Some part) (set_flights rest s)).
  assert (forall p, put_count p (trace s2) = put_count p (trace s)) as Hput2.
  { intros p. unfold s2, part_done. simpl. rewrite put_count_app.
    destruct (onProgress s); unfold put_count; simpl; lia. }
  assert (completes (trace s2) = []) as Hc2.
  { unfold s2, part_done. simpl. rewrite completes_app, Hc.
    by destruct (onProgress s). }
  unfold batch_progress.
  change (pc s2) with (pc s). rewrite Hpc.
  change (flights s2) with rest.
  destruct (Z.to_nat (hi - (lo + 1))) as [|k] eqn:Hrest.
  - (* the last part of the batch *)
    change rest with (@nil Flight). cbv iota.
    assert (forall p, put_count p (trace s2)
              = if between 1 (Z.of_nat (Nat.min (i + maxConcurrent)
                                          (totalParts s2)) + 1) p
                then 1%nat else 0%nat) as Hput3.
    { intros p. rewrite Hput2, Hput, Hhi. done. }
    assert (exists f, totalParts s2 = S f) as [f HN].
    { exists (pred (totalParts s)). change (totalParts s2) with (totalParts s).
      lia. }
    destruct (upload_loop_smooth f (i + maxConcurrent) s2
                eq_refl Hab Hmax Hobj Hlen Hput3 Hc2)
      as (s' & Hloop & Ht & Hn & Hres).
    rewrite HN, Hloop. exists s'. split; [done|].
    split; [done|]. split; [done|]. split; [lia|]. intros Heq.
    change (totalParts s2) with (totalParts s) in Hres.
    destruct (i + maxConcurrent <? totalParts s)%nat eqn:Hmore.
    + apply Nat.ltb_lt in Hmore.
      replace hi with (Z.of_nat (i + maxConcurrent) + 1) by lia. exact Hres.
    + subst s'. unfold finish_transfers. simpl. split; [done|]. split.
      * intros p. rewrite <- Hput, <- Hput2. unfold s2, part_done. simpl.
        rewrite !put_count_app.
        destruct (onProgress s); unfold put_count; simpl; lia.
      * rewrite !completes_app, Hc. by destruct (onProgress s).
  - (* more parts of the batch in flight *)
    unfold rest. rewrite numbers_from_S. simpl. eexists. split; [reflexivity|].
    split; [done|]. split; [done|]. split; [|lia]. intros _.
    split; try done.
    + change (flights s2) with rest. unfold rest. rewrite Hrest.
      apply map_ext. intros p. symmetry. by apply first_flight_same.
    + lia.
    + intros p. by rewrite Hput2.
Qed.

Lemma smooth_run (net : Z -> FetchOutcome) (k : nat) :
  forall lo hi i s,
  smooth lo hi i s ->
  Z.of_nat k = Z.of_nat (totalParts s) + 1 - lo ->
  (forall p, lo <= p <= Z.of_nat (totalParts s) ->
     exists part, put_part p (net p) = Ok part) ->
  exists s',
    run s (map (fun p => PutSettled p (net p)) (numbers_from lo k)) = Some s' /\
    this s' = this s /\ totalParts s' = totalParts s /\
    pc s' = AwaitComplete /\
    (forall p, put_count p (trace s')
               = if between 1 (Z.of_nat (totalParts s) + 1) p
                 then 1%nat else 0%nat) /\
    length (completes (trace s')) = 1%nat.
Proof.
  induction k as [|k IH]; intros lo hi i s Hs Hk Hnet.
  { pose proof (sm_lo _ _ _ _ Hs). pose proof (sm_hi _ _ _ _ Hs). lia. }
  pose proof (sm_lo _ _ _ _ Hs) as Hlo. pose proof (sm_hi _ _ _ _ Hs) as Hhi.
  destruct (Hnet lo) as [part Hok]; [lia|].
  destruct (smooth_step lo hi i s (net lo) part Hs Hok)
    as (s1 & Hstep & Ht & Hn & Hin & Hend).
  rewrite numbers_from_S. cbn [map run]. rewrite Hstep. simpl.
  destruct (Z.eq_dec (lo + 1) hi) as [Heq|Hne].
  - specialize (Hend Heq).
    destruct (Nat.ltb_spec (i + maxConcurrent) (totalParts s)) as [Hmore|Hlast].
    + destruct (IH _ _ _ _ Hend) as (s' & Hrun & Ht' & Hn' & Hrest).
      * rewrite Hn. lia.
      * intros p Hp. apply Hnet. rewrite Hn in Hp. lia.
      * rewrite Heq. exists s'. rewrite Hn in Hrest.
        split; [done|]. split; [congruence|]. split; [congruence|]. done.
    + destruct Hend as (Hpc & Hput & Hc).
      assert (k = 0%nat) as -> by lia. exists s1.
      split; [done|]. split; [done|]. split; [done|]. split; [done|].
      split; [|done]. intros p. rewrite Hput.
      replace hi with (Z.of_nat (totalParts s) + 1) by lia. done.
  - assert (lo + 1 < hi) as Hlt by lia. specialize (Hin Hlt).
    destruct (IH _ _ _ _ Hin) as (s' & Hrun & Ht' & Hn' & Hrest).
    + rewrite Hn. lia.
    + intros p Hp. apply Hnet. rewrite Hn in Hp. lia.
    + exists s'. rewrite Hn in Hrest.
      split; [done|]. split; [congruence|]. split; [congruence|]. done.
Qed.

Lemma finish_transfers_calls (s : State) (p : Z) :
  put_count p (trace (finish_transfers s)) = put_count p (trace s) /\
  length (completes (trace (finish_transfers s)))
  = S (length (completes (trace s))).
Proof.
  unfold finish_transfers, report. simpl. split.
  - rewrite !put_count_app. destruct (onProgress s); unfold put_count; simpl; lia.
  - rewrite !completes_app, !length_app.
    destruct (onProgress s); simpl; lia.
Qed.

(** X24. A run in which nothing goes wrong goes through. Let
    [maxRetries] be at least 1, let the session reply be accepted with
    [n] tokens that are all objects, let the PUT of every part [1..n]
    be answered with a success status and an [ETag], the parts settling
    in the order of their numbers, and let the completion reply be
    accepted. Then every one of these events is awaited when it arrives,
    [upload] resolves with the body of the completion reply, every part
    [1..n] has been PUT exactly once and no other part at all, and one
    completion request has been sent, which lists the parts [1..n] in
    ascending order. *)
Theorem upload_happy_path
    (u u' : Uploader) (size : Z) (cb : bool) (o reply : FetchOutcome)
    (net : Z -> FetchOutcome) (data result : JsVal) :
  1 <= maxRetries u ->
  getPresignedUrls (set_aborted false u) size o = (Ok data, u') ->
  Forall (fun tok => is_obj tok = true) (presignedUrls u') ->
  (forall p, 1 <= p <= Z.of_nat (length (presignedUrls u')) ->
     exists part, put_part p (net p) = Ok part) ->
  completeUpload reply = Ok result ->
  exists s,
    upload u size cb (smooth_events (length (presignedUrls u')) o net reply)
    = Some s /\
    pc s = Resolved result /\
    (forall p, put_count p (trace s)
               = if between 1 (Z.of_nat (length (presignedUrls u')) + 1) p
                 then 1%nat else 0%nat) /\
    exists parts, completes (trace s) = [parts] /\
      map PartNumber parts = part_numbers (length (presignedUrls u')).
Proof.
  intros Hmax Hget Hobj Hnet Hdone.
  set (n := length (presignedUrls u')) in *.
  pose proof (getPresignedUrls_ok_length (set_aborted false u) size o data)
    as Hframe.
  rewrite Hget in Hframe. specialize (Hframe eq_refl).
  cbn [fst snd] in Hframe.
  destruct Hframe as (_ & _ & Hmax' & _ & Hab' & _).
  change (maxRetries (set_aborted false u)) with (maxRetries u) in Hmax'.
  change (aborted (set_aborted false u)) with false in Hab'.
  assert (exists s2,
    upload u size cb
      (InitSettled o :: map (fun p => PutSettled p (net p)) (numbers_from 1 n))
    = Some s2 /\ totalParts s2 = n /\ pc s2 = AwaitComplete /\
    (forall p, put_count p (trace s2)
               = if between 1 (Z.of_nat n + 1) p then 1%nat else 0%nat) /\
    length (completes (trace s2)) = 1%nat) as (s2 & Hrun2 & Hn2 & Hpc2 & Hput2 & Hc2).
  { unfold upload. cbn [run]. unfold step.
    change (pc (upload_start u size cb)) with AwaitInit. cbv iota.
    change (this (upload_start u size cb)) with (set_aborted false u).
    change (fileSize (upload_start u size cb)) with size.
    rewrite Hget. cbv zeta iota. fold n.
    set (s0 := set_partsArray (replicate n None)
                 (report (PUploading n 0 None)
                    (set_totalParts n
                       (set_this u' (upload_start u size cb))))).
    assert (this s0 = u') as Hthis by (unfold s0, report; by destruct cb).
    assert (totalParts s0 = n) as Hn0 by (unfold s0, report; by destruct cb).
    assert (forall p, put_count p (trace s0) = 0%nat) as Hput0.
    { intros p. unfold s0, report, put_count. by destruct cb. }
    assert (completes (trace s0) = []) as Hc0.
    { unfold s0, report. by destruct cb. }
    assert (flights s0 = []) as Hfl0 by (unfold s0, report; by destruct cb).
    destruct n as [|f] eqn:En.
    - (* no token at all *)
      exists (finish_transfers s0).
      split; [done|]. split; [by rewrite <- Hn0|]. split; [done|]. split.
      + intros p. rewrite between_none by lia.
        by rewrite (proj1 (finish_transfers_calls s0 p)), Hput0.
      + by rewrite (proj2 (finish_transfers_calls s0 0)), Hc0.
    - assert (aborted (this s0) = false) as H1 by (by rewrite Hthis).
      assert (1 <= maxRetries (this s0)) as H2 by (by rewrite Hthis, Hmax').
      assert (Forall (fun tok => is_obj tok = true) (presignedUrls (this s0)))
        as H3 by (by rewrite Hthis).
      assert (length (presignedUrls (this s0)) = totalParts s0) as H4.
      { rewrite Hthis, Hn0. by fold n. }
      assert (forall p, put_count p (trace s0)
                = if between 1 (Z.of_nat (Nat.min 0 (totalParts s0)) + 1) p
                  then 1%nat else 0%nat) as H5.
      { intros p. rewrite Hput0, between_none; [done|]. simpl. lia. }
      destruct (upload_loop_smooth f 0 s0 Hfl0 H1 H2 H3 H4 H5 Hc0)
        as (s1 & Hloop & Ht1 & Hn1 & Hs1).
      rewrite Hn0 in Hs1. change (0 <? S f)%nat with true in Hs1.
      cbv iota in Hs1. rewrite Hloop. simpl.
      destruct (smooth_run net (S f) _ _ _ _ Hs1)
        as (s2 & Hrun & Ht2 & Hn2 & Hpc2 & Hput2 & Hc2).
      + rewrite Hn1, Hn0. lia.
      + intros p Hp. apply Hnet. rewrite Hn1, Hn0 in Hp. lia.
      + exists s2. rewrite Hn1, Hn0 in Hput2.
        split; [done|]. split; [congruence|]. done. }
  unfold upload, smooth_events in *.
  rewrite app_comm_cons, run_app, Hrun2. simpl. rewrite Hpc2, Hdone.
  eexists. split; [reflexivity|]. split; [done|].
  assert (forall tr, completes (tr ++ (if onProgress s2
                                       then [Report (PCompleted result)]
                                       else []))
                     = completes tr) as Hsame.
  { intros tr. rewrite completes_app. destruct (onProgress s2); simpl;
      by rewrite app_nil_r. }
  split.
  - intros p. unfold report. simpl. rewrite put_count_app, Hput2.
    destruct (onProgress s2); unfold put_count; simpl; lia.
  - pose proof (run_wf _ _ _ (wf_start u size cb) Hrun2) as Hwf.
    pose proof (run_frame _ _ _ Hrun2) as (HmaxR & _).
    pose proof (wf_complete _ Hwf) as Hcomp. rewrite Hn2 in Hcomp.
    unfold report. simpl. rewrite Hsame.
    destruct (completes (trace s2)) as [|parts [|more rest]] eqn:Hlist;
      try done.
    exists parts. split; [done|].
    assert (1 <= maxRetries (this s2) \/ n = 0%nat) as Hlive.
    { left. rewrite HmaxR. simpl. lia. }
    specialize (Hcomp Hlive). by inversion Hcomp.
Qed.

Lemma upload_happy_path_witness :
  exists u',
    (getPresignedUrls (set_aborted false (new_uploader 1 3 1000)) 7
       (resp_json (session "u" seven_tokens))).2 = u' /\
    length (presignedUrls u') = 7%nat /\
    exists s,
      upload (new_uploader 1 3 1000) 7 true
        (smooth_events (length (presignedUrls u'))
           (resp_json (session "u" seven_tokens)) (fun _ => resp_ok "e")
           (resp_json (VObj [("location", VStr "l")])))
      = Some s /\
      pc s = Resolved (VObj [("location", VStr "l")]) /\
      (forall p, put_count p (trace s)
                 = if between 1 (Z.of_nat (length (presignedUrls u')) + 1) p
                   then 1%nat else 0%nat) /\
      exists parts, completes (trace s) = [parts] /\
        map PartNumber parts = part_numbers (length (presignedUrls u')).
Proof.
  eexists. split; [vm_compute; reflexivity|]. split; [reflexivity|].
  eapply (upload_happy_path (new_uploader 1 3 1000) _ 7 true).
  - simpl. lia.
  - vm_compute. reflexivity.
  - vm_compute. repeat constructor.
  - intros p _. eexists. reflexivity.
  - vm_compute. reflexivity.
Defined.
